(* ===== verification/_CoqProject ===== *)
-Q . S2P
Prelude.v
Config.v
Spinlock.v
Dll.v
ListLib.v
Queue.v
Trees.v
Rbtree.v
RbMap.v
ByteMem.v
Word.v
Switch.v
Cache.v
Bitmap.v
StringLib.v
Printf.v
Gic.v
Dw.v
Frame.v
Vectors.v
Vgic.v
Uart.v
Console.v
Kernel.v
Sched.v
Keeps.v
Vcpu.v
Ept.v
Page.v
Reset.v
Trap.v
Quiet.v
Image.v
Boot.v
Start.v
User.v
App.v
Hyper.v
Guest.v
Types.v
