(* ===== verification/Prelude.v ===== *)
(** * A verification of the DMOS kernel and hypervisor

    The program is a small AArch64 system in C: a kernel that runs tasks on
    several cores, and a hypervisor that runs a guest on the same drivers.  This
    library models its C code function by function and proves what the functions
    are for.  Files and functions are named as under [src/].

    ** The parts and the files that model them

    - [Prelude] (this file): machine integers and bit fields, the monad
      [St S A] (state [S], outcome [Done], [Fault] or [NoFuel]), its weakest
      precondition [wp] with the tactics [wp_step] and [wp_mono], words of
      memory, console messages, and the lemmas the files share.
    - [Config]: the constants of [include/os_cfg.h].
    - [Spinlock]: [spinlock/spinlock.S] and [include/spinlock.h], instruction by
      instruction on any number of cores.
    - [Dll], [ListLib], [Queue]: linked nodes in memory; [lib/list.c] and
      [lib/queue.c].  The state is a finite map from addresses to nodes with the
      head structures; the abstract state is the sequence of the addresses.
    - [ByteMem], [Word], [Bitmap], [StringLib], [Printf]: byte memory, a finite
      map from addresses to bytes that faults outside its domain, and the
      little-endian words in it; [mem/bitmap.c], [mem/string.c], [io/printf.c].
    - [Trees], [Rbtree], [RbMap]: [lib/rbtree.c]; trees with addresses and paths,
      the code on nodes in memory, and its refinement to a sorted sequence.
    - [Gic]: [exception/gic/gic.c] over a class [Device] of register blocks and a
      class [GicArch] that says what the architecture promises of the
      distributor; the instance [gic_dev] keeps the promises.
    - [Dw]: [io/uart_dw_apb.c], the driver of a second serial port, over a class
      [DwPort] for its registers.
    - [Cache]: the cache maintenance by ranges of [include/mem/page.h], over a cache
      with lines beside the memory.
    - [Switch]: [schedule/context.S], over bytes of memory.
    - [Frame]: the trap frame and the syndrome of [include/exception.h].
    - [Vectors]: the vectors of [exception/exception.S], [exception_el2.S] and
      [exception_el3.S], instruction by instruction over bytes of memory: the
      functions they call are parameters.
    - [Vgic]: [hyper/vgic.c] and the handlers of [hyper/vm.c], clients of [Gic].
    - [Uart]: [io/uart_pl011_early.c], [io/uart_pl011.c] and [io/io.c], with the
      class [Pl011] for the port; [Console]: [uart_putstr] and the functions of
      [io/printf.c] that print, down to the characters the port is given.
    - [Kernel]: the state of [include/task.h] and [include/thread.h] (task
      table, saved contexts, the per-core [thread_info]) beside the devices;
      [Sched]: [schedule/task.c]; [Keeps]: what the scheduler's functions leave alone.
    - [Vcpu]: the register blocks of [include/hyper/vcpu.h], the assembly of
      [hyper/hyper_ctx.S] that fills and loads them, and [vm_in] and [vm_out].
    - [Ept]: [mem/ept.c] and the mapping functions of [main_hyper.c], over words
      of physical memory, with the hardware's table walk as the specification.
    - [Trap]: [exception/exception.c], [exception_el2.c], [exception_el3.c],
      [syscall/syscall.c], [timer/timer.c], and what installs the handlers.  It
      puts [Kernel] and [Ept] together into [machine].
    - [Page]: [mem/page.c] with the registers of [mem/mmu.S], over bytes of
      physical memory; the hardware's walk of the first stage is the
      specification.  [Reset]: [boot/boot.S], from reset at EL1, EL2 or EL3 to
      [kernel_main], [second_kernel_main] or [hyper_main], a client of [Page].
    - [Quiet]: what the steps of the start-up leave alone, a predicate on
      programs with its automation.
    - [Image]: the copies of programs at start-up, over [Trap.machine] and bytes.
    - [Boot], [Start]: [main.c] and [smp.c]: the cores as a step system with a
      program point each, cut where one core can see what another does
      ([Boot]); its invariant, the barrier and the progress of every core
      ([Start]).
    - [User]: the kernel between two instructions of a task: the vectors around the
      handlers of [Trap], for any sequence of exceptions on any cores, from the state
      [Start] leaves; the abstract machine of the tasks is its specification.
    - [App]: the programs of [app/] ([testapp/el0_task.S], [syscall.S] and
      [shell/main.c]) and the system they make with the kernel of [User].
    - [Hyper]: [main_hyper.c] with [include/sys/vtcr.h]: [hyper_main] from reset to
      the jump into the guest, a client of [Ept], [Trap], [Sched], [Vgic] and
      [Image].
    - [Guest]: the hypervisor between two instructions of a guest: the vectors of
      [exception/exception_el2.S] around the handlers of [Trap] and [vm_out] and
      [vm_in] of [Vcpu], for any sequence of exits, from the state [Hyper] leaves;
      the abstract machine of the guests is its specification.
    - [Types]: the types of the C objects of all these parts, and that every function
      keeps them: a predicate on programs with its rules and its automation.

    An operation is a definition in [St S] for the state its file keeps; a
    function that calls another part runs it on that part of its own state
    ([on_part]).  A field access is a load or a store that faults outside the
    memory; an [int] is a [Z] reduced where the C code could leave its range.

    ** What the theorems show

    The claims are numbered C1 to C40 at the theorems.
    - Data structures (C1 to C5, C38, C39): sequences of calls refine the abstract
      structure: lists, a queue, an array of bits, a sorted sequence of pairs;
      loops end; nothing else is written; the red-black tree stays balanced (a
      deletion moves a value to another key, in the case C39 names).
    - Strings and formatted output (C8 to C12, C37): the library's functions
      compute their specifications; [vsnprintf] prints the text that an inductive
      reading of the format denotes, within its bounds; [printf] gives that text
      to the port.
    - The kernel and its tasks (C13, C17, C31): from its start on the kernel does what
      an abstract machine does, a round robin of frames with three system calls; the
      tasks the cores start with never run their programs, since the loop that waits
      for the first interrupt takes their place; the shell, on one core, prints its
      text on the serial port.
    - Interrupt controllers (C15, C19, C21): enabling and disabling changes one
      interrupt; a guest reaches the hardware only by enabling; injection loses
      nothing while a register is free.
    - Virtual machines (C7, C20): the hypervisor from its start on does what an
      abstract machine does, a round robin of frames and register blocks with the
      emulation of trapped instructions; each guest gets its own frame and
      registers back.  Both are about the exits the hypervisor handles
      ([Guest.exit_ok]); of the others an exception of an unknown class hangs, and an
      access of register 31 to the CPU interface faults.
    - The guest's memory (C22, C24): the tables translate every address to
      itself, the emulated pages trap, a trapped access is emulated: on the virtual CPU
      interface for the registers 0 to 29, while register 30 is left out and register 31
      faults.
    - Types (C23): under any sequence of calls of the handlers and the start-up and
      of exits of the guests, whatever they find, every value keeps the range of its
      type, every array its length, and every pointer into an array stays inside.
    - Scheduling (C25 to C28): the timer-driven scheduler of all cores refines an
      abstract round robin; contexts are preserved; every task runs again.
    - Locks and the switch in assembly (C29, C34): under every interleaving of their
      instructions the functions are an abstract lock; a switch away and one back
      restore a core, and overwrite the table of tasks the scheduler has them use.
    - Exceptions (C30, C32, C33): interrupts and traps do what their handlers say; the
      vectors of all levels keep the interrupted program.
    - Start-up (C6, C16, C40): from reset each core gets to C code with a stack, the
      vectors and a mapping by which the hardware finds what the kernel means at every
      address; [hyper_main] enters the guest with its tables, images, interrupts and
      tasks in place; the cores of the kernel meet at the barrier and all come to run
      their tasks, in a state C13, C25 and C26 start from.
    - Cache (C18): a clean reaches memory; an invalidation loses the lines named there,
      and nothing outside its range when [cacheline_bytes] is the line of the hardware,
      which the value [setup_cache] reads is not.
    - Serial ports (C14, C35, C36): the second driver sets up an idle port, misses that
      one is busy, and moves characters; the ring shared with the interrupt handler is a
      FIFO under every interleaving; the handler moves what it should.

    ** Fuel

    A loop of the source is a [Fixpoint] on a fuel argument, the number of
    iterations it may take; [NoFuel] is running out.  [wp] excludes it, so every
    theorem proved with [wp] says that the code ends within the fuel its
    hypotheses name: the lengths of the lists, the strings or the tables the loop
    runs over.  (C23 alone is about the calls that return: its hypotheses name no
    lengths.)  A loop without end ([while (1)], waiting for a lock or for a full
    ring inside one core's step) is [NoFuel] for every fuel.

    ** What is idealised

    - Addresses are unbounded integers and objects do not wrap around the end of
      memory.  [char] is unsigned, as in the AArch64 ABI.  Signed overflow wraps.
    - Barriers, cache and TLB maintenance have no effect outside [Cache]; memory is
      sequentially consistent.  Interleaving is modelled where cores or an interrupt handler
      share data: the scheduler's runs, the serial ring and the start of the
      cores.  There a call that works on one core's data, or between whose parts
      nothing another core reads changes, is one step; interrupts are enabled by
      the last step.
    - Between two exceptions a task is anything in [User]; in [App] it is a program.  An
      exception, from the vector to [eret], is one step: [Vectors] shows for any
      handler that it gets the frame and that the program goes on with the one it
      leaves.  The messages the kernel prints are in a log, not on the port, so that what
      [App] finds on the port is what system calls put there.
      The compiled form of [shell/main.c] is a parameter, of the instructions [App.insn],
      whose laws name the calls it makes, with the form [-O0] gives as the instance; what
      a program stores it does not load again.
    - Between two exits a guest is anything: every exit names the registers, the
      syndrome and the devices it finds.  A guest's frame is on one stack, at one
      address, and the hypervisor runs on one core; the vectors store the frame
      before the handler and load it afterwards as one step each.  The floating-point
      registers, which the vectors leave alone, are not in the model.
    - The images copied at start-up and the first-stage tables are in byte
      memory, the second-stage tables in a memory of words of their own.
    - Outside [Spinlock], whose C29 is the reason, a lock is a flag: taking it when it
      is held is waiting for ever, since one core's step does not release another's.
    - [schedule] reaches [switch_context] by a null frame; nothing calls [schedule], and
      the scheduler's model has the routine as a parameter, of which the handlers'
      theorems suppose nothing since the frame of an interrupt is not null.
      [Switch] shows what it would do to the table.
    - The device registers are a parameter (the classes [Device], [GicArch],
      [Pl011], [Transmitter]); each class has an instance, which the witnesses run
      on.  The [AT] instruction, the firmware's answer to a call, the symbols of the
      linker and the undefined shift [PXN] are parameters.
    - In the kernel's own functions a call of [printf] is an entry of a log of
      messages; [Console] shows what becomes of one.

    ** What is not modelled

    - Of [mem/mmu.S] the values of the registers are modelled, not [disable_mmu], which
      nothing uses; of [boot/boot.S] and [exception_el3.S] the routines [stack_test] and
      [trigger_exception], which nothing calls, are left out.
    - [process/pro.c] (does not compile against its header, and nothing calls it),
      [app/app.S], which includes binary images, [guest/guest.S], a guest for tests,
      and the build files.
    - [test_mem] and [test_types] of [main.c], which nothing calls and which never
      return; the delay loop of [smp.c]. *)

From stdpp Require Export base gmap list strings sorting.
From Stdlib Require Export ZArith Lia.
From Stdlib Require Export Btauto.

#[global] Set Default Proof Using "Type".
Open Scope Z_scope.

(** * Machine integers

    A C integer is a [Z]; an operation that can leave the range of its type
    applies the reduction of that type explicitly. *)

Definition u8 (x : Z) : Z := x mod 2 ^ 8.
Definition u32 (x : Z) : Z := x mod 2 ^ 32.
Definition u64 (x : Z) : Z := x mod 2 ^ 64.
(** Two's complement reduction to [int] and [long]. *)
Definition s32 (x : Z) : Z := (x + 2 ^ 31) mod 2 ^ 32 - 2 ^ 31.
Definition s64 (x : Z) : Z := (x + 2 ^ 63) mod 2 ^ 64 - 2 ^ 63.

Lemma u32_small x : 0 ≤ x < 2 ^ 32 → u32 x = x.
Proof. apply Z.mod_small. Qed.
Lemma u64_small x : 0 ≤ x < 2 ^ 64 → u64 x = x.
Proof. apply Z.mod_small. Qed.
Lemma s32_small x : - 2 ^ 31 ≤ x < 2 ^ 31 → s32 x = x.
Proof. intros Hx. unfold s32. rewrite Z.mod_small; lia. Qed.
Lemma s64_small x : - 2 ^ 63 ≤ x < 2 ^ 63 → s64 x = x.
Proof. intros Hx. unfold s64. rewrite Z.mod_small; lia. Qed.

Declare Scope c_scope.
Delimit Scope c_scope with c.
Infix ".&" := Z.land (at level 40, left associativity) : c_scope.
Infix ".|" := Z.lor (at level 50, left associativity) : c_scope.
Infix "<<" := Z.shiftl (at level 45, left associativity) : c_scope.
Infix ">>" := Z.shiftr (at level 45, left associativity) : c_scope.
Open Scope c_scope.

(** C truth values: [if (x)], and the [int] a comparison yields. *)
Definition truthy (x : Z) : bool := negb (x =? 0).
Definition of_bool (b : bool) : Z := if b then 1 else 0.

(** The null pointer. *)
Definition NULL : Z := 0.

Lemma truthy_true x : x ≠ 0 → truthy x = true.
Proof. intros H. unfold truthy. by rewrite (proj2 (Z.eqb_neq _ _) H). Qed.
Lemma truthy_of_bool b : truthy (of_bool b) = b.
Proof. by destruct b. Qed.

(** Decide the test of the next [if] of a goal from the context. *)
Ltac c_branch :=
  match goal with
  | |- context [if Z.eqb ?a ?b then _ else _] =>
      first [ rewrite (proj2 (Z.eqb_eq a b)) by (done || lia || congruence)
            | rewrite (proj2 (Z.eqb_neq a b)) by (done || lia || congruence) ]
  | |- context [if negb (Z.eqb ?a ?b) then _ else _] =>
      first [ rewrite (proj2 (Z.eqb_eq a b)) by (done || lia || congruence)
            | rewrite (proj2 (Z.eqb_neq a b)) by (done || lia || congruence) ]
  | |- context [if truthy ?a then _ else _] =>
      first [ change (truthy a) with false
            | rewrite (truthy_true a) by (done || lia || congruence) ]
  end; cbn beta iota delta [negb].

(** * The effect of running C code

    [Done] is a normal return, [Fault] an access the program has no right to
    make (a null or unmapped address, an index outside an array), [NoFuel] a
    loop that has not finished within the fuel it was given. *)

Inductive outcome (A : Type) : Type :=
  | Done (a : A)
  | Fault
  | NoFuel.
Arguments Done {A} a.
Arguments Fault {A}.
Arguments NoFuel {A}.

(** A C function over the state [S] that returns an [A]. *)
Definition St (S A : Type) : Type := S → outcome (A * S).

#[export] Instance St_ret S : MRet (St S) := λ A a s, Done (a, s).
#[export] Instance St_bind S : MBind (St S) := λ A B f m s,
  match m s with
  | Done (a, s') => f a s'
  | Fault => Fault
  | NoFuel => NoFuel
  end.

Definition get {S} : St S S := λ s, Done (s, s).
Definition gets {S A} (f : S → A) : St S A := λ s, Done (f s, s).
Definition put {S} (s' : S) : St S unit := λ s, Done (tt, s').
Definition modify {S} (f : S → S) : St S unit := λ s, Done (tt, f s).
Definition fault {S A} : St S A := λ s, Fault.
Definition nofuel {S A} : St S A := λ s, NoFuel.
(** The value of an option that the C code uses without a test. *)
Definition deref {S A} (o : option A) : St S A :=
  match o with Some a => mret a | None => fault end.

(** Running an operation on a part of a larger state. *)
Definition on_part {S T A} (view : T → S) (set : S → T → T) (m : St S A) : St T A :=
  λ t, match m (view t) with
       | Done (a, s') => Done (a, set s' t)
       | Fault => Fault
       | NoFuel => NoFuel
       end.

(** * The console

    The text the code prints is kept as the calls that print it, oldest first:
    [print_info] and [print_warn] ([io/io.c]) with their string, [printf]
    ([io/printf.c]) with its format and its arguments, numbers or strings.
    [ln t] is the C string of the text [t] followed by the newline escape. *)

Inductive printf_arg :=
  | Num (n : Z)
  | Txt (s : string).
Coercion Num : Z >-> printf_arg.
Inductive log_entry :=
  | Info (text : string)
  | Warn (text : string)
  | Printf (fmt : string) (args : list printf_arg).
Definition ln (t : string) : string := String.append t (String (Ascii.ascii_of_nat 10) EmptyString).

(** * Total correctness

    [wp m Q s]: from the state [s], [m] returns, and its result and final
    state satisfy [Q].  Neither a fault nor a loop without end satisfies it. *)

Definition wp {S A} (m : St S A) (Q : A → S → Prop) (s : S) : Prop :=
  match m s with
  | Done (a, s') => Q a s'
  | _ => False
  end.

(** [wpf m Q s]: [m] stops, and satisfies [Q] when it returns; a fault is
    allowed, a loop without end is not. *)
Definition wpf {S A} (m : St S A) (Q : A → S → Prop) (s : S) : Prop :=
  match m s with
  | Done (a, s') => Q a s'
  | Fault => True
  | NoFuel => False
  end.

Section wp_rules.
Context {S : Type}.

Lemma wp_done {A} (m : St S A) a s' (Q : A → S → Prop) s :
  m s = Done (a, s') → Q a s' → wp m Q s.
Proof. unfold wp. intros -> H. exact H. Qed.

Lemma wp_inv {A} (m : St S A) (Q : A → S → Prop) s :
  wp m Q s → ∃ a s', m s = Done (a, s') ∧ Q a s'.
Proof. unfold wp. destruct (m s) as [[a s']| |]; naive_solver. Qed.

Lemma wp_mono {A} (m : St S A) (Q Q' : A → S → Prop) s :
  wp m Q s → (∀ a s', Q a s' → Q' a s') → wp m Q' s.
Proof. unfold wp. destruct (m s) as [[a s']| |]; naive_solver. Qed.

Lemma wp_ret {A} (a : A) (Q : A → S → Prop) s :
  wp (mret a) Q s ↔ Q a s.
Proof. done. Qed.

Lemma wp_bind {A B} (m : St S A) (f : A → St S B) (Q : B → S → Prop) s :
  wp (m ≫= f) Q s ↔ wp m (λ a s', wp (f a) Q s') s.
Proof. unfold wp, mbind, St_bind. destruct (m s) as [[a s']| |]; done. Qed.

Lemma wp_get (Q : S → S → Prop) s : wp get Q s ↔ Q s s.
Proof. done. Qed.

Lemma wp_gets {A} (f : S → A) (Q : A → S → Prop) s : wp (gets f) Q s ↔ Q (f s) s.
Proof. done. Qed.

Lemma wp_put (s' : S) (Q : unit → S → Prop) s : wp (put s') Q s ↔ Q tt s'.
Proof. done. Qed.

Lemma wp_modify (f : S → S) (Q : unit → S → Prop) s : wp (modify f) Q s ↔ Q tt (f s).
Proof. done. Qed.

Lemma wp_deref {A} (o : option A) (Q : A → S → Prop) s :
  wp (deref o) Q s ↔ ∃ a, o = Some a ∧ Q a s.
Proof. destruct o; unfold wp, deref; naive_solver. Qed.

Lemma wp_on_part {T A} (view : T → S) (set : S → T → T) (m : St S A) Q t :
  wp (on_part view set m) Q t ↔ wp m (λ a s', Q a (set s' t)) (view t).
Proof. unfold wp, on_part. destruct (m (view t)) as [[a s']| |]; done. Qed.

Lemma wpf_ret {A} (a : A) (Q : A → S → Prop) s :
  wpf (mret a) Q s ↔ Q a s.
Proof. done. Qed.

Lemma wpf_bind {A B} (m : St S A) (f : A → St S B) (Q : B → S → Prop) s :
  wpf (m ≫= f) Q s ↔ wpf m (λ a s', wpf (f a) Q s') s.
Proof. unfold wpf, mbind, St_bind. destruct (m s) as [[a s']| |]; done. Qed.

Lemma wpf_gets {A} (f : S → A) (Q : A → S → Prop) s : wpf (gets f) Q s ↔ Q (f s) s.
Proof. done. Qed.

Lemma wpf_modify (f : S → S) (Q : unit → S → Prop) s : wpf (modify f) Q s ↔ Q tt (f s).
Proof. done. Qed.

Lemma wpf_on_part {T A} (view : T → S) (set : S → T → T) (m : St S A) Q t :
  wpf (on_part view set m) Q t ↔ wpf m (λ a s', Q a (set s' t)) (view t).
Proof. unfold wpf, on_part. destruct (m (view t)) as [[a s']| |]; done. Qed.

Lemma wp_wpf {A} (m : St S A) (Q : A → S → Prop) s : wp m Q s → wpf m Q s.
Proof. unfold wp, wpf. by destruct (m s) as [[a s']| |]. Qed.

#[export] Instance wp_proper {A} (m : St S A) :
  Proper (pointwise_relation A (pointwise_relation S iff) ==> eq ==> iff) (wp m).
Proof.
  intros Q Q' HQ s ? <-. unfold wp. destruct (m s) as [[a s']| |]; [apply HQ | done..].
Qed.
End wp_rules.

(** [wp_step] pushes a [wp] goal through the structure of the code. *)
Create Rewrite HintDb wp.
#[export] Hint Rewrite @wp_bind @wp_ret @wp_get @wp_gets @wp_put @wp_modify
  @wp_on_part @wpf_ret @wpf_bind @wpf_gets @wpf_modify @wpf_on_part : wp.
Ltac wp_step := autorewrite with wp; cbn beta iota.

(** * Bits *)

Create Rewrite HintDb zbits.
#[export] Hint Rewrite Z.land_spec Z.lor_spec Z.lxor_spec Z.ldiff_spec Z.bits_0 : zbits.
#[export] Hint Rewrite Z.shiftr_spec Z.shiftl_spec Z.lnot_spec using lia : zbits.
#[export] Hint Rewrite Z.mod_pow2_bits_low Z.mod_pow2_bits_high using lia : zbits.

(** Equality of two words bit by bit. *)
Ltac zbitwise := apply Z.bits_inj'; let i := fresh "i" in let Hi := fresh "Hi" in
  intros i Hi; autorewrite with zbits.

Lemma testbit_small a n i : 0 ≤ a < 2 ^ n → 0 ≤ n ≤ i → Z.testbit a i = false.
Proof.
  intros Ha Hn. rewrite <- (Z.mod_small a (2 ^ n)) by done.
  apply Z.mod_pow2_bits_high. lia.
Qed.

Lemma land_ones_small a n : 0 ≤ n → 0 ≤ a < 2 ^ n → Z.land a (Z.ones n) = a.
Proof. intros Hn Ha. rewrite Z.land_ones by done. by apply Z.mod_small. Qed.

Lemma lor_add a b : a .& b = 0 → a .| b = a + b.
Proof. intros H. by rewrite <- Z.lxor_lor, Z.add_nocarry_lxor. Qed.

(** Two numbers whose bits lie on the two sides of a position. *)
Lemma lor_high_low a b k : 0 ≤ k → 0 ≤ b < 2 ^ k → (a * 2 ^ k) .| b = a * 2 ^ k + b.
Proof.
  intros Hk Hb. apply lor_add. zbitwise. rewrite <- Z.shiftl_mul_pow2, Z.shiftl_spec by lia.
  destruct (Z.ltb_spec i k).
  - rewrite (Z.testbit_neg_r a) by lia. done.
  - rewrite (testbit_small b k) by lia. apply andb_false_r.
Qed.

Lemma testbit_1_shiftl k i : 0 ≤ k → 0 ≤ i → Z.testbit (1 << k) i = (i =? k).
Proof.
  intros Hk Hi. rewrite Z.shiftl_spec by done.
  destruct (Z.eqb_spec i k) as [->|Hne]; [by rewrite Z.sub_diag|].
  destruct (Z.ltb_spec i k); [apply Z.testbit_neg_r; lia|].
  apply (testbit_small _ 1); [cbn; lia|lia].
Qed.

Lemma land_bit_test a k : 0 ≤ k → truthy (a .& (1 << k)) = Z.testbit a k.
Proof.
  intros Hk. unfold truthy.
  assert (a .& (1 << k) = if Z.testbit a k then 1 << k else 0) as ->.
  { zbitwise. rewrite <- (Z.shiftl_spec 1) by done. rewrite testbit_1_shiftl by done.
    destruct (Z.eqb_spec i k) as [->|Hne].
    - destruct (Z.testbit a k); [rewrite testbit_1_shiftl by done; by rewrite Z.eqb_refl|].
      by rewrite Z.bits_0.
    - rewrite andb_false_r. destruct (Z.testbit a k); [|by rewrite Z.bits_0].
      rewrite testbit_1_shiftl by done. symmetry. by apply Z.eqb_neq. }
  destruct (Z.testbit a k); [|done].
  rewrite Z.shiftl_1_l. by rewrite (proj2 (Z.eqb_neq _ _)) by (apply Z.pow_nonzero; lia).
Qed.

(** * Lists *)

Section lists.
Context {A : Type}.

(** The last element of [xs], or [d] when [xs] is empty. *)
Fixpoint last_or (d : A) (xs : list A) : A :=
  match xs with [] => d | x :: xs' => last_or x xs' end.
(** The first element of [xs], or [d] when [xs] is empty. *)
Definition head_or (d : A) (xs : list A) : A :=
  match xs with [] => d | x :: _ => x end.

Lemma last_or_app d xs ys : last_or d (xs ++ ys) = last_or (last_or d xs) ys.
Proof. revert d. induction xs; naive_solver. Qed.
Lemma head_or_app d xs ys : head_or d (xs ++ ys) = head_or (head_or d ys) xs.
Proof. by destruct xs. Qed.
Lemma last_or_snoc d xs x : last_or d (xs ++ [x]) = x.
Proof. by rewrite last_or_app. Qed.
Lemma last_or_elem d xs : xs ≠ [] → last_or d xs ∈ xs.
Proof.
  revert d. induction xs as [|x xs IH]; intros d H; [done|]. simpl.
  destruct xs as [|y xs]; [simpl; set_solver|].
  specialize (IH x). set_solver.
Qed.
Lemma head_or_elem d xs : xs ≠ [] → head_or d xs ∈ xs.
Proof. destruct xs; [done|]. simpl. set_solver. Qed.
Lemma last_or_in d xs : last_or d xs = d ∨ last_or d xs ∈ xs.
Proof. destruct xs as [|x xs]; [by left|right; by apply last_or_elem]. Qed.
Lemma head_or_in d xs : head_or d xs = d ∨ head_or d xs ∈ xs.
Proof. destruct xs; simpl; set_solver. Qed.
End lists.
Create Rewrite HintDb lists.
#[export] Hint Rewrite @last_or_app @head_or_app @last_or_snoc : lists.

Lemma dom_insert_same {N} (h : gmap Z N) a v : is_Some (h !! a) → dom (<[a := v]> h) = dom h.
Proof. intros Ha. rewrite dom_insert_L. apply elem_of_dom in Ha. set_solver. Qed.

(** Duplicate-freedom of a list built from the lists of the context. *)
Ltac nodup :=
  rewrite ?NoDup_app, ?NoDup_cons, ?NoDup_app, ?NoDup_cons in *; destruct_and?;
  split_and?; try apply NoDup_nil_2; try done; set_solver.

Lemma list_alter_as_insert {A} (f : A → A) i x (l : list A) : l !! i = Some x → alter f i l = <[i := f x]> l.
Proof. revert i. induction l as [|y l IH]; intros [|i] Hx; simplify_eq/=; [done|]. f_equal. by apply IH. Qed.

Lemma filter_ne_not_elem (x : Z) (xs : list Z) : x ∉ xs → filter (λ y, y ≠ x) xs = xs.
Proof.
  induction xs as [|y xs IH]; [done|]. intros Hx. rewrite filter_cons_True by set_solver.
  rewrite IH by set_solver. done.
Qed.
