(* ===== verification/Config.v ===== *)
(** The constants of [include/os_cfg.h]. *)

From S2P Require Import Prelude.

Definition UART0_BASE : Z := 0x09000000.
Definition GICD_BASE_ADDR : Z := 0x8000000.
Definition GICC_BASE_ADDR : Z := 0x8010000.
Definition GICH_BASE_ADDR : Z := 0x8030000.
Definition GICV_BASE_ADDR : Z := 0x8040000.
Definition KERNEL_RAM_START : Z := 0.
Definition KERNEL_RAM_END : Z := 0x40000000 * 4.
Definition PAGE_SIZE : Z := 4096.
Definition OS_CFG_BITMAP_SIZE : Z := (KERNEL_RAM_END - KERNEL_RAM_START) / PAGE_SIZE.
Definition STACK_SIZE : Z := 1 << 14.
Definition GUEST_RAM_START : Z := 0x40000000.
Definition GUEST_RAM_END : Z := GUEST_RAM_START + 0x40000000.
Definition GUEST_KERNEL_START : Z := 0x70200000.
Definition MMIO_AREA_GICD : Z := 0x8000000.
Definition MMIO_AREA_GICC : Z := 0x8010000.
Definition MAX_TASKS : Z := 64.
Definition SYS_TASK_TICK : Z := 20.
Definition MMIO_ARREA : Z := 0x50000000.
