(* ===== verification/Spinlock.v ===== *)
(** The locks: [include/spinlock.h] and the assembly of [spinlock/spinlock.S], run
    by any number of cores that interleave at every instruction. *)

From S2P Require Import Prelude.

(** * Definitions *)

(** The functions of the file, and the instructions they use.  The lock is the one
    word at [x0]; [w1] and [w2] are the registers that go with it. *)
Inductive routine := Spin_lock | Spin_trylock | Spin_unlock.
Inductive instr :=
  | Mov_w0 (v : Z) | Mov_w1 (v : Z)
  | Ldaxr | Cbnz (target : nat) | Stlxr | Stlr | Dmb | Ret.

Definition code (f : routine) : list instr :=
  match f with
  | Spin_lock => [Mov_w1 1; Ldaxr; Cbnz 1; Stlxr; Cbnz 1; Dmb; Ret]
  | Spin_trylock => [Mov_w1 1; Ldaxr; Cbnz 8; Stlxr; Cbnz 8; Dmb; Mov_w0 0; Ret; Mov_w0 1; Ret]
  | Spin_unlock => [Dmb; Mov_w1 0; Stlr; Ret]
  end.

(** A core: the function it is in, its place there, the registers, the monitor that a
    load-exclusive sets, and whether it is between taking the lock and giving it
    back. *)
Record locker := {
  fn : option routine;
  at_instr : nat;
  w0 : Z; w1 : Z; w2 : Z;
  monitor : bool;
  holds : bool;
}.
Definition set_monitor (b : bool) (c : locker) : locker :=
  {| fn := fn c; at_instr := at_instr c; w0 := w0 c; w1 := w1 c; w2 := w2 c; monitor := b; holds := holds c |}.
Definition goto_instr (n : nat) (c : locker) : locker :=
  {| fn := fn c; at_instr := n; w0 := w0 c; w1 := w1 c; w2 := w2 c; monitor := monitor c; holds := holds c |}.
Definition next_instr (c : locker) : locker := goto_instr (S (at_instr c)) c.
Definition set_w (x y z : Z) (c : locker) : locker :=
  {| fn := fn c; at_instr := at_instr c; w0 := x; w1 := y; w2 := z; monitor := monitor c; holds := holds c |}.
Definition enter (f : routine) (c : locker) : locker :=
  {| fn := Some f; at_instr := 0; w0 := w0 c; w1 := w1 c; w2 := w2 c; monitor := monitor c; holds := false |}.
(** The caller of [spin_trylock] looks at the result. *)
Definition leave (f : routine) (c : locker) : locker :=
  {| fn := None; at_instr := 0; w0 := w0 c; w1 := w1 c; w2 := w2 c; monitor := monitor c;
     holds := match f with Spin_lock => true | Spin_trylock => w0 c =? 0 | Spin_unlock => false end |}.

(** One instruction: the core after it and the value it stores to the lock [v], if it
    does.  A store-exclusive succeeds when the monitor is still set and is not lost
    ([lost]) for another reason. *)
Definition exec (f : routine) (ins : instr) (lost : bool) (v : Z) (c : locker) : locker * option Z :=
  match ins with
  | Mov_w0 x => (next_instr (set_w x (w1 c) (w2 c) c), None)
  | Mov_w1 x => (next_instr (set_w (w0 c) x (w2 c) c), None)
  | Ldaxr => (next_instr (set_monitor true (set_w (w0 c) (w1 c) v c)), None)
  | Cbnz n => (if w2 c =? 0 then next_instr c else goto_instr n c, None)
  | Stlxr =>
      if monitor c && negb lost then
        (next_instr (set_monitor false (set_w (w0 c) (w1 c) 0 c)), Some (w1 c))
      else (next_instr (set_monitor false (set_w (w0 c) (w1 c) 1 c)), None)
  | Stlr => (next_instr (set_monitor false c), Some (w1 c))
  | Dmb => (next_instr c, None)
  | Ret => (leave f c, None)
  end.

Record locked_system := { lock : Z; lockers : list locker }.
(** [spinlock_init]. *)
Definition spinlock_init (s : locked_system) : locked_system := {| lock := 0; lockers := lockers s |}.

(** A core calls a function (it takes the lock when it does not hold it, and gives it
    back when it does) or executes an instruction of the one it is in.  A store to
    the lock clears every monitor. *)
Inductive event :=
  | Call (i : nat) (f : routine)
  | Exec (i : nat) (lost : bool).
Definition may_call (f : routine) (c : locker) : bool :=
  match fn c with
  | None => match f with Spin_unlock => holds c | _ => negb (holds c) end
  | Some _ => false
  end.
Definition step (e : event) (s : locked_system) : option locked_system :=
  match e with
  | Call i f =>
      c ← lockers s !! i;
      if may_call f c then Some {| lock := lock s; lockers := <[i := enter f c]> (lockers s) |} else None
  | Exec i lost =>
      c ← lockers s !! i; f ← fn c; ins ← code f !! at_instr c;
      Some (match exec f ins lost (lock s) c with
            | (c', None) => {| lock := lock s; lockers := <[i := c']> (lockers s) |}
            | (c', Some v) => {| lock := v; lockers := <[i := c']> (set_monitor false <$> lockers s) |}
            end)
  end.
Fixpoint run (es : list event) (s : locked_system) : option locked_system :=
  match es with [] => Some s | e :: es => s' ← step e s; run es s' end.

(** ** The specification *)

(** The abstract lock is the core that owns it. *)
Inductive lock_step : option nat → option nat → Prop :=
  | lock_stays o : lock_step o o
  | lock_acquire i : lock_step None (Some i)
  | lock_release i : lock_step (Some i) None.

(** A core owns the lock from the successful store-exclusive to the store of
    [spin_unlock]. *)
Definition owns (c : locker) : bool :=
  match fn c, at_instr c with
  | None, _ => holds c
  | Some Spin_unlock, n => (n <=? 2)%nat
  | Some _, 4%nat => w2 c =? 0
  | Some Spin_lock, n => (5 <=? n)%nat
  | Some Spin_trylock, n => (5 <=? n)%nat && (n <=? 7)%nat
  end.
Definition owner (s : locked_system) : option nat := fst <$> list_find (λ c, owns c = true) (lockers s).
Definition holding (s : locked_system) (i : nat) : Prop := holds <$> lockers s !! i = Some true.
Definition in_routine (s : locked_system) (i : nat) (f : routine) : Prop := fn <$> lockers s !! i = Some (Some f).
Definition idle (c : locker) : Prop := fn c = None ∧ holds c = false.

(** * One core *)

(** What holds of a core that is in a function, when the lock is [v]. *)
Definition locker_ok (v : Z) (c : locker) : Prop :=
  match fn c with
  | None => True
  | Some f =>
      holds c = false ∧ (at_instr c < length (code f))%nat ∧
      match f with
      | Spin_unlock => at_instr c = 2%nat → w1 c = 0
      | _ => ((1 ≤ at_instr c)%nat → w1 c = 1) ∧
             (monitor c = true → (at_instr c = 2%nat → w2 c = v) ∧ (at_instr c = 3%nat → v = 0)) ∧
             match f with
             | Spin_trylock => (at_instr c = 7%nat → w0 c = 0) ∧ (at_instr c = 9%nat → w0 c = 1)
             | _ => True
             end
      end
  end.

Lemma locker_ok_cleared v v' c : locker_ok v c → locker_ok v' (set_monitor false c).
Proof. unfold locker_ok. destruct c as [[[]|] n x y z m h]; cbn; naive_solver. Qed.
Lemma owns_cleared c : owns (set_monitor false c) = owns c.
Proof. done. Qed.
Lemma enter_ok v f c : locker_ok v (enter f c).
Proof. unfold locker_ok. destruct f; cbn; split_and!; try done; lia. Qed.
Lemma enter_owns f c : may_call f c = true → owns (enter f c) = owns c.
Proof. unfold may_call, owns. destruct c as [[] n x y z m []], f; by cbn. Qed.

(** Every instruction keeps the invariant; only the stores change the owner. *)
Lemma exec_ok f ins lost v c :
  fn c = Some f → code f !! at_instr c = Some ins → locker_ok v c →
  match exec f ins lost v c with
  | (c', None) => locker_ok v c' ∧ owns c' = owns c
  | (c', Some v') => locker_ok v' c' ∧
      (v' = 1 ∧ v = 0 ∧ owns c = false ∧ owns c' = true ∨ v' = 0 ∧ owns c = true ∧ owns c' = false)
  end.
Proof.
  destruct c as [fc n x y z m h]. cbn [fn at_instr]. intros ->.
  destruct f; cbn [code]; destruct n as [|[|[|[|[|[|[|[|[|[|]]]]]]]]]]; intros [= <-];
    unfold locker_ok, owns; cbn; intros Hok; destruct (Z.eqb_spec z 0) as [->|]; cbn; try done; destruct m, lost;
    cbn in *; destruct_and?; subst; split_and?; naive_solver lia.
Qed.

(** * The system *)

Definition lock_word (o : option nat) : Z := match o with Some _ => 1 | None => 0 end.
(** The core [o] owns the lock, and the word says whether there is one. *)
Record lock_inv (o : option nat) (s : locked_system) : Prop := {
  li_word : lock s = lock_word o;
  li_ok : ∀ i c, lockers s !! i = Some c → locker_ok (lock s) c;
  li_owns : ∀ i c, lockers s !! i = Some c → owns c = bool_decide (o = Some i);
  li_range : ∀ i, o = Some i → is_Some (lockers s !! i);
}.

Lemma lock_inv_owner o s : lock_inv o s → owner s = o.
Proof.
  intros Hs. unfold owner. destruct (list_find _ _) as [[i c]|] eqn:Hf; cbn.
  - apply list_find_Some in Hf as (Hc & Ho & _). rewrite (li_owns _ _ Hs _ _ Hc) in Ho.
    by apply bool_decide_eq_true in Ho.
  - apply list_find_None in Hf. destruct o as [i|]; [|done]. destruct (li_range _ _ Hs i eq_refl) as [c Hc].
    rewrite Forall_lookup in Hf. destruct (Hf _ _ Hc). rewrite (li_owns _ _ Hs _ _ Hc). by apply bool_decide_eq_true.
Qed.
Lemma lock_inv_init s : Forall idle (lockers s) → lock_inv None (spinlock_init s).
Proof.
  intros Hs. rewrite Forall_lookup in Hs. constructor; cbn [spinlock_init lock lockers]; try done.
  - intros i c Hc. unfold locker_ok. by destruct (Hs _ _ Hc) as [-> _].
  - intros i c Hc. unfold owns. destruct (Hs _ _ Hc) as [-> ->]. done.
Qed.

(** A core that stores nothing keeps the owner. *)
Lemma lock_inv_local o s i c c' :
  lock_inv o s → lockers s !! i = Some c → locker_ok (lock s) c' → owns c' = owns c →
  lock_inv o {| lock := lock s; lockers := <[i := c']> (lockers s) |}.
Proof.
  intros [Hw Hok Hown Hr] Hc Hc' Ho. constructor; cbn [lock lockers]; [done|..].
  - intros j d [(<-&<-&?)|[? Hd]]%list_lookup_insert_Some; [done|by apply (Hok j)].
  - intros j d [(<-&<-&?)|[? Hd]]%list_lookup_insert_Some; [by rewrite Ho; apply Hown|by apply Hown].
  - intros j Hj. apply lookup_lt_is_Some. rewrite length_insert. by apply lookup_lt_is_Some, Hr.
Qed.
(** A store hands the lock from [o] to [o']. *)
Lemma lock_inv_store o o' s i c c' :
  lock_inv o s → lockers s !! i = Some c → locker_ok (lock_word o') c' →
  owns c' = bool_decide (o' = Some i) → (∀ j, j ≠ i → o = Some j ↔ o' = Some j) →
  lock_inv o' {| lock := lock_word o'; lockers := <[i := c']> (set_monitor false <$> lockers s) |}.
Proof.
  intros [Hw Hok Hown Hr] Hc Hc' Ho Hj. constructor; cbn [lock lockers]; [done|..].
  - intros j d [(<-&<-&?)|[? Hd]]%list_lookup_insert_Some; [done|].
    rewrite list_lookup_fmap in Hd. apply fmap_Some in Hd as (e & He & ->). eapply locker_ok_cleared, Hok, He.
  - intros j d [(<-&<-&?)|[? Hd]]%list_lookup_insert_Some; [done|].
    rewrite list_lookup_fmap in Hd. apply fmap_Some in Hd as (e & He & ->).
    rewrite owns_cleared, (Hown _ _ He). apply bool_decide_ext, Hj. congruence.
  - intros j Hj'. apply lookup_lt_is_Some. rewrite length_insert, length_fmap. apply lookup_lt_is_Some.
    destruct (decide (j = i)) as [->|Hne]; [by eexists|]. apply Hr, Hj; done.
Qed.

Lemma step_ok o e s s' : lock_inv o s → step e s = Some s' → ∃ o', lock_inv o' s' ∧ lock_step o o'.
Proof.
  intros Hs. destruct e as [i f|i lost]; cbn [step]; intros Hstep.
  - destruct (lockers s !! i) as [c|] eqn:Hc; [|done]. cbn in Hstep. destruct (may_call f c) eqn:Hm; [|done].
    injection Hstep as <-. exists o. split; [|constructor].
    eapply lock_inv_local; [done..|apply enter_ok|by apply enter_owns].
  - destruct (lockers s !! i) as [c|] eqn:Hc; [|done]. cbn in Hstep. destruct (fn c) as [f|] eqn:Hf; [|done].
    cbn in Hstep. destruct (code f !! at_instr c) as [ins|] eqn:Hi; [|done]. cbn in Hstep. injection Hstep as <-.
    pose proof (exec_ok f ins lost (lock s) c Hf Hi (li_ok _ _ Hs _ _ Hc)) as He.
    destruct (exec f ins lost (lock s) c) as [c' [v|]].
    + pose proof (li_owns _ _ Hs _ _ Hc) as Ho. pose proof (li_word _ _ Hs) as Hw.
      destruct He as (Hok & [(-> & Hv & Hn & Hy)|(-> & Hy & Hn)]).
      * exists (Some i). destruct o; [cbn in Hw; lia|]. split; [|constructor].
        eapply (lock_inv_store None (Some i)); [done..| |].
        -- rewrite Hy. symmetry. by apply bool_decide_eq_true_2.
        -- intros j Hj. split; [done|intros [= ->]; done].
      * rewrite Hy in Ho. symmetry in Ho. apply bool_decide_eq_true in Ho as ->. exists None. split; [|constructor].
        eapply (lock_inv_store (Some i) None); [done..| |].
        -- done.
        -- intros j Hj. split; [intros [= ->]; done|done].
    + exists o. destruct He as [Hok Ho]. split; [|constructor]. by eapply lock_inv_local.
Qed.
Lemma lock_run_ok es o s s' : lock_inv o s → run es s = Some s' → ∃ o', lock_inv o' s'.
Proof.
  revert o s. induction es as [|e es IH]; intros o s Hs; cbn [run]; [intros [= <-]; by exists o|].
  destruct (step e s) as [s1|] eqn:He; [|done]. cbn. destruct (step_ok _ _ _ _ Hs He) as (o' & Hs' & _). by apply (IH o').
Qed.

(** * Progress *)

(** A core whose exclusives are not lost executes [n] instructions. *)
Definition alone (n i : nat) : list event := replicate n (Exec i false).

(** The code of a function never ends without [ret]. *)
Lemma step_some o s i f lost : lock_inv o s → in_routine s i f → is_Some (step (Exec i lost) s).
Proof.
  intros Hs Hf. unfold in_routine in Hf. cbn [step]. destruct (lockers s !! i) as [c|] eqn:Hc; [|done].
  injection Hf as Hf. pose proof (li_ok _ _ Hs _ _ Hc) as Hok. unfold locker_ok in Hok. cbn. rewrite Hf in *. cbn.
  destruct (lookup_lt_is_Some_2 (code f) (at_instr c)) as [ins ->]; [tauto|]. by eexists.
Qed.

(** The core by itself. *)
Fixpoint solo (n : nat) (v : Z) (c : locker) : option (Z * locker) :=
  match n with
  | O => Some (v, c)
  | S n =>
      f ← fn c; ins ← code f !! at_instr c;
      let '(c', st) := exec f ins false v c in solo n (default v st) c'
  end.
Lemma run_alone n i s c v' c' :
  lockers s !! i = Some c → solo n (lock s) c = Some (v', c') →
  ∃ s', run (alone n i) s = Some s' ∧ lock s' = v' ∧ lockers s' !! i = Some c'.
Proof.
  revert s c. induction n as [|n IH]; intros s c Hc; cbn [solo alone replicate run].
  - intros [= <- <-]. by exists s.
  - destruct (fn c) as [f|] eqn:Hf; [|done]. cbn [mbind option_bind].
    destruct (code f !! at_instr c) as [ins|] eqn:Hi; [|done]. cbn [mbind option_bind step].
    rewrite Hc. cbn [mbind option_bind]. rewrite Hf. cbn [mbind option_bind]. rewrite Hi. cbn [mbind option_bind].
    destruct (exec f ins false (lock s) c) as [c1 [v|]]; cbn [default]; intros Hs; (eapply IH; [|exact Hs]);
      cbn [lockers]; apply list_lookup_insert_eq; rewrite ?length_fmap; by eapply lookup_lt_Some.
Qed.

(** The registers a place in the code determines are put in, the values a branch
    depends on split, and the steps evaluated. *)
Ltac solo_in n := exists n; split; [lia|by cbn].

(** On a free lock [spin_lock] returns within nine instructions. *)
Lemma solo_lock c :
  fn c = Some Spin_lock → locker_ok 0 c → owns c = false →
  ∃ n, (n ≤ 9)%nat ∧ match solo n 0 c with Some (v, c') => v = 1 ∧ holds c' = true | None => False end.
Proof.
  destruct c as [fc n x y z m h]. cbn [fn]. intros ->. unfold locker_ok, owns. cbn.
  destruct n as [|[|[|[|[|n]]]]]; cbn; intros (Hh & Hlt & Hy & Hm & _) Ho; [solo_in 7%nat|rewrite Hy by lia; clear Hm Hy Hlt..|done].
  - solo_in 6%nat.
  - destruct z; [destruct m; [solo_in 5%nat|solo_in 9%nat]|solo_in 7%nat|solo_in 7%nat].
  - destruct m; [solo_in 4%nat|solo_in 8%nat].
  - destruct z; [done|solo_in 7%nat|solo_in 7%nat].
Qed.
(** [spin_trylock] returns within eight, whatever the lock. *)
Lemma solo_trylock v c :
  fn c = Some Spin_trylock → locker_ok v c →
  ∃ n, (n ≤ 8)%nat ∧
    match solo n v c with
    | Some (_, c') => fn c' = None ∧ w0 c' = of_bool (negb (holds c')) ∧ (at_instr c = 0%nat → holds c' = (v =? 0))
    | None => False
    end.
Proof.
  destruct c as [fc n x y z m h]. cbn [fn]. intros ->. unfold locker_ok. cbn.
  destruct n as [|[|[|[|[|[|[|[|[|[|n]]]]]]]]]]; cbn; intros (Hh & Hlt & Hy & Hm & H7 & H9); try lia.
  - destruct v; [solo_in 8%nat|solo_in 5%nat|solo_in 5%nat].
  - rewrite Hy by lia. clear. destruct v; [solo_in 7%nat|solo_in 4%nat|solo_in 4%nat].
  - clear. destruct z; [destruct m; [solo_in 6%nat|solo_in 5%nat]|solo_in 3%nat|solo_in 3%nat].
  - clear. destruct m; [solo_in 5%nat|solo_in 4%nat].
  - clear. destruct z; [solo_in 4%nat|solo_in 3%nat|solo_in 3%nat].
  - solo_in 3%nat.
  - solo_in 2%nat.
  - rewrite H7 by lia. clear. solo_in 1%nat.
  - solo_in 2%nat.
  - rewrite H9 by lia. clear. solo_in 1%nat.
Qed.

(** While another core owns the lock, [spin_lock] goes on. *)
Lemma exec_waits ins lost c :
  fn c = Some Spin_lock → code Spin_lock !! at_instr c = Some ins → locker_ok 1 c → owns c = false →
  ∃ c', exec Spin_lock ins lost 1 c = (c', None) ∧ fn c' = Some Spin_lock.
Proof.
  destruct c as [fc n x y z m h]. cbn [fn at_instr code]. intros -> Hi. unfold locker_ok, owns. cbn.
  intros (_ & _ & _ & Hm & _) Ho.
  destruct n as [|[|[|[|[|n]]]]]; cbn in Hi, Ho; [injection Hi as <-..|done]; cbn.
  - (eexists; split; reflexivity).
  - (eexists; split; reflexivity).
  - destruct (z =? 0); (eexists; split; reflexivity).
  - destruct m; [by destruct (Hm eq_refl) as [_ Hv]; specialize (Hv eq_refl)|]. (eexists; split; reflexivity).
  - destruct (z =? 0); (eexists; split; reflexivity).
Qed.
Lemma wait_step o s i lost s' :
  lock_inv (Some o) s → o ≠ i → in_routine s i Spin_lock → step (Exec i lost) s = Some s' →
  lock_inv (Some o) s' ∧ in_routine s' i Spin_lock.
Proof.
  intros Hs Hne Hf. unfold in_routine in *. cbn [step]. destruct (lockers s !! i) as [c|] eqn:Hc; [|done].
  injection Hf as Hf. cbn. rewrite Hf. cbn [mbind option_bind].
  destruct (code Spin_lock !! at_instr c) as [ins|] eqn:Hi; [|done]. cbn [mbind option_bind]. intros [= <-].
  pose proof (li_ok _ _ Hs _ _ Hc) as Hok. pose proof (li_owns _ _ Hs _ _ Hc) as Ho.
  rewrite bool_decide_eq_false_2 in Ho by congruence. pose proof (exec_ok _ _ lost _ _ Hf Hi Hok) as He.
  pose proof (li_word _ _ Hs) as Hw. cbn in Hw. rewrite Hw in Hok.
  destruct (exec_waits ins lost c Hf Hi Hok Ho) as (c' & Hx & Hf'). rewrite Hw, Hx in *. destruct He as [Hok' Ho'].
  split.
  - rewrite <- Hw. eapply lock_inv_local; [done|exact Hc|by rewrite Hw|congruence].
  - cbn [lockers]. rewrite list_lookup_insert_eq by (by eapply lookup_lt_Some). cbn. congruence.
Qed.
Lemma wait_run ls o s i :
  lock_inv (Some o) s → o ≠ i → in_routine s i Spin_lock →
  ∃ s', run (map (Exec i) ls) s = Some s' ∧ lock_inv (Some o) s' ∧ in_routine s' i Spin_lock.
Proof.
  revert s. induction ls as [|l ls IH]; intros s Hs Hne Hf; [by exists s|]. cbn [map run].
  destruct (step_some _ _ _ _ l Hs Hf) as [s1 Hs1]. rewrite Hs1. cbn [mbind option_bind].
  destruct (wait_step _ _ _ _ _ Hs Hne Hf Hs1). by apply IH.
Qed.

Lemma holding_owner o s i : lock_inv o s → holding s i → o = Some i.
Proof.
  intros Hs. unfold holding. destruct (lockers s !! i) as [c|] eqn:Hc; [|done]. intros [= Hh].
  pose proof (li_ok _ _ Hs _ _ Hc) as Hok. pose proof (li_owns _ _ Hs _ _ Hc) as Ho. unfold locker_ok, owns in *.
  destruct (fn c); [by destruct Hok; congruence|]. rewrite Hh in Ho. symmetry in Ho. by apply bool_decide_eq_true in Ho.
Qed.

(** C29: the lock is a lock.  After [spinlock_init], whatever the cores call and
    however their instructions interleave, with any store-exclusive failing for
    no reason: at most one core is between taking the lock and giving it back, and
    the word is 1 while one is; every instruction is a step of the abstract lock,
    which one core takes when it is free and gives back; no core is stuck; while the
    lock is free a core in [spin_lock] that is left alone has it after nine
    instructions, while another has it the core stays in the loop; and a core in
    [spin_trylock] returns 0 with the lock or 1 without it after eight, from its
    call on by what the lock was. *)
Theorem spin_lock_correct es s0 s :
  Forall idle (lockers s0) → run es (spinlock_init s0) = Some s →
  (∀ i j, holding s i → holding s j → i = j) ∧
  (∀ i, holding s i → owner s = Some i ∧ lock s = 1) ∧
  (∀ e s', step e s = Some s' → lock_step (owner s) (owner s')) ∧
  (∀ i f lost, in_routine s i f → is_Some (step (Exec i lost) s)) ∧
  (∀ i, in_routine s i Spin_lock →
     match owner s with
     | None => ∃ n s', (n ≤ 9)%nat ∧ run (alone n i) s = Some s' ∧ holding s' i
     | Some o => o ≠ i → ∀ ls, ∃ s', run (map (Exec i) ls) s = Some s' ∧
         in_routine s' i Spin_lock ∧ owner s' = Some o
     end) ∧
  (∀ i c, lockers s !! i = Some c → fn c = Some Spin_trylock →
     ∃ n s' c', (n ≤ 8)%nat ∧ run (alone n i) s = Some s' ∧ lockers s' !! i = Some c' ∧ fn c' = None ∧
       w0 c' = of_bool (negb (holds c')) ∧ (at_instr c = 0%nat → holds c' = bool_decide (owner s = None))).
Proof.
  intros H0 Hrun. destruct (lock_run_ok _ _ _ _ (lock_inv_init _ H0) Hrun) as [o Hs].
  rewrite (lock_inv_owner _ _ Hs). split_and!.
  - intros i j Hi Hj. apply (holding_owner _ _ _ Hs) in Hi, Hj. congruence.
  - intros i Hi. apply (holding_owner _ _ _ Hs) in Hi as ->. split; [done|]. exact (li_word _ _ Hs).
  - intros e s' He. destruct (step_ok _ _ _ _ Hs He) as (o' & Hs' & Hl). by rewrite (lock_inv_owner _ _ Hs').
  - intros i f lost. by apply (step_some o).
  - intros i Hi. destruct o as [o|].
    + intros Hne ls. destruct (wait_run ls _ _ _ Hs Hne Hi) as (s' & Hr & Hs' & Hi').
      exists s'. by rewrite (lock_inv_owner _ _ Hs').
    + unfold in_routine in Hi. destruct (lockers s !! i) as [c|] eqn:Hc; [|done]. injection Hi as Hf.
      pose proof (li_owns _ _ Hs _ _ Hc) as Ho. pose proof (li_ok _ _ Hs _ _ Hc) as Hok.
      assert (lock s = 0) as Hl by exact (li_word _ _ Hs). rewrite Hl in Hok.
      destruct (solo_lock c Hf Hok Ho) as (n & Hn & Hsolo). rewrite <- Hl in Hsolo. destruct (solo n (lock s) c) as [[v c']|] eqn:Hr; [|done].
      destruct (run_alone _ _ _ _ _ _ Hc Hr) as (s' & Hr' & _ & Hc'). exists n, s'. split_and!; [done..|].
      unfold holding. rewrite Hc'. cbn. f_equal. apply Hsolo.
  - intros i c Hc Hf. destruct (solo_trylock (lock s) c Hf (li_ok _ _ Hs _ _ Hc)) as (n & Hn & Hsolo).
    destruct (solo n (lock s) c) as [[v c']|] eqn:Hr; [|done].
    destruct (run_alone _ _ _ _ _ _ Hc Hr) as (s' & Hr' & _ & Hc'). exists n, s', c'. destruct Hsolo as (? & ? & Hh).
    split_and!; [done..|]. intros Hat. rewrite (Hh Hat), (li_word _ _ Hs). by destruct o.
Qed.

(** * Example *)

(** Two cores race for the lock: both see it free, the second to store fails. *)
Definition fresh : locker :=
  {| fn := None; at_instr := 0; w0 := 7; w1 := 7; w2 := 7; monitor := false; holds := false |}.
Definition race : list event :=
  [Call 0 Spin_lock; Call 1 Spin_lock] ++ alone 3 0 ++ alone 3 1 ++ alone 1 1 ++ alone 1 0 ++ alone 4 0 ++ alone 3 1.
Definition before_race : locked_system := {| lock := 7; lockers := [fresh; fresh] |}.
Definition after_race : locked_system := Eval vm_compute in default before_race (run race (spinlock_init before_race)).

Lemma spin_lock_correct_witness :
  holding after_race 1 ∧ in_routine after_race 0 Spin_lock ∧
  (∀ i, holding after_race i → i = 1%nat) ∧
  (∀ ls, ∃ s', run (map (Exec 0) ls) after_race = Some s' ∧ in_routine s' 0 Spin_lock ∧ owner s' = Some 1%nat).
Proof.
  assert (Hrun : run race (spinlock_init before_race) = Some after_race) by (vm_compute; reflexivity).
  assert (Hidle : Forall idle (lockers before_race)) by (repeat constructor).
  assert (Hh : holding after_race 1) by (vm_compute; reflexivity).
  assert (Hi : in_routine after_race 0 Spin_lock) by (vm_compute; reflexivity).
  destruct (spin_lock_correct race before_race after_race Hidle Hrun) as (H1 & H2 & _ & _ & H3 & _).
  split; [exact Hh|]. split; [exact Hi|]. split; [intros i Hi'; exact (H1 i 1%nat Hi' Hh)|].
  intros ls. specialize (H3 0%nat Hi). rewrite (proj1 (H2 1%nat Hh)) in H3. exact (H3 ltac:(lia) ls).
Defined.
