(* ===== verification/Dll.v ===== *)
(** Doubly linked nodes in memory: field accesses shared by [lib/list.c] and
    [lib/queue.c], and the segment predicate their invariants are stated with. *)

From S2P Require Import Prelude.

(** A node type with a link to each side.  [list_node_t] ([include/list.h]) and
    [queue_node_t] ([include/queue.h]) are its instances. *)
Class LinkNode (N : Type) := {
  link_mk : Z → Z → N;
  link_prev : N → Z;
  link_next : N → Z;
  link_prev_mk p n : link_prev (link_mk p n) = p;
  link_next_mk p n : link_next (link_mk p n) = n;
  link_eta x : link_mk (link_prev x) (link_next x) = x;
}.
#[export] Hint Rewrite @link_prev_mk @link_next_mk : wp.

Section memory.
Context {N : Type} `{LinkNode N}.

(** Field reads and writes through a node pointer; a null pointer and an
    address that holds no node fault. *)
Definition load_node (a : Z) : St (gmap Z N) N := λ h,
  if decide (a = NULL) then Fault
  else match h !! a with Some n => Done (n, h) | None => Fault end.
Definition load_prev (a : Z) : St (gmap Z N) Z := n ← load_node a; mret (link_prev n).
Definition load_next (a : Z) : St (gmap Z N) Z := n ← load_node a; mret (link_next n).
Definition store_prev (a v : Z) : St (gmap Z N) unit :=
  n ← load_node a; modify (<[a := link_mk v (link_next n)]>).
Definition store_next (a v : Z) : St (gmap Z N) unit :=
  n ← load_node a; modify (<[a := link_mk (link_prev n) v]>).

Lemma wp_load_node a n (Q : N → gmap Z N → Prop) h :
  a ≠ NULL → h !! a = Some n → Q n h → wp (load_node a) Q h.
Proof. intros Ha Hn HQ. unfold wp, load_node. rewrite decide_False by done. by rewrite Hn. Qed.

Lemma wp_load_prev a n (Q : Z → gmap Z N → Prop) h :
  a ≠ NULL → h !! a = Some n → Q (link_prev n) h → wp (load_prev a) Q h.
Proof. intros Ha Hn HQ. unfold load_prev. wp_step. by eapply wp_load_node. Qed.

Lemma wp_load_next a n (Q : Z → gmap Z N → Prop) h :
  a ≠ NULL → h !! a = Some n → Q (link_next n) h → wp (load_next a) Q h.
Proof. intros Ha Hn HQ. unfold load_next. wp_step. by eapply wp_load_node. Qed.

Lemma wp_store_prev a n v (Q : unit → gmap Z N → Prop) h :
  a ≠ NULL → h !! a = Some n → Q tt (<[a := link_mk v (link_next n)]> h) →
  wp (store_prev a v) Q h.
Proof. intros Ha Hn HQ. unfold store_prev. wp_step. by eapply wp_load_node. Qed.

Lemma wp_store_next a n v (Q : unit → gmap Z N → Prop) h :
  a ≠ NULL → h !! a = Some n → Q tt (<[a := link_mk (link_prev n) v]> h) →
  wp (store_next a v) Q h.
Proof. intros Ha Hn HQ. unfold store_next. wp_step. by eapply wp_load_node. Qed.

Lemma wpf_load_node a (Q : N → gmap Z N → Prop) h :
  (∀ n, a ≠ NULL → h !! a = Some n → Q n h) → wpf (load_node a) Q h.
Proof.
  intros HQ. unfold wpf, load_node. case_decide; [done|]. destruct (h !! a); naive_solver.
Qed.

Lemma wpf_load_prev a (Q : Z → gmap Z N → Prop) h :
  (∀ n, a ≠ NULL → h !! a = Some n → Q (link_prev n) h) → wpf (load_prev a) Q h.
Proof. intros HQ. unfold load_prev. wp_step. by apply wpf_load_node. Qed.

Lemma wpf_load_next a (Q : Z → gmap Z N → Prop) h :
  (∀ n, a ≠ NULL → h !! a = Some n → Q (link_next n) h) → wpf (load_next a) Q h.
Proof. intros HQ. unfold load_next. wp_step. by apply wpf_load_node. Qed.
End memory.

(** One memory access of a [wp] goal, its address found in the context. *)
Ltac wp_mem :=
  wp_step;
  first [ eapply wp_load_prev | eapply wp_load_next
        | eapply wp_store_prev | eapply wp_store_next | eapply wp_load_node ];
  [ | by simplify_map_eq | ]; [ try done .. | autorewrite with wp ].

Section segments.
Context {N : Type} `{LinkNode N}.
Implicit Types (h : gmap Z N) (xs ys : list Z).

(** [dseg h p xs n]: the nodes at the addresses [xs] are chained in order,
    the first one's left link is [p] and the last one's right link is [n]. *)
Fixpoint dseg (h : gmap Z N) (p : Z) (xs : list Z) (n : Z) : Prop :=
  match xs with
  | [] => True
  | x :: xs' => h !! x = Some (link_mk p (head_or n xs')) ∧ dseg h x xs' n
  end.

Lemma dseg_app h p xs ys n :
  dseg h p (xs ++ ys) n ↔ dseg h p xs (head_or n ys) ∧ dseg h (last_or p xs) ys n.
Proof.
  revert p. induction xs as [|x xs IH]; intros p; simpl; [tauto|].
  rewrite head_or_app, IH. tauto.
Qed.

Lemma dseg_ext h h' p xs n :
  (∀ x, x ∈ xs → h' !! x = h !! x) → dseg h p xs n → dseg h' p xs n.
Proof.
  revert p. induction xs as [|x xs IH]; intros p Heq; simpl; [done|].
  intros [Hx Hd]. split; [rewrite Heq by set_solver; done|].
  apply IH; [set_solver|done].
Qed.

Lemma dseg_insert h p xs n a (v : N) :
  a ∉ xs → dseg (<[a := v]> h) p xs n ↔ dseg h p xs n.
Proof.
  intros Ha. split; apply dseg_ext; intros x Hx;
    rewrite lookup_insert_ne; (done || set_solver).
Qed.

(** The left neighbour of a non-empty segment is stored in its first node
    only, and its right neighbour in its last node only. *)
Lemma dseg_set_left h p p' x xs n :
  NoDup (x :: xs) → dseg h p (x :: xs) n →
  dseg (<[x := link_mk p' (head_or n xs)]> h) p' (x :: xs) n.
Proof.
  intros [Hx _]%NoDup_cons [_ Hd]. simpl.
  rewrite lookup_insert_eq, dseg_insert by done. done.
Qed.

Lemma dseg_set_right h p xs x n n' :
  NoDup (xs ++ [x]) → dseg h p (xs ++ [x]) n →
  dseg (<[x := link_mk (last_or p xs) n']> h) p (xs ++ [x]) n'.
Proof.
  intros (Hnd & Hx & _)%NoDup_app. rewrite !dseg_app. simpl.
  intros [Hd _]. rewrite lookup_insert_eq, dseg_insert by set_solver. done.
Qed.

Lemma dseg_mid h p xs x ys n :
  dseg h p (xs ++ x :: ys) n →
  h !! x = Some (link_mk (last_or p xs) (head_or n ys)).
Proof. rewrite dseg_app. simpl. tauto. Qed.

Lemma dseg_elem h p xs n x : dseg h p xs n → x ∈ xs → is_Some (h !! x).
Proof.
  intros Hd (l1 & l2 & ->)%list_elem_of_split. eexists. by eapply dseg_mid.
Qed.
End segments.
