(* ===== verification/ListLib.v ===== *)
(** The intrusive list of [lib/list.c] and [include/list.h], and its
    refinement to finite sequences of node addresses. *)

From S2P Require Import Prelude Dll.

(** [list_node_t]. *)
Record list_node_t := { pre : Z; next : Z }.
(** [list_t]. *)
Record list_t := { first : Z; last : Z; count : Z }.
(** One list and the memory its nodes live in. *)
Record list_state := { lst : list_t; nodes : gmap Z list_node_t }.

#[export, refine] Instance list_node_link : LinkNode list_node_t :=
  {| link_mk p n := {| pre := p; next := n |}; link_prev := pre; link_next := next |}.
Proof. 1,2: done. by intros []. Defined.

Definition set_nodes (h : gmap Z list_node_t) (s : list_state) : list_state :=
  {| lst := lst s; nodes := h |}.
Definition set_lst (f : list_t → list_t) (s : list_state) : list_state :=
  {| lst := f (lst s); nodes := nodes s |}.
Definition set_first (p : Z) (l : list_t) : list_t :=
  {| first := p; last := last l; count := count l |}.
Definition set_last (p : Z) (l : list_t) : list_t :=
  {| first := first l; last := p; count := count l |}.
Definition set_count (n : Z) (l : list_t) : list_t :=
  {| first := first l; last := last l; count := n |}.

Definition in_nodes {A} : St (gmap Z list_node_t) A → St list_state A :=
  on_part nodes set_nodes.
Definition get_pre (a : Z) : St list_state Z := in_nodes (load_prev a).
Definition get_next (a : Z) : St list_state Z := in_nodes (load_next a).
Definition put_pre (a v : Z) : St list_state unit := in_nodes (store_prev a v).
Definition put_next (a v : Z) : St list_state unit := in_nodes (store_next a v).
Definition get_first : St list_state Z := gets (first ∘ lst).
Definition get_last : St list_state Z := gets (last ∘ lst).
Definition put_first (p : Z) : St list_state unit := modify (set_lst (set_first p)).
Definition put_last (p : Z) : St list_state unit := modify (set_lst (set_last p)).
(** [list->count++] and [list->count--] on an [int]. *)
Definition count_incr : St list_state unit :=
  modify (set_lst (λ l, set_count (s32 (count l + 1)) l)).
Definition count_decr : St list_state unit :=
  modify (set_lst (λ l, set_count (s32 (count l - 1)) l)).

(** * include/list.h *)

Definition list_node_init (node : Z) : St list_state unit :=
  put_next node NULL;; put_pre node NULL.
Definition list_node_pre (node : Z) : St list_state Z := get_pre node.
Definition list_node_next (node : Z) : St list_state Z := get_next node.
Definition list_is_empty : St list_state bool := gets (λ s, count (lst s) =? 0).
Definition list_count : St list_state Z := gets (count ∘ lst).
Definition list_first : St list_state Z := get_first.
Definition list_last : St list_state Z := get_last.

(** * lib/list.c *)

Definition list_init : St list_state unit :=
  put_last NULL;; put_first NULL;; modify (set_lst (set_count 0)).

Definition list_insert_first (node : Z) : St list_state unit :=
  f ← get_first;
  put_next node f;;
  put_pre node NULL;;
  empty ← list_is_empty;
  (if empty : bool then put_first node;; put_last node
   else (f ← get_first; put_pre f node);; put_first node);;
  count_incr.

Definition list_insert_last (node : Z) : St list_state unit :=
  l ← get_last;
  put_pre node l;;
  put_next node NULL;;
  empty ← list_is_empty;
  (if empty : bool then put_last node;; put_first node
   else (l ← get_last; put_next l node);; put_last node);;
  count_incr.

Definition list_delete_first : St list_state Z :=
  empty ← list_is_empty;
  if empty : bool then mret NULL
  else
    remove_node ← get_first;
    nx ← get_next remove_node;
    put_first nx;;
    f ← get_first;
    (if f =? NULL then put_last NULL
     else nx ← get_next remove_node; put_pre nx NULL);;
    put_next remove_node NULL;;
    put_pre remove_node NULL;;
    count_decr;;
    mret remove_node.

Definition list_delete (node : Z) : St list_state Z :=
  f ← get_first;
  (if node =? f then n ← get_next node; put_first n else mret tt);;
  l ← get_last;
  (if node =? l then p ← get_pre node; put_last p else mret tt);;
  p ← get_pre node;
  (if truthy p then p ← get_pre node; n ← get_next node; put_next p n else mret tt);;
  n ← get_next node;
  (if truthy n then n ← get_next node; p ← get_pre node; put_pre n p else mret tt);;
  put_next node NULL;;
  put_pre node NULL;;
  count_decr;;
  mret node.

(** * The invariant

    [list_repr xs s]: the list of [s] holds exactly the nodes [xs], in order. *)

Record list_repr (xs : list Z) (s : list_state) : Prop := {
  repr_nodup : NoDup xs;
  repr_nonnull : NULL ∉ xs;
  repr_chain : dseg (nodes s) NULL xs NULL;
  repr_first : first (lst s) = head_or NULL xs;
  repr_last : last (lst s) = last_or NULL xs;
  repr_count : count (lst s) = Z.of_nat (length xs);
  repr_bound : Z.of_nat (length xs) < 2 ^ 31;
}.

(** What an operation leaves alone: every node outside [xs], and which
    addresses hold a node. *)
Definition list_frame (xs : list Z) (s s' : list_state) : Prop :=
  dom (nodes s') = dom (nodes s) ∧
  ∀ a, a ∉ xs → nodes s' !! a = nodes s !! a.

Ltac list_unfold :=
  unfold get_pre, get_next, put_pre, put_next, get_first, get_last, put_first, put_last,
    count_incr, count_decr, list_is_empty, in_nodes.
Ltac list_mem := wp_mem; simpl.
Ltac list_run := repeat (c_branch || list_mem || (progress wp_step; simpl)).
Ltac list_frame_tac :=
  split; simpl;
  [ rewrite !dom_insert_same; [done | repeat (simplify_map_eq || case_decide); eauto ..]
  | intros; rewrite !lookup_insert_ne by set_solver; done ].

Lemma list_insert_first_ok xs s node :
  list_repr xs s → node ≠ NULL → node ∉ xs → is_Some (nodes s !! node) →
  Z.of_nat (length xs) + 1 < 2 ^ 31 →
  wp (list_insert_first node)
     (λ _ s', list_repr (node :: xs) s' ∧ list_frame (node :: xs) s s') s.
Proof.
  intros [Hnd Hnn Hd Hf Hl Hc Hb] Hn0 Hnx [v Hv] Hlen.
  destruct s as [[f l c] h]; simpl in *; subst.
  unfold list_insert_first; list_unfold.
  list_mem. list_mem. wp_step. simpl.
  destruct xs as [|x xs]; simpl in *.
  - wp_step. split; [|list_frame_tac].
    constructor; simpl; try done; [|set_solver|by simplify_map_eq].
    constructor; [set_solver|constructor].
  - destruct Hd as [Hx Hd]. apply NoDup_cons in Hnd as [Hxx Hnd].
    assert (x ≠ node) by set_solver. assert (x ≠ NULL) by set_solver.
    list_mem. split; [|list_frame_tac].
    constructor; simpl; try done.
    + constructor; [done|]. by constructor.
    + set_solver.
    + simplify_map_eq. rewrite !dseg_insert by set_solver. done.
    + rewrite s32_small by lia. lia.
    + lia.
Qed.

Lemma list_insert_last_ok xs s node :
  list_repr xs s → node ≠ NULL → node ∉ xs → is_Some (nodes s !! node) →
  Z.of_nat (length xs) + 1 < 2 ^ 31 →
  wp (list_insert_last node)
     (λ _ s', list_repr (xs ++ [node]) s' ∧ list_frame (node :: xs) s s') s.
Proof.
  intros [Hnd Hnn Hd Hf Hl Hc Hb] Hn0 Hnx [v Hv] Hlen.
  destruct s as [[f l c] h]; simpl in *; subst.
  unfold list_insert_last; list_unfold.
  list_mem. list_mem. wp_step. simpl.
  destruct xs as [|x xs _] using rev_ind; simpl in *.
  - wp_step. split; [|list_frame_tac].
    constructor; simpl; try done; [|set_solver|by simplify_map_eq].
    constructor; [set_solver|constructor].
  - rewrite last_or_snoc, length_app in *. simpl in *.
    rewrite (proj2 (Z.eqb_neq _ _)) by lia.
    assert (x ≠ node) by set_solver. assert (x ≠ NULL) by set_solver.
    assert (Hx := dseg_mid _ _ _ _ _ _ Hd).
    wp_mem. simpl. split; [|list_frame_tac].
    constructor; simpl; try done.
    + apply NoDup_app. split; [done|]. split; [set_solver|]. constructor; [set_solver|constructor].
    + set_solver.
    + apply dseg_app. split.
      * apply (dseg_set_right _ _ _ _ _ node) in Hd; [|done].
        eapply dseg_ext; [|exact Hd]. intros a Ha.
        destruct (decide (a = x)) as [->|]; simplify_map_eq; [done|].
        assert (a ≠ node) by set_solver. by simplify_map_eq.
      * simpl. rewrite last_or_snoc. by simplify_map_eq.
    + by rewrite !head_or_app.
    + by rewrite last_or_snoc.
    + rewrite s32_small by lia. rewrite length_app, length_app. simpl. lia.
    + rewrite length_app, length_app. simpl. lia.
Qed.

Lemma list_delete_first_nil s :
  list_repr [] s → wp list_delete_first (λ r s', r = NULL ∧ s' = s) s.
Proof.
  intros [_ _ _ _ _ Hc _]. unfold list_delete_first; list_unfold.
  wp_step. by rewrite Hc.
Qed.

Lemma list_delete_first_cons x xs s :
  list_repr (x :: xs) s →
  wp list_delete_first
     (λ r s', r = x ∧ list_repr xs s' ∧ list_frame (x :: xs) s s' ∧
              nodes s' !! x = Some {| pre := NULL; next := NULL |}) s.
Proof.
  intros [Hnd Hnn Hd Hf Hl Hc Hb].
  destruct s as [[f l c] h]; simpl in *; subst.
  apply NoDup_cons in Hnd as [Hx Hnd]. destruct Hd as [Hhx Hd].
  assert (x ≠ NULL) by set_solver.
  unfold list_delete_first; list_unfold. wp_step. simpl.
  list_mem. wp_step. simpl.
  destruct xs as [|y ys]; simpl in *.
  - wp_step. simpl. list_mem. list_mem.
    split_and!; [done| |list_frame_tac|by simplify_map_eq].
    constructor; simpl; try done; set_solver.
  - destruct Hd as [Hhy Hd]. apply NoDup_cons in Hnd as [Hy Hnd].
    assert (y ≠ x ∧ y ≠ NULL) as [??] by set_solver.
    rewrite (proj2 (Z.eqb_neq _ _)) by done.
    list_mem. list_mem. list_mem. list_mem.
    split_and!; [done| |list_frame_tac|by simplify_map_eq].
    constructor; simpl; try done.
    + by constructor.
    + set_solver.
    + simplify_map_eq. rewrite !dseg_insert by set_solver. done.
    + rewrite s32_small by lia. lia.
    + lia.
Qed.


Lemma list_delete_ok l1 node l2 s :
  list_repr (l1 ++ node :: l2) s →
  wp (list_delete node)
     (λ r s', r = node ∧ list_repr (l1 ++ l2) s' ∧ list_frame (l1 ++ node :: l2) s s' ∧
              nodes s' !! node = Some {| pre := NULL; next := NULL |}) s.
Proof.
  intros [Hnd Hnn Hd Hf Hl Hc Hb].
  destruct s as [[f l c] h]; simpl in *; subst.
  rewrite last_or_app, head_or_app, length_app in *. simpl in *.
  pose proof (dseg_mid _ _ _ _ _ _ Hd) as Hhx.
  apply dseg_app in Hd as [H1 [_ H2]].
  apply NoDup_app in Hnd as (Hn1 & Hn12 & [Hx2 Hn2]%NoDup_cons).
  assert (node ≠ NULL) by set_solver.
  unfold list_delete; list_unfold. wp_step. simpl.
  destruct l1 as [|p l1 _] using rev_ind; destruct l2 as [|n l2]; simpl in *.
  - list_run.
    split_and!; [done| |list_frame_tac|by simplify_map_eq].
    constructor; simpl; try done; set_solver.
  - assert (node ≠ n ∧ n ≠ NULL) as [??] by set_solver. destruct H2 as [Hhn H2].
    assert (node ≠ last_or n l2) by (pose proof (last_or_in n l2); set_solver).
    apply NoDup_cons in Hn2 as [Hn Hn2].
    list_run.
    split_and!; [done| |list_frame_tac|by simplify_map_eq].
    constructor; simpl; try done.
    + by constructor.
    + set_solver.
    + simplify_map_eq. rewrite !dseg_insert by set_solver. done.
    + rewrite s32_small by lia. lia.
    + lia.
  - rewrite last_or_snoc, head_or_app, app_nil_r, length_app in *. simpl in *.
    assert (node ≠ p ∧ p ≠ NULL) as [??] by set_solver.
    assert (node ≠ head_or p l1) by (pose proof (head_or_in p l1); set_solver).
    assert (Hhp := dseg_mid _ _ _ _ _ _ H1).
    list_run.
    split_and!; [done| |list_frame_tac|by simplify_map_eq].
    apply NoDup_app in Hn1 as (Hn1 & Hpl & _). apply dseg_app in H1 as [H1 _].
    constructor; simpl; try done.
    + nodup.
    + set_solver.
    + apply dseg_app. simpl. simplify_map_eq. rewrite !dseg_insert by set_solver. done.
    + by rewrite head_or_app.
    + by rewrite last_or_snoc.
    + rewrite s32_small by lia. rewrite length_app. simpl. lia.
    + rewrite length_app. simpl. lia.
  - rewrite last_or_snoc, head_or_app, !length_app in *. simpl in *.
    assert (node ≠ p ∧ p ≠ NULL) as [??] by set_solver.
    assert (node ≠ n ∧ n ≠ NULL ∧ n ≠ p) as (?&?&?) by set_solver.
    assert (node ≠ head_or p l1) by (pose proof (head_or_in p l1); set_solver).
    assert (node ≠ last_or n l2) by (pose proof (last_or_in n l2); set_solver).
    assert (Hhp := dseg_mid _ _ _ _ _ _ H1). destruct H2 as [Hhn H2].
    list_run.
    split_and!; [done| |list_frame_tac|by simplify_map_eq].
    apply dseg_app in H1 as [H1 _].
    constructor; simpl; try done.
    + nodup.
    + set_solver.
    + apply dseg_app. simpl. split; [apply dseg_app; simpl|]; rewrite ?last_or_snoc.
      * simplify_map_eq. rewrite !dseg_insert by nodup. done.
      * simplify_map_eq. rewrite !dseg_insert by nodup. done.
    + by rewrite !head_or_app.
    + by rewrite !last_or_app.
    + rewrite s32_small by lia. rewrite !length_app. simpl. lia.
    + rewrite !length_app. simpl. lia.
Qed.


(** * Refinement to sequences

    The calls a client makes, run on the memory and on a sequence. *)

Inductive list_call :=
  | CallInsertFirst (node : Z)
  | CallInsertLast (node : Z)
  | CallDeleteFirst
  | CallDelete (node : Z)
  | CallCount
  | CallIsEmpty
  | CallFirst
  | CallLast.

Definition exec_call (c : list_call) : St list_state Z :=
  match c with
  | CallInsertFirst n => list_insert_first n;; mret NULL
  | CallInsertLast n => list_insert_last n;; mret NULL
  | CallDeleteFirst => list_delete_first
  | CallDelete n => list_delete n
  | CallCount => list_count
  | CallIsEmpty => b ← list_is_empty; mret (of_bool b)
  | CallFirst => list_first
  | CallLast => list_last
  end.
Fixpoint exec_calls (cs : list list_call) : St list_state (list Z) :=
  match cs with
  | [] => mret []
  | c :: cs' => r ← exec_call c; rs ← exec_calls cs'; mret (r :: rs)
  end.

(** The sequence a call leaves and its result; [None] when the caller breaks
    the contract: it inserts a null or already linked node, deletes a node of
    another list, or makes the [int] count overflow. *)
Definition spec_call (c : list_call) (xs : list Z) : option (Z * list Z) :=
  match c with
  | CallInsertFirst n =>
      if decide (n ≠ NULL ∧ (n ∉ xs) ∧ Z.of_nat (length xs) + 1 < 2 ^ 31)
      then Some (NULL, n :: xs) else None
  | CallInsertLast n =>
      if decide (n ≠ NULL ∧ (n ∉ xs) ∧ Z.of_nat (length xs) + 1 < 2 ^ 31)
      then Some (NULL, xs ++ [n]) else None
  | CallDeleteFirst => Some (head_or NULL xs, tail xs)
  | CallDelete n =>
      if decide (n ∈ xs) then Some (n, filter (λ x, x ≠ n) xs) else None
  | CallCount => Some (Z.of_nat (length xs), xs)
  | CallIsEmpty => Some (of_bool (bool_decide (xs = [])), xs)
  | CallFirst => Some (head_or NULL xs, xs)
  | CallLast => Some (last_or NULL xs, xs)
  end.
Fixpoint spec_calls (cs : list list_call) (xs : list Z) : option (list Z * list Z) :=
  match cs with
  | [] => Some ([], xs)
  | c :: cs' =>
      '(r, xs1) ← spec_call c xs;
      '(rs, xs2) ← spec_calls cs' xs1;
      Some (r :: rs, xs2)
  end.

(** The nodes a client passes in. *)
Definition call_node (c : list_call) : list Z :=
  match c with
  | CallInsertFirst n | CallInsertLast n | CallDelete n => [n]
  | _ => []
  end.
Definition call_nodes (cs : list list_call) : list Z := cs ≫= call_node.

Lemma list_frame_refl xs s : list_frame xs s s.
Proof. done. Qed.

Lemma list_frame_weaken xs ys s s' :
  (∀ a, a ∈ xs → a ∈ ys) → list_frame xs s s' → list_frame ys s s'.
Proof. intros Hsub [Hdom Hf]. split; [done|]. intros a Ha. apply Hf. set_solver. Qed.

Lemma list_frame_trans xs s1 s2 s3 :
  list_frame xs s1 s2 → list_frame xs s2 s3 → list_frame xs s1 s3.
Proof.
  intros [Hd1 Hf1] [Hd2 Hf2]. split; [congruence|].
  intros a Ha. rewrite Hf2, Hf1; done.
Qed.

Lemma exec_call_refines c xs s r xs' :
  list_repr xs s → (∀ n, n ∈ call_node c → n ∈ dom (nodes s)) →
  spec_call c xs = Some (r, xs') →
  wp (exec_call c)
     (λ r' s', r' = r ∧ list_repr xs' s' ∧ list_frame (xs ++ call_node c) s s' ∧
               (∀ a, a ∈ xs' → a ∈ xs ++ call_node c)) s.
Proof.
  intros Hr Hdom Hs. pose proof Hr as [Hnd Hnn Hd Hf Hl Hc Hb].
  destruct c as [n|n| |n| | | |]; simpl in *; try case_decide as Hpre; simplify_eq.
  - destruct_and!. wp_step. eapply wp_mono; [apply list_insert_first_ok; try done|].
    { apply elem_of_dom. set_solver. }
    intros _ s' [Hr' Hfr]. wp_step. split_and!; [done..| |set_solver].
    eapply list_frame_weaken; [|done]. set_solver.
  - destruct_and!. wp_step. eapply wp_mono; [apply list_insert_last_ok; try done|].
    { apply elem_of_dom. set_solver. }
    intros _ s' [Hr' Hfr]. wp_step. split_and!; [done..| |set_solver].
    eapply list_frame_weaken; [|done]. set_solver.
  - destruct xs as [|x xs]; simpl.
    + eapply wp_mono; [by apply list_delete_first_nil|].
      intros ? ? [-> ->]. split_and!; [done..|set_solver].
    + eapply wp_mono; [by apply list_delete_first_cons|].
      intros ? ? (-> & ? & ? & _). rewrite app_nil_r. split_and!; [done..|set_solver].
  - apply list_elem_of_split in Hpre as (l1 & l2 & ->).
    eapply wp_mono; [by apply list_delete_ok|].
    intros ? ? (-> & Hr' & Hfr & _).
    assert (filter (λ x, x ≠ r) (l1 ++ r :: l2) = l1 ++ l2) as ->.
    { rewrite filter_app, filter_cons_False by (intros ?; done).
      rewrite !filter_ne_not_elem by nodup. done. }
    split_and!; [done..| |set_solver].
    eapply list_frame_weaken; [|done]. set_solver.
  - unfold list_count. wp_step. simpl. split_and!; [done..|set_solver].
  - unfold list_is_empty. wp_step. rewrite Hc. split_and!; [|done..|set_solver].
    by destruct xs'.
  - unfold list_first, get_first. wp_step. simpl. split_and!; [done..|set_solver].
  - unfold list_last, get_last. wp_step. simpl. split_and!; [done..|set_solver].
Qed.

(** C1: the list of lib/list.c implements a finite sequence of nodes.  Any
    sequence of calls that respects the contract returns, without touching an
    unmapped address; its results are those of the same calls on the sequence,
    the invariant (links both ways, ends, count) holds afterwards for the
    resulting sequence, and no node outside the list and the arguments changes. *)
Theorem list_refinement cs xs s rs xs' :
  list_repr xs s →
  (∀ n, n ∈ call_nodes cs → n ∈ dom (nodes s)) →
  spec_calls cs xs = Some (rs, xs') →
  wp (exec_calls cs)
     (λ rs' s', rs' = rs ∧ list_repr xs' s' ∧ list_frame (xs ++ call_nodes cs) s s') s.
Proof.
  revert xs s rs xs'. induction cs as [|c cs IH]; intros xs s rs xs' Hr Hdom Hs;
    cbn [exec_calls spec_calls] in *.
  { simplify_eq. rewrite app_nil_r. wp_step. auto using list_frame_refl. }
  change (call_nodes (c :: cs)) with (call_node c ++ call_nodes cs) in *.
  destruct (spec_call c xs) as [[r xs1]|] eqn:Hc; [|done]. simpl in Hs.
  destruct (spec_calls cs xs1) as [[rs2 xs2]|] eqn:Hcs; simplify_eq/=.
  wp_step. eapply wp_mono; [apply (exec_call_refines c xs); [done|set_solver|done]|].
  intros ? s1 (-> & Hr1 & Hf1 & Hsub). wp_step.
  eapply wp_mono; [apply (IH xs1); [done| |done]|].
  { destruct Hf1 as [-> _]. set_solver. }
  intros ? s2 (-> & Hr2 & Hf2). wp_step. split_and!; [done..|].
  apply (list_frame_trans _ _ s1); (eapply list_frame_weaken; [|done]); set_solver.
Qed.

(** Two nodes linked by hand-run calls: insertion at both ends, deletion of the
    middle node and of the first. *)
Definition demo_state : list_state :=
  {| lst := {| first := NULL; last := NULL; count := 0 |};
     nodes := list_to_map ((λ a, (a, {| pre := 7; next := 9 |})) <$> [16; 32; 48; 64]) |}.
Definition demo_calls : list list_call :=
  [CallInsertFirst 16; CallInsertLast 32; CallInsertFirst 48; CallDelete 16; CallCount;
   CallDeleteFirst; CallLast].

Lemma list_refinement_witness :
  wp (exec_calls demo_calls)
     (λ rs' s', rs' = [0; 0; 0; 16; 2; 48; 32] ∧ list_repr [32] s' ∧
                list_frame ([] ++ call_nodes demo_calls) demo_state s') demo_state.
Proof.
  apply (list_refinement demo_calls [] demo_state).
  - constructor; simpl; try done; [constructor|set_solver].
  - intros n Hn. apply elem_of_dom.
    repeat (apply elem_of_cons in Hn as [->|Hn]; [by eexists|]). by apply elem_of_nil in Hn.
  - by vm_compute.
Defined.
