(* ===== verification/Queue.v ===== *)
(** The queue of [lib/queue.c]: a doubly linked chain between two sentinel
    nodes, refined to a sequence of node addresses, and its self-check. *)

From S2P Require Import Prelude Dll.

(** [queue_node_t]. *)
Record queue_node_t := { prev : Z; qnext : Z }.

#[export, refine] Instance queue_node_link : LinkNode queue_node_t :=
  {| link_mk p n := {| prev := p; qnext := n |}; link_prev := prev; link_next := qnext |}.
Proof. 1,2: done. by intros []. Defined.

(** The memory of nodes and the console. *)
Record queue_state := { qnodes : gmap Z queue_node_t; qlog : list log_entry }.
Definition set_qnodes (h : gmap Z queue_node_t) (s : queue_state) : queue_state :=
  {| qnodes := h; qlog := qlog s |}.
Definition qprint (e : log_entry) : St queue_state unit :=
  modify (λ s, {| qnodes := qnodes s; qlog := qlog s ++ [e] |}).
Definition in_q {A} : St (gmap Z queue_node_t) A → St queue_state A := on_part qnodes set_qnodes.

(** A [queue_t] at the address [ls] is its two sentinels, [head] and [tail], of
    16 bytes each. *)
Definition q_head (ls : Z) : Z := ls.
Definition q_tail (ls : Z) : Z := ls + 16.

Definition queue_remove (que : Z) : St queue_state unit :=
  p ← in_q (load_prev que); n ← in_q (load_next que); in_q (store_next p n);;
  n ← in_q (load_next que); p ← in_q (load_prev que); in_q (store_prev n p);;
  in_q (store_prev que NULL);;
  in_q (store_next que NULL).

Definition queue_insert (que prev : Z) : St queue_state unit :=
  if (que =? NULL) || (prev =? NULL) then qprint (Info (ln "Null !!"))
  else
    n ← in_q (load_next prev); in_q (store_next que n);;
    n ← in_q (load_next que); in_q (store_prev n que);;
    in_q (store_prev que prev);;
    in_q (store_next prev que).

Definition queue_insert_prev (que next : Z) : St queue_state unit :=
  if (que =? NULL) || (next =? NULL) then qprint (Info (ln "Null !"))
  else
    p ← in_q (load_prev next); in_q (store_prev que p);;
    p ← in_q (load_prev que); in_q (store_next p que);;
    in_q (store_next que next);;
    in_q (store_prev next que).

Definition queue_list_init (ls : Z) : St queue_state unit :=
  in_q (store_prev (q_head ls) NULL);;
  in_q (store_next (q_head ls) (q_tail ls));;
  in_q (store_prev (q_tail ls) (q_head ls));;
  in_q (store_next (q_tail ls) NULL).

Definition queue_list_enque (ls que : Z) : St queue_state unit :=
  p ← in_q (load_prev (q_tail ls)); queue_insert que p.

Definition queue_list_is_empty (ls : Z) : St queue_state bool :=
  n ← in_q (load_next (q_head ls)); nn ← in_q (load_next n); mret (nn =? NULL).

Definition queue_list_top (ls : Z) : St queue_state Z :=
  empty ← queue_list_is_empty ls;
  if empty : bool then qprint (Info (ln "# pop failed"));; mret NULL
  else in_q (load_next (q_head ls)).

Definition queue_list_pop (ls : Z) : St queue_state Z :=
  empty ← queue_list_is_empty ls;
  if empty : bool then qprint (Info (ln "# pop failed"));; mret NULL
  else que ← in_q (load_next (q_head ls)); queue_remove que;; mret que.

(** The [while] loop of [queue_list_check], from the node [tmp]. *)
Fixpoint queue_check_loop (fuel : nat) (tail tmp : Z) : St queue_state bool :=
  match fuel with
  | O => nofuel
  | S k =>
      n ← in_q (load_next tmp);
      if n =? NULL then mret (tail =? tmp)
      else
        n ← in_q (load_next tmp); np ← in_q (load_prev n);
        if negb (np =? tmp) then mret false
        else
          tmp' ← in_q (load_next tmp);
          p ← in_q (load_prev tmp'); pn ← in_q (load_next p);
          if negb (pn =? tmp') then mret false
          else queue_check_loop k tail tmp'
  end.
Definition queue_list_check (fuel : nat) (ls : Z) : St queue_state bool :=
  p ← in_q (load_prev (q_head ls));
  if negb (p =? NULL) then mret false
  else
    n ← in_q (load_next (q_tail ls));
    if negb (n =? NULL) then mret false
    else queue_check_loop fuel (q_tail ls) (q_head ls).

(** The [while] loop of [queue_list_print], from the node [tmp]. *)
Fixpoint queue_print_loop (fuel : nat) (tail tmp : Z) : St queue_state unit :=
  match fuel with
  | O => nofuel
  | S k =>
      if tmp =? tail then mret tt
      else
        n ← in_q (load_next tmp);
        if tmp =? n then qprint (Info (ln "error break"))
        else n ← in_q (load_next tmp); queue_print_loop k tail n
  end.
Definition queue_list_print (fuel : nat) (ls : Z) : St queue_state unit :=
  n ← in_q (load_next (q_head ls)); queue_print_loop fuel (q_tail ls) n.

(** The [while] loop of [queue_list_find], from the node [tmp]. *)
Fixpoint queue_find_loop (fuel : nat) (tail que tmp : Z) : St queue_state bool :=
  match fuel with
  | O => nofuel
  | S k =>
      if tmp =? tail then mret false
      else if tmp =? que then mret true
      else n ← in_q (load_next tmp); queue_find_loop k tail que n
  end.
Definition queue_list_find (fuel : nat) (ls que : Z) : St queue_state bool :=
  n ← in_q (load_next (q_head ls)); queue_find_loop fuel (q_tail ls) que n.

(** * The invariant

    [queue_repr ls xs s]: the queue at [ls] holds exactly the nodes [xs], first
    in first; the chain runs from the head sentinel to the tail sentinel. *)

Definition q_chain (ls : Z) (xs : list Z) : list Z := q_head ls :: xs ++ [q_tail ls].

Record queue_repr (ls : Z) (xs : list Z) (s : queue_state) : Prop := {
  qrepr_nodup : NoDup (q_chain ls xs);
  qrepr_nonnull : NULL ∉ q_chain ls xs;
  qrepr_chain : dseg (qnodes s) NULL (q_chain ls xs) NULL;
}.

(** What an operation on the nodes [xs] leaves alone. *)
Definition queue_frame (xs : list Z) (s s' : queue_state) : Prop :=
  dom (qnodes s') = dom (qnodes s) ∧
  ∀ a, a ∉ xs → qnodes s' !! a = qnodes s !! a.

Ltac q_mem := wp_mem; simpl.
Ltac q_run := unfold in_q; repeat (c_branch || q_mem || (progress wp_step; simpl)).
Ltac q_frame_tac :=
  split; simpl;
  [ rewrite !dom_insert_same; [done | repeat (simplify_map_eq || case_decide); eauto ..]
  | intros; rewrite !lookup_insert_ne by set_solver; done ].

Lemma queue_frame_weaken xs ys s s' :
  (∀ a, a ∈ xs → a ∈ ys) → queue_frame xs s s' → queue_frame ys s s'.
Proof. intros Hsub [Hdom Hf]. split; [done|]. intros a Ha. apply Hf. set_solver. Qed.

(** A node put between two neighbours of a chain. *)
Lemma queue_insert_mid p l1 a x b l2 n s :
  NoDup (l1 ++ a :: x :: b :: l2) → NULL ∉ l1 ++ a :: x :: b :: l2 →
  dseg (qnodes s) p (l1 ++ a :: b :: l2) n → is_Some (qnodes s !! x) →
  wp (queue_insert x a)
     (λ _ s', dseg (qnodes s') p (l1 ++ a :: x :: b :: l2) n ∧
              queue_frame [a; x; b] s s' ∧ qlog s' = qlog s) s.
Proof.
  intros Hnd Hnn Hd [v Hv]. destruct s as [h log]; simpl in *.
  apply dseg_app in Hd as (H1 & Ha & Hb & H2). simpl in *.
  assert (a ≠ x ∧ a ≠ b ∧ x ≠ b) as (?&?&?) by nodup.
  assert (a ≠ NULL ∧ x ≠ NULL ∧ b ≠ NULL) as (?&?&?) by set_solver.
  unfold queue_insert. rewrite !(proj2 (Z.eqb_neq _ NULL)) by done. simpl. q_run.
  split_and!; [|q_frame_tac|done].
  apply dseg_app. simpl. simplify_map_eq. rewrite !dseg_insert by nodup. done.
Qed.

Lemma queue_insert_prev_mid p l1 a x b l2 n s :
  NoDup (l1 ++ a :: x :: b :: l2) → NULL ∉ l1 ++ a :: x :: b :: l2 →
  dseg (qnodes s) p (l1 ++ a :: b :: l2) n → is_Some (qnodes s !! x) →
  wp (queue_insert_prev x b)
     (λ _ s', dseg (qnodes s') p (l1 ++ a :: x :: b :: l2) n ∧
              queue_frame [a; x; b] s s' ∧ qlog s' = qlog s) s.
Proof.
  intros Hnd Hnn Hd [v Hv]. destruct s as [h log]; simpl in *.
  apply dseg_app in Hd as (H1 & Ha & Hb & H2). simpl in *.
  assert (a ≠ x ∧ a ≠ b ∧ x ≠ b) as (?&?&?) by nodup.
  assert (a ≠ NULL ∧ x ≠ NULL ∧ b ≠ NULL) as (?&?&?) by set_solver.
  unfold queue_insert_prev. rewrite !(proj2 (Z.eqb_neq _ NULL)) by done. simpl. q_run.
  split_and!; [|q_frame_tac|done].
  apply dseg_app. simpl. simplify_map_eq. rewrite !dseg_insert by nodup. done.
Qed.

Lemma queue_remove_mid p l1 a x b l2 n s :
  NoDup (l1 ++ a :: x :: b :: l2) → NULL ∉ l1 ++ a :: x :: b :: l2 →
  dseg (qnodes s) p (l1 ++ a :: x :: b :: l2) n →
  wp (queue_remove x)
     (λ _ s', dseg (qnodes s') p (l1 ++ a :: b :: l2) n ∧
              queue_frame [a; x; b] s s' ∧ qlog s' = qlog s ∧
              qnodes s' !! x = Some {| prev := NULL; qnext := NULL |}) s.
Proof.
  intros Hnd Hnn Hd. destruct s as [h log]; simpl in *.
  apply dseg_app in Hd as (H1 & Ha & Hx & Hb & H2). simpl in *.
  assert (a ≠ x ∧ a ≠ b ∧ x ≠ b) as (?&?&?) by nodup.
  assert (a ≠ NULL ∧ x ≠ NULL ∧ b ≠ NULL) as (?&?&?) by set_solver.
  unfold queue_remove. q_run.
  split_and!; [|q_frame_tac|done|by simplify_map_eq].
  apply dseg_app. simpl. simplify_map_eq. rewrite !dseg_insert by nodup. done.
Qed.

(** The last node of the chain before the tail sentinel. *)
Lemma q_chain_last ls xs :
  ∃ l a, q_chain ls xs = l ++ [a; q_tail ls] ∧ a = last_or (q_head ls) xs ∧
         (∀ y, q_chain ls (xs ++ [y]) = l ++ [a; y; q_tail ls]).
Proof.
  destruct xs as [|x xs _] using rev_ind.
  - by exists [], (q_head ls).
  - exists (q_head ls :: xs), x. unfold q_chain. rewrite last_or_snoc. simpl.
    rewrite <- !app_assoc. simpl. split_and!; [done..|]. intros y. by rewrite <- !app_assoc.
Qed.

Lemma queue_list_enque_ok ls xs x s :
  queue_repr ls xs s → x ≠ NULL → x ∉ q_chain ls xs → is_Some (qnodes s !! x) →
  wp (queue_list_enque ls x)
     (λ _ s', queue_repr ls (xs ++ [x]) s' ∧
              queue_frame (x :: q_chain ls xs) s s' ∧ qlog s' = qlog s) s.
Proof.
  intros [Hnd Hnn Hd] Hx0 Hx Hmap.
  destruct (q_chain_last ls xs) as (l & a & Heq & _ & Hext). rewrite Heq in *.
  unfold queue_list_enque, in_q.
  assert (Ht := dseg_mid _ _ (l ++ [a]) (q_tail ls) [] _ ltac:(by rewrite <- app_assoc)).
  rewrite last_or_snoc in Ht. assert (q_tail ls ≠ NULL) by set_solver.
  wp_mem. simpl. eapply wp_mono.
  { apply (queue_insert_mid NULL l a x (q_tail ls) [] NULL); try done; [nodup|set_solver]. }
  simpl. intros _ s' (Hd' & Hf & Hlog). split_and!; [|eapply queue_frame_weaken; [|done]; set_solver|done].
  constructor; rewrite Hext; [nodup|set_solver|done].
Qed.

Lemma queue_is_empty_ok ls xs s (Q : bool → queue_state → Prop) :
  queue_repr ls xs s → Q (bool_decide (xs = [])) s → wp (queue_list_is_empty ls) Q s.
Proof.
  intros [Hnd Hnn Hd] HQ. destruct s as [h log]. simpl in *.
  destruct Hd as [Hh Hd]. assert (q_head ls ≠ NULL) by (unfold q_chain in *; set_solver).
  unfold queue_list_is_empty. destruct xs as [|x xs]; simpl in *.
  - destruct Hd as [Ht _]. assert (q_tail ls ≠ NULL) by (unfold q_chain in *; set_solver).
    q_run. done.
  - destruct Hd as [Hx Hd]. assert (x ≠ NULL) by (unfold q_chain in *; set_solver).
    assert (head_or NULL (xs ++ [q_tail ls]) ≠ NULL).
    { rewrite head_or_app. simpl. unfold q_chain in *.
      destruct (head_or_in (q_tail ls) xs) as [->|Hi]; [set_solver|].
      intros E. rewrite E in Hi. set_solver. }
    q_run. rewrite (proj2 (Z.eqb_neq _ _)) by done. done.
Qed.

Lemma queue_list_pop_ok ls x xs s :
  queue_repr ls (x :: xs) s →
  wp (queue_list_pop ls)
     (λ r s', r = x ∧ queue_repr ls xs s' ∧ queue_frame (q_chain ls (x :: xs)) s s' ∧
              qlog s' = qlog s) s.
Proof.
  intros Hr. unfold queue_list_pop. wp_step. eapply queue_is_empty_ok; [done|].
  rewrite bool_decide_false by done. destruct Hr as [Hnd Hnn Hd].
  assert (Hh := proj1 Hd). simpl in Hh.
  assert (q_head ls ≠ NULL) by (unfold q_chain in *; set_solver).
  unfold in_q. wp_mem. wp_step.
  assert (∃ b l2, xs ++ [q_tail ls] = b :: l2) as (b & l2 & Heq).
  { destruct xs as [|y ys]; simpl; eauto. }
  unfold q_chain in *. simpl in *. rewrite Heq in *. eapply wp_mono.
  { apply (queue_remove_mid NULL [] (q_head ls) x b l2 NULL); done. }
  simpl. intros _ s' (Hd' & Hf & Hlog & _). wp_step.
  split_and!; [done| | |done].
  - constructor; unfold q_chain; rewrite Heq; [nodup|set_solver|done].
  - destruct Hf as [Hdom Hf]. split; [done|]. intros y Hy. apply Hf. set_solver.
Qed.

Lemma queue_find_loop_ok ls l1 xs que fuel p s :
  NULL ∉ l1 ++ xs ++ [q_tail ls] → q_tail ls ∉ xs →
  dseg (qnodes s) p (xs ++ [q_tail ls]) NULL → (length xs < fuel)%nat →
  wp (queue_find_loop fuel (q_tail ls) que (head_or (q_tail ls) xs))
     (λ r s', r = bool_decide (que ∈ xs) ∧ s' = s) s.
Proof.
  revert fuel p. induction xs as [|x xs IH]; intros [|k] p Hnn Ht Hd Hk; simpl in *; try lia.
  - rewrite Z.eqb_refl. done.
  - destruct Hd as [Hx Hd].
    assert (x ≠ q_tail ls ∧ x ≠ NULL) as [??] by set_solver.
    rewrite (proj2 (Z.eqb_neq x _)) by done.
    destruct (Z.eqb_spec x que) as [->|Hne]; [split; [by rewrite bool_decide_true by set_solver|done]|].
    unfold in_q. wp_mem. rewrite head_or_app. simpl. destruct s as [h log].
    eapply wp_mono; [apply (IH k x); [set_solver|set_solver|done|lia]|].
    intros r s' [-> ->]. split; [apply bool_decide_ext; set_solver|done].
Qed.

Lemma queue_list_find_ok ls xs que fuel s :
  queue_repr ls xs s → (length xs < fuel)%nat →
  wp (queue_list_find fuel ls que) (λ r s', r = bool_decide (que ∈ xs) ∧ s' = s) s.
Proof.
  intros [Hnd Hnn [Hh Hd]] Hfuel. destruct s as [h log]. unfold q_chain in *. simpl in *.
  assert (q_head ls ≠ NULL) by set_solver.
  unfold queue_list_find, in_q. wp_mem. rewrite head_or_app. simpl.
  eapply (queue_find_loop_ok ls []); [set_solver|nodup|done|done].
Qed.

Lemma queue_print_loop_ok ls xs fuel p s :
  NoDup (xs ++ [q_tail ls]) → NULL ∉ xs ++ [q_tail ls] →
  dseg (qnodes s) p (xs ++ [q_tail ls]) NULL → (length xs < fuel)%nat →
  wp (queue_print_loop fuel (q_tail ls) (head_or (q_tail ls) xs)) (λ _ s', s' = s) s.
Proof.
  revert fuel p. induction xs as [|x xs IH]; intros [|k] p Hnd Hnn Hd Hk; simpl in *; try lia.
  - rewrite Z.eqb_refl. done.
  - destruct Hd as [Hx Hd].
    apply NoDup_cons in Hnd as [Hxx Hnd].
    assert (x ≠ q_tail ls ∧ x ≠ NULL) as [??] by set_solver.
    rewrite (proj2 (Z.eqb_neq x _)) by done. destruct s as [h log].
    unfold in_q. wp_mem. rewrite head_or_app. simpl.
    rewrite (proj2 (Z.eqb_neq x _)) by (pose proof (head_or_in (q_tail ls) xs); set_solver).
    wp_mem. rewrite head_or_app. simpl. apply (IH k x); [done|set_solver|done|lia].
Qed.

Lemma queue_list_print_ok ls xs fuel s :
  queue_repr ls xs s → (length xs < fuel)%nat →
  wp (queue_list_print fuel ls) (λ _ s', s' = s) s.
Proof.
  intros [Hnd Hnn [Hh Hd]] Hfuel. destruct s as [h log]. unfold q_chain in *. simpl in *.
  assert (q_head ls ≠ NULL) by set_solver. apply NoDup_cons in Hnd as [_ Hnd].
  unfold queue_list_print, in_q. wp_mem. rewrite head_or_app. simpl.
  eapply queue_print_loop_ok; [done|set_solver|done|done].
Qed.

Lemma queue_list_init_ok ls s :
  ls ≠ NULL → q_tail ls ≠ NULL → is_Some (qnodes s !! q_head ls) →
  is_Some (qnodes s !! q_tail ls) →
  wp (queue_list_init ls)
     (λ _ s', queue_repr ls [] s' ∧ queue_frame (q_chain ls []) s s' ∧ qlog s' = qlog s) s.
Proof.
  intros Hh Ht [v Hv] [w Hw]. destruct s as [h log]. simpl in *.
  assert (q_head ls ≠ NULL) by done.
  assert (q_head ls ≠ q_tail ls) by (unfold q_head, q_tail; lia).
  unfold queue_list_init. q_run.
  split_and!; [|unfold q_chain; simpl; q_frame_tac|done].
  constructor; unfold q_chain; simpl; [|set_solver|by simplify_map_eq].
  rewrite !NoDup_cons. split_and!; [set_solver|set_solver|constructor].
Qed.

(** * The self-check *)

Lemma queue_check_loop_ok ls xs fuel tmp p s :
  NULL ∉ tmp :: xs ++ [q_tail ls] → NoDup (tmp :: xs ++ [q_tail ls]) →
  dseg (qnodes s) p (tmp :: xs ++ [q_tail ls]) NULL → (S (length xs) < fuel)%nat →
  wp (queue_check_loop fuel (q_tail ls) tmp) (λ r s', r = true ∧ s' = s) s.
Proof.
  revert fuel tmp p. induction xs as [|x xs IH]; intros [|k] tmp p Hnn Hnd [Ht Hd] Hk;
    simpl in *; try lia; destruct s as [h log]; simpl in *.
  - destruct Hd as [Hx _]. destruct k as [|k]; [lia|].
    assert (tmp ≠ NULL ∧ q_tail ls ≠ NULL) as [??] by set_solver.
    q_run. q_run. done.
  - destruct Hd as [Hx Hd]. assert (tmp ≠ NULL ∧ x ≠ NULL) as [??] by set_solver.
    assert (Hnn' : NULL ∉ x :: xs ++ [q_tail ls]) by set_solver.
    apply NoDup_cons in Hnd as [_ Hnd]. unfold in_q.
    q_run.

    apply (IH k x tmp); [done|done|done|lia].
Qed.

Lemma queue_list_check_ok ls xs fuel s :
  queue_repr ls xs s → (S (length xs) < fuel)%nat →
  wp (queue_list_check fuel ls) (λ r s', r = true ∧ s' = s) s.
Proof.
  intros [Hnd Hnn Hd] Hfuel. destruct s as [h log]. simpl in *.
  assert (q_head ls ≠ NULL ∧ q_tail ls ≠ NULL) as [??] by (unfold q_chain in *; set_solver).
  assert (Ht := dseg_mid _ _ (q_head ls :: xs) _ [] _ Hd). simpl in Ht.
  assert (Hh := proj1 Hd). simpl in Hh.
  unfold queue_list_check, in_q. wp_mem. simpl. wp_mem. simpl.
  by apply (queue_check_loop_ok ls xs fuel (q_head ls) NULL).
Qed.

Lemma nodup_dom_length {N} (h : gmap Z N) l :
  NoDup l → (∀ x, x ∈ l → is_Some (h !! x)) → (length l ≤ size (dom h))%nat.
Proof.
  intros Hnd Hl. rewrite <- (size_list_to_set (C := gset Z)) by done.
  apply subseteq_size. intros x Hx. apply elem_of_list_to_set in Hx.
  by apply elem_of_dom, Hl.
Qed.

(** The nodes [queue_list_check] has walked over, ending in [tmp]: a chain from
    the head, whose right end is still open. *)
Definition check_path (ls : Z) (h : gmap Z queue_node_t) (l : list Z) (tmp : Z) : Prop :=
  NoDup (l ++ [tmp]) ∧ NULL ∉ l ++ [tmp] ∧ dseg h NULL l tmp ∧
  (∃ n, h !! tmp = Some {| prev := last_or NULL l; qnext := n |}) ∧
  head_or tmp l = q_head ls.

Lemma check_path_bound ls h l tmp :
  check_path ls h l tmp → (length (l ++ [tmp]) ≤ size (dom h))%nat.
Proof.
  intros (Hnd & _ & Hd & [n Hn] & _). apply nodup_dom_length; [done|].
  intros x [Hx| ->%list_elem_of_singleton]%elem_of_app; [|by eexists].
  by eapply dseg_elem.
Qed.

(** A node whose left link is [tmp] was not walked over before. *)
Lemma check_path_fresh ls h l tmp x n :
  check_path ls h l tmp → h !! x = Some {| prev := tmp; qnext := n |} → x ∉ l ++ [tmp].
Proof.
  intros (Hnd & Hnn & Hd & [m Hm] & _) Hx Hin.
  assert (Hlast : ∀ l1, (l1 `prefix_of` l) → (last_or NULL l1 = tmp) → False).
  { intros l1 [l2 ->] Heq. destruct l1 as [|y l1] using rev_ind; simpl in *; [set_solver|].
    rewrite last_or_snoc in Heq. subst. apply NoDup_app in Hnd as (_ & Hnd & _).
    apply (Hnd tmp); set_solver. }
  apply elem_of_app in Hin as [Hin| ->%list_elem_of_singleton].
  - apply list_elem_of_split in Hin as (l1 & l2 & ->).
    apply dseg_mid in Hd. simplify_map_eq. eapply Hlast; [by apply prefix_app_r|done].
  - simplify_map_eq. by eapply (Hlast l).
Qed.

Lemma queue_check_loop_sound ls fuel l tmp s :
  check_path ls (qnodes s) l tmp → (size (dom (qnodes s)) < fuel + length l + 1)%nat →
  wpf (queue_check_loop fuel (q_tail ls) tmp)
      (λ r s', s' = s ∧ (r = true → ∃ xs, queue_repr ls xs s)) s.
Proof.
  revert l tmp. induction fuel as [|k IH]; intros l tmp Hp Hfuel.
  { apply check_path_bound in Hp. rewrite length_app in Hp. simpl in *. lia. }
  destruct s as [h log]. pose proof Hp as (Hnd & Hnn & Hd & [n Hn] & Hhd). simpl in *.
  unfold in_q. wp_step. apply wpf_load_next. intros ? _ Hn'. simplify_map_eq. simpl.
  destruct (Z.eqb_spec n NULL) as [->|Hn0]; simpl.
  - wp_step. split; [done|]. intros [= Ht%Z.eqb_eq]. destruct l as [|x l]; simpl in *.
    { unfold q_head, q_tail in *. lia. }
    subst x. exists l. constructor; unfold q_chain; rewrite Ht; try done.
    apply (dseg_app _ _ (_ :: _) [_]). simpl in *. done.
  - wp_step. apply wpf_load_next. intros ? Ht Hn'. simplify_map_eq. simpl.
    wp_step. apply wpf_load_prev. intros [p m] _ Hp'. simpl.
    destruct (Z.eqb_spec p tmp) as [->|]; simpl; [|by wp_step].
    wp_step. apply wpf_load_next. intros ? _ Hn'. simplify_map_eq. simpl.
    wp_step. apply wpf_load_prev. intros ? _ Hn'. simplify_map_eq. simpl.
    wp_step. apply wpf_load_next. intros ? _ Hn'. simplify_map_eq. simpl.
    rewrite Z.eqb_refl. simpl. apply (IH (l ++ [tmp])); [|rewrite length_app; simpl; lia].
    pose proof (check_path_fresh _ _ _ _ _ _ Hp Hp').
    split_and!; [nodup|set_solver| | |by rewrite head_or_app].
    + apply dseg_app. done.
    + rewrite last_or_snoc. eauto.
Qed.

(** C3: [queue_list_check] decides the queue's invariant.  With more fuel than
    there are nodes in memory its loop ends whatever the links are; it answers
    [true] exactly when the two sentinels and the nodes between them form a
    well-formed queue, and it changes nothing. *)
Theorem queue_list_check_correct ls fuel s :
  (size (dom (qnodes s)) < fuel)%nat →
  queue_list_check fuel ls s ≠ NoFuel ∧
  (queue_list_check fuel ls s = Done (true, s) ↔ ∃ xs, queue_repr ls xs s).
Proof.
  intros Hfuel.
  assert (Hw : wpf (queue_list_check fuel ls)
                   (λ r s', s' = s ∧ (r = true → ∃ xs, queue_repr ls xs s)) s).
  { destruct s as [h log]. simpl in *. unfold queue_list_check, in_q. wp_step.
    wp_step. apply wpf_load_prev. intros [p n] Hh Hn. simpl.
    destruct (Z.eqb_spec p NULL) as [->|]; simpl; [|by wp_step].
    wp_step. apply wpf_load_next. intros [p m] Ht Hm. simpl.
    destruct (Z.eqb_spec m NULL) as [->|]; simpl; [|by wp_step].
    apply (queue_check_loop_sound ls fuel []); [|simpl; lia].
    split_and!; [apply NoDup_singleton|set_solver|done|eauto|done]. }
  unfold wpf in Hw. split; [intros E; by rewrite E in Hw|]. split.
  - intros E. rewrite E in Hw. naive_solver.
  - intros [xs Hr].
    assert (length (q_chain ls xs) ≤ size (dom (qnodes s)))%nat as Hlen.
    { destruct Hr as [Hnd _ Hd]. apply nodup_dom_length; [done|].
      intros x Hx. by eapply dseg_elem. }
    unfold q_chain in Hlen. simpl in Hlen. rewrite length_app in Hlen. simpl in Hlen.
    destruct (wp_inv _ _ _ (queue_list_check_ok ls xs fuel s Hr ltac:(lia)))
      as (r & s' & -> & -> & ->). done.
Qed.

(** * Refinement to sequences *)

Inductive queue_call :=
  | QEnque (que : Z)
  | QPop
  | QTop
  | QIsEmpty
  | QFind (que : Z)
  | QCheck
  | QPrint
  | QRemove (que : Z)
  | QInsert (que prev : Z)
  | QInsertPrev (que next : Z).

Definition exec_queue (fuel : nat) (ls : Z) (c : queue_call) : St queue_state Z :=
  match c with
  | QEnque x => queue_list_enque ls x;; mret 0
  | QPop => queue_list_pop ls
  | QTop => queue_list_top ls
  | QIsEmpty => b ← queue_list_is_empty ls; mret (of_bool b)
  | QFind x => b ← queue_list_find fuel ls x; mret (of_bool b)
  | QCheck => b ← queue_list_check fuel ls; mret (of_bool b)
  | QPrint => queue_list_print fuel ls;; mret 0
  | QRemove x => queue_remove x;; mret 0
  | QInsert x y => queue_insert x y;; mret 0
  | QInsertPrev x y => queue_insert_prev x y;; mret 0
  end.
Fixpoint exec_queue_calls (fuel : nat) (ls : Z) (cs : list queue_call) :
    St queue_state (list Z) :=
  match cs with
  | [] => mret []
  | c :: cs' => r ← exec_queue fuel ls c; rs ← exec_queue_calls fuel ls cs'; mret (r :: rs)
  end.

(** [x] put to the right, or to the left, of [y]. *)
Fixpoint insert_after (x y : Z) (xs : list Z) : list Z :=
  match xs with
  | [] => []
  | z :: xs' => if z =? y then z :: x :: xs' else z :: insert_after x y xs'
  end.
Fixpoint insert_before (x y : Z) (xs : list Z) : list Z :=
  match xs with
  | [] => []
  | z :: xs' => if z =? y then x :: z :: xs' else z :: insert_before x y xs'
  end.

(** The result of a call, what it prints, and the sequence it leaves; [None]
    when the caller breaks the contract: it enters a null, sentinel or already
    queued node, or removes or names as neighbour a node that is not queued. *)
Definition queue_spec (ls : Z) (c : queue_call) (xs : list Z) :
    option (Z * list log_entry * list Z) :=
  match c with
  | QEnque x =>
      if decide (x ≠ NULL ∧ (x ∉ q_chain ls xs)) then Some (0, [], xs ++ [x]) else None
  | QPop =>
      match xs with
      | [] => Some (NULL, [Info (ln "# pop failed")], [])
      | x :: xs' => Some (x, [], xs')
      end
  | QTop =>
      match xs with
      | [] => Some (NULL, [Info (ln "# pop failed")], [])
      | x :: _ => Some (x, [], xs)
      end
  | QIsEmpty => Some (of_bool (bool_decide (xs = [])), [], xs)
  | QFind x => Some (of_bool (bool_decide (x ∈ xs)), [], xs)
  | QCheck => Some (1, [], xs)
  | QPrint => Some (0, [], xs)
  | QRemove x => if decide (x ∈ xs) then Some (0, [], filter (λ y, y ≠ x) xs) else None
  | QInsert x y =>
      if decide (x ≠ NULL ∧ (x ∉ q_chain ls xs) ∧ y ∈ xs)
      then Some (0, [], insert_after x y xs) else None
  | QInsertPrev x y =>
      if decide (x ≠ NULL ∧ (x ∉ q_chain ls xs) ∧ y ∈ xs)
      then Some (0, [], insert_before x y xs) else None
  end.
Fixpoint queue_specs (ls : Z) (cs : list queue_call) (xs : list Z) :
    option (list Z * list log_entry * list Z) :=
  match cs with
  | [] => Some ([], [], xs)
  | c :: cs' =>
      '(r, out, xs1) ← queue_spec ls c xs;
      '(rs, outs, xs2) ← queue_specs ls cs' xs1;
      Some (r :: rs, out ++ outs, xs2)
  end.

Definition queue_call_node (c : queue_call) : list Z :=
  match c with
  | QEnque x | QInsert x _ | QInsertPrev x _ => [x]
  | _ => []
  end.
Definition queue_call_nodes (cs : list queue_call) : list Z := cs ≫= queue_call_node.

(** A queued node stands between two others of the chain. *)
Lemma q_chain_around ls l1 x l2 :
  ∃ m1 a b m2, q_chain ls (l1 ++ x :: l2) = m1 ++ a :: x :: b :: m2 ∧
    (∀ ys, q_chain ls (l1 ++ ys ++ l2) = m1 ++ a :: ys ++ b :: m2).
Proof.
  unfold q_chain.
  assert (∃ m1 a, q_head ls :: l1 = m1 ++ [a]) as (m1 & a & E1).
  { destruct (exists_last (l := q_head ls :: l1)) as (m1 & a & ->); eauto. }
  assert (∃ b m2, l2 ++ [q_tail ls] = b :: m2) as (b & m2 & E2).
  { destruct l2; simpl; eauto. }
  assert (∀ ys, q_head ls :: (l1 ++ ys ++ l2) ++ [q_tail ls] = m1 ++ a :: ys ++ b :: m2) as Hys.
  { intros ys. trans ((q_head ls :: l1) ++ ys ++ (l2 ++ [q_tail ls])).
    - simpl. by rewrite <- !app_assoc.
    - rewrite E1, E2, <- app_assoc. done. }
  exists m1, a, b, m2. split; [apply (Hys [x])|exact Hys].
Qed.

Lemma insert_after_split x y l1 l2 :
  y ∉ l1 → insert_after x y (l1 ++ y :: l2) = l1 ++ [y; x] ++ l2.
Proof.
  induction l1 as [|z l1 IH]; intros Hy; simpl; [by rewrite Z.eqb_refl|].
  rewrite (proj2 (Z.eqb_neq z y)) by set_solver. rewrite IH by set_solver. done.
Qed.
Lemma insert_before_split x y l1 l2 :
  y ∉ l1 → insert_before x y (l1 ++ y :: l2) = l1 ++ [x; y] ++ l2.
Proof.
  induction l1 as [|z l1 IH]; intros Hy; simpl; [by rewrite Z.eqb_refl|].
  rewrite (proj2 (Z.eqb_neq z y)) by set_solver. rewrite IH by set_solver. done.
Qed.

Lemma queue_repr_nodup_xs ls xs s : queue_repr ls xs s → NoDup xs.
Proof. intros [Hnd _ _]. unfold q_chain in *. nodup. Qed.

(** What a call guarantees, given the memory it runs on. *)
Definition queue_call_post (ls : Z) (c : queue_call) (xs : list Z) (s : queue_state)
    (r : Z) (out : list log_entry) (xs' : list Z) (r' : Z) (s' : queue_state) : Prop :=
  r' = r ∧ queue_repr ls xs' s' ∧ qlog s' = qlog s ++ out ∧
  queue_frame (q_chain ls xs ++ queue_call_node c) s s' ∧
  (∀ a, a ∈ xs' → a ∈ xs ++ queue_call_node c).

Lemma queue_links_refines ls c xs s xs' x :
  queue_repr ls xs s → c = QRemove x ∨ (∃ y, c = QInsert x y) ∨ (∃ y, c = QInsertPrev x y) →
  (∀ n, n ∈ queue_call_node c → n ∈ dom (qnodes s)) →
  queue_spec ls c xs = Some (0, [], xs') →
  wp (match c with
      | QRemove x => queue_remove x
      | QInsert x y => queue_insert x y
      | QInsertPrev x y => queue_insert_prev x y
      | _ => mret tt
      end) (λ _ s', queue_call_post ls c xs s 0 [] xs' 0 s') s.
Proof.
  intros Hr Hc Hdom Hs. pose proof (queue_repr_nodup_xs _ _ _ Hr) as Hndx.
  destruct Hr as [Hnd Hnn Hd]. unfold queue_call_post.
  destruct Hc as [->|[[y ->]|[y ->]]]; cbn [queue_spec queue_call_node] in *; case_decide as Hpre; simplify_eq.
  - apply list_elem_of_split in Hpre as (l1 & l2 & ->).
    destruct (q_chain_around ls l1 x l2) as (m1 & a & b & m2 & Heq & Hext).
    rewrite Heq in *. eapply wp_mono; [by eapply queue_remove_mid|]. simpl.
    intros _ s' (Hd' & Hf & Hlog & _).
    assert (filter (λ y, y ≠ x) (l1 ++ x :: l2) = l1 ++ l2) as ->.
    { rewrite filter_app, filter_cons_False by (intros ?; done).
      rewrite !filter_ne_not_elem by nodup. done. }
    specialize (Hext []). simpl in Hext.
    split_and!; [done| |by rewrite app_nil_r|eapply queue_frame_weaken; [|done]; set_solver|set_solver].
    constructor; rewrite Hext; [nodup|set_solver|done].
  - destruct Hpre as (Hx0 & Hx & Hy). apply list_elem_of_split in Hy as (l1 & l2 & ->).
    rewrite insert_after_split by nodup.
    destruct (q_chain_around ls l1 y l2) as (m1 & a & b & m2 & Heq & Hext).
    rewrite Heq in *. specialize (Hext [y; x]). simpl in Hext.
    eapply wp_mono.
    { apply (queue_insert_mid NULL (m1 ++ [a]) y x b m2 NULL); rewrite <- ?app_assoc; simpl;
        [nodup|set_solver|done|apply elem_of_dom; set_solver]. }
    simpl. intros _ s' (Hd' & Hf & Hlog). rewrite <- app_assoc in Hd'.
    split_and!; [done| |by rewrite app_nil_r|eapply queue_frame_weaken; [|done]; set_solver|set_solver].
    constructor; rewrite Hext; [nodup|set_solver|done].
  - destruct Hpre as (Hx0 & Hx & Hy). apply list_elem_of_split in Hy as (l1 & l2 & ->).
    rewrite insert_before_split by nodup.
    destruct (q_chain_around ls l1 y l2) as (m1 & a & b & m2 & Heq & Hext).
    rewrite Heq in *. specialize (Hext [x; y]). simpl in Hext.
    eapply wp_mono.
    { apply (queue_insert_prev_mid NULL m1 a x y (b :: m2) NULL);
        [nodup|set_solver|done|apply elem_of_dom; set_solver]. }
    simpl. intros _ s' (Hd' & Hf & Hlog).
    split_and!; [done| |by rewrite app_nil_r|eapply queue_frame_weaken; [|done]; set_solver|set_solver].
    constructor; rewrite Hext; [nodup|set_solver|done].
Qed.

Lemma queue_size_bound ls xs s : queue_repr ls xs s → (S (length xs) < size (dom (qnodes s)))%nat.
Proof.
  intros [Hnd _ Hd].
  assert (length (q_chain ls xs) ≤ size (dom (qnodes s)))%nat as Hlen.
  { apply nodup_dom_length; [done|]. intros x Hx. by eapply dseg_elem. }
  unfold q_chain in Hlen. simpl in Hlen. rewrite length_app in Hlen. simpl in Hlen. lia.
Qed.

(** A call that reads the queue only. *)
Lemma queue_call_post_refl ls c xs s r :
  queue_repr ls xs s → queue_call_post ls c xs s r [] xs r s.
Proof. intros Hr. split_and!; [done..|by rewrite app_nil_r|done|set_solver]. Qed.

Lemma queue_call_post_print ls c xs s r e :
  queue_repr ls xs s →
  queue_call_post ls c xs s r [e] xs r {| qnodes := qnodes s; qlog := qlog s ++ [e] |}.
Proof. intros [???]. split_and!; [done|by constructor|done|done|set_solver]. Qed.

Lemma exec_queue_refines fuel ls c xs s r out xs' :
  queue_repr ls xs s → (size (dom (qnodes s)) ≤ fuel)%nat →
  (∀ n, n ∈ queue_call_node c → n ∈ dom (qnodes s)) →
  queue_spec ls c xs = Some (r, out, xs') →
  wp (exec_queue fuel ls c) (queue_call_post ls c xs s r out xs') s.
Proof.
  intros Hr Hfuel Hdom Hs. pose proof (queue_size_bound _ _ _ Hr) as Hsize.
  destruct c as [x| | | |x| | |x|x y|x y]; cbn [exec_queue]; wp_step.
  - simpl in Hs. case_decide as Hx; simplify_eq. destruct Hx as [??].
    eapply wp_mono; [apply queue_list_enque_ok; try done; apply elem_of_dom; set_solver|].
    intros _ s' (? & ? & Hlog). wp_step. unfold queue_call_post. rewrite Hlog.
    split_and!; [done..|by rewrite app_nil_r| |set_solver].
    eapply queue_frame_weaken; [|done]. set_solver.
  - destruct xs as [|x xs]; simplify_eq/=.
    + unfold queue_list_pop, qprint. wp_step. eapply queue_is_empty_ok; [done|].
      simpl. by apply queue_call_post_print.
    + eapply wp_mono; [by apply queue_list_pop_ok|].
      intros ? s' (-> & ? & ? & Hlog). unfold queue_call_post. rewrite Hlog.
      split_and!; [done..|by rewrite app_nil_r|by rewrite app_nil_r|set_solver].
  - unfold queue_list_top, qprint. wp_step. eapply queue_is_empty_ok; [done|].
    destruct xs as [|x xs]; simplify_eq/=; [by apply queue_call_post_print|].
    destruct s as [h log]. pose proof Hr as [_ Hnn [Hh _]]. simpl in *.
    assert (q_head ls ≠ NULL) by (unfold q_chain in *; set_solver).
    unfold in_q. wp_mem. by apply queue_call_post_refl.
  - simplify_eq/=. eapply queue_is_empty_ok; [done|]. wp_step. by apply queue_call_post_refl.
  - simplify_eq/=. eapply wp_mono; [apply queue_list_find_ok; [done|lia]|].
    intros ? ? [-> ->]. wp_step. by apply queue_call_post_refl.
  - simplify_eq/=. eapply wp_mono; [eapply queue_list_check_ok; [done|lia]|].
    intros ? ? [-> ->]. wp_step. by apply queue_call_post_refl.
  - simplify_eq/=. eapply wp_mono; [eapply queue_list_print_ok; [done|lia]|].
    intros ? ? ->. wp_step. by apply queue_call_post_refl.
  - assert (r = 0 ∧ out = []) as [-> ->] by (simpl in Hs; case_decide; by simplify_eq).
    eapply wp_mono; [by apply (queue_links_refines ls (QRemove x) xs s xs' x); eauto|].
    intros [] s' Hpost. by wp_step.
  - assert (r = 0 ∧ out = []) as [-> ->] by (simpl in Hs; case_decide; by simplify_eq).
    eapply wp_mono; [by apply (queue_links_refines ls (QInsert x y) xs s xs' x); eauto|].
    intros [] s' Hpost. by wp_step.
  - assert (r = 0 ∧ out = []) as [-> ->] by (simpl in Hs; case_decide; by simplify_eq).
    eapply wp_mono; [by apply (queue_links_refines ls (QInsertPrev x y) xs s xs' x); eauto|].
    intros [] s' Hpost. by wp_step.
Qed.

(** C2: the queue of lib/queue.c implements a first-in first-out sequence.  Any
    sequence of calls that respects the contract returns, with no access to a
    null or unmapped node; results and printed messages are those of the same
    calls on the sequence, the chain between the sentinels is well formed for
    the resulting sequence, and no node outside it and the arguments changes.
    The searching loops end within as many steps as there are nodes. *)
Theorem queue_refinement fuel ls cs xs s rs outs xs' :
  queue_repr ls xs s → (size (dom (qnodes s)) ≤ fuel)%nat →
  (∀ n, n ∈ queue_call_nodes cs → n ∈ dom (qnodes s)) →
  queue_specs ls cs xs = Some (rs, outs, xs') →
  wp (exec_queue_calls fuel ls cs)
     (λ rs' s', rs' = rs ∧ queue_repr ls xs' s' ∧ qlog s' = qlog s ++ outs ∧
                queue_frame (q_chain ls xs ++ queue_call_nodes cs) s s') s.
Proof.
  revert xs s rs outs xs'.
  induction cs as [|c cs IH]; intros xs s rs outs xs' Hr Hfuel Hdom Hs;
    cbn [exec_queue_calls queue_specs] in *.
  { simplify_eq. wp_step. split_and!; [done..|by rewrite app_nil_r|done]. }
  change (queue_call_nodes (c :: cs)) with (queue_call_node c ++ queue_call_nodes cs) in *.
  destruct (queue_spec ls c xs) as [[[r out] xs1]|] eqn:Hc; [|done]. simpl in Hs.
  destruct (queue_specs ls cs xs1) as [[[rs2 outs2] xs2]|] eqn:Hcs; simplify_eq/=.
  wp_step. eapply wp_mono; [apply (exec_queue_refines fuel ls c xs); [done..|set_solver|done]|].
  intros ? s1 (-> & Hr1 & Hl1 & [Hd1 Hf1] & Hsub). wp_step.
  eapply wp_mono; [apply (IH xs1); [done|by rewrite Hd1|rewrite Hd1; set_solver|done]|].
  intros ? s2 (-> & Hr2 & Hl2 & [Hd2 Hf2]). wp_step.
  split_and!; [done|done|by rewrite Hl2, Hl1, app_assoc|split; [congruence|]].
  intros a Ha. rewrite Hf2, Hf1; [done|set_solver|]. unfold q_chain in *. set_solver.
Qed.

Definition demo_queue : queue_state :=
  {| qnodes := <[32 := {| prev := NULL; qnext := 48 |}]>
      (<[48 := {| prev := 32; qnext := NULL |}]>
        (list_to_map ((λ a, (a, {| prev := 5; qnext := 5 |})) <$> [64; 80; 96])));
     qlog := [] |}.
Definition demo_queue_calls : list queue_call :=
  [QPop; QEnque 64; QEnque 80; QInsertPrev 96 80; QCheck; QFind 80; QRemove 80; QPop; QTop].

Lemma queue_refinement_witness :
  wp (exec_queue_calls 6 32 demo_queue_calls)
     (λ rs' s', rs' = [0; 0; 0; 0; 1; 1; 0; 64; 96] ∧ queue_repr 32 [96] s' ∧
                qlog s' = qlog demo_queue ++ [Info (ln "# pop failed")] ∧
                queue_frame (q_chain 32 [] ++ queue_call_nodes demo_queue_calls)
                  demo_queue s') demo_queue.
Proof.
  apply (queue_refinement 6 32 demo_queue_calls [] demo_queue).
  - constructor; unfold q_chain, q_head, q_tail; simpl.
    + rewrite !NoDup_cons. split_and!; [set_solver..|constructor].
    + set_solver.
    + by vm_compute.
  - apply Nat.leb_le. by vm_compute.
  - intros n Hn. apply elem_of_dom.
    repeat (apply elem_of_cons in Hn as [->|Hn]; [by eexists|]). by apply elem_of_nil in Hn.
  - by vm_compute.
Defined.

Lemma queue_list_check_correct_witness :
  queue_list_check 6 32 demo_queue ≠ NoFuel ∧
  (queue_list_check 6 32 demo_queue = Done (true, demo_queue) ↔ ∃ xs, queue_repr 32 xs demo_queue).
Proof. apply (queue_list_check_correct 32 6 demo_queue). apply Nat.ltb_lt. by vm_compute. Defined.
