(* ===== verification/Trees.v ===== *)
(** Red-black trees: the trees [lib/rbtree.c] builds, each node with its
    address; the path from a node to the root; balance and contents. *)

From S2P Require Import Prelude.

(** [node_color_t] of [include/rbtree.h]. *)
Inductive node_color := NODE_RED | NODE_BLACK.
#[export] Instance node_color_eq_dec : EqDecision node_color.
Proof. solve_decision. Defined.

Inductive tree :=
  | Leaf
  | Node (p : Z) (c : node_color) (l : tree) (k v : Z) (r : tree).

Definition root (t : tree) : Z := match t with Leaf => NULL | Node p _ _ _ _ _ => p end.
Definition color_of (t : tree) : node_color := match t with Leaf => NODE_BLACK | Node _ c _ _ _ _ => c end.
Definition paint (c : node_color) (t : tree) : tree :=
  match t with Leaf => Leaf | Node p _ l k v r => Node p c l k v r end.

(** The addresses of the nodes, and the pairs of keys and values from left to right. *)
Fixpoint addrs (t : tree) : list Z :=
  match t with Leaf => [] | Node p _ l _ _ r => p :: addrs l ++ addrs r end.
Fixpoint contents (t : tree) : list (Z * Z) :=
  match t with Leaf => [] | Node _ _ l k v r => contents l ++ (k, v) :: contents r end.

(** A node on the path to the root, without the subtree the path comes from,
    which is its left or its right one.  A path lists the innermost first. *)
Inductive frame :=
  | InLeft (p : Z) (c : node_color) (k v : Z) (r : tree)
  | InRight (p : Z) (c : node_color) (l : tree) (k v : Z).
Abbreviation path := (list frame).

Definition frame_node (f : frame) : Z := match f with InLeft p _ _ _ _ | InRight p _ _ _ _ => p end.
Definition frame_color (f : frame) : node_color := match f with InLeft _ c _ _ _ | InRight _ c _ _ _ => c end.
Definition frame_tree (f : frame) : tree := match f with InLeft _ _ _ _ t | InRight _ _ t _ _ => t end.
Definition plug (f : frame) (t : tree) : tree :=
  match f with InLeft p c k v r => Node p c t k v r | InRight p c l k v => Node p c l k v t end.
Definition plug_all (ctx : path) (t : tree) : tree := foldl (λ t f, plug f t) t ctx.
(** The parent of the node the path starts from. *)
Definition up (ctx : path) : Z := match ctx with [] => NULL | f :: _ => frame_node f end.

Definition frame_addrs (f : frame) : list Z := frame_node f :: addrs (frame_tree f).
Definition path_addrs (ctx : path) : list Z := flat_map frame_addrs ctx.
Fixpoint before (ctx : path) : list (Z * Z) :=
  match ctx with
  | [] => []
  | InLeft _ _ _ _ _ :: ctx => before ctx
  | InRight _ _ l k v :: ctx => before ctx ++ contents l ++ [(k, v)]
  end.
Fixpoint after (ctx : path) : list (Z * Z) :=
  match ctx with
  | [] => []
  | InLeft _ _ k v r :: ctx => (k, v) :: contents r ++ after ctx
  | InRight _ _ _ _ _ :: ctx => after ctx
  end.

Lemma plug_all_app c1 c2 t : plug_all (c1 ++ c2) t = plug_all c2 (plug_all c1 t).
Proof. apply foldl_app. Qed.
Lemma addrs_plug_all ctx t : addrs (plug_all ctx t) ≡ₚ addrs t ++ path_addrs ctx.
Proof.
  revert t. induction ctx as [|f ctx IH]; intros t; simpl; [by rewrite app_nil_r|].
  rewrite IH. destruct f; simpl; solve_Permutation.
Qed.
Lemma contents_plug_all ctx t : contents (plug_all ctx t) = before ctx ++ contents t ++ after ctx.
Proof.
  revert t. induction ctx as [|f ctx IH]; intros t; simpl; [by rewrite app_nil_r|].
  rewrite IH. destruct f; simpl; by rewrite <- ?app_assoc.
Qed.
Lemma before_app c1 c2 : before (c1 ++ c2) = before c2 ++ before c1.
Proof. induction c1 as [|[] c1 IH]; simpl; rewrite ?app_nil_r, ?IH; [done..|]. by rewrite <- app_assoc. Qed.
Lemma after_app c1 c2 : after (c1 ++ c2) = after c1 ++ after c2.
Proof. induction c1 as [|[] c1 IH]; simpl; rewrite ?IH; [done| |done]. by rewrite <- app_assoc. Qed.
Lemma path_addrs_app c1 c2 : path_addrs (c1 ++ c2) = path_addrs c1 ++ path_addrs c2.
Proof. apply flat_map_app. Qed.

Lemma path_addrs_cons f ctx : path_addrs (f :: ctx) = frame_node f :: addrs (frame_tree f) ++ path_addrs ctx.
Proof. done. Qed.

(** * Balance

    [rb c n t]: below a node of the colour [c], [t] has no two red nodes in a row
    and [n] black nodes on every way down.  The root of a whole tree is black, as
    below a red node. *)

Fixpoint rb (c : node_color) (n : nat) (t : tree) : Prop :=
  match t with
  | Leaf => n = 0%nat
  | Node _ NODE_RED l _ _ r => c = NODE_BLACK ∧ rb NODE_RED n l ∧ rb NODE_RED n r
  | Node _ NODE_BLACK l _ _ r =>
      match n with O => False | S m => rb NODE_BLACK m l ∧ rb NODE_BLACK m r end
  end.
(** The path makes a balanced tree of a subtree [t] with [rb c n t]. *)
Fixpoint rb_path (c : node_color) (n : nat) (ctx : path) : Prop :=
  match ctx with
  | [] => c = NODE_RED
  | f :: ctx =>
      c = frame_color f ∧ rb c n (frame_tree f) ∧
      match c with
      | NODE_RED => rb_path NODE_BLACK n ctx
      | NODE_BLACK => ∃ c', rb_path c' (S n) ctx
      end
  end.

Lemma rb_black c n t : rb NODE_RED n t → rb c n t.
Proof. destruct t as [|p [] l k v r]; simpl; [done|naive_solver|done]. Qed.
Lemma rb_weaken c n t : rb c n t → rb NODE_BLACK n t.
Proof. destruct c; [apply rb_black|done]. Qed.
Lemma rb_red n t : rb NODE_BLACK n t → color_of t = NODE_BLACK → rb NODE_RED n t.
Proof. destruct t as [|p [] l k v r]; simpl; [done|naive_solver|done]. Qed.

Lemma rb_plug_all ctx c n t : rb c n t → rb_path c n ctx → ∃ m, rb NODE_RED m (plug_all ctx t).
Proof.
  revert c n t. induction ctx as [|f ctx IH]; intros c n t Ht Hc; simpl in *; [subst; eauto|].
  destruct Hc as (-> & Hs & Hc). destruct f as [p [] k v r|p [] l k v]; simpl in *.
  - apply (IH NODE_BLACK n); simpl; auto.
  - destruct Hc as [c' Hc]. apply (IH c' (S n)); simpl; auto.
  - apply (IH NODE_BLACK n); simpl; auto.
  - destruct Hc as [c' Hc]. apply (IH c' (S n)); simpl; auto.
Qed.
Lemma rb_unplug_all ctx m t : rb NODE_RED m (plug_all ctx t) → ∃ c n, rb c n t ∧ rb_path c n ctx.
Proof.
  revert t. induction ctx as [|f ctx IH]; intros t Ht; simpl in *; [exists NODE_RED, m; eauto|].
  apply IH in Ht as (c & n & Ht & Hc). destruct f as [p [] k v r|p [] l k v]; simpl in *.
  - destruct Ht as (-> & ? & ?). exists NODE_RED, n. auto.
  - destruct n as [|n]; [done|]. destruct Ht. exists NODE_BLACK, n. eauto.
  - destruct Ht as (-> & ? & ?). exists NODE_RED, n. auto.
  - destruct n as [|n]; [done|]. destruct Ht. exists NODE_BLACK, n. eauto.
Qed.

(** The depth is at most twice the logarithm of the number of nodes. *)
Fixpoint depth (t : tree) : nat := match t with Leaf => 0 | Node _ _ l _ _ r => S (Nat.max (depth l) (depth r)) end.

Lemma rb_depth c n t : rb c n t → (depth t ≤ 2 * n + match c with NODE_RED => 0 | NODE_BLACK => 1 end)%nat.
Proof.
  revert c n. induction t as [|p c' l IHl k v r IHr]; intros c n Ht; simpl in *; [lia|].
  destruct c'.
  - destruct Ht as (-> & Hl%IHl & Hr%IHr). lia.
  - destruct n as [|n]; [done|]. destruct Ht as [Hl%IHl Hr%IHr]. destruct c; lia.
Qed.
Lemma rb_size c n t : rb c n t → (2 ^ n ≤ length (addrs t) + 1)%nat.
Proof.
  revert c n. induction t as [|p c' l IHl k v r IHr]; intros c n Ht; simpl in *; [by subst|].
  rewrite length_app. destruct c'.
  - destruct Ht as (-> & Hl%IHl & Hr%IHr). lia.
  - destruct n as [|n]; [done|]. destruct Ht as [Hl%IHl Hr%IHr]. simpl. lia.
Qed.
Lemma rb_logarithmic n t : rb NODE_RED n t → (depth t ≤ 2 * Nat.log2 (length (addrs t) + 1))%nat.
Proof.
  intros Ht. pose proof (rb_depth _ _ _ Ht). pose proof (rb_size _ _ _ Ht).
  assert (n ≤ Nat.log2 (length (addrs t) + 1))%nat; [|simpl in *; lia].
  apply Nat.log2_le_pow2; lia.
Qed.

(** * Order

    [comp a b] is positive when [b] belongs to the right of [a]. *)
Class Comparison (comp : Z → Z → Z) := {
  comp_flip a b : 0 < comp a b ↔ comp b a < 0;
  comp_trans a b c : 0 ≤ comp a b → 0 ≤ comp b c → 0 ≤ comp a c;
}.

Section order.
#[local] Set Default Proof Using "Type*".
Context (comp : Z → Z → Z) `{Hcomp : Comparison comp}.

Definition sorted (l : list (Z * Z)) : Prop := StronglySorted (λ e e', 0 ≤ comp (fst e) (fst e')) l.

(** The place of a new key: before the keys that are not less. *)
Fixpoint insert_item (key value : Z) (l : list (Z * Z)) : list (Z * Z) :=
  match l with
  | [] => [(key, value)]
  | e :: l' => if 0 <? comp (fst e) key then e :: insert_item key value l' else (key, value) :: l
  end.

Lemma insert_item_app key value l1 l2 :
  Forall (λ e, 0 < comp (fst e) key) l1 → Forall (λ e, comp (fst e) key ≤ 0) l2 →
  insert_item key value (l1 ++ l2) = l1 ++ (key, value) :: l2.
Proof.
  intros H1 H2. induction H1 as [|e l1 He _ IH]; simpl.
  - destruct H2 as [|e l2 He _]; simpl; [done|]. by rewrite (proj2 (Z.ltb_ge _ _)) by done.
  - rewrite (proj2 (Z.ltb_lt _ _)) by done. by rewrite IH.
Qed.
Lemma comp_left a b k : 0 ≤ comp a b → 0 < comp b k → 0 < comp a k.
Proof.
  intros Hab Hbk. destruct (Z.lt_ge_cases 0 (comp a k)) as [|Hak]; [done|].
  assert (0 ≤ comp k a) as Hka.
  { destruct (Z.lt_ge_cases (comp k a) 0) as [Hlt|]; [|done]. apply comp_flip in Hlt. lia. }
  pose proof (comp_trans _ _ _ Hka Hab). apply comp_flip in Hbk. lia.
Qed.
Lemma comp_right a b k : comp a k ≤ 0 → 0 ≤ comp a b → comp b k ≤ 0.
Proof. intros Hak Hab. destruct (Z.lt_ge_cases 0 (comp b k)) as [Hbk|]; [|done]. pose proof (comp_left _ _ _ Hab Hbk). lia. Qed.

Lemma sorted_app l1 e l2 :
  sorted (l1 ++ e :: l2) →
  Forall (λ e', 0 ≤ comp (fst e') (fst e)) l1 ∧ Forall (λ e', 0 ≤ comp (fst e) (fst e')) l2.
Proof.
  intros Hs. split; [|apply StronglySorted_app_1_r in Hs; by apply StronglySorted_inv in Hs as [_ Hs]].
  apply Forall_forall. intros e' He'. apply StronglySorted_app in Hs as (Hx & _). apply Hx; [done|by left].
Qed.
Lemma sorted_split key l1 e l2 :
  sorted (l1 ++ e :: l2) →
  (0 < comp (fst e) key → Forall (λ e', 0 < comp (fst e') key) l1) ∧
  (comp (fst e) key ≤ 0 → Forall (λ e', comp (fst e') key ≤ 0) l2).
Proof.
  intros [H1 H2]%sorted_app. split; intros He; (eapply Forall_impl; [eassumption|]); simpl; intros e' He'.
  - by eapply comp_left.
  - by eapply comp_right.
Qed.
Lemma sorted_insert key value l1 l2 :
  sorted (l1 ++ l2) → Forall (λ e, 0 < comp (fst e) key) l1 → Forall (λ e, comp (fst e) key ≤ 0) l2 →
  sorted (l1 ++ (key, value) :: l2).
Proof.
  intros Hs H1 H2. apply StronglySorted_app in Hs as (Hx & Hs1 & Hs2). apply StronglySorted_app. split_and!.
  - intros e e' He [->|He']%elem_of_cons; [|by apply Hx]. rewrite Forall_forall in H1. simpl. apply H1 in He. lia.
  - done.
  - constructor; [done|]. eapply Forall_impl; [done|]. simpl. intros e' He'.
    destruct (Z.lt_ge_cases (comp key (fst e')) 0) as [Hlt|]; [|done]. apply comp_flip in Hlt. lia.
Qed.

(** ** Insertion

    The way down to the place of a new key. *)
Fixpoint descend (key : Z) (t : tree) (ctx : path) : path :=
  match t with
  | Leaf => ctx
  | Node p c l k v r =>
      if 0 <? comp k key then descend key r (InRight p c l k v :: ctx)
      else descend key l (InLeft p c k v r :: ctx)
  end.

Lemma descend_plug key t ctx : plug_all (descend key t ctx) Leaf = plug_all ctx t.
Proof. revert ctx. induction t as [|p c l IHl k v r IHr]; intros ctx; simpl; [done|]. case_match; by rewrite ?IHl, ?IHr. Qed.
Lemma descend_order key t ctx :
  sorted (contents (plug_all ctx t)) →
  Forall (λ e, 0 < comp (fst e) key) (before ctx) → Forall (λ e, comp (fst e) key ≤ 0) (after ctx) →
  Forall (λ e, 0 < comp (fst e) key) (before (descend key t ctx)) ∧
  Forall (λ e, comp (fst e) key ≤ 0) (after (descend key t ctx)).
Proof.
  revert ctx. induction t as [|p c l IHl k v r IHr]; intros ctx Hs Hb Ha; simpl; [done|].
  pose proof Hs as Hs'. rewrite contents_plug_all in Hs'. simpl in Hs'. rewrite <- !app_assoc in Hs'.
  rewrite app_assoc in Hs'. cbn [app] in Hs'. pose proof (sorted_split key _ _ _ Hs') as [H1 H2]. cbn [fst] in *.
  destruct (Z.ltb_spec 0 (comp k key)) as [Hk|Hk].
  - apply IHr; [done| |done]. simpl. rewrite app_assoc. apply Forall_app. split; [by apply H1|]. by repeat constructor.
  - apply IHl; [done|done|]. simpl. constructor; [done|]. by apply H2.
Qed.
Lemma descend_length key t ctx : (length (descend key t ctx) ≤ depth t + length ctx)%nat.
Proof.
  revert ctx. induction t as [|p c l IHl k v r IHr]; intros ctx; simpl; [lia|].
  case_match; [specialize (IHr (InRight p c l k v :: ctx))|specialize (IHl (InLeft p c k v r :: ctx))]; simpl in *; lia.
Qed.
End order.

(** * The repair after an insertion

    One turn of the loop, from the red node [t] below the red node [f1]: the
    tree that takes the place of the one below [f2]. *)

Definition is_red (c : node_color) : bool := match c with NODE_RED => true | NODE_BLACK => false end.

Definition repair_step (f2 f1 : frame) (t : tree) : tree :=
  if is_red (color_of (frame_tree f2)) then
    match f2 with
    | InLeft g _ kg vg u => plug (InLeft g NODE_RED kg vg (paint NODE_BLACK u))
    | InRight g _ u kg vg => plug (InRight g NODE_RED (paint NODE_BLACK u) kg vg)
    end match f1 with
        | InLeft p _ kp vp s => plug (InLeft p NODE_BLACK kp vp s) t
        | InRight p _ s kp vp => plug (InRight p NODE_BLACK s kp vp) t
        end
  else
    match f2, f1, t with
    | InLeft g _ kg vg u, InLeft p _ kp vp s, _ =>
        Node p NODE_BLACK t kp vp (Node g NODE_RED s kg vg u)
    | InLeft g _ kg vg u, InRight p _ s kp vp, Node x _ a kx vx b =>
        Node g NODE_RED (Node p NODE_BLACK s kp vp a) kx vx (Node x NODE_BLACK b kg vg u)
    | InRight g _ u kg vg, InRight p _ s kp vp, Node x c a kx vx b =>
        Node g NODE_BLACK (Node x c u kg vg s) kp vp (Node p NODE_RED a kx vx b)
    | InRight g _ u kg vg, InLeft p _ kp vp s, Node x _ a kx vx b =>
        Node g NODE_RED (Node x NODE_BLACK u kg vg a) kx vx (Node p NODE_BLACK b kp vp s)
    | _, _, Leaf => Leaf
    end.
Fixpoint repair (ctx : path) (t : tree) : tree :=
  match ctx with
  | f1 :: f2 :: ctx' =>
      if is_red (color_of t) && is_red (frame_color f1) then
        let t' := repair_step f2 f1 t in
        match ctx' with [] => paint NODE_BLACK t' | _ => repair ctx' t' end
      else plug_all ctx t
  | _ => plug_all ctx t
  end.

Lemma contents_paint c t : contents (paint c t) = contents t.
Proof. by destruct t. Qed.
Lemma addrs_paint c t : addrs (paint c t) = addrs t.
Proof. by destruct t. Qed.
Lemma repair_step_contents f2 f1 t : t ≠ Leaf → contents (repair_step f2 f1 t) = contents (plug f2 (plug f1 t)).
Proof.
  intros Ht. unfold repair_step. destruct (is_red _).
  - destruct f2, f1; cbn [plug contents]; by rewrite ?contents_paint.
  - destruct f2, f1, t; try done; cbn [plug contents];
      repeat (rewrite <- !app_assoc || rewrite <- app_comm_cons); done.
Qed.
Lemma repair_step_addrs f2 f1 t : t ≠ Leaf → addrs (repair_step f2 f1 t) ≡ₚ addrs (plug f2 (plug f1 t)).
Proof.
  intros Ht. unfold repair_step. destruct (is_red _).
  - destruct f2, f1; cbn [plug addrs]; by rewrite ?addrs_paint.
  - destruct f2, f1, t; try done; cbn [plug addrs]; solve_Permutation.
Qed.
Lemma repair_step_node f2 f1 t : t ≠ Leaf → repair_step f2 f1 t ≠ Leaf.
Proof. intros Ht. unfold repair_step. destruct (is_red _), f2, f1, t; done. Qed.

Section repair.
(** Induction over the path two nodes at a time. *)
Lemma path_ind2 (P : path → Prop) :
  P [] → (∀ f, P [f]) → (∀ f1 f2 ctx, P ctx → P (f1 :: f2 :: ctx)) → ∀ ctx, P ctx.
Proof. intros H0 H1 H2. fix IH 1. intros [|f1 [|f2 ctx]]; [done|done|]. apply H2, IH. Qed.

Lemma repair_contents ctx t : t ≠ Leaf → contents (repair ctx t) = contents (plug_all ctx t).
Proof.
  revert t. induction ctx as [|f|f1 f2 ctx IH] using path_ind2; intros t Ht; simpl; [done..|].
  case_match; [|done]. trans (contents (plug_all ctx (repair_step f2 f1 t))).
  - destruct ctx; [apply contents_paint|]. by apply IH, repair_step_node.
  - fold (plug_all ctx (plug f2 (plug f1 t))). by rewrite !contents_plug_all, repair_step_contents.
Qed.
Lemma repair_addrs ctx t : t ≠ Leaf → addrs (repair ctx t) ≡ₚ addrs (plug_all ctx t).
Proof.
  revert t. induction ctx as [|f|f1 f2 ctx IH] using path_ind2; intros t Ht; simpl; [done..|].
  case_match; [|done]. trans (addrs (plug_all ctx (repair_step f2 f1 t))).
  - destruct ctx; [by rewrite addrs_paint|]. by apply IH, repair_step_node.
  - fold (plug_all ctx (plug f2 (plug f1 t))). by rewrite !addrs_plug_all, repair_step_addrs.
Qed.

(** A red node whose children are in order, whatever is above. *)
Definition red_node (n : nat) (t : tree) : Prop := color_of t = NODE_RED ∧ rb NODE_BLACK n t.

Lemma repair_step_rb n f1 f2 t :
  red_node n t → frame_color f1 = NODE_RED → rb NODE_RED n (frame_tree f1) →
  frame_color f2 = NODE_BLACK → rb NODE_BLACK n (frame_tree f2) →
  let t' := repair_step f2 f1 t in red_node (S n) t' ∨ (color_of t' = NODE_BLACK ∧ rb NODE_RED (S n) t').
Proof.
  intros [Ht Hn] H1 Hs H2 Hu. unfold repair_step, red_node.
  destruct (is_red (color_of (frame_tree f2))) eqn:Hc.
  - left. assert (∀ u, is_red (color_of u) = true → rb NODE_BLACK n u → rb NODE_RED (S n) (paint NODE_BLACK u)) as Hp.
    { intros [|q [] a k v b]; [done| |done]. simpl. intros _ (_ & ? & ?). split; by apply rb_black. }
    destruct f2, f1; simpl in *; split_and!; eauto using rb_black.
  - assert (rb NODE_RED n (frame_tree f2)) as Hu'.
    { apply rb_red; [done|]. by destruct (color_of (frame_tree f2)). }
    destruct t as [|x [] a kx vx b]; [done| |done]. destruct Hn as (_ & Ha & Hb). simpl in *.
    destruct f2, f1; simpl in *; [right|left|left|right]; split_and!; auto using rb_black.
Qed.

Lemma repair_rb n c ctx t :
  ctx ≠ [] → red_node n t → rb_path c n ctx → ∃ m, rb NODE_RED m (repair ctx t).
Proof.
  revert n c t. induction ctx as [|f|f1 f2 ctx IH] using path_ind2; intros n c t Hne [Ht Hn] Hc; [done| |].
  - destruct Hc as (-> & Hs & Hc). destruct (frame_color f) eqn:Hf; [simpl in Hc; done|].
    destruct Hc as [c' Hc]. apply (rb_plug_all [f] NODE_BLACK n); [done|]. simpl. rewrite Hf. eauto.
  - cbn [repair]. rewrite Ht. simpl. destruct (is_red (frame_color f1)) eqn:H1.
    + destruct (frame_color f1) eqn:H1'; [|done]. cbn [rb_path] in Hc. rewrite H1' in Hc.
      destruct Hc as (-> & Hs & H2 & Hu & Hc).
      destruct Hc as [c' Hc]. destruct (repair_step_rb n f1 f2 t) as [Hr|[Hb Hr]]; [done..| |].
      * destruct ctx as [|f ctx]; [|by eapply IH]. simpl in Hc. subst.
        destruct Hr as [Hr Hr']. destruct (repair_step f2 f1 t) as [|q [] a k v b]; [done| |done].
        exists (S (S n)). simpl in *. destruct Hr' as (_ & ? & ?). split; by apply rb_black.
      * destruct ctx as [|f ctx].
        { exists (S n). by destruct (repair_step f2 f1 t) as [|q [] a k v b]. }
        destruct (rb_plug_all (f :: ctx) c' (S n) (repair_step f2 f1 t)) as [m Hm]; [by destruct c'; [|apply rb_black]|done|].
        exists m. destruct ctx; simpl in *; [done|]. by rewrite Hb.
    + destruct (frame_color f1) eqn:H1'; [done|]. apply (rb_plug_all (f1 :: f2 :: ctx) c n); [|done].
      destruct Hc as (-> & _). by rewrite H1'.
Qed.
End repair.

(** * The repair after a deletion

    One turn of the loop at a subtree that lacks a black node, below the node
    [f]: the nodes the subtree then is below, of which the first list belongs to
    the next subtree and the second list is still above it, and whether that
    subtree lacks a black node. *)
Definition rebalance_step (f : frame) : path * path * bool :=
  match f with
  | InLeft p c k v (Node s NODE_BLACK l ks vs r) =>
      match l, r with
      | Node w NODE_RED wl kw vw wr, _ =>
          ([InLeft w NODE_BLACK k v wl; InLeft p c kw vw (Node s NODE_BLACK wr ks vs r)], [], false)
      | _, Node w NODE_RED wl kw vw wr =>
          ([InLeft s NODE_BLACK k v l; InLeft p c ks vs (Node w NODE_BLACK wl kw vw wr)], [], false)
      | _, _ => ([InLeft p NODE_BLACK k v (Node s NODE_RED l ks vs r)], [], negb (is_red c))
      end
  | InLeft p c k v (Node s NODE_RED l ks vs r) =>
      ([], [InLeft s NODE_RED k v l; InLeft p c ks vs r], true)
  | InRight p c (Node s NODE_BLACK l ks vs r) k v =>
      match r, l with
      | Node w NODE_RED wl kw vw wr, _ =>
          ([InRight w NODE_BLACK wr k v; InRight p c (Node s NODE_BLACK l ks vs wl) kw vw], [], false)
      | _, Node w NODE_RED wl kw vw wr =>
          ([InRight s NODE_BLACK r k v; InRight p c (Node w NODE_BLACK wl kw vw wr) ks vs], [], false)
      | _, _ => ([InRight p NODE_BLACK (Node s NODE_RED l ks vs r) k v], [], negb (is_red c))
      end
  | InRight p c (Node s NODE_RED l ks vs r) k v =>
      ([], [InRight s NODE_RED r k v; InRight p c l ks vs], true)
  | _ => ([f], [], false)
  end.

(** The cases of [rebalance_step]. *)
Ltac rebalance_cases f :=
  destruct f as [p c k v [|s [] l ks vs r]|p c [|s [] l ks vs r] k v]; destruct c; try done;
  lazymatch goal with
  | |- context [Node s NODE_BLACK l ks vs r] => destruct l as [|w [] wl kw vw wr], r as [|w' [] wl' kw' vw' wr']
  | _ => idtac
  end.

(** The path below and above the next subtree. *)
Definition below_of (x : path * path * bool) : path := fst (fst x).
Definition above_of (x : path * path * bool) : path := snd (fst x).

Lemma rebalance_step_items f :
  let x := rebalance_step f in
  before (below_of x ++ above_of x) = before [f] ∧ after (below_of x ++ above_of x) = after [f].
Proof.
  rebalance_cases f; split; simpl; rewrite ?app_nil_r; repeat (rewrite <- !app_assoc || rewrite <- app_comm_cons); done.
Qed.
Lemma rebalance_step_addrs f :
  let x := rebalance_step f in path_addrs (below_of x ++ above_of x) ≡ₚ frame_addrs f.
Proof.
  rebalance_cases f; cbn; solve_Permutation.
Qed.

(** The cases of [rebalance_step] that look at one child first. *)
Section rebalance_eqs.
Context (p : Z) (c : node_color) (k v s ks vs y : Z) (l r yl yr : tree) (ky vy : Z).
Lemma rebalance_left_far : is_red (color_of l) = false →
  rebalance_step (InLeft p c k v (Node s NODE_BLACK l ks vs (Node y NODE_RED yl ky vy yr))) =
    ([InLeft s NODE_BLACK k v l; InLeft p c ks vs (Node y NODE_BLACK yl ky vy yr)], [], false).
Proof. by destruct l as [|? []]. Qed.
Lemma rebalance_left_none : is_red (color_of l) = false → is_red (color_of r) = false →
  rebalance_step (InLeft p c k v (Node s NODE_BLACK l ks vs r)) =
    ([InLeft p NODE_BLACK k v (Node s NODE_RED l ks vs r)], [], negb (is_red c)).
Proof. by destruct l as [|? []], r as [|? []]. Qed.
Lemma rebalance_right_far : is_red (color_of r) = false →
  rebalance_step (InRight p c (Node s NODE_BLACK (Node y NODE_RED yl ky vy yr) ks vs r) k v) =
    ([InRight s NODE_BLACK r k v; InRight p c (Node y NODE_BLACK yl ky vy yr) ks vs], [], false).
Proof. by destruct r as [|? []]. Qed.
Lemma rebalance_right_none : is_red (color_of r) = false → is_red (color_of l) = false →
  rebalance_step (InRight p c (Node s NODE_BLACK l ks vs r) k v) =
    ([InRight p NODE_BLACK (Node s NODE_RED l ks vs r) k v], [], negb (is_red c)).
Proof. by destruct l as [|? []], r as [|? []]. Qed.
End rebalance_eqs.

(** The subtree that holds the node to be freed is balanced without it, and
    lacks a black node when [flag] is set. *)
Definition deficit (flag : bool) (below ctx : path) : Prop :=
  ∃ n c, rb (if flag then NODE_RED else c) n (plug_all below Leaf) ∧ rb_path c (if flag then S n else n) ctx.
(** The number of turns left. *)
Definition turns (ctx : path) : nat :=
  match ctx with [] => 0 | f :: _ => if is_red (frame_color f) then 1 else length ctx + 2 end.

Lemma turns_le ctx : (turns ctx ≤ length ctx + 2)%nat.
Proof. destruct ctx; simpl; [lia|]. case_match; lia. Qed.

Lemma rebalance_step_rb below f ctx :
  deficit true below (f :: ctx) →
  let x := rebalance_step f in
  deficit (snd x) (below ++ below_of x) (above_of x ++ ctx) ∧
  (snd x = true → (turns (above_of x ++ ctx) < turns (f :: ctx))%nat).
Proof.
  intros (n & c0 & Hs & -> & Hf & Hc). unfold deficit. rewrite plug_all_app.
  rebalance_cases f; simpl in *; destruct_and?; subst; try done;
    repeat match goal with H : ∃ _, _ |- _ => destruct H end; destruct_and?;
    (split; [|pose proof (turns_le ctx); simpl; lia || done]);
    lazymatch goal with
    | Hc : rb_path ?c' ?m ctx |- _ =>
        first [ exists n, NODE_RED; simpl; split_and!; eauto using rb_black; done
              | exists m, c'; simpl; split_and!; eauto using rb_black; done
              | exists (pred m), c'; simpl; split_and!; eauto using rb_black; done ]
    end.
Qed.

(** Every turn keeps the outermost node. *)
Lemma rebalance_step_last f : last (frame_node <$> below_of (rebalance_step f) ++ above_of (rebalance_step f)) = Some (frame_node f).
Proof. rebalance_cases f; done. Qed.
Lemma root_plug_all ctx t : root (plug_all ctx t) = default (root t) (last (frame_node <$> ctx)).
Proof.
  revert t. induction ctx as [|f ctx IH]; intros t; [done|]. cbn [plug_all foldl fmap list_fmap]. fold (plug_all ctx (plug f t)).
  rewrite IH, last_cons. destruct (last _); [done|]. by destruct f.
Qed.

(** * Search

    The way to a node with the key, or to the place where it would be. *)

Section search.
#[local] Set Default Proof Using "Type*".
Context (comp : Z → Z → Z) `{Hcomp : Comparison comp}.

Fixpoint find (key : Z) (t : tree) (ctx : path) : path * tree :=
  match t with
  | Leaf => (ctx, Leaf)
  | Node p c l k v r =>
      if comp k key =? 0 then (ctx, t)
      else if 0 <? comp k key then find key r (InRight p c l k v :: ctx)
      else find key l (InLeft p c k v r :: ctx)
  end.

Lemma find_plug key t ctx : plug_all (fst (find key t ctx)) (snd (find key t ctx)) = plug_all ctx t.
Proof.
  revert ctx. induction t as [|p c l IHl k v r IHr]; intros ctx; simpl; [done|].
  repeat case_match; by rewrite ?IHl, ?IHr.
Qed.
Lemma find_key key t ctx p c l k v r : snd (find key t ctx) = Node p c l k v r → comp k key = 0.
Proof.
  revert ctx. induction t as [|p' c' l' IHl k' v' r' IHr]; intros ctx; simpl; [done|].
  destruct (Z.eqb_spec (comp k' key) 0); [by intros [= <- <- <- <- <- <-]|]. case_match; [apply IHr|apply IHl].
Qed.
Lemma find_none key t ctx :
  sorted comp (contents (plug_all ctx t)) →
  Forall (λ e, comp (fst e) key ≠ 0) (before ctx) → Forall (λ e, comp (fst e) key ≠ 0) (after ctx) →
  snd (find key t ctx) = Leaf → Forall (λ e, comp (fst e) key ≠ 0) (contents (plug_all ctx t)).
Proof.
  revert ctx. induction t as [|p c l IHl k v r IHr]; intros ctx Hs Hb Ha; simpl.
  { intros _. rewrite contents_plug_all. by apply Forall_app. }
  pose proof Hs as Hs'. rewrite contents_plug_all in Hs'. simpl in Hs'. rewrite <- !app_assoc in Hs'.
  rewrite app_assoc in Hs'. cbn [app] in Hs'. pose proof (sorted_app comp _ _ _ Hs') as [H1 H2]. cbn [fst] in *.
  apply Forall_app in H1 as [_ H1]. apply Forall_app in H2 as [H2 _].
  destruct (Z.eqb_spec (comp k key) 0) as [|Hk]; [done|]. destruct (Z.ltb_spec 0 (comp k key)) as [Hlt|Hlt].
  - apply (IHr (InRight p c l k v :: ctx)); [done| |done]. simpl. rewrite !Forall_app. split_and!; [done| |by repeat constructor].
    eapply Forall_impl; [exact H1|]. simpl. intros e He. pose proof (comp_left comp _ _ _ He Hlt). lia.
  - apply (IHl (InLeft p c k v r :: ctx)); [done|done|]. simpl. constructor; [done|]. apply Forall_app. split; [|done].
    eapply Forall_impl; [exact H2|]. simpl. intros e He H0.
    assert (0 ≤ comp k key); [|lia]. eapply comp_trans; [exact He|lia].
Qed.
End search.

(** The rightmost node of a tree. *)
Fixpoint rightmost (t : tree) (ctx : path) : path * tree :=
  match t with
  | Leaf => (ctx, Leaf)
  | Node p c l k v r => match r with Leaf => (ctx, t) | _ => rightmost r (InRight p c l k v :: ctx) end
  end.
Lemma rightmost_plug t ctx : plug_all (fst (rightmost t ctx)) (snd (rightmost t ctx)) = plug_all ctx t.
Proof. revert ctx. induction t as [|p c l IHl k v r IHr]; intros ctx; simpl; [done|]. destruct r; [done|]. by rewrite IHr. Qed.
Lemma rightmost_after t ctx : after (fst (rightmost t ctx)) = after ctx.
Proof. revert ctx. induction t as [|p c l IHl k v r IHr]; intros ctx; simpl; [done|]. destruct r; [done|]. by rewrite IHr. Qed.
Lemma rightmost_node t ctx : t ≠ Leaf → ∃ p c l k v, snd (rightmost t ctx) = Node p c l k v Leaf.
Proof.
  revert ctx. induction t as [|p c l IHl k v r IHr]; intros ctx Ht; simpl; [done|].
  destruct r; [by eexists _, _, _, _, _|]. by apply IHr.
Qed.
Lemma rightmost_app t ctx : fst (rightmost t ctx) = fst (rightmost t []) ++ ctx ∧ snd (rightmost t ctx) = snd (rightmost t []).
Proof.
  revert ctx. induction t as [|p c l IHl k v r IHr]; intros ctx; simpl; [done|]. destruct r; [done|].
  destruct (IHr (InRight p c l k v :: ctx)) as [-> ->]. destruct (IHr [InRight p c l k v]) as [-> ->].
  by rewrite <- app_assoc.
Qed.
(** A node without one child has at most a red leaf for the other. *)
Lemma rb_red_leaf p c n k v t :
  rb c n (Node p NODE_RED Leaf k v t) ∨ rb c n (Node p NODE_RED t k v Leaf) ∨
  rb c n (Node p NODE_BLACK Leaf k v t) ∨ rb c n (Node p NODE_BLACK t k v Leaf) →
  t = Leaf ∨ ∃ y ky vy, t = Node y NODE_RED Leaf ky vy Leaf.
Proof.
  intros Ht. assert (rb NODE_BLACK 0 t) as H0.
  { destruct Ht as [Ht|[Ht|[Ht|Ht]]]; simpl in Ht; destruct n as [|n]; destruct_and?; subst; try done;
      by apply rb_black. }
  destruct t as [|y [] l ky vy r]; [by left| |done]. right. destruct H0 as (_ & Hl & Hr).
  destruct l as [|? []], r as [|? []]; simpl in *; destruct_and?; try done. eauto.
Qed.
