(* ===== verification/Rbtree.v ===== *)
(** The red-black tree of [lib/rbtree.c], on nodes in memory taken from a pool. *)

From S2P Require Import Prelude Dll Queue Trees.

(** [rbnode_t] and [rbtree_t] of [include/rbtree.h]. *)
Record rbnode_t := { key : Z; val : Z; par : Z; left : Z; right : Z; color : node_color }.
Record rbtree_t := { head : Z; comp : Z → Z → Z }.

Definition with_key (v : Z) (n : rbnode_t) : rbnode_t :=
  {| key := v; val := val n; par := par n; left := left n; right := right n; color := color n |}.
Definition with_val (v : Z) (n : rbnode_t) : rbnode_t :=
  {| key := key n; val := v; par := par n; left := left n; right := right n; color := color n |}.
Definition with_par (v : Z) (n : rbnode_t) : rbnode_t :=
  {| key := key n; val := val n; par := v; left := left n; right := right n; color := color n |}.
Definition with_left (v : Z) (n : rbnode_t) : rbnode_t :=
  {| key := key n; val := val n; par := par n; left := v; right := right n; color := color n |}.
Definition with_right (v : Z) (n : rbnode_t) : rbnode_t :=
  {| key := key n; val := val n; par := par n; left := left n; right := v; color := color n |}.
Definition with_color (c : node_color) (n : rbnode_t) : rbnode_t :=
  {| key := key n; val := val n; par := par n; left := left n; right := right n; color := c |}.

(** ** Memory of nodes *)

Abbreviation heap := (gmap Z rbnode_t).

Definition field {A} (f : rbnode_t → A) (a : Z) : St heap A := λ h,
  if decide (a = NULL) then Fault else match h !! a with Some n => Done (f n, h) | None => Fault end.
Definition update (f : rbnode_t → rbnode_t) (a : Z) : St heap unit := λ h,
  if decide (a = NULL) then Fault else match h !! a with Some _ => Done (tt, alter f a h) | None => Fault end.

Definition get_key := field key.
Definition get_val := field val.
Definition get_par := field par.
Definition get_left := field left.
Definition get_right := field right.
Definition get_color := field color.
Definition put_key (a v : Z) := update (with_key v) a.
Definition put_val (a v : Z) := update (with_val v) a.
Definition put_par (a v : Z) := update (with_par v) a.
Definition put_left (a v : Z) := update (with_left v) a.
Definition put_right (a v : Z) := update (with_right v) a.
Definition put_color (a : Z) (c : node_color) := update (with_color c) a.

(** [if(a) a->par = v;] *)
Definition reparent (a v : Z) : St heap unit := if a =? NULL then mret tt else put_par a v.
(** [a!=NULL && a->color==NODE_RED] *)
Definition red_at (a : Z) : St heap bool :=
  if a =? NULL then mret false else c ← get_color a; mret (is_red c).

(** [if(gpar->par)] and its block in [rotate]: [par] takes the place of [gpar]
    below [ggpar]. *)
Definition relink (ggpar gpar par : Z) : St heap unit :=
  if ggpar =? NULL then mret tt
  else gl ← get_left ggpar; if gl =? gpar then put_left ggpar par else put_right ggpar par.

Definition rotate (tar : Z) : St heap Z :=
  par ← get_par tar;
  gpar ← get_par par;
  gl ← get_left gpar;
  if gl =? par then
    pl ← get_left par;
    if pl =? tar then
      ggpar ← get_par gpar; put_par par ggpar;;
      ggpar ← get_par gpar; relink ggpar gpar par;;
      put_par gpar par;;
      x ← get_right par; put_left gpar x;;
      x ← get_right par; reparent x gpar;;
      put_right par gpar;;
      mret par
    else
      put_color tar NODE_BLACK;;
      gkey ← get_key gpar; gval ← get_val gpar;
      x ← get_key tar; put_key gpar x;;
      x ← get_val tar; put_val gpar x;;
      put_key tar gkey;;
      put_val tar gval;;
      x ← get_left tar; put_right par x;;
      x ← get_right par; reparent x par;;
      x ← get_right tar; put_left tar x;;
      x ← get_right gpar; put_right tar x;;
      x ← get_right tar; reparent x tar;;
      put_right gpar tar;;
      x ← get_right gpar; put_par x gpar;;
      mret gpar
  else
    pr ← get_right par;
    if pr =? tar then
      gkey ← get_key gpar; gval ← get_val gpar;
      x ← get_key par; put_key gpar x;;
      x ← get_val par; put_val gpar x;;
      x ← get_key tar; put_key par x;;
      x ← get_val tar; put_val par x;;
      put_key tar gkey;;
      put_val tar gval;;
      x ← get_right tar; put_right par x;;
      x ← get_right par; reparent x par;;
      x ← get_left par; put_right tar x;;
      x ← get_right tar; reparent x tar;;
      x ← get_left tar; put_left par x;;
      x ← get_left par; reparent x par;;
      x ← get_left gpar; put_left tar x;;
      x ← get_left tar; reparent x tar;;
      put_left gpar tar;;
      x ← get_left gpar; put_par x gpar;;
      put_color gpar NODE_BLACK;;
      put_color par NODE_RED;;
      mret gpar
    else
      put_color tar NODE_BLACK;;
      gkey ← get_key gpar; gval ← get_val gpar;
      x ← get_key tar; put_key gpar x;;
      x ← get_val tar; put_val gpar x;;
      put_key tar gkey;;
      put_val tar gval;;
      x ← get_right tar; put_left par x;;
      x ← get_left par; reparent x par;;
      x ← get_left tar; put_right tar x;;
      x ← get_left gpar; put_left tar x;;
      x ← get_left tar; reparent x tar;;
      put_left gpar tar;;
      x ← get_left gpar; put_par x gpar;;
      mret gpar.

(** The body of the second loop of [rbtree_insert] up to the test for the root. *)
Definition insert_step (tar : Z) : St heap Z :=
  p ← get_par tar; put_color p NODE_BLACK;;
  p ← get_par tar; g ← get_par p; put_color g NODE_RED;;
  p ← get_par tar; g ← get_par p; gl ← get_left g;
  u ← (if gl =? p then get_right g else get_left g);
  red ← red_at u;
  if red : bool then
    put_color u NODE_BLACK;;
    p ← get_par tar; get_par p
  else rotate tar.

(** One turn of the loop of [rbtree_delete] below [tmp]: the left and the right
    branch, with the values of [flag] and [tar] after it. *)
Definition delete_left (tar tmp : Z) : St heap (bool * Z) :=
  v ← get_right tmp;
  vc ← get_color v;
  if negb (is_red vc) then
    vl ← get_left v; red ← red_at vl;
    if red : bool then
      w ← get_left v;
      tkey ← get_key tmp; tval ← get_val tmp;
      x ← get_key w; put_key tmp x;;
      x ← get_val w; put_val tmp x;;
      x ← get_right w; put_left v x;;
      x ← get_right w; reparent x v;;
      x ← get_left w; put_right w x;;
      x ← get_left tmp; put_left w x;;
      x ← get_left w; put_par x w;;
      put_par w tmp;;
      put_left tmp w;;
      put_key w tkey;;
      put_val w tval;;
      put_color w NODE_BLACK;;
      mret (false, tmp)
    else
      vr ← get_right v; red ← red_at vr;
      if red : bool then
        w ← get_right v;
        tkey ← get_key tmp; tval ← get_val tmp;
        x ← get_key v; put_key tmp x;;
        x ← get_val v; put_val tmp x;;
        put_par w tmp;;
        put_right tmp w;;
        x ← get_left v; put_right v x;;
        x ← get_left tmp; put_left v x;;
        x ← get_left v; put_par x v;;
        put_key v tkey;;
        put_val v tval;;
        put_left tmp v;;
        x ← get_left tmp; put_par x tmp;;
        put_color w NODE_BLACK;;
        mret (false, tmp)
      else
        x ← get_right tmp; put_color x NODE_RED;;
        c ← get_color tmp;
        put_color tmp NODE_BLACK;;
        mret (negb (is_red c), tmp)
  else
    tkey ← get_key tmp; tval ← get_val tmp;
    x ← get_key v; put_key tmp x;;
    x ← get_val v; put_val tmp x;;
    put_key v tkey;;
    put_val v tval;;
    x ← get_right v; put_right tmp x;;
    x ← get_right tmp; put_par x tmp;;
    x ← get_left v; put_right v x;;
    x ← get_left tmp; put_left v x;;
    x ← get_left v; put_par x v;;
    put_left tmp v;;
    x ← get_left tmp; put_par x tmp;;
    mret (true, tar).
Definition delete_right (tar tmp : Z) : St heap (bool * Z) :=
  v ← get_left tmp;
  vc ← get_color v;
  if negb (is_red vc) then
    vr ← get_right v; red ← red_at vr;
    if red : bool then
      w ← get_right v;
      tkey ← get_key tmp; tval ← get_val tmp;
      x ← get_key w; put_key tmp x;;
      x ← get_val w; put_val tmp x;;
      x ← get_left w; put_right v x;;
      x ← get_right v; reparent x v;;
      x ← get_right w; put_left w x;;
      x ← get_right tmp; put_right w x;;
      x ← get_right w; put_par x w;;
      put_par w tmp;;
      put_right tmp w;;
      put_key w tkey;;
      put_val w tval;;
      put_color w NODE_BLACK;;
      mret (false, tmp)
    else
      vl ← get_left v; red ← red_at vl;
      if red : bool then
        w ← get_left v;
        tkey ← get_key tmp; tval ← get_val tmp;
        x ← get_key v; put_key tmp x;;
        x ← get_val v; put_val tmp x;;
        put_par w tmp;;
        put_left tmp w;;
        x ← get_right v; put_left v x;;
        x ← get_right tmp; put_right v x;;
        x ← get_right v; put_par x v;;
        put_key v tkey;;
        put_val v tval;;
        put_right tmp v;;
        x ← get_right tmp; put_par x tmp;;
        put_color w NODE_BLACK;;
        mret (false, tmp)
      else
        put_color v NODE_RED;;
        c ← get_color tmp;
        put_color tmp NODE_BLACK;;
        mret (negb (is_red c), tmp)
  else
    tkey ← get_key tmp; tval ← get_val tmp;
    x ← get_key v; put_key tmp x;;
    x ← get_val v; put_val tmp x;;
    put_key v tkey;;
    put_val v tval;;
    x ← get_left v; put_left tmp x;;
    x ← get_left tmp; put_par x tmp;;
    x ← get_right v; put_left v x;;
    x ← get_right tmp; put_right v x;;
    x ← get_right v; put_par x v;;
    put_right tmp v;;
    x ← get_right tmp; put_par x tmp;;
    mret (true, tar).
Fixpoint delete_loop (fuel : nat) (flag : bool) (tar : Z) : St heap unit :=
  match fuel with
  | O => nofuel
  | S k =>
      if flag then
        p ← get_par tar;
        if p =? NULL then mret tt
        else
          tmp ← get_par tar;
          l ← get_left tmp;
          '(flag, tar) ← (if l =? tar then delete_left tar tmp else delete_right tar tmp);
          delete_loop k flag tar
      else mret tt
  end.

(** [while(max_node->right!=NULL) max_node = max_node->right;] *)
Fixpoint max_loop (fuel : nat) (max_node : Z) : St heap Z :=
  match fuel with
  | O => nofuel
  | S k => r ← get_right max_node; if r =? NULL then mret max_node else max_loop k r
  end.
(** The blocks of [rbtree_delete] that move a key and a value up and give the node
    they leave: a node without a left child takes those of its right child, any
    other node the key of the rightmost node on its left. *)
Definition move_right_child (tar : Z) : St heap Z :=
  r ← get_right tar; x ← get_key r; put_key tar x;;
  r ← get_right tar; x ← get_val r; put_val tar x;;
  get_right tar.
Definition move_predecessor (fuel : nat) (tar max_node : Z) : St heap Z :=
  max_node ← max_loop fuel max_node;
  x ← get_key max_node; put_key tar x;;
  l ← get_left max_node;
  if l =? NULL then mret max_node
  else
    l ← get_left max_node; x ← get_key l; put_key max_node x;;
    l ← get_left max_node; x ← get_val l; put_val max_node x;;
    get_left max_node.
Fixpoint search_loop (fuel : nat) (comp : Z → Z → Z) (val tar : Z) : St heap Z :=
  match fuel with
  | O => nofuel
  | S k =>
      if tar =? NULL then mret NULL
      else
        x ← get_key tar;
        let cmp := comp x val in
        if cmp =? 0 then mret tar
        else if 0 <? cmp then r ← get_right tar; search_loop k comp val r
        else l ← get_left tar; search_loop k comp val l
  end.
(** The first loop of [rbtree_insert]: the way down, and the link. *)
Fixpoint insert_loop (fuel : nat) (comp : Z → Z → Z) (tar tmp : Z) : St heap unit :=
  match fuel with
  | O => nofuel
  | S k =>
      kt ← get_key tmp; kx ← get_key tar;
      if 0 <? comp kt kx then
        next ← get_right tmp;
        if next =? NULL then put_par tar tmp;; put_right tmp tar else insert_loop k comp tar next
      else
        next ← get_left tmp;
        if next =? NULL then put_par tar tmp;; put_left tmp tar else insert_loop k comp tar next
  end.

(** ** The pool and the trees *)

Definition RBTREE_NODE_POOL_NUM : Z := 1024.

(** The nodes, the queue links of the pool and of the free list with the
    console, [pool_count], [tree_pool] and [tree_count]. *)
Record rb_state := {
  rb_nodes : heap;
  rb_queue : queue_state;
  pool_count : Z;
  tree_pool : list rbtree_t;
  tree_count : Z;
}.
Definition set_rb_nodes h s : rb_state :=
  {| rb_nodes := h; rb_queue := rb_queue s; pool_count := pool_count s; tree_pool := tree_pool s; tree_count := tree_count s |}.
Definition set_rb_queue q s : rb_state :=
  {| rb_nodes := rb_nodes s; rb_queue := q; pool_count := pool_count s; tree_pool := tree_pool s; tree_count := tree_count s |}.
Definition set_pool_count n s : rb_state :=
  {| rb_nodes := rb_nodes s; rb_queue := rb_queue s; pool_count := n; tree_pool := tree_pool s; tree_count := tree_count s |}.
Definition set_tree_pool l s : rb_state :=
  {| rb_nodes := rb_nodes s; rb_queue := rb_queue s; pool_count := pool_count s; tree_pool := l; tree_count := tree_count s |}.
Definition set_tree_count n s : rb_state :=
  {| rb_nodes := rb_nodes s; rb_queue := rb_queue s; pool_count := pool_count s; tree_pool := tree_pool s; tree_count := n |}.
Definition in_nodes {A} : St heap A → St rb_state A := on_part rb_nodes set_rb_nodes.
Definition in_queue {A} : St queue_state A → St rb_state A := on_part rb_queue set_rb_queue.

(** A tree is named by its index in [tree_pool]. *)
Definition tree_at (tree : nat) : St rb_state rbtree_t := l ← gets tree_pool; deref (l !! tree).
Definition put_tree (tree : nat) (t : rbtree_t) : St rb_state unit :=
  tree_at tree;; modify (λ s, set_tree_pool (<[tree := t]> (tree_pool s)) s).
Definition put_head (tree : nat) (p : Z) : St rb_state unit :=
  t ← tree_at tree; put_tree tree {| head := p; comp := comp t |}.

Section pool.
(** The addresses of [node_pool] and [ls], and the function the file calls when
    the pool is used up. *)
Context (node_pool ls : Z) (tv_abort : St rb_state unit).

Definition rbtree_init : St rb_state unit := in_queue (queue_list_init ls).

Definition rbtree_alloc (c : Z → Z → Z) : St rb_state nat :=
  n ← gets tree_count; modify (set_tree_count (s32 (n + 1)));;
  put_tree (Z.to_nat n) {| head := NULL; comp := c |};;
  mret (Z.to_nat n).

(** A [rb_queue_t] has 64 bytes, of which the first 16 are its [que]. *)
Definition pool_node (i : Z) : Z := node_pool + 64 * i + 16.

Definition rbtree_node_alloc : St rb_state Z :=
  empty ← in_queue (queue_list_is_empty ls);
  if empty : bool then
    n ← gets pool_count;
    if RBTREE_NODE_POOL_NUM <=? n then tv_abort;; mret NULL
    else
      modify (set_pool_count (s32 (n + 1)));;
      mret (pool_node n)
  else q ← in_queue (queue_list_pop ls); mret (q + 16).

Definition rbtree_node_free (node : Z) : St rb_state unit :=
  p ← in_nodes (get_par node);
  (if p =? NULL then mret tt
   else
     l ← in_nodes (get_left p);
     in_nodes (if l =? node then put_left p NULL else put_right p NULL));;
  in_queue (queue_list_enque ls (node - 16)).

Fixpoint insert_fix (fuel : nat) (tree : nat) (tar : Z) : St rb_state unit :=
  match fuel with
  | O => nofuel
  | S k =>
      c ← in_nodes (get_color tar);
      loop ← (if is_red c then in_nodes (p ← get_par tar; pc ← get_color p; mret (is_red pc)) else mret false);
      if loop : bool then
        tar ← in_nodes (insert_step tar);
        p ← in_nodes (get_par tar);
        if p =? NULL then
          put_head tree tar;;
          in_nodes (put_color tar NODE_BLACK)
        else insert_fix k tree tar
      else mret tt
  end.
Definition rbtree_insert (fuel : nat) (tree : nat) (key val : Z) : St rb_state unit :=
  tar ← rbtree_node_alloc;
  in_nodes (put_key tar key;; put_val tar val;; put_left tar NULL;; put_right tar NULL;; put_color tar NODE_RED);;
  t ← tree_at tree;
  if head t =? NULL then
    in_nodes (put_par tar NULL;; put_color tar NODE_BLACK);;
    put_head tree tar
  else
    in_nodes (insert_loop fuel (comp t) tar (head t));;
    insert_fix fuel tree tar.

Definition rbtree_search (fuel : nat) (tree : nat) (val : Z) : St rb_state Z :=
  t ← tree_at tree; in_nodes (search_loop fuel (comp t) val (head t)).

Definition rbtree_delete (fuel : nat) (tree : nat) (val : Z) : St rb_state unit :=
  tar ← rbtree_search fuel tree val;
  max_node ← in_nodes (get_left tar);
  del_tar ←
    (if max_node =? NULL then
       r ← in_nodes (get_right tar);
       if r =? NULL then
         t ← tree_at tree;
         (if tar =? head t then put_head tree NULL else mret tt);;
         mret tar
       else in_nodes (move_right_child tar)
     else in_nodes (move_predecessor fuel tar max_node));
  c ← in_nodes (get_color del_tar);
  in_nodes (delete_loop fuel (negb (is_red c)) del_tar);;
  rbtree_node_free del_tar.
End pool.

(** * Trees in memory

    [rep h q t]: the nodes of [t] are in memory with the fields [t] gives them,
    and the parent of its root is [q].  [rep_path h x ctx]: so are those of the
    path, whose first node has [x] as the child on the path. *)

Fixpoint rep (h : heap) (q : Z) (t : tree) : Prop :=
  match t with
  | Leaf => True
  | Node p c l k v r =>
      h !! p = Some {| key := k; val := v; par := q; left := root l; right := root r; color := c |} ∧
      rep h p l ∧ rep h p r
  end.
Definition frame_fields (f : frame) (q x : Z) : rbnode_t :=
  match f with
  | InLeft _ c k v r => {| key := k; val := v; par := q; left := x; right := root r; color := c |}
  | InRight _ c l k v => {| key := k; val := v; par := q; left := root l; right := x; color := c |}
  end.
Fixpoint rep_path (h : heap) (x : Z) (ctx : path) : Prop :=
  match ctx with
  | [] => True
  | f :: ctx =>
      h !! frame_node f = Some (frame_fields f (up ctx) x) ∧ rep h (frame_node f) (frame_tree f) ∧
      rep_path h (frame_node f) ctx
  end.

Lemma rep_plug_all h ctx t : rep h NULL (plug_all ctx t) ↔ rep_path h (root t) ctx ∧ rep h (up ctx) t.
Proof.
  revert t. induction ctx as [|f ctx IH]; intros t; simpl; [tauto|].
  rewrite IH. destruct f; simpl; tauto.
Qed.
Lemma root_plug f t : root (plug f t) = frame_node f.
Proof. by destruct f. Qed.

(** ** Changes elsewhere *)

Definition reparented (v a : Z) (h : heap) : heap := if a =? NULL then h else alter (with_par v) a h.
(** The node above the path's start gets another child in place of that one. *)
Definition relinked (x : Z) (ctx : path) (h : heap) : heap :=
  match ctx with
  | [] => h
  | InLeft p _ _ _ _ :: _ => alter (with_left x) p h
  | InRight p _ _ _ _ :: _ => alter (with_right x) p h
  end.

Lemma rep_ext h h' q t : (∀ a, a ∈ addrs t → h' !! a = h !! a) → rep h q t → rep h' q t.
Proof.
  revert q. induction t as [|p c l IHl k v r IHr]; intros q Hh; simpl in *; [done|].
  intros (Hp & Hl & Hr). split_and!; [by rewrite Hh by set_solver|apply IHl; [set_solver|done]|apply IHr; [set_solver|done]].
Qed.
Lemma rep_path_ext h h' x ctx : (∀ a, a ∈ path_addrs ctx → h' !! a = h !! a) → rep_path h x ctx → rep_path h' x ctx.
Proof.
  revert x. induction ctx as [|f ctx IH]; intros x Hh; [done|]. simpl in *. unfold frame_addrs in Hh.
  intros (Hp & Ht & Hc). split_and!; [by rewrite Hh by set_solver| |apply IH; [set_solver|done]].
  eapply rep_ext; [|done]. set_solver.
Qed.

Lemma look_alter_eq f a (h : heap) n : h !! a = Some n → alter f a h !! a = Some (f n).
Proof. intros Hn. by rewrite lookup_alter_eq, Hn. Qed.
Lemma look_alter_ne f a b (h : heap) n : a ≠ b → h !! b = Some n → alter f a h !! b = Some n.
Proof. intros Hab Hn. by rewrite lookup_alter_ne. Qed.
Lemma reparented_ne v t b h : b ∉ addrs t → reparented v (root t) h !! b = h !! b.
Proof.
  intros Hb. unfold reparented. destruct (Z.eqb_spec (root t) NULL); [done|].
  rewrite lookup_alter_ne; [done|]. destruct t; [done|]. simpl in *. set_solver.
Qed.
Lemma look_reparented v t b h n : b ∉ addrs t → h !! b = Some n → reparented v (root t) h !! b = Some n.
Proof. intros Hb Hn. by rewrite reparented_ne. Qed.
Lemma relinked_ne x ctx b h : b ∉ path_addrs ctx → relinked x ctx h !! b = h !! b.
Proof. destruct ctx as [|[]]; simpl; intros Hb; [done|rewrite lookup_alter_ne; [done|set_solver]..]. Qed.
Lemma look_relinked x ctx b h n : b ∉ path_addrs ctx → h !! b = Some n → relinked x ctx h !! b = Some n.
Proof. intros Hb Hn. by rewrite relinked_ne. Qed.

Lemma rep_alter f a h q t : a ∉ addrs t → rep h q t → rep (alter f a h) q t.
Proof. intros Ha. apply rep_ext. intros b Hb. apply lookup_alter_ne. set_solver. Qed.
Lemma rep_path_alter f a h x ctx : a ∉ path_addrs ctx → rep_path h x ctx → rep_path (alter f a h) x ctx.
Proof. intros Ha. apply rep_path_ext. intros b Hb. apply lookup_alter_ne. set_solver. Qed.
Lemma rep_relinked x ctx h q t : NoDup (addrs t ++ path_addrs ctx) → rep h q t → rep (relinked x ctx h) q t.
Proof.
  intros (_ & Hd & _)%NoDup_app. apply rep_ext. intros b Hb. apply relinked_ne. set_solver.
Qed.
Lemma rep_reparented_ne v t h q t' : NoDup (addrs t ++ addrs t') → rep h q t' → rep (reparented v (root t) h) q t'.
Proof. intros (_ & Hd & _)%NoDup_app. apply rep_ext. intros b Hb. apply reparented_ne. set_solver. Qed.
Lemma rep_path_reparented v t h x ctx :
  NoDup (addrs t ++ path_addrs ctx) → rep_path h x ctx → rep_path (reparented v (root t) h) x ctx.
Proof. intros (_ & Hd & _)%NoDup_app. apply rep_path_ext. intros b Hb. apply reparented_ne. set_solver. Qed.
Lemma rep_reparented v t h q : NoDup (NULL :: addrs t) → rep h q t → rep (reparented v (root t) h) v t.
Proof.
  destruct t as [|p c l k w r]; [done|]. cbn [rep root addrs]. intros Hnd (Hp & Hl & Hr).
  unfold reparented. rewrite (proj2 (Z.eqb_neq _ _)) by nodup. split_and!.
  - erewrite look_alter_eq by done. done.
  - apply rep_alter; [nodup|done].
  - apply rep_alter; [nodup|done].
Qed.
Lemma rep_path_relinked x y ctx h : NoDup (path_addrs ctx) → rep_path h x ctx → rep_path (relinked y ctx h) y ctx.
Proof.
  destruct ctx as [|f ctx]; [done|]. cbn [rep_path path_addrs flat_map]. unfold frame_addrs. intros Hnd (Hp & Ht & Hc).
  destruct f as [p c k v r|p c l k v]; cbn [frame_node frame_tree frame_fields relinked app] in *;
    (split_and!; [by erewrite look_alter_eq by done|apply rep_alter; [nodup|done]|apply rep_path_alter; [|done]]);
    fold (path_addrs ctx) in *; nodup.
Qed.

(** ** Symbolic execution *)

Lemma wp_field {A} (f : rbnode_t → A) a n (Q : A → heap → Prop) h :
  a ≠ NULL → h !! a = Some n → Q (f n) h → wp (field f a) Q h.
Proof. intros Ha Hn HQ. unfold wp, field. rewrite decide_False by done. by rewrite Hn. Qed.
Lemma wp_update f a n (Q : unit → heap → Prop) h :
  a ≠ NULL → h !! a = Some n → Q tt (alter f a h) → wp (update f a) Q h.
Proof. intros Ha Hn HQ. unfold wp, update. rewrite decide_False by done. by rewrite Hn. Qed.
Lemma wp_reparent t v q (Q : unit → heap → Prop) h :
  rep h q t → Q tt (reparented v (root t) h) → wp (reparent (root t) v) Q h.
Proof.
  intros Ht HQ. unfold reparent. unfold reparented in HQ. destruct (Z.eqb_spec (root t) NULL); [done|].
  destruct t as [|p c l k w r]; [done|]. destruct Ht as [Hp _]. by eapply wp_update.
Qed.
Lemma wp_red_at t q (Q : bool → heap → Prop) h :
  NULL ∉ addrs t → rep h q t → Q (is_red (color_of t)) h → wp (red_at (root t)) Q h.
Proof.
  intros Hn Ht HQ. unfold red_at. destruct t as [|p c l k w r]; [done|]. cbn [root addrs rep color_of] in *.
  rewrite (proj2 (Z.eqb_neq _ _)) by set_solver. destruct Ht as [Hp _]. wp_step. eapply wp_field; [set_solver|done|].
  by wp_step.
Qed.

Lemma wp_relink ctx g p (Q : unit → heap → Prop) h :
  NoDup (NULL :: g :: path_addrs ctx) → rep_path h g ctx → Q tt (relinked p ctx h) → wp (relink (up ctx) g p) Q h.
Proof.
  intros HN Hc HQ. unfold relink. destruct ctx as [|f ctx]; [by rewrite Z.eqb_refl|].
  cbn [path_addrs flat_map frame_addrs up rep_path] in *. unfold frame_addrs in HN. destruct Hc as (Hp & _ & _).
  assert (frame_node f ≠ NULL) by nodup. rewrite (proj2 (Z.eqb_neq _ _)) by done.
  apply wp_bind. eapply wp_field; [done|done|].
  destruct f as [q c k v r|q c l k v]; cbn [frame_fields left frame_node frame_tree relinked] in *.
  - rewrite Z.eqb_refl. by eapply wp_update.
  - rewrite (proj2 (Z.eqb_neq _ _)); [by eapply wp_update|]. destruct l; simpl in *; nodup.
Qed.

Lemma nodup_sub {A} (l l' : list A) : NoDup l → l' ⊆+ l → NoDup l'.
Proof. intros Hl [k Hk]%submseteq_Permutation. rewrite Hk in Hl. by apply NoDup_app in Hl as []. Qed.
Lemma nodup_ne {A} (l : list A) a b : NoDup l → [a; b] ⊆+ l → a ≠ b.
Proof. intros Hl Hs. pose proof (nodup_sub _ _ Hl Hs) as Hab. apply NoDup_cons in Hab as [Hab _]. set_solver. Qed.
Lemma nodup_notin {A} (l l' : list A) a : NoDup l → a :: l' ⊆+ l → a ∉ l'.
Proof. intros Hl Hs. pose proof (nodup_sub _ _ Hl Hs) as Hab. by apply NoDup_cons in Hab as [Hab _]. Qed.
Lemma root_ne (l : list Z) t b : NoDup l → b :: addrs t ⊆+ l → [b; NULL] ⊆+ l → root t ≠ b.
Proof.
  intros Hl H1 H2. pose proof (nodup_notin _ _ _ Hl H1). pose proof (nodup_ne _ _ _ Hl H2).
  destruct t; simpl in *; [done|set_solver].
Qed.

(** What is apart, from the hypothesis that all the nodes in play are. *)
Ltac sep :=
  match goal with
  | HN : NoDup (NULL :: _) |- root _ ≠ _ => eapply root_ne; [exact HN|solve_submseteq|solve_submseteq]
  | HN : NoDup (NULL :: _) |- _ ≠ root _ => apply not_eq_sym; eapply root_ne; [exact HN|solve_submseteq|solve_submseteq]
  | HN : NoDup (NULL :: _) |- _ ≠ _ => eapply nodup_ne; [exact HN|solve_submseteq]
  | HN : NoDup (NULL :: _) |- _ ∉ _ => eapply nodup_notin; [exact HN|solve_submseteq]
  | HN : NoDup (NULL :: _) |- NoDup _ => eapply nodup_sub; [exact HN|solve_submseteq]
  end.
Ltac look :=
  first [ eassumption
        | eapply look_alter_eq; look
        | eapply look_alter_ne; [solve [sep]|look]
        | eapply look_reparented; [solve [sep]|look]
        | eapply look_relinked; [solve [sep]|look] ].
Lemma look_as (h : heap) a n n' : h !! a = Some n → n = n' → h !! a = Some n'.
Proof. by intros ? ->. Qed.
Ltac look_as := eapply look_as; [look|reflexivity].
Ltac frame_rep :=
  first [ eassumption
        | eapply rep_alter; [solve [sep]|frame_rep]
        | eapply rep_reparented; [solve [sep]|frame_rep]
        | eapply rep_reparented_ne; [solve [sep]|frame_rep]
        | eapply rep_relinked; [solve [sep]|frame_rep]
        | eapply rep_path_relinked; [solve [sep]|frame_rep]
        | eapply rep_path_alter; [solve [sep]|frame_rep]
        | eapply rep_path_reparented; [solve [sep]|frame_rep] ].
Ltac rb_fields :=
  cbn [key val par left right color with_key with_val with_par with_left with_right with_color].
(** A load or a store. *)
Lemma wp_seq {S A B} (m : St S A) (f : A → St S B) (Q : B → S → Prop) s :
  wp m (λ a s', wp (f a) Q s') s → wp (m ≫= f) Q s.
Proof. apply wp_bind. Qed.
Ltac rb_step :=
  try apply wp_seq;
  first [ eapply wp_field; [solve [sep]|solve [look]|]
        | eapply wp_update; [solve [sep]|solve [look]|]
        | eapply wp_reparent; [solve [frame_rep]|]
        | eapply wp_relink; [solve [sep]|solve [frame_rep]|] ]; rb_fields; cbn beta.
Ltac rb_eqb :=
  first [ rewrite Z.eqb_refl | rewrite (proj2 (Z.eqb_neq _ _)) by sep ].
(** The fields of nodes and trees that are left at the end. *)
Ltac rb_done :=
  lazymatch goal with
  | |- _ !! _ = Some _ => look_as
  | |- _ => frame_rep
  end.



(** The change of a node that is none of these. *)
Ltac elsewhere :=
  let a := fresh "a" in let Ha := fresh "Ha" in
  intros a Ha; repeat first [rewrite not_elem_of_cons in Ha | rewrite not_elem_of_app in Ha]; destruct_and?;
  repeat first [ rewrite lookup_alter_ne by congruence | rewrite reparented_ne by assumption
               | rewrite relinked_ne by assumption ];
  reflexivity.
Ltac rb_goal :=
  cbn [paint plug plug_all foldl root rep below_of above_of fst snd app rep_path up frame_node frame_tree frame_fields];
  split_and!; first [reflexivity | exact I | solve [rb_done] | solve [elsewhere]].


Ltac rb_run :=
  repeat first [ rb_step | rb_eqb; cbn beta iota | apply wp_ret; cbn beta ].
Ltac rb_shape :=
  rewrite ?path_addrs_cons in *;
  cbn [frame_node frame_tree frame_fields plug addrs root up app rep rep_path repair_step] in *.

(** The code up to the test of the colour of [t]. *)
Ltac rb_red t H :=
  rb_run; apply wp_seq; eapply wp_red_at; [solve [sep]|solve [frame_rep]|]; cbn beta;
  destruct (is_red (color_of t)) eqn:H.

Lemma insert_step_ok f1 f2 ctx t h :
  NoDup (NULL :: addrs t ++ path_addrs (f1 :: f2 :: ctx)) → t ≠ Leaf →
  rep_path h (root t) (f1 :: f2 :: ctx) → rep h (frame_node f1) t →
  wp (insert_step (root t))
     (λ r h', r = root (repair_step f2 f1 t) ∧ rep_path h' r ctx ∧ rep h' (up ctx) (repair_step f2 f1 t) ∧
        ∀ a, a ∉ addrs t ++ path_addrs (f1 :: f2 :: ctx) → h' !! a = h !! a) h.
Proof.
  intros HN Ht (Hp & Hs & Hg & Hu & Hctx) Hrt. destruct t as [|x cx a kx vx b]; [done|].
  pose proof Hrt as (Hx & Ha & Hb). unfold insert_step, repair_step.
  destruct f2 as [g cg kg vg u|g cg u kg vg], f1 as [p cp kp vp s|p cp s kp vp]; rb_shape.
  all: rb_red u Hcu;
    [destruct u as [|y [] ul ku vu ur]; [done| |done]; destruct Hu as (Hy & Hul & Hur); rb_shape|unfold rotate];
    rb_run; rb_goal.
Qed.

(** One turn of the loop of [rbtree_delete]. *)
Definition delete_turn (f : frame) (tar : Z) : St heap (bool * Z) :=
  match f with InLeft tmp _ _ _ _ => delete_left tar tmp | InRight tmp _ _ _ _ => delete_right tar tmp end.
(** The sibling of a subtree that lacks a black node. *)
Definition sibling (f : frame) : Prop :=
  match f with
  | InLeft _ _ _ _ (Node _ NODE_RED _ _ _ (Node _ _ _ _ _ _)) | InRight _ _ (Node _ NODE_RED (Node _ _ _ _ _ _) _ _ _) _ _
  | InLeft _ _ _ _ (Node _ NODE_BLACK _ _ _ _) | InRight _ _ (Node _ NODE_BLACK _ _ _ _) _ _ => True
  | _ => False
  end.

Lemma delete_turn_ok f ctx t h :
  NoDup (NULL :: addrs t ++ path_addrs (f :: ctx)) → t ≠ Leaf → sibling f →
  rep_path h (root t) (f :: ctx) → rep h (frame_node f) t →
  let x := rebalance_step f in
  wp (delete_turn f (root t))
     (λ r h', r = (snd x, root (plug_all (below_of x) t)) ∧
        rep_path h' (root t) (below_of x ++ above_of x ++ ctx) ∧ rep h' (up (below_of x ++ above_of x ++ ctx)) t ∧
        ∀ a, a ∉ addrs t ++ path_addrs (f :: ctx) → h' !! a = h !! a) h.
Proof.
  intros HN Ht Hsib (Hp & Hs & Hctx) Hrt. destruct t as [|x cx a kx vx b]; [done|].
  pose proof Hrt as (Hx & Ha & Hb). unfold delete_turn, delete_left, delete_right. cbv zeta.
  destruct f as [p c k v [|s [] l ks vs r]|p c [|s [] l ks vs r] k v]; try done;
    destruct Hs as (Hs & Hl & Hr); rb_shape.
  - destruct r as [|y cy yl ky vy yr]; [done|]. destruct Hr as (Hy & Hyl & Hyr). rb_shape. rb_run.
    cbn [rebalance_step]. rb_goal.
  - rb_red l Hcl.
    + destruct l as [|y [] yl ky vy yr]; [done| |done]. destruct Hl as (Hy & Hyl & Hyr). rb_shape. rb_run.
      cbn [rebalance_step]. rb_goal.
    + rb_red r Hcr.
      * destruct r as [|y [] yl ky vy yr]; [done| |done]. destruct Hr as (Hy & Hyl & Hyr). rb_shape. rb_run.
        rewrite rebalance_left_far by done. rb_goal.
      * rb_run. rewrite rebalance_left_none by done. rb_goal.
  - destruct l as [|y cy yl ky vy yr]; [done|]. destruct Hl as (Hy & Hyl & Hyr). rb_shape. rb_run.
    cbn [rebalance_step]. rb_goal.
  - rb_red r Hcr.
    + destruct r as [|y [] yl ky vy yr]; [done| |done]. destruct Hr as (Hy & Hyl & Hyr). rb_shape. rb_run.
      cbn [rebalance_step]. rb_goal.
    + rb_red l Hcl.
      * destruct l as [|y [] yl ky vy yr]; [done| |done]. destruct Hl as (Hy & Hyl & Hyr). rb_shape. rb_run.
        rewrite rebalance_right_far by done. rb_goal.
      * rb_run. rewrite rebalance_right_none by done. rb_goal.
Qed.
