(* ===== verification/RbMap.v ===== *)
(** The red-black tree of [lib/rbtree.c] as a sorted sequence of pairs:
    insertion, search and deletion on a tree and its pool. *)

From S2P Require Import Prelude Dll Queue Trees Rbtree.

(** The memory outside the nodes [l] is the same, and no node appears or goes. *)
Definition only (l : list Z) (h h' : heap) : Prop := ∀ a, a ∉ l → h' !! a = h !! a.

Lemma only_trans l h1 h2 h3 : only l h1 h2 → only l h2 h3 → only l h1 h3.
Proof. intros H1 H2 a Ha. by rewrite H2, H1. Qed.
Lemma only_weaken l l' h h' : (∀ a, a ∈ l → a ∈ l') → only l h h' → only l' h h'.
Proof. intros Hl Ho a Ha. apply Ho. set_solver. Qed.

(** ** The way down *)

Section down.
Context (comp : Z → Z → Z).

Lemma insert_loop_ok fuel x key' val' q ctx t h :
  NoDup (NULL :: x :: addrs t ++ path_addrs ctx) → t ≠ Leaf → (depth t ≤ fuel)%nat →
  rep_path h (root t) ctx → rep h (up ctx) t → rep h q (Node x NODE_RED Leaf key' val' Leaf) →
  let ctx' := descend comp key' t ctx in
  wp (insert_loop fuel comp x (root t))
     (λ _ h', rep_path h' x ctx' ∧ rep h' (up ctx') (Node x NODE_RED Leaf key' val' Leaf) ∧
        only (x :: addrs t) h h') h.
Proof.
  revert ctx t. induction fuel as [|fuel IH]; intros ctx t HN Ht Hf Hctx Hrep Hx; destruct t as [|p c l k v r];
    simpl in Hf; try done; [lia|].
  pose proof Hx as (Hx0 & _). destruct Hrep as (Hp & Hl & Hr). rb_shape. cbn [insert_loop descend]. rb_run.
  destruct (0 <? comp k key') eqn:Hcmp; rb_run.
  - destruct r as [|y cy yl ky vy yr]; rb_shape; rb_run.
    + cbn [descend]. unfold only. rb_goal.
    + eapply wp_mono; [apply (IH (InRight p c l k v :: ctx) (Node y cy yl ky vy yr));
        [rb_shape; solve [sep]|done|simpl in *; lia|exact (conj Hp (conj Hl Hctx)) || exact (conj Hp (conj Hr Hctx))|assumption|exact Hx]|].
      intros ? h' (? & ? & Ho). (split; [|split]); [done..|]. eapply only_weaken; [|done]. set_solver.
  - destruct l as [|y cy yl ky vy yr]; rb_shape; rb_run.
    + cbn [descend]. unfold only. rb_goal.
    + eapply wp_mono; [apply (IH (InLeft p c k v r :: ctx) (Node y cy yl ky vy yr));
        [rb_shape; solve [sep]|done|simpl in *; lia|exact (conj Hp (conj Hl Hctx)) || exact (conj Hp (conj Hr Hctx))|assumption|exact Hx]|].
      intros ? h' (? & ? & Ho). (split; [|split]); [done..|]. eapply only_weaken; [|done]. set_solver.
Qed.
End down.

Lemma search_loop_ok (comp : Z → Z → Z) fuel val' q t ctx h :
  NoDup (NULL :: addrs t) → (depth t < fuel)%nat → rep h q t →
  wp (search_loop fuel comp val' (root t)) (λ r h', r = root (snd (find comp val' t ctx)) ∧ h' = h) h.
Proof.
  revert q t ctx. induction fuel as [|fuel IH]; intros q t ctx HN Hf Hrep; [lia|].
  destruct t as [|p c l k v r]; cbn [search_loop root]; [done|]. destruct Hrep as (Hp & Hl & Hr). rb_shape. rb_run.
  cbn [find]. destruct (comp k val' =? 0) eqn:H0; [by rb_run|]. simpl in Hf. destruct (0 <? comp k val').
  - rb_run. apply (IH p r); [sep|lia|done].
  - rb_run. apply (IH p l); [sep|lia|done].
Qed.

Lemma max_loop_ok fuel q t ctx h :
  NoDup (NULL :: addrs t) → t ≠ Leaf → (depth t ≤ fuel)%nat → rep h q t →
  wp (max_loop fuel (root t)) (λ r h', r = root (snd (rightmost t ctx)) ∧ h' = h) h.
Proof.
  revert q t ctx. induction fuel as [|fuel IH]; intros q t ctx HN Ht Hf Hrep; destruct t as [|p c l k v r];
    simpl in Hf; try done; [lia|].
  destruct Hrep as (Hp & Hl & Hr). cbn [max_loop root rightmost]. rb_shape. rb_run.
  destruct r as [|y cy yl ky vy yr]; rb_shape; rb_run; [done|].
  apply (IH p (Node y cy yl ky vy yr)); [rb_shape; sep|done|simpl in *; lia|done].
Qed.

(** The same nodes, seen from another node of the path. *)
Lemma rep_focus h c1 c2 t :
  rep_path h (root t) (c1 ++ c2) ∧ rep h (up (c1 ++ c2)) t ↔
  rep_path h (root (plug_all c1 t)) c2 ∧ rep h (up c2) (plug_all c1 t).
Proof.
  revert t. induction c1 as [|f c1 IH]; intros t; [done|]. simpl. rewrite <- IH, root_plug.
  destruct f; simpl; tauto.
Qed.

Lemma plug_all_node c p a k v b t ctx : t = Node p c a k v b → plug_all ctx t ≠ Leaf.
Proof.
  revert p c a k v b t. induction ctx as [|f ctx IH]; intros p c a k v b t ->; [done|].
  destruct f; simpl; by eapply IH.
Qed.
Lemma wp_get_par t q (Q : Z → heap → Prop) h :
  t ≠ Leaf → NULL ∉ addrs t → rep h q t → Q q h → wp (get_par (root t)) Q h.
Proof.
  destruct t as [|p c l k v r]; [done|]. simpl. intros _ Hn (Hp & _) HQ. eapply wp_field; [set_solver|done|done].
Qed.
Lemma plug_all_addrs c1 c2 t : addrs (plug_all c1 t) ++ path_addrs c2 ≡ₚ addrs t ++ path_addrs (c1 ++ c2).
Proof. by rewrite addrs_plug_all, path_addrs_app, <- app_assoc. Qed.
(** The choice of the branch. *)
Lemma wp_delete_branch {B} f ctx t (K : bool * Z → St heap B) h Q :
  NoDup (NULL :: addrs t ++ path_addrs (f :: ctx)) → t ≠ Leaf → rep_path h (root t) (f :: ctx) →
  wp (delete_turn f (root t)) (λ x, wp (K x) Q) h →
  wp (l ← get_left (frame_node f);
      x ← (if l =? root t then delete_left (root t) (frame_node f) else delete_right (root t) (frame_node f));
      K x) Q h.
Proof.
  intros HN Ht (Hf & _) HQ. rewrite path_addrs_cons in HN. apply wp_seq.
  eapply wp_field; [apply not_eq_sym; sep|exact Hf|]. apply wp_seq.
  destruct f as [p c k v r|p c l k v]; cbn [frame_fields left frame_node frame_tree] in *; [by rewrite Z.eqb_refl|].
  destruct t as [|x cx a kx vx b]; [done|]. cbn [root addrs app] in *. rewrite (proj2 (Z.eqb_neq _ _)) by sep. done.
Qed.
Lemma deficit_sibling below f ctx : deficit true below (f :: ctx) → sibling f.
Proof.
  intros (n & c & _ & -> & Hf & Hc).
  destruct f as [p [] k v [|s [] l ks vs r]|p [] [|s [] l ks vs r] k v]; simpl in *; destruct_and?; try done;
    by destruct l, r.
Qed.
Lemma deficit_end below ctx : deficit false below ctx → deficit false (below ++ ctx) [].
Proof.
  intros (n & c & Hb & Hc). destruct (rb_plug_all _ _ _ _ Hb Hc) as [m Hm]. exists m, NODE_RED.
  by rewrite plug_all_app.
Qed.

Lemma delete_loop_ok fuel flag below ctx d cd kd vd h :
  let D := Node d cd Leaf kd vd Leaf in
  let path0 := below ++ ctx in
  NoDup (NULL :: addrs D ++ path_addrs path0) → rep_path h d path0 → rep h (up path0) D →
  deficit flag below ctx → ((if flag then turns ctx else 0) < fuel)%nat →
  wp (delete_loop fuel flag (root (plug_all below D)))
     (λ _ h', ∃ path', rep_path h' d path' ∧ rep h' (up path') D ∧
        before path' = before path0 ∧ after path' = after path0 ∧ path_addrs path' ≡ₚ path_addrs path0 ∧
        last (frame_node <$> path') = last (frame_node <$> path0) ∧ deficit false path' [] ∧
        only (addrs D ++ path_addrs path0) h h') h.
Proof.
  cbv zeta. revert flag below ctx h. induction fuel as [|fuel IH]; intros flag below ctx h HN Hp HD Hdef Hf; [lia|].
  set (D := Node d cd Leaf kd vd Leaf) in *. cbn [delete_loop]. destruct flag.
  - assert (NoDup (NULL :: addrs (plug_all below D) ++ path_addrs ctx)) as HN'.
    { eapply NoDup_Permutation_proper; [|exact HN]. constructor. apply plug_all_addrs. }
    assert (plug_all below D ≠ Leaf) as Hne by (by eapply plug_all_node).
    destruct (proj1 (rep_focus h below ctx D)) as [Hpf Hrf]; [done|]. change (root D) with d in *.
    assert (NULL ∉ addrs (plug_all below D)) as Hnull by sep.
    apply wp_seq. eapply wp_get_par; [done..|]. cbn beta. destruct ctx as [|f ctx].
    + cbn [up]. rewrite Z.eqb_refl. apply wp_ret. exists below. rewrite app_nil_r in *. split_and!; try done.
      destruct Hdef as (n & c & Hb & Hc). exists n, NODE_RED. done.
    + cbn [up]. rewrite (proj2 (Z.eqb_neq _ _)) by (rewrite path_addrs_cons in HN'; apply not_eq_sym; sep).
      apply wp_seq. eapply wp_get_par; [done..|]. cbn beta. cbn [up].
      apply (wp_delete_branch f ctx); [done..|].
      eapply wp_mono; [apply (delete_turn_ok f ctx); [done|done|by eapply deficit_sibling|done|done]|].
      pose proof (rebalance_step_rb _ _ _ Hdef) as [Hdef' Hturns].
      pose proof (rebalance_step_items f) as [Hbef Haft]. pose proof (rebalance_step_addrs f) as Hadr.
      pose proof (rebalance_step_last f) as Hlast.
      destruct (rebalance_step f) as [[bl ab] fl]. unfold below_of, above_of in *. cbn [fst snd] in *.
      intros ? h' (-> & Hp' & Hrf' & Hof). cbn beta iota. rewrite <- plug_all_app.
      destruct (proj2 (rep_focus h' below (bl ++ ab ++ ctx) D)) as [Hp1 HD1]; [done|]. change (root D) with d in *.
      assert (below ++ bl ++ ab ++ ctx = (below ++ bl) ++ ab ++ ctx) as Eq by (by rewrite <- app_assoc).
      rewrite Eq in *.
      assert (path_addrs ((below ++ bl) ++ ab ++ ctx) ≡ₚ path_addrs (below ++ f :: ctx)) as Hadr1.
      { rewrite <- Eq, (app_assoc bl), !path_addrs_app, path_addrs_cons. rewrite path_addrs_app in Hadr.
        by rewrite Hadr. }
      eapply wp_mono; [apply (IH fl (below ++ bl) (ab ++ ctx) h'); try done|].
      * eapply NoDup_Permutation_proper; [|exact HN]. constructor. by rewrite Hadr1.
      * destruct fl; [specialize (Hturns eq_refl); lia|]. simpl in Hf. case_match; lia.
      * intros _ h2 (path' & Hp2 & HD2 & Hb2 & Ha2 & Hadr2 & Hl2 & Hd2 & Ho2). exists path'. split_and!; try done.
        -- rewrite Hb2, <- Eq, (app_assoc bl). change (f :: ctx) with ([f] ++ ctx).
           by rewrite !(before_app below), (before_app (bl ++ ab)), (before_app [f]), Hbef.
        -- rewrite Ha2, <- Eq, (app_assoc bl). change (f :: ctx) with ([f] ++ ctx).
           by rewrite !(after_app below), (after_app (bl ++ ab)), (after_app [f]), Haft.
        -- by rewrite Hadr2.
        -- rewrite Hl2, <- Eq, (app_assoc bl), (fmap_app _ below), (fmap_app _ (bl ++ ab)), !last_app, Hlast.
           rewrite fmap_app, last_app, fmap_cons, last_cons. by destruct (last (frame_node <$> ctx)).
        -- intros a Ha. rewrite Ho2, Hof; [done|..].
           ++ rewrite (plug_all_addrs below (f :: ctx) D). done.
           ++ rewrite Hadr1. done.
  - apply wp_ret. exists (below ++ ctx). split_and!; try done. by apply deficit_end.
Qed.

(** ** Insertion: the way up *)

(** The outermost node of the path, if any, is black. *)
Definition top_black (ctx : path) : Prop := ∀ f, last ctx = Some f → frame_color f = NODE_BLACK.
Definition set_head (tree : nat) (p : Z) (c : Z → Z → Z) (s : rb_state) : rb_state :=
  set_tree_pool (<[tree := {| head := p; comp := c |}]> (tree_pool s)) s.

Lemma rb_path_top c n ctx : rb_path c n ctx → top_black ctx.
Proof.
  revert c n. induction ctx as [|f ctx IH]; intros c n; [by intros _ ?|].
  simpl. intros (-> & _ & Hc) f' Hl. rewrite last_cons in Hl. destruct (last ctx) eqn:Hlast.
  - injection Hl as <-. destruct (frame_color f); [by eapply IH|]. destruct Hc as [c' Hc]. by eapply IH.
  - injection Hl as <-. apply last_None in Hlast. subst. destruct (frame_color f); [done|]. done.
Qed.

Lemma wp_tree_at tree t (Q : rbtree_t → rb_state → Prop) s :
  tree_pool s !! tree = Some t → Q t s → wp (tree_at tree) Q s.
Proof. intros Ht HQ. unfold tree_at. wp_step. rewrite Ht. apply wp_deref. eauto. Qed.
Lemma wp_put_head tree p t (Q : unit → rb_state → Prop) s :
  tree_pool s !! tree = Some t → Q tt (set_head tree p (comp t) s) → wp (put_head tree p) Q s.
Proof.
  intros Ht HQ. unfold put_head, put_tree. wp_step. eapply wp_tree_at; [done|]. wp_step.
  eapply wp_tree_at; [done|]. by wp_step.
Qed.
Lemma set_head_same tree p c s : tree_pool s !! tree = Some {| head := p; comp := c |} → set_head tree p c s = s.
Proof. intros Ht. unfold set_head. rewrite list_insert_id by done. by destruct s. Qed.
Lemma set_rb_nodes_same s : set_rb_nodes (rb_nodes s) s = s.
Proof. by destruct s. Qed.

Lemma wp_get_color t q (Q : node_color → heap → Prop) h :
  t ≠ Leaf → NULL ∉ addrs t → rep h q t → Q (color_of t) h → wp (get_color (root t)) Q h.
Proof.
  destruct t as [|p c l k v r]; [done|]. simpl. intros _ Hn (Hp & _) HQ. eapply wp_field; [set_solver|done|done].
Qed.
Lemma rep_paint h q t c : NoDup (NULL :: addrs t) → rep h q t → rep (alter (with_color c) (root t) h) q (paint c t).
Proof.
  destruct t as [|p c' l k v r]; [done|]. intros HN (Hp & Hl & Hr). cbn [root paint rep addrs] in *.
  split_and!; rb_done.
Qed.

Lemma wp_in_nodes {A} (m : St heap A) (Q : A → rb_state → Prop) s :
  wp m (λ a h, Q a (set_rb_nodes h s)) (rb_nodes s) → wp (in_nodes m) Q s.
Proof. apply wp_on_part. Qed.

(** The test of the second loop. *)
Lemma insert_test {B} f1 ctx t (K : bool → St rb_state B) Q s :
  NoDup (NULL :: addrs t ++ path_addrs (f1 :: ctx)) → t ≠ Leaf → rep_path (rb_nodes s) (root t) (f1 :: ctx) →
  rep (rb_nodes s) (frame_node f1) t →
  wp (K (is_red (color_of t) && is_red (frame_color f1))) Q s →
  wp (c ← in_nodes (get_color (root t));
      loop ← (if is_red c then in_nodes (p ← get_par (root t); pc ← get_color p; mret (is_red pc)) else mret false);
      K loop) Q s.
Proof.
  intros HN Ht (Hf & _) Hrep HQ. rewrite path_addrs_cons in HN. assert (NULL ∉ addrs t) by sep.
  destruct s as [h q n tp tc]. cbn [rb_nodes] in *.
  apply wp_seq, wp_in_nodes. eapply wp_get_color; [done..|]. cbn [set_rb_nodes rb_nodes rb_queue pool_count tree_pool tree_count].
  destruct (is_red (color_of t)); [|done].
  apply wp_seq, wp_in_nodes, wp_seq. eapply wp_get_par; [done..|]. apply wp_seq.
  eapply wp_field; [apply not_eq_sym; sep|exact Hf|]. apply wp_ret. by destruct f1.
Qed.

Lemma root_repair f1 ctx t t' f2 : root (plug_all (f1 :: f2 :: ctx) t) = default (frame_node f2) (last (frame_node <$> ctx)) ∧
  root (plug_all ctx t') = default (root t') (last (frame_node <$> ctx)).
Proof. rewrite !root_plug_all, !fmap_cons, !last_cons. by destruct (last (frame_node <$> ctx)). Qed.

Lemma insert_fix_ok fuel tree c ctx t s :
  NoDup (NULL :: addrs t ++ path_addrs ctx) → t ≠ Leaf → ctx ≠ [] → top_black ctx →
  rep_path (rb_nodes s) (root t) ctx → rep (rb_nodes s) (up ctx) t →
  tree_pool s !! tree = Some {| head := root (plug_all ctx t); comp := c |} → (length ctx < fuel)%nat →
  wp (insert_fix fuel tree (root t))
     (λ _ s', ∃ h', rep h' NULL (repair ctx t) ∧ only (addrs t ++ path_addrs ctx) (rb_nodes s) h' ∧
        s' = set_rb_nodes h' (set_head tree (root (repair ctx t)) c s)) s.
Proof.
  revert ctx t s. induction fuel as [|fuel IH]; intros ctx t s HN Ht Hne Htop Hp Hrep Hhead Hf; [lia|].
  cbn [insert_fix]. destruct ctx as [|f1 ctx]; [done|]. cbn [up] in Hrep.
  apply (insert_test f1 ctx); [done..|].
  assert (is_red (color_of t) && is_red (frame_color f1) = false → repair (f1 :: ctx) t = plug_all (f1 :: ctx) t) as Hrest.
  { intros E. destruct ctx as [|f2 ctx]; [done|]. cbn [repair]. by rewrite E. }
  destruct (is_red (color_of t) && is_red (frame_color f1)) eqn:Hred.
  - destruct ctx as [|f2 ctx].
    { rewrite (Htop f1 eq_refl), andb_false_r in Hred. done. }
    cbn [repair]. rewrite Hred. clear Hrest. pose proof (insert_step_ok f1 f2 ctx t _ HN Ht Hp Hrep) as Hstep.
    pose proof (repair_step_node f2 f1 t Ht) as Hnode. pose proof (repair_step_addrs f2 f1 t Ht) as Hadr.
    set (t' := repair_step f2 f1 t) in *.
    assert (addrs t' ++ path_addrs ctx ≡ₚ addrs t ++ path_addrs (f1 :: f2 :: ctx)) as Hadr'.
    { rewrite Hadr, !path_addrs_cons. destruct f1, f2; simpl; solve_Permutation. }
    assert (NoDup (NULL :: addrs t' ++ path_addrs ctx)) as HN'.
    { eapply NoDup_Permutation_proper; [|exact HN]. by constructor. }
    destruct s as [h q n tp tc]. cbn [rb_nodes tree_pool] in *.
    apply wp_seq, wp_in_nodes. eapply wp_mono; [exact Hstep|]. intros ? h1 (-> & Hp1 & Hrep1 & Ho1).
    apply wp_seq, wp_in_nodes. assert (NULL ∉ addrs t') by sep. eapply wp_get_par; [done..|].
    cbn [set_rb_nodes rb_nodes rb_queue pool_count tree_pool tree_count]. destruct ctx as [|f ctx].
    + cbn [up]. rewrite Z.eqb_refl. wp_step. eapply wp_put_head; [done|]. apply wp_in_nodes.
      cbn [set_rb_nodes set_head set_tree_pool rb_nodes rb_queue pool_count tree_pool tree_count comp].
      destruct t' as [|p1 c1 l1 k1 v1 r1] eqn:Ht'; [done|]. pose proof Hrep1 as (Hlook & _).
      eapply wp_update; [simpl in *; sep|exact Hlook|].
      eexists. split_and!; [apply (rep_paint h1 NULL (Node p1 c1 l1 k1 v1 r1)); [by rewrite app_nil_r in HN'|done]| |done].
      intros a Ha. rewrite lookup_alter_ne; [by apply Ho1|]. intros <-. apply Ha. rewrite <- Hadr'. simpl. set_solver.
    + cbn [up]. rewrite (proj2 (Z.eqb_neq _ _)) by (rewrite path_addrs_cons in HN'; apply not_eq_sym; sep).
      destruct (root_repair f1 (f :: ctx) t t' f2) as [E1 E2].
      assert (root (plug_all (f :: ctx) t') = root (plug_all (f1 :: f2 :: f :: ctx) t)) as E.
      { rewrite E1, E2, fmap_cons, last_cons. by destruct (last (frame_node <$> ctx)). }
      eapply wp_mono; [apply (IH (f :: ctx)); cbn [rb_nodes tree_pool]; try done|].
      * by rewrite E.
      * simpl in *. lia.
      * intros _ s' (h' & Hr' & Ho' & ->). exists h'. split_and!; [done| |done].
        cbn [rb_nodes] in *. intros a Ha. rewrite Ho', Ho1; [done|done|]. by rewrite Hadr'.
  - wp_step. exists (rb_nodes s). rewrite Hrest by done. split_and!; [by apply rep_plug_all|done|].
    rewrite set_head_same by done. by destruct s.
Qed.

(** The fields of a new node. *)
Definition new_node (key val p : Z) : rbnode_t :=
  {| key := key; val := val; par := p; left := NULL; right := NULL; color := NODE_RED |}.
Lemma new_node_ok x k v n (h : heap) (Q : unit → heap → Prop) :
  x ≠ NULL → h !! x = Some n →
  (∀ h', only [x] h h' → h' !! x = Some (new_node k v (par n)) → Q tt h') →
  wp (put_key x k;; put_val x v;; put_left x NULL;; put_right x NULL;; put_color x NODE_RED) Q h.
Proof.
  intros Hx Hn HQ. do 4 (apply wp_seq; eapply wp_update; [done|solve [look]|]). eapply wp_update; [done|solve [look]|].
  apply HQ; [|look_as]. intros a Ha. rewrite !lookup_alter_ne by set_solver. done.
Qed.


(** * The invariant *)

Section map.
#[local] Set Default Proof Using "Type*".
Context (node_pool ls : Z) (tv_abort : St rb_state unit) (tree : nat) (compare : Z → Z → Z) `{Hcomp : Comparison compare}.

(** The nodes that can be allocated: the free list, then the rest of the pool. *)
Definition available (free : list Z) (n : Z) : list Z :=
  ((λ q, q + 16) <$> free) ++ (pool_node node_pool <$> seqZ n (RBTREE_NODE_POOL_NUM - n)).
(** The queue links of the node [a] can be used. *)
Definition linkable (q : queue_state) (a : Z) : Prop :=
  is_Some (qnodes q !! (a - 16)) ∧ a - 16 ≠ NULL ∧ a - 16 ≠ q_head ls ∧ a - 16 ≠ q_tail ls.

Record rb_repr (t : Trees.tree) (free : list Z) (s : rb_state) : Prop := {
  rr_head : tree_pool s !! tree = Some {| head := root t; comp := compare |};
  rr_rep : rep (rb_nodes s) NULL t;
  rr_nodup : NoDup (NULL :: addrs t ++ available free (pool_count s));
  rr_count : 0 ≤ pool_count s ≤ RBTREE_NODE_POOL_NUM;
  rr_queue : queue_repr ls free (rb_queue s);
  rr_nodes : Forall (λ a, is_Some (rb_nodes s !! a)) (available free (pool_count s));
  rr_links : Forall (linkable (rb_queue s)) (addrs t ++ available free (pool_count s));
  rr_balanced : ∃ n, rb NODE_RED n t;
  rr_sorted : sorted compare (contents t);
}.

(** The tree holds the pairs [l] in order, [m] more nodes can be allocated, and
    [o] are the nodes of both. *)
Definition tree_repr (o : list Z) (l : list (Z * Z)) (m : nat) (s : rb_state) : Prop :=
  ∃ t free, rb_repr t free s ∧ contents t = l ∧ length (available free (pool_count s)) = m ∧
    addrs t ++ available free (pool_count s) ≡ₚ o.
(** What a call on the tree leaves alone. *)
Definition others (o : list Z) (s s' : rb_state) : Prop :=
  only o (rb_nodes s) (rb_nodes s') ∧ tree_count s' = tree_count s ∧
  ∀ i, i ≠ tree → tree_pool s' !! i = tree_pool s !! i.

Lemma length_contents t : length (contents t) = length (addrs t).
Proof. induction t; simpl; rewrite ?length_app; simpl; lia. Qed.
Lemma balanced_depth t free s : rb_repr t free s → (depth t ≤ 2 * Nat.log2 (length (contents t) + 1))%nat.
Proof. intros [_ _ _ _ _ _ _ [n Hn] _]. rewrite length_contents. by eapply rb_logarithmic. Qed.

Lemma alloc_ok t free s x rest :
  rb_repr t free s → available free (pool_count s) = x :: rest →
  wp (rbtree_node_alloc node_pool ls tv_abort)
     (λ r s', r = x ∧ ∃ free', rest = available free' (pool_count s') ∧
        0 ≤ pool_count s' ≤ RBTREE_NODE_POOL_NUM ∧ queue_repr ls free' (rb_queue s') ∧
        dom (qnodes (rb_queue s')) = dom (qnodes (rb_queue s)) ∧
        rb_nodes s' = rb_nodes s ∧ tree_pool s' = tree_pool s ∧ tree_count s' = tree_count s) s.
Proof.
  intros [_ _ _ Hn Hq _ _ _ _] Hx. destruct s as [h q n tp tc]. unfold rbtree_node_alloc, in_queue. cbn [pool_count rb_queue] in *.
  wp_step. eapply queue_is_empty_ok; [exact Hq|]. destruct free as [|f free].
  - rewrite bool_decide_true by done. unfold available in Hx. cbn [fmap list_fmap app] in Hx.
    wp_step. cbn [set_rb_queue pool_count]. destruct (Z.leb_spec RBTREE_NODE_POOL_NUM n).
    { rewrite seqZ_nil in Hx by (unfold RBTREE_NODE_POOL_NUM in *; lia). done. }
    wp_step. unfold RBTREE_NODE_POOL_NUM in *. rewrite seqZ_cons in Hx by lia. cbn [fmap list_fmap] in Hx. injection Hx as Hx1 Hx2.
    split; [done|]. exists []. cbn [set_pool_count set_rb_queue pool_count rb_queue rb_nodes tree_pool tree_count].
    rewrite s32_small by lia. split_and!; try done; try lia. rewrite <- Hx2. unfold available, RBTREE_NODE_POOL_NUM. simpl.
    do 2 f_equal; lia.
  - rewrite bool_decide_false by done. wp_step. cbn [set_rb_queue rb_queue].
    eapply wp_mono; [by apply queue_list_pop_ok|]. intros r q' (-> & Hq' & [Hdom _] & _). wp_step.
    injection Hx as <- Hx. split; [done|]. exists free. by cbn [set_rb_queue rb_queue pool_count rb_nodes tree_pool tree_count].
Qed.
#[local] Set Default Proof Using "compare Hcomp".
(** The tree with the new node. *)
Definition inserted (x key val : Z) (t : Trees.tree) : Trees.tree :=
  match t with
  | Leaf => Node x NODE_BLACK Leaf key val Leaf
  | _ => repair (descend compare key t []) (Node x NODE_RED Leaf key val Leaf)
  end.

Lemma descend_root k t : plug_all (descend compare k t []) Leaf = t.
Proof. apply (descend_plug compare k t []). Qed.
Lemma descend_addrs k t : path_addrs (descend compare k t []) ≡ₚ addrs t.
Proof. rewrite <- (descend_root k t) at 2. by rewrite addrs_plug_all. Qed.
Lemma descend_ctx k t : t ≠ Leaf → descend compare k t [] ≠ [].
Proof. intros Ht E. apply Ht. by rewrite <- (descend_root k t), E. Qed.
Lemma inserted_addrs x k v t : addrs (inserted x k v t) ≡ₚ x :: addrs t.
Proof.
  destruct t as [|p c l kp vp r] eqn:Ht; [done|]. unfold inserted. rewrite <- Ht.
  rewrite repair_addrs, addrs_plug_all by done. simpl. by rewrite descend_addrs.
Qed.
Lemma inserted_contents x k v t :
  sorted compare (contents t) →
  contents (inserted x k v t) = insert_item compare k v (contents t) ∧ sorted compare (contents (inserted x k v t)).
Proof.
  intros Hs. destruct (descend_order compare k t []) as [Hb Ha]; [done..|].
  assert (contents (inserted x k v t) =
    before (descend compare k t []) ++ (k, v) :: after (descend compare k t [])) as E.
  { destruct t as [|p c l kp vp r]; [done|]. unfold inserted. by rewrite repair_contents, contents_plug_all. }
  assert (contents t = before (descend compare k t []) ++ after (descend compare k t [])) as Et.
  { rewrite <- (descend_root k t) at 1. by rewrite contents_plug_all. }
  rewrite E. rewrite Et in *. split; [by rewrite insert_item_app|]. by eapply sorted_insert.
Qed.
Lemma inserted_balanced x k v t n : rb NODE_RED n t → ∃ m, rb NODE_RED m (inserted x k v t).
Proof.
  intros Ht. destruct t as [|p c l kp vp r] eqn:E; [by exists 1%nat|]. unfold inserted. rewrite <- E in *.
  rewrite <- (descend_root k t) in Ht. apply rb_unplug_all in Ht as (c' & n' & -> & Hc).
  eapply (repair_rb 0); [by apply descend_ctx; rewrite E|done|done].
Qed.

Lemma insert_tree_ok fuel x k v t p s :
  rep (rb_nodes s) NULL t → (∃ n, rb NODE_RED n t) → NoDup (NULL :: x :: addrs t) → (depth t < fuel)%nat →
  tree_pool s !! tree = Some {| head := root t; comp := compare |} → rb_nodes s !! x = Some (new_node k v p) →
  wp (t ← tree_at tree;
      if head t =? NULL then in_nodes (put_par x NULL;; put_color x NODE_BLACK);; put_head tree x
      else in_nodes (insert_loop fuel (comp t) x (head t));; insert_fix fuel tree x)
     (λ _ s', ∃ h', rep h' NULL (inserted x k v t) ∧ only (x :: addrs t) (rb_nodes s) h' ∧
        s' = set_rb_nodes h' (set_head tree (root (inserted x k v t)) compare s)) s.
Proof.
  intros Hrep [n Hn] HN Hf Hhead Hx. destruct s as [h q cnt tp tc]. cbn [rb_nodes tree_pool] in *.
  apply wp_seq. eapply wp_tree_at; [done|]. cbn [head comp]. destruct t as [|r c tl kr vr tr] eqn:Ht.
  - cbn [root]. rewrite Z.eqb_refl. apply wp_seq, wp_in_nodes, wp_seq.
    eapply wp_update; [sep|exact Hx|]. eapply wp_update; [sep|look|]. eapply wp_put_head; [done|].
    refine (ex_intro _ _ (conj _ (conj _ eq_refl))); [cbn [inserted rep root]; split_and!; [look_as|exact I|exact I]|].
    intros a Ha. cbn [set_rb_nodes rb_nodes]. rewrite !lookup_alter_ne by set_solver. done.
  - rewrite <- Ht in *. assert (t ≠ Leaf) as Hne by (by rewrite Ht).
    assert (root t ≠ NULL) as Hroot by (destruct t; simpl in *; [done|]; apply not_eq_sym; sep).
    rewrite (proj2 (Z.eqb_neq _ _)) by done. set (ctx := descend compare k t []).
    apply wp_seq, wp_in_nodes. cbn [rb_nodes].
    eapply wp_mono; [apply (insert_loop_ok compare fuel x k v p [] t h); [|done|lia|exact I|exact Hrep|exact (conj Hx (conj I I))]|].
    { by rewrite app_nil_r. }
    intros ? h1 (Hp1 & Hrep1 & Ho1). fold ctx in Hp1, Hrep1. cbn [set_rb_nodes rb_queue pool_count tree_pool tree_count].
    pose proof (descend_length compare k t []) as Hlen. fold ctx in Hlen. cbn [length] in Hlen.
    pose proof (descend_root k t) as Hplug. pose proof (descend_addrs k t) as Hadr. fold ctx in Hplug, Hadr.
    rewrite <- Hplug in Hn. apply rb_unplug_all in Hn as (c' & n' & _ & Hc).
    assert (inserted x k v t = repair ctx (Node x NODE_RED Leaf k v Leaf)) as -> by (by unfold ctx; rewrite Ht).
    eapply wp_mono; [apply (insert_fix_ok fuel tree compare ctx (Node x NODE_RED Leaf k v Leaf))|].
    + simpl. by rewrite Hadr.
    + done.
    + by apply descend_ctx.
    + by eapply rb_path_top.
    + done.
    + done.
    + cbn [set_rb_nodes tree_pool]. rewrite Hhead. do 2 f_equal. rewrite <- Hplug. rewrite !root_plug_all.
      assert (ctx ≠ []) as Hctx by (by apply descend_ctx). clearbody ctx. destruct ctx as [|f ctx']; [done|].
      rewrite fmap_cons, last_cons. by destruct (last _).
    + lia.
    + intros ? s' (h' & Hr' & Ho' & ->). exists h'. split_and!; [done| |done].
      intros b Hb. cbn [rb_nodes] in Ho'. rewrite Ho', Ho1; [done|done|]. simpl. by rewrite Hadr.
Qed.

Lemma links_keep q q' l l' :
  Forall (linkable q) l → l' ⊆+ l → dom (qnodes q') = dom (qnodes q) → Forall (linkable q') l'.
Proof using Type.
  intros Hl Hs Hd. rewrite Forall_forall in *. intros a Ha. destruct (Hl a) as [Hm Hr].
  { eapply elem_of_submseteq; [exact Ha|exact Hs]. }
  split; [|exact Hr]. apply elem_of_dom. rewrite Hd. by apply elem_of_dom.
Qed.
Lemma nodes_keep o (h h' : heap) l :
  Forall (λ a, is_Some (h !! a)) l → only o h h' → (∀ a, a ∈ l → a ∉ o) → Forall (λ a, is_Some (h' !! a)) l.
Proof using Type. rewrite !Forall_forall. intros Hl Ho Hd a Ha. rewrite Ho by auto. by apply Hl. Qed.

Lemma rbtree_insert_ok fuel o l m key val s :
  tree_repr o l (S m) s → (2 * Nat.log2 (length l + 1) < fuel)%nat →
  wp (rbtree_insert node_pool ls tv_abort fuel tree key val)
     (λ _ s', tree_repr o (insert_item compare key val l) m s' ∧ others o s s') s.
Proof.
  intros (t & free & Hr & <- & Hm & Ho) Hf. pose proof (balanced_depth t free s Hr) as Hdep.
  destruct (available free (pool_count s)) as [|x rest] eqn:Hav; [done|]. injection Hm as Hm.
  pose proof (alloc_ok t free s x rest Hr Hav) as Halloc. destruct Hr as [Hhead Hrep HN Hcnt Hq Hnodes Hlinks Hbal Hsort].
  rewrite Hav in *. unfold rbtree_insert. apply wp_seq. eapply wp_mono; [exact Halloc|].
  intros ? s1 (-> & free' & -> & Hcnt1 & Hq1 & Hdom1 & Hnodes1 & Htp1 & Htc1).
  apply Forall_cons in Hnodes as [[n Hn] Hnodes]. assert (x ≠ NULL) as Hx0 by (apply not_eq_sym; sep).
  apply wp_seq, wp_in_nodes. rewrite Hnodes1. eapply new_node_ok; [done|exact Hn|]. intros h1 Ho1 Hx1.
  assert (NoDup (NULL :: x :: addrs t)) as HNx by sep.
  eapply wp_mono; [apply (insert_tree_ok fuel x key val t (par n) (set_rb_nodes h1 s1));
    cbn [set_rb_nodes rb_nodes tree_pool]; [|done|done|lia|by rewrite Htp1|done]|].
  { eapply rep_ext; [|exact Hrep]. intros a Ha. apply Ho1. intros ->%list_elem_of_singleton. nodup. }
  intros [] s2 (h2 & Hrep2 & Ho2 & ->). destruct Hbal as [nb Hbal].
  destruct (inserted_contents x key val t Hsort) as [Hcont Hsort'].
  pose proof (inserted_addrs x key val t) as Hadr. set (T := inserted x key val t) in *.
  assert (addrs T ++ available free' (pool_count s1) ≡ₚ addrs t ++ x :: available free' (pool_count s1)) as Hall.
  { rewrite Hadr. simpl. by rewrite Permutation_middle. }
  assert (only (x :: addrs t) (rb_nodes s) h2) as Honly.
  { intros a Ha. cbn [set_rb_nodes rb_nodes] in Ho2. rewrite Ho2, Ho1; [done|set_solver|done]. }
  split.
  - exists T, free'. split_and!; [|done|done|by rewrite <- Ho].
    constructor; cbn [set_rb_nodes set_head set_tree_pool rb_nodes rb_queue pool_count tree_pool tree_count].
    + apply list_lookup_insert_eq. rewrite Htp1. by eapply lookup_lt_Some.
    + done.
    + by rewrite Hall.
    + done.
    + done.
    + eapply nodes_keep; [exact Hnodes|exact Honly|]. intros a Ha Ha'. nodup.
    + eapply links_keep; [exact Hlinks| |exact Hdom1]. by rewrite Hall.
    + by eapply inserted_balanced.
    + done.
  - split_and!; cbn [set_rb_nodes set_head set_tree_pool rb_nodes rb_queue pool_count tree_pool tree_count].
    + intros a Ha. apply Honly. rewrite <- Ho in Ha. set_solver.
    + done.
    + intros i Hi. rewrite list_lookup_insert_ne by done. by rewrite Htp1.
Qed.

(** ** Search and deletion *)

Lemma rbtree_search_ok fuel o l m key' s :
  tree_repr o l m s → (2 * Nat.log2 (length l + 1) < fuel)%nat →
  wp (rbtree_search fuel tree key')
     (λ r s', s' = s ∧
        ((r = NULL ∧ Forall (λ e, compare (fst e) key' ≠ 0) l) ∨
         ∃ n, r ≠ NULL ∧ rb_nodes s !! r = Some n ∧ compare (key n) key' = 0 ∧ (key n, val n) ∈ l)) s.
Proof.
  intros (t & free & Hr & <- & _ & _) Hf. pose proof (balanced_depth t free s Hr) as Hdep.
  destruct Hr as [Hhead Hrep HN _ _ _ _ _ Hsort]. unfold rbtree_search. apply wp_seq. eapply wp_tree_at; [done|].
  apply wp_in_nodes. cbn [head comp]. assert (NoDup (NULL :: addrs t)) as HNt by sep.
  eapply wp_mono; [apply (search_loop_ok compare fuel key' NULL t []); [done|lia|done]|].
  intros ? h' [-> ->]. split; [apply set_rb_nodes_same|]. pose proof (find_plug compare key' t []) as Hplug.
  change (plug_all [] t) with t in Hplug. destruct (snd (find compare key' t [])) as [|x c tl k v tr] eqn:Hfind.
  - left. split; [done|]. by apply (find_none compare key' t []).
  - right. pose proof (find_key compare key' t [] _ _ _ _ _ _ Hfind) as Hk.
    rewrite <- Hplug in Hrep. apply rep_plug_all in Hrep as [_ (Hx & _)].
    eexists. split_and!; [|exact Hx|exact Hk|].
    + rewrite <- Hplug in HNt. rewrite addrs_plug_all in HNt. simpl in *. apply not_eq_sym. sep.
    + rewrite <- Hplug, contents_plug_all. cbn [contents key val]. set_solver.
Qed.
End map.

(** What the deletion of the pair in the node [n] does.  If the node has no left
    child, the pair goes; if it has one, the key goes with the value of the pair
    before it, whose key has the value of the deleted pair from then on. *)
Definition deleted (n : rbnode_t) (l l' : list (Z * Z)) : Prop :=
  ∃ l1 l2, l = l1 ++ (key n, val n) :: l2 ∧
    if left n =? NULL then l' = l1 ++ l2
    else ∃ l0 k' v', l1 = l0 ++ [(k', v')] ∧ l' = l0 ++ (k', val n) :: l2.

(** The place of the node to be freed, [d], after the keys and values have moved:
    [ctx] and [Node x c l k v r] were the place of the node found. *)
Record victim (ctx : path) (x : Z) (c : node_color) (l : tree) (k v : Z) (r : tree) (h h' : heap) (d : Z)
    (dc : node_color) (dk dv : Z) (place : path) : Prop := {
  vi_path : rep_path h' d place;
  vi_node : rep h' (up place) (Node d dc Leaf dk dv Leaf);
  vi_addrs : addrs (Node d dc Leaf dk dv Leaf) ++ path_addrs place ≡ₚ addrs (Node x c l k v r) ++ path_addrs ctx;
  vi_balanced : ∃ n, rb NODE_RED n (plug_all place (Node d dc Leaf dk dv Leaf));
  vi_only : only (addrs (Node x c l k v r) ++ path_addrs ctx) h h';
  vi_top : (l = Leaf ∧ r = Leaf ∧ place = ctx) ∨ ∃ f, last (frame_node <$> place) = Some f ∧ root (plug_all ctx (Node x c l k v r)) = f;
  vi_items : let l1 := before ctx ++ contents l in let l2 := contents r ++ after ctx in
    (l = Leaf → before place ++ after place = l1 ++ l2) ∧
    (l ≠ Leaf → ∃ l0 k' v', l1 = l0 ++ [(k', v')] ∧ before place ++ after place = l0 ++ (k', v) :: l2);
}.

Lemma move_right_child_ok ctx x c k v r h :
  NoDup (NULL :: addrs (Node x c Leaf k v r) ++ path_addrs ctx) → r ≠ Leaf →
  rep_path h x ctx → rep h (up ctx) (Node x c Leaf k v r) →
  (∃ n, rb NODE_RED n (plug_all ctx (Node x c Leaf k v r))) →
  wp (move_right_child x) (λ d h', ∃ dc dk dv place, victim ctx x c Leaf k v r h h' d dc dk dv place) h.
Proof.
  intros HN Hr Hctx (Hx & _ & Hrr) [n Hn]. pose proof Hn as Hn'. apply rb_unplug_all in Hn' as (c0 & n0 & Hn0 & Hc).
  destruct (rb_red_leaf x c0 n0 k v r) as [->|(y & ky & vy & ->)]; [destruct c; auto|done|].
  destruct Hrr as (Hy & _). rb_shape. unfold move_right_child. rb_run.
  exists NODE_RED, ky, vy, (InRight x c Leaf ky vy :: ctx). constructor; rb_shape.
  - split_and!; try exact I; rb_done.
  - split_and!; try exact I; rb_done.
  - solve_Permutation.
  - apply (rb_plug_all ctx c0 n0); [|done]. destruct c; exact Hn0.
  - unfold only. elsewhere.
  - right. rewrite root_plug_all. cbn [fmap list_fmap frame_node]. rewrite last_cons.
    destruct (last (frame_node <$> ctx)) eqn:E; eexists; split; try done.
  - split; [intros _|done]. simpl. rewrite app_nil_r. by rewrite <- app_assoc.
Qed.

(** The path does not depend on the keys for its balance, nor in memory but for them. *)
Lemma rb_path_rekey c n c1 x cx k k' v r c2 :
  rb_path c n (c1 ++ InLeft x cx k v r :: c2) → rb_path c n (c1 ++ InLeft x cx k' v r :: c2).
Proof.
  revert c n. induction c1 as [|f c1 IH]; intros c n; [done|]. simpl. intros (-> & Hf & Hc). split_and!; [done..|].
  destruct (frame_color f); [by apply IH|]. destruct Hc as [c' Hc]. exists c'. by apply IH.
Qed.
Lemma up_rekey c1 x cx k k' v r c2 : up (c1 ++ InLeft x cx k v r :: c2) = up (c1 ++ InLeft x cx k' v r :: c2).
Proof. by destruct c1. Qed.
Lemma rep_path_rekey h z c1 x cx k k' v r c2 :
  NoDup (path_addrs (c1 ++ InLeft x cx k v r :: c2)) → rep_path h z (c1 ++ InLeft x cx k v r :: c2) →
  rep_path (alter (with_key k') x h) z (c1 ++ InLeft x cx k' v r :: c2).
Proof.
  revert z. induction c1 as [|f c1 IH]; intros z; cbn [app rep_path]; rewrite path_addrs_cons;
    cbn [frame_node frame_tree frame_fields]; intros HN (Hf & Ht & Hc).
  - split_and!; [by erewrite look_alter_eq by done|apply rep_alter; [nodup|done]|apply rep_path_alter; [nodup|done]].
  - assert (x ∈ path_addrs (c1 ++ InLeft x cx k v r :: c2)) as Hx.
    { rewrite path_addrs_app, path_addrs_cons. simpl. set_solver. }
    apply NoDup_cons in HN as [Hnf HN]. apply NoDup_app in HN as (_ & Hd & HN).
    split_and!; [|apply rep_alter; [by intros Hin; apply (Hd x Hin)|done]|by apply IH].
    rewrite <- (up_rekey c1 x cx k k'). apply look_alter_ne; [|done]. intros ->. apply Hnf, elem_of_app. by right.
Qed.

Lemma path_addrs_rekey c1 x cx k k' v r c2 : path_addrs (c1 ++ InLeft x cx k v r :: c2) = path_addrs (c1 ++ InLeft x cx k' v r :: c2).
Proof. by rewrite !path_addrs_app, !path_addrs_cons. Qed.
Lemma last_rekey c1 x cx k k' v r c2 :
  last (frame_node <$> c1 ++ InLeft x cx k v r :: c2) = last (frame_node <$> c1 ++ InLeft x cx k' v r :: c2).
Proof. by rewrite !fmap_app. Qed.
Lemma last_node f ctx : ∃ p, last (frame_node <$> f :: ctx) = Some p.
Proof. rewrite fmap_cons, last_cons. destruct (last _); eauto. Qed.
Lemma root_last c1 x cx k v r c2 t :
  ∃ p, last (frame_node <$> c1 ++ InLeft x cx k v r :: c2) = Some p ∧ root (plug_all (c1 ++ InLeft x cx k v r :: c2) t) = p.
Proof.
  destruct (last_node (InLeft x cx k v r) c2) as [p Hp]. exists p.
  assert (last (frame_node <$> c1 ++ InLeft x cx k v r :: c2) = Some p) as E by (by rewrite fmap_app, last_app, Hp).
  by rewrite root_plug_all, E.
Qed.

(** The rightmost node [Node m cm ml km vm Leaf] on the left of [x], at the end
    of the path [pm] from there, after its key is stored in [x]. *)
Section predecessor.
Context (ctx : path) (x : Z) (c : node_color) (l : tree) (k v : Z) (r : tree) (h : heap).
Context (pm : path) (m : Z) (cm : node_color) (ml : tree) (km vm : Z).
Abbreviation M := (Node m cm ml km vm Leaf).
Abbreviation P := (pm ++ InLeft x c k v r :: ctx).
Abbreviation P' := (pm ++ InLeft x c km v r :: ctx).
Hypothesis Hplug : plug_all P M = plug_all ctx (Node x c l k v r).
Hypothesis Hcont : contents l = before pm ++ contents ml ++ [(km, vm)].
Hypothesis Hafter : after pm = [].
Hypothesis HN : NoDup (NULL :: addrs M ++ path_addrs P).
Hypothesis Hrep : rep h NULL (plug_all P M).
Hypothesis Hrb : ∃ n, rb NODE_RED n (plug_all P M).

Lemma predecessor_addrs : addrs M ++ path_addrs P' ≡ₚ addrs (Node x c l k v r) ++ path_addrs ctx.
Proof using Hplug. rewrite (path_addrs_rekey _ _ _ _ k). rewrite <- !addrs_plug_all. by rewrite Hplug. Qed.
Lemma predecessor_key :
  rep_path (alter (with_key km) x h) m P' ∧ rep (alter (with_key km) x h) (up P') M.
Proof using HN Hrep.
  apply rep_plug_all in Hrep as [Hp Hm]. split.
  - apply (rep_path_rekey _ _ _ _ _ k); [sep|exact Hp].
  - rewrite (up_rekey _ _ _ km k). apply rep_alter; [|done]. rewrite path_addrs_app, path_addrs_cons in HN. sep.
Qed.
Lemma predecessor_balanced : ∃ n c', rb c' n M ∧ rb_path c' n P'.
Proof using Hrb.
  destruct Hrb as [n Hn]. apply rb_unplug_all in Hn as (c' & n' & Hn & Hc). exists n', c'. split; [done|].
  by eapply rb_path_rekey.
Qed.
Lemma predecessor_items :
  before P' = before ctx ++ before pm ∧ after P' = (km, v) :: contents r ++ after ctx ∧
  before ctx ++ contents l = (before ctx ++ before pm ++ contents ml) ++ [(km, vm)].
Proof using Hcont Hafter. rewrite before_app, after_app, Hafter, Hcont, <- !app_assoc. done. Qed.
Lemma predecessor_only a :
  a ∉ addrs (Node x c l k v r) ++ path_addrs ctx → a ≠ x ∧ (a ∉ addrs M) ∧ a ∉ path_addrs P'.
Proof using Hplug.
  clear Hcont Hafter HN Hrep Hrb. intros Ha. rewrite <- predecessor_addrs in Ha. rewrite path_addrs_app, path_addrs_cons in *. simpl in *. set_solver.
Qed.
Lemma predecessor_top : ∃ f, last (frame_node <$> P') = Some f ∧ root (plug_all ctx (Node x c l k v r)) = f.
Proof using Hplug. rewrite <- Hplug, (last_rekey _ _ _ km k). apply root_last. Qed.
End predecessor.

Lemma move_predecessor_ok fuel ctx x c l k v r h :
  NoDup (NULL :: addrs (Node x c l k v r) ++ path_addrs ctx) → l ≠ Leaf → (depth l ≤ fuel)%nat →
  rep_path h x ctx → rep h (up ctx) (Node x c l k v r) →
  (∃ n, rb NODE_RED n (plug_all ctx (Node x c l k v r))) →
  wp (move_predecessor fuel x (root l)) (λ d h', ∃ dc dk dv place, victim ctx x c l k v r h h' d dc dk dv place) h.
Proof.
  intros HN Hl Hf Hctx Hrep Hn. pose proof Hrep as (Hx & Hrl & _).
  pose proof (rightmost_plug l (InLeft x c k v r :: ctx)) as Hplug.
  change (plug_all (InLeft x c k v r :: ctx) l) with (plug_all ctx (Node x c l k v r)) in Hplug.
  destruct (rightmost_node l (InLeft x c k v r :: ctx) Hl) as (m & cm & ml & km & vm & Hm).
  destruct (rightmost_app l (InLeft x c k v r :: ctx)) as [Happ Happ']. rewrite Happ, Hm in Hplug.
  pose proof (rightmost_after l []) as Hafter. pose proof (rightmost_plug l []) as Hpm.
  rewrite <- Happ', Hm in Hpm. change (plug_all [] l) with l in Hpm. cbn [after] in Hafter.
  unfold move_predecessor. apply wp_seq.
  eapply wp_mono; [apply (max_loop_ok fuel x l (InLeft x c k v r :: ctx)); [sep|done..]|].
  intros ? h' [-> ->]. rewrite Hm. cbn [root]. clear Happ Happ' Hm. set (pm := fst (rightmost l [])) in *. clearbody pm.
  assert (contents l = before pm ++ contents ml ++ [(km, vm)]) as Hcont.
  { rewrite <- Hpm at 1. rewrite contents_plug_all, Hafter, app_nil_r. done. }
  assert (rep h NULL (plug_all ctx (Node x c l k v r))) as Hrep0 by (by apply rep_plug_all).
  assert (NoDup (NULL :: addrs (Node m cm ml km vm Leaf) ++ path_addrs (pm ++ InLeft x c k v r :: ctx))) as HN2.
  { eapply NoDup_Permutation_proper; [|exact HN]. constructor. rewrite <- !addrs_plug_all. by rewrite Hplug. }
  rewrite <- Hplug in Hrep0, Hn. pose proof Hrep0 as [_ (Hm & _)]%rep_plug_all.
  destruct (predecessor_key ctx x c k v r h pm m cm ml km vm HN2 Hrep0) as [Hp1 Hm1].
  destruct (predecessor_balanced ctx x c k v r pm m cm ml km vm Hn) as (nb & cb & Hnb & Hcb).
  destruct (predecessor_items ctx x c l v r pm ml km vm Hcont Hafter) as (Hbef & Haft & Hl1).
  pose proof (predecessor_addrs ctx x c l k v r pm m cm ml km vm Hplug) as Hadr.
  pose proof (predecessor_only ctx x c l k v r pm m cm ml km vm Hplug) as Honly.
  pose proof (predecessor_top ctx x c l k v r pm m cm ml km vm Hplug) as Htop.
  rewrite path_addrs_app, path_addrs_cons in HN2. cbn [addrs app frame_node frame_tree] in HN2.
  set (P' := pm ++ InLeft x c km v r :: ctx) in *. clearbody P'.
  rb_run. destruct Hm1 as (Hm1 & Hml1 & _).
  assert (∀ a, a ∉ addrs (Node x c l k v r) ++ path_addrs ctx → alter (with_key km) x h !! a = h !! a) as Hsame.
  { intros a Ha. apply Honly in Ha as (? & _). by rewrite lookup_alter_ne. }
  assert (NoDup (NULL :: addrs (Node m cm ml km vm Leaf) ++ path_addrs P')) as HN3.
  { eapply NoDup_Permutation_proper; [|exact HN]. by constructor. }
  set (h1 := alter (with_key km) x h) in *. clearbody h1. clear HN2 HN.
  destruct (rb_red_leaf m cb nb km vm ml) as [->|(y & ky & vy & ->)]; [destruct cm; auto| |].
  - cbn [root]. rb_run. exists cm, km, vm, P'. constructor; try done.
    + by eapply rb_plug_all.
    + by right.
    + split; [done|intros _]. eexists _, km, vm. split; [exact Hl1|]. rewrite Hbef, Haft. simpl. by rewrite app_nil_r, <- app_assoc.
  - destruct Hml1 as (Hy & _). rb_shape. rb_run.
    exists NODE_RED, ky, vy, (InLeft m cm ky vy Leaf :: P'). constructor; rb_shape.
    + split_and!; try exact I; rb_done.
    + split_and!; try exact I; rb_done.
    + rewrite <- Hadr. solve_Permutation.
    + apply (rb_plug_all P' cb nb); [|done]. destruct cm; exact Hnb.
    + intros a Ha. destruct (Honly a Ha) as (_ & Hm' & _). rewrite !lookup_alter_ne by set_solver. by apply Hsame.
    + right. destruct Htop as (f & Hlast & Hroot). exists f. split; [|done]. by rewrite fmap_cons, last_cons, Hlast.
    + split; [done|intros _]. eexists _, km, vm. split; [exact Hl1|]. simpl. by rewrite Hbef, Haft, <- !app_assoc.
Qed.

Lemma depth_plug_all ctx t : (length ctx + depth t ≤ depth (plug_all ctx t))%nat.
Proof.
  revert t. induction ctx as [|f ctx IH]; intros t; [done|]. simpl. specialize (IH (plug f t)).
  destruct f; simpl in *; lia.
Qed.
Lemma last_in_path ctx p : last (frame_node <$> ctx) = Some p → p ∈ path_addrs ctx.
Proof.
  induction ctx as [|f ctx IH]; [done|]. rewrite fmap_cons, last_cons, path_addrs_cons.
  destruct (last (frame_node <$> ctx)) as [q|]; intros [= <-]; [|by left]. right. apply elem_of_app. right. by apply IH.
Qed.

Section deletion.
Context (ls : Z) (tree : nat) (compare : Z → Z → Z).

Lemma find_victim_ok fuel ctx x c l k v r s :
  NoDup (NULL :: addrs (Node x c l k v r) ++ path_addrs ctx) → (depth l ≤ fuel)%nat →
  rep_path (rb_nodes s) x ctx → rep (rb_nodes s) (up ctx) (Node x c l k v r) →
  (∃ n, rb NODE_RED n (plug_all ctx (Node x c l k v r))) →
  tree_pool s !! tree = Some {| head := root (plug_all ctx (Node x c l k v r)); comp := compare |} →
  wp (max_node ← in_nodes (get_left x);
      if max_node =? NULL then
        r ← in_nodes (get_right x);
        if r =? NULL then
          t ← tree_at tree;
          (if x =? head t then put_head tree NULL else mret tt);;
          mret x
        else in_nodes (move_right_child x)
      else in_nodes (move_predecessor fuel x max_node))
     (λ d s', ∃ dc dk dv place h', victim ctx x c l k v r (rb_nodes s) h' d dc dk dv place ∧
        s' = set_rb_nodes h' (set_head tree (default NULL (last (frame_node <$> place))) compare s)) s.
Proof.
  intros HN Hf Hctx Hrep Hn Hhead. pose proof Hrep as (Hx & _). destruct s as [h q cnt tp tc]. cbn [rb_nodes tree_pool] in *.
  assert (x ≠ NULL) as Hx0 by (apply not_eq_sym; simpl in HN; sep).
  assert (∀ place, (∃ f, last (frame_node <$> place) = Some f ∧ root (plug_all ctx (Node x c l k v r)) = f) →
    <[tree := {| head := default NULL (last (frame_node <$> place)); comp := compare |}]> tp = tp) as Hkeep.
  { intros place (f & Hl & Hroot). rewrite Hl. apply list_insert_id. by rewrite Hhead, Hroot. }
  apply wp_seq, wp_in_nodes. eapply wp_field; [done|exact Hx|]. cbn [left]. destruct l as [|y cl ll kl vl lr].
  - rewrite Z.eqb_refl. apply wp_seq, wp_in_nodes. eapply wp_field; [done|exact Hx|]. cbn [right].
    destruct r as [|y cy rl ky vy rr].
    + rewrite Z.eqb_refl. assert (victim ctx x c Leaf k v Leaf h h x c k v ctx) as Hv.
      { constructor; [done..|by left|]. split; [intros _|done]. by rewrite app_nil_r. }
      apply wp_seq. eapply wp_tree_at; [done|]. cbn [head comp]. apply wp_seq. rewrite root_plug_all.
      cbn [set_rb_nodes rb_queue pool_count tree_pool tree_count root].
      destruct ctx as [|f ctx].
      * cbn [fmap list_fmap last default]. rewrite Z.eqb_refl. eapply wp_put_head; [done|]. apply wp_ret.
        by exists c, k, v, [], h.
      * destruct (last_node f ctx) as [p Hp]. pose proof (last_in_path _ _ Hp) as Hin. rewrite Hp. cbn [default].
        rewrite (proj2 (Z.eqb_neq _ _)) by (intros ->; simpl in HN; nodup). apply wp_ret. apply wp_ret.
        exists c, k, v, (f :: ctx), h. split; [done|]. unfold set_head. cbn [set_rb_nodes set_tree_pool tree_pool].
        rewrite Hkeep; [done|]. exists p. by rewrite root_plug_all, Hp.
    + assert (y ≠ NULL) as Hy by (apply not_eq_sym; simpl in HN; sep). cbn [root]. rewrite (proj2 (Z.eqb_neq _ _)) by done.
      apply wp_in_nodes. eapply wp_mono; [apply (move_right_child_ok ctx x c k v (Node y cy rl ky vy rr)); done|].
      intros d h' (dc & dk & dv & place & Hv). exists dc, dk, dv, place, h'. split; [done|].
      unfold set_head. cbn [set_rb_nodes set_tree_pool tree_pool]. rewrite Hkeep; [done|].
      by destruct (vi_top _ _ _ _ _ _ _ _ _ _ _ _ _ _ Hv) as [(_ & ? & _)|].
  - assert (y ≠ NULL) as Hy by (apply not_eq_sym; simpl in HN; sep). cbn [root]. rewrite (proj2 (Z.eqb_neq _ _)) by done.
    apply wp_in_nodes. eapply wp_mono; [apply (move_predecessor_ok fuel ctx x c (Node y cl ll kl vl lr) k v r); done|].
    intros d h' (dc & dk & dv & place & Hv). exists dc, dk, dv, place, h'. split; [done|].
    unfold set_head. cbn [set_rb_nodes set_tree_pool tree_pool]. rewrite Hkeep; [done|].
    by destruct (vi_top _ _ _ _ _ _ _ _ _ _ _ _ _ _ Hv) as [(? & _)|].
Qed.

Lemma node_free_ok free d dc dk dv place s :
  NoDup (NULL :: d :: path_addrs place) → rep_path (rb_nodes s) d place →
  rep (rb_nodes s) (up place) (Node d dc Leaf dk dv Leaf) →
  queue_repr ls free (rb_queue s) → linkable ls (rb_queue s) d → d - 16 ∉ free →
  wp (rbtree_node_free ls d)
     (λ _ s', ∃ h' q', s' = set_rb_queue q' (set_rb_nodes h' s) ∧ rep_path h' NULL place ∧
        queue_repr ls (free ++ [d - 16]) q' ∧ dom (qnodes q') = dom (qnodes (rb_queue s)) ∧
        only (path_addrs place) (rb_nodes s) h') s.
Proof.
  clear compare tree. intros HN Hp (Hd & _) Hq (Hmap & Hl0 & Hlh & Hlt) Hfree. destruct s as [h q cnt tp tc]. cbn [rb_nodes rb_queue] in *.
  assert (d ≠ NULL) as Hd0 by (apply not_eq_sym; sep).
  assert (∀ h', wp (in_queue (queue_list_enque ls (d - 16)))
    (λ _ s', ∃ q', s' = set_rb_queue q' (set_rb_nodes h' (Build_rb_state h q cnt tp tc)) ∧
       queue_repr ls (free ++ [d - 16]) q' ∧ dom (qnodes q') = dom (qnodes q)) (Build_rb_state h' q cnt tp tc)) as Henq.
  { intros h'. unfold in_queue. wp_step. eapply wp_mono; [apply (queue_list_enque_ok ls free (d - 16)); [done|done| |done]|].
    - unfold q_chain. rewrite elem_of_cons, elem_of_app, list_elem_of_singleton. tauto.
    - intros _ q' (Hq' & [Hdom _] & _). by exists q'. }
  unfold rbtree_node_free. apply wp_seq, wp_in_nodes. eapply wp_field; [done|exact Hd|]. cbn [par].
  cbn [set_rb_nodes rb_queue pool_count tree_pool tree_count].
  assert (∀ h', rep_path h' NULL place → only (path_addrs place) h h' →
    wp (in_queue (queue_list_enque ls (d - 16))) (λ _ s', ∃ h' q',
      s' = set_rb_queue q' (set_rb_nodes h' (Build_rb_state h q cnt tp tc)) ∧ rep_path h' NULL place ∧
        queue_repr ls (free ++ [d - 16]) q' ∧ dom (qnodes q') = dom (qnodes q) ∧ only (path_addrs place) h h')
      (Build_rb_state h' q cnt tp tc)) as Hend.
  { intros h' Hp' Ho. eapply wp_mono; [apply Henq|]. intros _ s' (q' & -> & Hq' & Hdom). by exists h', q'. }
  destruct place as [|f place].
  - cbn [up]. rewrite Z.eqb_refl. apply wp_seq, wp_ret. by apply Hend.
  - pose proof Hp as (Hf & _). cbn [up]. pose proof HN as HN'. rewrite path_addrs_cons in HN'. cbn [app] in HN'.
    rewrite (proj2 (Z.eqb_neq _ _)) by (apply not_eq_sym; sep).
    apply wp_seq, wp_seq, wp_in_nodes. eapply wp_field; [apply not_eq_sym; sep|exact Hf|].
    assert (wp (if left (frame_fields f (up place) d) =? d then put_left (frame_node f) NULL
                else put_right (frame_node f) NULL) (λ _ h', h' = relinked NULL (f :: place) h) h) as Hput.
    { assert (frame_node f ≠ NULL) by (apply not_eq_sym; sep).
      destruct f as [p c k v r|p c l k v]; cbn [frame_fields left frame_node frame_tree relinked] in *.
      - rewrite Z.eqb_refl. by eapply wp_update.
      - rewrite (proj2 (Z.eqb_neq _ _)) by sep. by eapply wp_update. }
    apply wp_in_nodes. eapply wp_mono; [exact Hput|]. intros [] ? ->. apply Hend.
    + eapply rep_path_relinked; [|exact Hp]. nodup.
    + intros b Hb. by apply relinked_ne.
Qed.

Context (node_pool : Z) `{Hcomp : Comparison compare}.

Lemma sorted_value l1 k v v' l2 : sorted compare (l1 ++ (k, v) :: l2) → sorted compare (l1 ++ (k, v') :: l2).
Proof.
  unfold sorted. rewrite !StronglySorted_app, !StronglySorted_cons. intros (H1 & H2 & H3 & H4). split_and!; try done.
  intros e e' He [->|He']%elem_of_cons; [apply (H1 _ (k, v)); [done|by left]|apply H1; [done|by right]].
Qed.
Lemma sorted_remove l1 e l2 : sorted compare (l1 ++ e :: l2) → sorted compare (l1 ++ l2).
Proof.
  unfold sorted. rewrite !StronglySorted_app, !StronglySorted_cons. intros (H1 & H2 & H3 & H4). split_and!; try done.
  intros e1 e2 He1 He2. apply H1; [done|by right].
Qed.
Lemma sorted_deleted n l l' : sorted compare l → deleted n l l' → sorted compare l'.
Proof.
  intros Hs (l1 & l2 & -> & Hl). destruct (left n =? NULL); [subst; by eapply sorted_remove|].
  destruct Hl as (l0 & k' & v' & -> & ->).
  apply sorted_remove in Hs. rewrite <- app_assoc in Hs. by eapply sorted_value.
Qed.

Lemma victim_deficit d dc dk dv place :
  (∃ n, rb NODE_RED n (plug_all place (Node d dc Leaf dk dv Leaf))) → deficit (negb (is_red dc)) [] place.
Proof.
  intros [n Hn]. apply rb_unplug_all in Hn as (c & m & Hm & Hc). destruct dc; simpl in *.
  - destruct Hm as (-> & -> & _). exists 0%nat, NODE_BLACK. done.
  - destruct m as [|m]; [done|]. destruct Hm as [-> _]. exists 0%nat, c. done.
Qed.
Lemma victim_items q ctx x c l k v r h h' d dc dk dv place :
  victim ctx x c l k v r h h' d dc dk dv place → NULL ∉ addrs l →
  deleted (Build_rbnode_t k v q (root l) (root r) c)
    (contents (plug_all ctx (Node x c l k v r))) (before place ++ after place).
Proof.
  intros [_ _ _ _ _ _ [Hleaf Hnode]] Hl. exists (before ctx ++ contents l), (contents r ++ after ctx).
  cbn [key val left]. split; [rewrite contents_plug_all; simpl; by rewrite <- !app_assoc|].
  destruct l as [|y cy yl ky vy yr]; cbn [root]; [by apply Hleaf|].
  rewrite (proj2 (Z.eqb_neq y NULL)) by (intros ->; apply Hl; by left). by apply Hnode.
Qed.

(** From the node to be freed to the end. *)
Lemma delete_rest_ok fuel free ctx x c l k v r s h' d dc dk dv place :
  victim ctx x c l k v r (rb_nodes s) h' d dc dk dv place →
  NoDup (NULL :: addrs (Node x c l k v r) ++ path_addrs ctx) →
  queue_repr ls free (rb_queue s) → Forall (linkable ls (rb_queue s)) (addrs (Node x c l k v r) ++ path_addrs ctx) →
  d - 16 ∉ free → (length place + 2 < fuel)%nat →
  wp (c ← in_nodes (get_color d); in_nodes (delete_loop fuel (negb (is_red c)) d);; rbtree_node_free ls d)
     (λ _ s', ∃ place' h2 q', s' = set_rb_queue q' (set_rb_nodes h2 s) ∧
        rep h2 NULL (plug_all place' Leaf) ∧ (∃ n, rb NODE_RED n (plug_all place' Leaf)) ∧
        contents (plug_all place' Leaf) = before place ++ after place ∧
        d :: addrs (plug_all place' Leaf) ≡ₚ addrs (Node x c l k v r) ++ path_addrs ctx ∧
        root (plug_all place' Leaf) = default NULL (last (frame_node <$> place)) ∧
        queue_repr ls (free ++ [d - 16]) q' ∧ dom (qnodes q') = dom (qnodes (rb_queue s)) ∧
        is_Some (h2 !! d) ∧ only (addrs (Node x c l k v r) ++ path_addrs ctx) (rb_nodes s) h2) (set_rb_nodes h' s).
Proof.
  clear Hcomp compare node_pool tree. intros [Hp Hd Hadr Hbal Ho _ _] HN Hq Hlinks Hfree Hf. destruct s as [h q cnt tp tc].
  cbn [set_rb_nodes rb_nodes rb_queue pool_count tree_pool tree_count] in *.
  assert (NoDup (NULL :: addrs (Node d dc Leaf dk dv Leaf) ++ path_addrs place)) as HN1.
  { eapply NoDup_Permutation_proper; [|exact HN]. by constructor. }
  pose proof (turns_le place) as Hturns. assert (d ≠ NULL) as Hd0 by (apply not_eq_sym; simpl in HN1; sep).
  apply wp_seq, wp_in_nodes. eapply wp_field; [done|exact (proj1 Hd)|]. cbn [color].
  apply wp_seq, wp_in_nodes. eapply wp_mono;
    [apply (delete_loop_ok fuel (negb (is_red dc)) [] place d dc dk dv h'); [done|done|done|by eapply victim_deficit|case_match; lia]|].
  intros [] h1 (place' & Hp1 & Hd1 & Hbef & Haft & Hadr1 & Hlast & Hdef & Ho1). cbn [app] in *.
  cbn [set_rb_nodes rb_nodes rb_queue pool_count tree_pool tree_count].
  assert (addrs (Node d dc Leaf dk dv Leaf) ++ path_addrs place' ≡ₚ addrs (Node x c l k v r) ++ path_addrs ctx) as Hadr2.
  { by rewrite Hadr1. }
  eapply wp_mono; [apply (node_free_ok free d dc dk dv place')|].
  - rewrite <- Hadr2 in HN. exact HN.
  - done.
  - done.
  - done.
  - rewrite Forall_forall in Hlinks. apply Hlinks. rewrite <- Hadr2. by left.
  - done.
  - intros [] s' (h2 & q' & -> & Hp2 & Hq' & Hdom & Ho2). exists place', h2, q'.
    assert (addrs (plug_all place' Leaf) ≡ₚ path_addrs place') as Hpl by (by rewrite addrs_plug_all).
    split_and!; try done.
    + by apply rep_plug_all.
    + destruct Hdef as (n & c' & Hn & Hc'). simpl in Hc'. subst. by exists n.
    + by rewrite contents_plug_all, Hbef, Haft.
    + by rewrite Hpl.
    + by rewrite root_plug_all, Hlast.
    + rewrite Ho2; [exists (Build_rbnode_t dk dv (up place') NULL NULL dc); apply Hd1|].
      rewrite <- Hadr2 in HN. simpl in HN. sep.
    + intros a Ha. rewrite Ho2, Ho1; [by apply Ho|by rewrite Hadr|]. rewrite <- Hadr2 in Ha. simpl in Ha. set_solver.
Qed.

Lemma available_snoc free n d : available node_pool (free ++ [d - 16]) n ≡ₚ d :: available node_pool free n.
Proof.
  unfold available. rewrite fmap_app, <- app_assoc. simpl. replace (d - 16 + 16) with d by lia.
  by rewrite Permutation_middle.
Qed.
Lemma fresh_link free d n : NoDup (d :: available node_pool free n) → d - 16 ∉ free.
Proof.
  intros [Hd _]%NoDup_cons Hf. apply Hd, elem_of_app. left. apply list_elem_of_fmap. exists (d - 16).
  split; [lia|done].
Qed.

Lemma wp_assoc {S X Y Z} (m : St S X) (f : X → St S Y) (g : Y → St S Z) Q s :
  wp ((m ≫= f) ≫= g) Q s → wp (m ≫= λ x, f x ≫= g) Q s.
Proof. unfold wp, mbind, St_bind. by destruct (m s) as [[]| |]. Qed.

Lemma rbtree_delete_ok fuel o l m key' s :
  tree_repr node_pool ls tree compare o l m s → Exists (λ e, compare (fst e) key' = 0) l →
  (2 * Nat.log2 (length l + 1) + 2 < fuel)%nat →
  ∃ x n, rb_nodes s !! x = Some n ∧ compare (key n) key' = 0 ∧
    wp (rbtree_search fuel tree key') (λ r s', r = x ∧ s' = s) s ∧
    wp (rbtree_delete ls fuel tree key')
       (λ _ s', (∃ l', deleted n l l' ∧ tree_repr node_pool ls tree compare o l' (S m) s') ∧
          others tree o s s') s.
Proof using Hcomp.
  intros (t & free & Hr & <- & <- & Ho) Hex Hf.
  pose proof (balanced_depth node_pool ls tree compare t free s Hr) as Hdep.
  destruct Hr as [Hhead Hrep HN Hcnt Hq Hnodes Hlinks Hbal Hsort].
  assert (wp (rbtree_search fuel tree key') (λ r s', r = root (snd (find compare key' t [])) ∧ s' = s) s) as Hsearch.
  { unfold rbtree_search. apply wp_seq. eapply wp_tree_at; [done|]. apply wp_in_nodes. cbn [head comp].
    eapply wp_mono; [apply (search_loop_ok compare fuel key' NULL t []); [sep|lia|done]|]. intros ? ? [-> ->].
    split; [done|apply set_rb_nodes_same]. }
  pose proof (find_plug compare key' t []) as Hplug. change (plug_all [] t) with t in Hplug.
  destruct (snd (find compare key' t [])) as [|x c tl k v tr] eqn:Hfind.
  { pose proof (find_none compare key' t [] Hsort ltac:(done) ltac:(done) Hfind) as Hnone.
    apply Exists_exists in Hex as (e & He & He0). rewrite Forall_forall in Hnone. by destruct (Hnone e He). }
  pose proof (find_key compare key' t [] _ _ _ _ _ _ Hfind) as Hk.
  set (ctx := fst (find compare key' t [])) in *. clearbody ctx. clear Hfind. subst t. cbn [root] in *.
  pose proof (depth_plug_all ctx (Node x c tl k v tr)) as Hdp. simpl in Hdp.
  pose proof (addrs_plug_all ctx (Node x c tl k v tr)) as Hadr.
  pose proof Hrep as [Hp Hd]%rep_plug_all. exists x, (Build_rbnode_t k v (up ctx) (root tl) (root tr) c).
  split; [apply Hd|]. split; [exact Hk|]. split; [exact Hsearch|]. set (A := available node_pool free (pool_count s)) in *.
  assert (NoDup (NULL :: addrs (Node x c tl k v tr) ++ path_addrs ctx)) as HNt.
  { rewrite Hadr in HN. sep. }
  assert (Forall (linkable ls (rb_queue s)) (addrs (Node x c tl k v tr) ++ path_addrs ctx)) as Hlt.
  { rewrite Hadr in Hlinks. by apply Forall_app in Hlinks as [Hlinks _]. }
  unfold rbtree_delete. apply wp_seq. eapply wp_mono; [exact Hsearch|]. clear Hsearch. intros ? ? [-> ->].
  apply wp_assoc. apply wp_seq. eapply wp_mono;
    [apply (find_victim_ok fuel ctx x c tl k v tr s); [done|lia|done|done|done|done]|].
  intros d ? (dc & dk & dv & place & h' & Hv & ->). pose proof Hv as [_ _ Hva [nv Hvb] _ _ _].
  assert (d :: path_addrs place ≡ₚ addrs (Node x c tl k v tr) ++ path_addrs ctx) as Hva' by exact Hva.
  assert (length (addrs (plug_all place (Node d dc Leaf dk dv Leaf))) = length (addrs (plug_all ctx (Node x c tl k v tr)))) as Hlen.
  { by rewrite addrs_plug_all, Hva, Hadr. }
  pose proof (rb_logarithmic _ _ Hvb) as Hdv. pose proof (depth_plug_all place (Node d dc Leaf dk dv Leaf)) as Hdv'.
  rewrite Hlen, <- length_contents in Hdv. simpl in Hdv'.
  assert (d - 16 ∉ free) as Hfresh.
  { apply (fresh_link free d (pool_count s)). fold A. rewrite Hadr, <- Hva' in HN. simpl in HN. sep. }
  eapply wp_mono; [apply (delete_rest_ok fuel free ctx x c tl k v tr
    (set_head tree (default NULL (last (frame_node <$> place))) compare s) h' d dc dk dv place); try done; lia|].
  intros [] s' (place' & h2 & q' & -> & Hrep2 & Hbal2 & Hcont & Hadr2 & Hroot & Hq2 & Hdom & Hmapped & Hon).
  set (T := plug_all place' Leaf) in *. clearbody T.
  pose proof (victim_items (up ctx) _ _ _ _ _ _ _ _ _ _ _ _ _ _ Hv ltac:(simpl in HNt; sep)) as Hdel. rewrite <- Hcont in Hdel.
  pose proof (available_snoc free (pool_count s) d) as Hav. fold A in Hav.
  assert (addrs T ++ available node_pool (free ++ [d - 16]) (pool_count s) ≡ₚ addrs (plug_all ctx (Node x c tl k v tr)) ++ A) as Hall.
  { rewrite Hav, <- Permutation_middle, Hadr, <- Hadr2. done. }
  split.
  - eexists. split; [exact Hdel|]. exists T, (free ++ [d - 16]). split_and!; [|done| |].
    + constructor; cbn [set_rb_nodes set_rb_queue set_head set_tree_pool rb_nodes rb_queue pool_count tree_pool tree_count].
      * rewrite Hroot. apply list_lookup_insert_eq. by eapply lookup_lt_Some.
      * done.
      * by rewrite Hall.
      * done.
      * done.
      * rewrite Hav. apply Forall_cons. split; [done|]. eapply nodes_keep; [exact Hnodes|exact Hon|].
        intros a Ha Ha'. rewrite Hadr in HN. apply NoDup_cons in HN as [_ HN].
        apply NoDup_app in HN as (_ & Hdis & _). by apply (Hdis a).
      * eapply links_keep; [exact Hlinks| |exact Hdom]. by rewrite Hall.
      * done.
      * by eapply sorted_deleted.
    + cbn [set_rb_nodes set_rb_queue set_head set_tree_pool rb_nodes rb_queue pool_count tree_pool tree_count].
      by rewrite Hav.
    + cbn [set_rb_nodes set_rb_queue set_head set_tree_pool rb_nodes rb_queue pool_count tree_pool tree_count].
      by rewrite Hall.
  - split_and!; cbn [set_rb_nodes set_rb_queue set_head set_tree_pool rb_nodes rb_queue pool_count tree_pool tree_count].
    + intros a Ha. apply Hon. rewrite <- Ho, Hadr in Ha. set_solver.
    + done.
    + intros i Hi. by rewrite list_lookup_insert_ne.
Qed.
End deletion.

Section correct.
Context (node_pool ls : Z) (tv_abort : St rb_state unit) (tree : nat) (compare : Z → Z → Z) `{Hcomp : Comparison compare}.

(** With no node left the pointer that is null is stored through. *)
Lemma rbtree_insert_full fuel o l key' val' s s' :
  tree_repr node_pool ls tree compare o l 0 s → tv_abort s = Done (tt, s') →
  rbtree_insert node_pool ls tv_abort fuel tree key' val' s = Fault.
Proof.
  intros (t & free & [_ _ _ Hcnt Hq _ _ _ _] & _ & Hlen & _) Habort.
  unfold available in Hlen. rewrite length_app, !length_fmap, length_seqZ in Hlen.
  destruct free as [|f free]; [|simpl in Hlen; lia]. unfold RBTREE_NODE_POOL_NUM in *. simpl in Hlen.
  assert (queue_list_is_empty ls (rb_queue s) = Done (true, rb_queue s)) as He.
  { pose proof (queue_is_empty_ok ls [] (rb_queue s) (λ b q, b = true ∧ q = rb_queue s) Hq) as Hw.
    specialize (Hw (conj eq_refl eq_refl)). apply wp_inv in Hw as (b & q & -> & -> & ->). done. }
  unfold rbtree_insert, rbtree_node_alloc, in_queue, on_part, mbind, St_bind. rewrite He.
  replace (set_rb_queue (rb_queue s) s) with s by (by destruct s). cbn [gets]. unfold gets.
  rewrite (proj2 (Z.leb_le _ _)) by (unfold RBTREE_NODE_POOL_NUM; lia). by rewrite Habort.
Qed.

(** C38: the tree is a sorted sequence of pairs, and stays balanced.  With a node
    left, an insertion puts the pair before the pairs whose keys are not less, and
    takes one node; with none left it calls the abort function and, if that
    returns, stores through the null pointer.  A search gives a node that holds a
    pair with the key, or NULL when there is none.  The loops take at most twice
    the logarithm of the number of pairs many turns, and nothing but the nodes of
    the tree and of the pool changes. *)
Theorem rbtree_map_correct fuel o l m s :
  tree_repr node_pool ls tree compare o l m s → (2 * Nat.log2 (length l + 1) < fuel)%nat →
  (∀ key' val' m', m = S m' →
     wp (rbtree_insert node_pool ls tv_abort fuel tree key' val')
        (λ _ s', tree_repr node_pool ls tree compare o (insert_item compare key' val' l) m' s' ∧ others tree o s s') s) ∧
  (∀ key' val' s', m = O → tv_abort s = Done (tt, s') →
     rbtree_insert node_pool ls tv_abort fuel tree key' val' s = Fault) ∧
  (∀ key', wp (rbtree_search fuel tree key')
     (λ r s', s' = s ∧
        ((r = NULL ∧ Forall (λ e, compare (fst e) key' ≠ 0) l) ∨
         ∃ n, r ≠ NULL ∧ rb_nodes s !! r = Some n ∧ compare (key n) key' = 0 ∧ (key n, val n) ∈ l)) s).
Proof using Hcomp.
  intros Hs Hf. split_and!.
  - intros k v m' ->. by eapply rbtree_insert_ok.
  - intros k v s' -> Habort. by eapply rbtree_insert_full.
  - intros k. by eapply rbtree_search_ok.
Qed.

(** C39: the deletion of a key the tree has, whose pair a search finds in the node
    [n], gives back one node and keeps the tree balanced and sorted.  If [n] has no
    left child, the sequence is what it was without that pair.  If it has one, the
    keys are what they were without that key, but the values do not all stay with
    their keys: the key of the pair before it is stored in the node without its
    value, and from then on has the value of the deleted pair. *)
Theorem rbtree_delete_correct fuel o l m key' s :
  tree_repr node_pool ls tree compare o l m s → Exists (λ e, compare (fst e) key' = 0) l →
  (2 * Nat.log2 (length l + 1) + 2 < fuel)%nat →
  ∃ x n, rb_nodes s !! x = Some n ∧ compare (key n) key' = 0 ∧
    wp (rbtree_search fuel tree key') (λ r s', r = x ∧ s' = s) s ∧
    wp (rbtree_delete ls fuel tree key')
       (λ _ s', (∃ l', deleted n l l' ∧ tree_repr node_pool ls tree compare o l' (S m) s') ∧
          others tree o s s') s.
Proof using Hcomp. intros. by eapply rbtree_delete_ok. Qed.
End correct.

(** * Three pairs in a tree, and two nodes left *)

Definition by_number (a b : Z) : Z := b - a.
#[export] Instance by_number_comparison : Comparison by_number.
Proof. split; unfold by_number; intros; lia. Qed.

Definition tree_example : tree :=
  Node (pool_node 4096 1) NODE_BLACK (Node (pool_node 4096 0) NODE_RED Leaf 1 10 Leaf) 2 20
    (Node (pool_node 4096 2) NODE_RED Leaf 3 30 Leaf).
Definition rb_example : rb_state := Eval vm_compute in {|
  rb_nodes := list_to_map [
    (pool_node 4096 0, {| key := 1; val := 10; par := pool_node 4096 1; left := NULL; right := NULL; color := NODE_RED |});
    (pool_node 4096 1, {| key := 2; val := 20; par := NULL; left := pool_node 4096 0; right := pool_node 4096 2;
                          color := NODE_BLACK |});
    (pool_node 4096 2, {| key := 3; val := 30; par := pool_node 4096 1; left := NULL; right := NULL; color := NODE_RED |});
    (pool_node 4096 1022, new_node 0 0 0); (pool_node 4096 1023, new_node 0 0 0)];
  rb_queue := {| qnodes := list_to_map (
    (256, {| prev := NULL; qnext := 272 |}) :: (272, {| prev := 256; qnext := NULL |}) ::
    map (λ i, (pool_node 4096 i - 16, {| prev := NULL; qnext := NULL |})) [0; 1; 2; 1022; 1023]); qlog := [] |};
  pool_count := 1022;
  tree_pool := [{| head := pool_node 4096 1; comp := by_number |}];
  tree_count := 1 |}.
Lemma rb_example_repr :
  tree_repr 4096 256 0 by_number
    (addrs tree_example ++ [pool_node 4096 1022; pool_node 4096 1023]) [(1, 10); (2, 20); (3, 30)] 2 rb_example.
Proof.
  exists tree_example, []. split_and!; [|done..]. constructor.
  - reflexivity.
  - vm_compute. tauto.
  - apply (bool_decide_unpack _). vm_compute. exact I.
  - cbn. unfold RBTREE_NODE_POOL_NUM. lia.
  - constructor; [apply (bool_decide_unpack _); vm_compute; exact I..|vm_compute; tauto].
  - apply (bool_decide_unpack _). vm_compute. exact I.
  - unfold linkable. apply (bool_decide_unpack _). vm_compute. exact I.
  - exists 1%nat. done.
  - unfold sorted. simpl. repeat constructor; unfold by_number; simpl; lia.
Qed.

Lemma rbtree_map_correct_witness :
  wp (rbtree_insert 4096 256 fault 6 0 2 25)
     (λ _ s', tree_repr 4096 256 0 by_number (addrs tree_example ++ [pool_node 4096 1022; pool_node 4096 1023])
        [(1, 10); (2, 25); (2, 20); (3, 30)] 1 s') rb_example ∧
  wp (rbtree_search 6 0 3) (λ r s', ∃ n, rb_nodes s' !! r = Some n ∧ val n = 30) rb_example.
Proof.
  destruct (rbtree_map_correct 4096 256 fault 0 by_number 6 _ _ _ rb_example rb_example_repr) as (Hi & _ & Hs).
  - vm_compute. lia.
  - split.
    + eapply wp_mono; [apply (Hi 2 25 1%nat eq_refl)|]. intros ? s' [Ht _]. exact Ht.
    + eapply wp_mono; [apply (Hs 3)|]. intros r s' [-> [[_ Hn]|(n & _ & Hn & Hk & Hv)]].
      * apply Forall_inv_tail, Forall_inv_tail, Forall_inv in Hn. done.
      * exists n. split; [done|]. unfold by_number in Hk. rewrite !elem_of_cons in Hv.
        destruct Hv as [Hv|[Hv|[Hv|Hv]]]; [injection Hv..|by apply elem_of_nil in Hv]; lia.
Defined.

(** The value of the deleted pair stays, with the key before it. *)
Lemma rbtree_delete_correct_witness :
  wp (rbtree_delete 256 8 0 2)
     (λ _ s', tree_repr 4096 256 0 by_number (addrs tree_example ++ [pool_node 4096 1022; pool_node 4096 1023])
        [(1, 20); (3, 30)] 3 s') rb_example.
Proof.
  destruct (rbtree_delete_correct 4096 256 0 by_number 8 _ _ _ 2 rb_example rb_example_repr) as (x & n & Hx & Hk & Hs & Hd).
  - do 2 constructor. reflexivity.
  - vm_compute. lia.
  - vm_compute in Hs. destruct Hs as [<- _]. vm_compute in Hx. injection Hx as <-.
    eapply wp_mono; [exact Hd|]. intros ? s' [(l' & (l1 & l2 & Hl & Hl') & Hs') _]. cbn [key val left] in *.
    assert (l' = [(1, 20); (3, 30)]) as ->; [|exact Hs'].
    assert (l1 = [(1, 10)] ∧ l2 = [(3, 30)]) as [-> ->].
    { destruct l1 as [|? [|? [|? l1]]]; simplify_list_eq; [done|]. by destruct l1. }
    destruct Hl' as ([|? [|]] & k' & v' & E & ->); simplify_list_eq. done.
Defined.
Lemma rbtree_delete_value :
  match (rbtree_delete 256 8 0 2;; rbtree_search 8 0 1) rb_example with
  | Done (r, s') => val <$> rb_nodes s' !! r = Some 20
  | _ => False
  end.
Proof. vm_compute. reflexivity. Qed.
