(* ===== verification/ByteMem.v ===== *)
(** Byte-addressed memory: what [mem/string.c], [mem/bitmap.c] and
    [io/printf.c] read and write. *)

From S2P Require Import Prelude.

(** A byte for each mapped address.  Reading or writing elsewhere faults, so a
    run that returns has stayed within the memory it was given. *)
Abbreviation mem := (gmap Z Z).

Definition load8 (a : Z) : St mem Z := λ m,
  match m !! a with Some v => Done (v, m) | None => Fault end.
Definition store8 (a v : Z) : St mem unit := λ m,
  match m !! a with Some _ => Done (tt, <[a := u8 v]> m) | None => Fault end.

Lemma wp_load8 a v (Q : Z → mem → Prop) (m : mem) :
  m !! a = Some v → Q v m → wp (load8 a) Q m.
Proof. intros Hv HQ. unfold wp, load8. by rewrite Hv. Qed.

Lemma wp_store8 a v (Q : unit → mem → Prop) (m : mem) :
  is_Some (m !! a) → Q tt (<[a := u8 v]> m) → wp (store8 a v) Q m.
Proof. intros [w Hw] HQ. unfold wp, store8. by rewrite Hw. Qed.

(** A byte value. *)
Definition byte (v : Z) : Prop := 0 ≤ v < 256.
Lemma u8_byte v : byte (u8 v).
Proof. apply Z.mod_pos_bound. lia. Qed.
Lemma u8_small v : byte v → u8 v = v.
Proof. apply Z.mod_small. Qed.

(** [bytes m a bs]: the bytes [bs] are stored from the address [a] on. *)
Fixpoint bytes (m : mem) (a : Z) (bs : list Z) : Prop :=
  match bs with
  | [] => True
  | b :: bs' => m !! a = Some b ∧ bytes m (a + 1) bs'
  end.

(** [mapped m a n]: the [n] addresses from [a] on are mapped. *)
Definition mapped (m : mem) (a n : Z) : Prop :=
  ∀ i, 0 ≤ i < n → is_Some (m !! (a + i)).

(** The memory after the bytes [bs] are written from [a] on, in this order. *)
Fixpoint write_bytes (m : mem) (a : Z) (bs : list Z) : mem :=
  match bs with
  | [] => m
  | b :: bs' => write_bytes (<[a := b]> m) (a + 1) bs'
  end.

Lemma bytes_app m a bs cs :
  bytes m a (bs ++ cs) ↔ bytes m a bs ∧ bytes m (a + Z.of_nat (length bs)) cs.
Proof.
  revert a. induction bs as [|b bs IH]; intros a; cbn [app bytes length].
  - rewrite Z.add_0_r. tauto.
  - rewrite IH. replace (a + 1 + Z.of_nat (length bs)) with (a + Z.of_nat (S (length bs))) by lia.
    tauto.
Qed.

Lemma bytes_lookup m a bs i b :
  bytes m a bs → bs !! i = Some b → m !! (a + Z.of_nat i) = Some b.
Proof.
  revert a i. induction bs as [|c bs IH]; intros a [|i] Hb Hi; simpl in *; simplify_eq.
  - rewrite Z.add_0_r. tauto.
  - replace (a + Z.of_nat (S i)) with (a + 1 + Z.of_nat i) by lia. naive_solver.
Qed.

Lemma bytes_mapped m a bs : bytes m a bs → mapped m a (Z.of_nat (length bs)).
Proof.
  intros Hb i Hi. destruct (lookup_lt_is_Some_2 bs (Z.to_nat i)) as [b Hbi]; [lia|].
  exists b. rewrite <- (Z2Nat.id i) by lia. by eapply bytes_lookup.
Qed.

Lemma bytes_ext m m' a bs :
  (∀ i, a ≤ i < a + Z.of_nat (length bs) → m' !! i = m !! i) → bytes m a bs → bytes m' a bs.
Proof.
  revert a. induction bs as [|b bs IH]; intros a Heq; cbn [bytes length] in *; [done|].
  intros [Hb Hbs]. split; [rewrite Heq by lia; done|]. apply IH; [|done].
  intros i Hi. apply Heq. lia.
Qed.

Lemma lookup_write_bytes_ne m a bs i :
  i < a ∨ a + Z.of_nat (length bs) ≤ i → write_bytes m a bs !! i = m !! i.
Proof.
  revert m a. induction bs as [|b bs IH]; intros m a Hi; cbn [write_bytes length] in *; [done|].
  rewrite IH by lia. apply lookup_insert_ne. lia.
Qed.

Lemma lookup_write_bytes m a bs (i : nat) b :
  bs !! i = Some b → write_bytes m a bs !! (a + Z.of_nat i) = Some b.
Proof.
  revert m a i. induction bs as [|c bs IH]; intros m a [|i] Hi; simpl in *; simplify_eq.
  - rewrite Z.add_0_r. rewrite lookup_write_bytes_ne by lia. apply lookup_insert_eq.
  - replace (a + Z.of_nat (S i)) with (a + 1 + Z.of_nat i) by lia. by apply IH.
Qed.

Lemma bytes_write_bytes m a bs : bytes (write_bytes m a bs) a bs.
Proof.
  revert m a. induction bs as [|b bs IH]; intros m a; cbn [bytes write_bytes]; [done|].
  split; [|apply IH]. rewrite lookup_write_bytes_ne by lia. apply lookup_insert_eq.
Qed.

Lemma write_bytes_app m a bs cs :
  write_bytes m a (bs ++ cs) = write_bytes (write_bytes m a bs) (a + Z.of_nat (length bs)) cs.
Proof.
  revert m a. induction bs as [|b bs IH]; intros m a; cbn [app write_bytes length].
  - by rewrite Z.add_0_r.
  - rewrite IH. by replace (a + 1 + Z.of_nat (length bs)) with (a + Z.of_nat (S (length bs))) by lia.
Qed.

(** Two memories that agree outside the region and hold [bs] in it are equal. *)
Lemma write_bytes_unique m m' a bs :
  bytes m' a bs →
  (∀ i, i < a ∨ a + Z.of_nat (length bs) ≤ i → m' !! i = m !! i) →
  m' = write_bytes m a bs.
Proof.
  intros Hb Hout. apply map_eq. intros i.
  destruct (decide (a ≤ i < a + Z.of_nat (length bs))) as [Hi|Hi].
  - destruct (lookup_lt_is_Some_2 bs (Z.to_nat (i - a))) as [b Hbi]; [lia|].
    replace i with (a + Z.of_nat (Z.to_nat (i - a))) by lia.
    by rewrite (bytes_lookup _ _ _ _ _ Hb Hbi), (lookup_write_bytes _ _ _ _ _ Hbi).
  - rewrite lookup_write_bytes_ne by lia. apply Hout. lia.
Qed.

Lemma mapped_insert (m : mem) a n b v : mapped m a n → mapped (<[b := v]> m) a n.
Proof.
  intros Hm i Hi. destruct (decide (b = a + i)) as [->|];
    [by rewrite lookup_insert_eq|rewrite lookup_insert_ne; auto].
Qed.

Lemma mapped_insert_is_Some (m : mem) a b v : is_Some (m !! a) → is_Some (<[b := v]> m !! a).
Proof.
  intros Ha. destruct (decide (b = a)) as [->|];
    [by rewrite lookup_insert_eq|by rewrite lookup_insert_ne].
Qed.

(** Every address of a mapped region is mapped. *)
Lemma mapped_at (m : mem) a n i : mapped m a n → a ≤ i < a + n → is_Some (m !! i).
Proof. intros Hm Hi. replace i with (a + (i - a)) by lia. apply Hm. lia. Qed.

Lemma mapped_write_bytes (m : mem) a n b bs : mapped m a n → mapped (write_bytes m b bs) a n.
Proof. revert m b. induction bs; intros m b Hm; simpl; auto using mapped_insert. Qed.

Lemma mapped_le (m : mem) a n k : mapped m a n → k ≤ n → mapped m a k.
Proof. intros Hm Hk i Hi. apply Hm. lia. Qed.

Lemma mapped_tail (m : mem) a n k : mapped m a n → 0 ≤ k → mapped m (a + k) (n - k).
Proof.
  intros Hm Hk i Hi. replace (a + k + i) with (a + (k + i)) by lia. apply Hm. lia.
Qed.

(** A mapped region holds some bytes. *)
Lemma mapped_bytes (m : mem) a n :
  mapped m a (Z.of_nat n) → ∃ bs, length bs = n ∧ bytes m a bs.
Proof.
  revert a. induction n as [|n IH]; intros a Hm; [by exists []|].
  destruct (Hm 0) as [b Hb]; [lia|]. rewrite Z.add_0_r in Hb.
  destruct (IH (a + 1)) as (bs & Hlen & Hbs).
  { intros i Hi. replace (a + 1 + i) with (a + (1 + i)) by lia. apply Hm. lia. }
  exists (b :: bs). simpl. auto.
Qed.
