(* ===== verification/Word.v ===== *)
(** Words in byte memory: the little-endian accesses through pointers to integers. *)

From S2P Require Import Prelude ByteMem.

(** The load and the store of [n] bytes at [a]. *)
Fixpoint load_le (n : nat) (a : Z) : St mem Z :=
  match n with
  | O => mret 0
  | S k => b ← load8 a; v ← load_le k (a + 1); mret (b + 2 ^ 8 * v)
  end.
Fixpoint store_le (n : nat) (a v : Z) : St mem unit :=
  match n with
  | O => mret tt
  | S k => store8 a v;; store_le k (a + 1) (v >> 8)
  end.
(** The bytes of a value, and the value a memory holds. *)
Fixpoint le_bytes (n : nat) (v : Z) : list Z :=
  match n with O => [] | S k => u8 v :: le_bytes k (v >> 8) end.
Definition read_le (n : nat) (m : mem) (a : Z) : option Z :=
  match load_le n a m with Done (v, _) => Some v | _ => None end.

Lemma length_le_bytes n v : length (le_bytes n v) = n.
Proof. revert v. induction n as [|n IH]; intros v; [done|]. cbn. by rewrite IH. Qed.

Lemma load_le_ok n a (m : mem) : mapped m a (Z.of_nat n) → ∃ v, load_le n a m = Done (v, m).
Proof.
  revert a. induction n as [|k IH]; intros a Hm; [by eexists|]. cbn [load_le].
  destruct (Hm 0) as [b Hb]; [lia|]. rewrite Z.add_0_r in Hb.
  destruct (IH (a + 1)) as [v Hv]. { intros i Hi. replace (a + 1 + i) with (a + (i + 1)) by lia. apply Hm. lia. }
  exists (b + 2 ^ 8 * v). unfold mbind, St_bind, load8. rewrite Hb. by rewrite Hv.
Qed.
Lemma store_le_ok n a v (Q : unit → mem → Prop) (m : mem) :
  mapped m a (Z.of_nat n) → Q tt (write_bytes m a (le_bytes n v)) → wp (store_le n a v) Q m.
Proof.
  revert a v m. induction n as [|n IH]; intros a v m Hm HQ; cbn [store_le le_bytes write_bytes] in *; [done|].
  wp_step. eapply wp_store8; [rewrite <- (Z.add_0_r a); apply Hm; lia|]. apply IH; [|done].
  intros i Hi. apply mapped_insert_is_Some. replace (a + 1 + i) with (a + (i + 1)) by lia. apply Hm. lia.
Qed.

Lemma read_le_bytes n (m : mem) a v : bytes m a (le_bytes n v) → read_le n m a = Some (v mod 2 ^ (8 * Z.of_nat n)).
Proof.
  unfold read_le. intros Hb. assert (load_le n a m = Done (v mod 2 ^ (8 * Z.of_nat n), m)) as ->; [|done].
  revert a v Hb. induction n as [|n IH]; intros a v Hb; cbn [load_le].
  - by rewrite Z.mod_1_r.
  - cbn [le_bytes bytes] in Hb. destruct Hb as [H0 Hb]. unfold mbind, St_bind, load8. rewrite H0, (IH _ _ Hb).
    unfold mret, St_ret. do 2 f_equal. unfold u8. rewrite Z.shiftr_div_pow2 by lia.
    replace (8 * Z.of_nat (S n)) with (8 + 8 * Z.of_nat n) by lia. rewrite Z.pow_add_r by lia.
    rewrite Z.rem_mul_r by lia. done.
Qed.
Lemma read_le_ext n (m m' : mem) a :
  (∀ i, a ≤ i < a + Z.of_nat n → m' !! i = m !! i) → read_le n m' a = read_le n m a.
Proof.
  unfold read_le. intros Hm.
  assert (∀ k b, a ≤ b → b + Z.of_nat k ≤ a + Z.of_nat n →
    match load_le k b m' with Done (v, _) => Some v | _ => None end =
    match load_le k b m with Done (v, _) => Some v | _ => None end) as Hk; [|apply Hk; lia].
  induction k as [|k IH]; intros b Hb1 Hb2; [done|]. cbn [load_le]. unfold mbind, St_bind, load8.
  rewrite Hm by lia. destruct (m !! b); [|done]. specialize (IH (b + 1) ltac:(lia) ltac:(lia)).
  destruct (load_le k (b + 1) m') as [[]| |], (load_le k (b + 1) m) as [[]| |]; by simplify_eq/=.
Qed.
Lemma read_le_apart n (m : mem) a b bs :
  b + Z.of_nat (length bs) ≤ a ∨ a + Z.of_nat n ≤ b → read_le n (write_bytes m b bs) a = read_le n m a.
Proof. intros Hb. apply read_le_ext. intros i Hi. apply lookup_write_bytes_ne. lia. Qed.
(** A store is read back. *)
Lemma read_le_same n (m : mem) a v :
  read_le n (write_bytes m a (le_bytes n v)) a = Some (v mod 2 ^ (8 * Z.of_nat n)).
Proof. apply read_le_bytes, bytes_write_bytes. Qed.
(** A word of a zeroed area. *)
Lemma read_le_zero n (m : mem) a k i :
  0 ≤ i → i + Z.of_nat n ≤ Z.of_nat k → read_le n (write_bytes m a (replicate k 0)) (a + i) = Some 0.
Proof.
  intros Hi Hk. rewrite (read_le_bytes n _ _ 0); [by rewrite Z.mod_0_l by (apply Z.pow_nonzero; lia)|].
  assert (le_bytes n 0 = replicate n 0) as ->.
  { clear. induction n as [|n IH]; [done|]. cbn [le_bytes replicate]. by rewrite Z.shiftr_0_l, IH. }
  assert (Hall : ∀ j, a ≤ j < a + Z.of_nat k → write_bytes m a (replicate k 0) !! j = Some 0).
  { intros j Hj. replace j with (a + Z.of_nat (Z.to_nat (j - a))) by lia.
    apply lookup_write_bytes. apply lookup_replicate. split; [done|lia]. }
  revert i Hi Hk Hall. induction n as [|n IH]; intros i Hi Hk Hall; [done|]. cbn [replicate bytes].
  split; [apply Hall; lia|]. rewrite <- Z.add_assoc. apply IH; [lia|lia|done].
Qed.
