(* ===== verification/Switch.v ===== *)
(** The switch of contexts in assembly: [switch_context] of [schedule/context.S],
    over bytes of memory, and what it does to the table of tasks. *)

From S2P Require Import Prelude ByteMem Word.

(** * Definitions *)

(** A core at the call: the registers [x19] to [x30], the thread register, the stack
    pointer and the mask of interrupts, beside the memory. *)
Record switcher := {
  sw_mem : mem;
  callee : list Z;
  tpidr_el0 : Z;
  stack_ptr : Z;
  irq_masked : bool;
}.
Definition CALLEE_REGS : nat := 12.

Definition on_switch_mem {A} (m : St mem A) : St switcher A :=
  on_part sw_mem (λ m s, {| sw_mem := m; callee := callee s; tpidr_el0 := tpidr_el0 s; stack_ptr := stack_ptr s;
    irq_masked := irq_masked s |}) m.

(** A run of [stp], and one of [ldp], at ascending addresses. *)
Fixpoint store_words (ws : list Z) (a : Z) : St mem unit :=
  match ws with [] => mret tt | w :: ws => store_le 8 a w;; store_words ws (a + 8) end.
Fixpoint load_words (n : nat) (a : Z) : St mem (list Z) :=
  match n with
  | O => mret []
  | S n => w ← load_le 8 a; ws ← load_words n (a + 8); mret (w :: ws)
  end.

(** [switch_context(x0, x1)]: the value is the address [ret] goes on at, [x30]. *)
Definition switch_context (x0 x1 : Z) : St switcher Z :=
  s ← get;
  on_switch_mem (store_words (callee s) x0);;
  on_switch_mem (store_words [tpidr_el0 s; stack_ptr s] (x0 + 16 * 6));;
  ts ← on_switch_mem (load_words 2 (x1 + 16 * 6));
  cs ← on_switch_mem (load_words CALLEE_REGS x1);
  s ← get;
  put {| sw_mem := sw_mem s; callee := cs; tpidr_el0 := default 0 (ts !! 0%nat); stack_ptr := default 0 (ts !! 1%nat);
         irq_masked := false |};;
  mret (default 0 (cs !! 11%nat)).

(** [tcb_t] in bytes: its size, the offsets of its fields, and the entries of
    [task_list]. *)
Definition TCB_SIZE : Z := 48.
Definition CPU_INFO_OFFSET : Z := 0.
Definition SP_OFFSET : Z := 8.
Definition STATE_OFFSET : Z := 16.
Definition COUNTER_OFFSET : Z := 20.
Definition ID_OFFSET : Z := 28.
Definition tcb_addr (task_list i : Z) : Z := task_list + TCB_SIZE * i.

(** * Runs of words *)

Definition words_bytes (ws : list Z) : list Z := ws ≫= le_bytes 8.
Lemma length_words_bytes ws : Z.of_nat (length (words_bytes ws)) = 8 * Z.of_nat (length ws).
Proof.
  unfold words_bytes. induction ws as [|w ws IH]; [done|].
  rewrite bind_cons, length_app, length_le_bytes. cbn [length]. lia.
Qed.
Lemma words_bytes_app ws vs : words_bytes (ws ++ vs) = words_bytes ws ++ words_bytes vs.
Proof. apply bind_app. Qed.
Definition word_64 (v : Z) : Prop := 0 ≤ v < 2 ^ 64.

Lemma store_words_ok ws a (Q : unit → mem → Prop) (m : mem) :
  mapped m a (8 * Z.of_nat (length ws)) → Q tt (write_bytes m a (words_bytes ws)) → wp (store_words ws a) Q m.
Proof.
  revert a m. induction ws as [|w ws IH]; intros a m Hm HQ; cbn [store_words]; [by wp_step|]. cbn [length] in Hm.
  wp_step. apply store_le_ok; [eapply mapped_le; [exact Hm|lia]|]. apply IH.
  - replace (8 * Z.of_nat (length ws)) with (8 * Z.of_nat (S (length ws)) - 8) by lia.
    apply mapped_tail; [by apply mapped_write_bytes|lia].
  - unfold words_bytes in *. rewrite bind_cons, write_bytes_app, length_le_bytes in HQ. exact HQ.
Qed.
Lemma wp_load_le n a v (Q : Z → mem → Prop) (m : mem) :
  bytes m a (le_bytes n v) → Q (v mod 2 ^ (8 * Z.of_nat n)) m → wp (load_le n a) Q m.
Proof.
  intros Hb HQ. destruct (load_le_ok n a m) as [w Hw].
  { pose proof (bytes_mapped _ _ _ Hb) as Hm. by rewrite length_le_bytes in Hm. }
  pose proof (read_le_bytes _ _ _ _ Hb) as Hr. unfold read_le in Hr. rewrite Hw in Hr. injection Hr as ->.
  by eapply wp_done.
Qed.
Lemma load_words_ok ws a (Q : list Z → mem → Prop) (m : mem) :
  bytes m a (words_bytes ws) → Forall word_64 ws → Q ws m → wp (load_words (length ws) a) Q m.
Proof.
  revert a Q. induction ws as [|w ws IH]; intros a Q Hb Hws HQ; cbn [load_words length]; [by wp_step|].
  unfold words_bytes in Hb. rewrite bind_cons, bytes_app, length_le_bytes in Hb. destruct Hb as [Hw Hb].
  apply Forall_cons in Hws as [Hw64 Hws]. wp_step. eapply wp_load_le; [exact Hw|].
  rewrite Z.mod_small by exact Hw64. wp_step. apply (IH (a + 8)); [exact Hb|done|]. by wp_step.
Qed.
(** Memory of bytes holds words wherever it is mapped. *)
Definition byte_mem (m : mem) : Prop := ∀ i b, m !! i = Some b → byte b.
Lemma le_bytes_surj bs : Forall byte bs → ∃ v, 0 ≤ v < 2 ^ (8 * Z.of_nat (length bs)) ∧ le_bytes (length bs) v = bs.
Proof.
  induction bs as [|b bs IH]; intros Hbs; [exists 0; split; [cbn; lia|done]|].
  apply Forall_cons in Hbs as [Hb Hbs]. destruct (IH Hbs) as (v & Hv & Hl). exists (b + 2 ^ 8 * v). unfold byte in Hb.
  cbn [length le_bytes]. replace (8 * Z.of_nat (S (length bs))) with (8 + 8 * Z.of_nat (length bs)) by lia.
  rewrite Z.pow_add_r by lia. split; [lia|]. rewrite Z.shiftr_div_pow2 by lia. unfold u8.
  rewrite (Z.mul_comm (2 ^ 8) v), Z.div_add, Z.mod_add, Z.div_small, Z.mod_small, Z.add_0_l by lia. by rewrite Hl.
Qed.
Lemma bytes_Forall (m : mem) a bs : byte_mem m → bytes m a bs → Forall byte bs.
Proof. intros Hm. revert a. induction bs as [|b bs IH]; intros a; [done|]. intros [Hb Hbs]. constructor; eauto. Qed.
Lemma mapped_words n a (m : mem) :
  byte_mem m → mapped m a (8 * Z.of_nat n) → ∃ ws, length ws = n ∧ Forall word_64 ws ∧ bytes m a (words_bytes ws).
Proof.
  intros Hm. revert a. induction n as [|n IH]; intros a Ha; [by exists []|].
  destruct (mapped_bytes m a 8) as (bs & Hlen & Hbs); [eapply mapped_le; [exact Ha|lia]|].
  destruct (le_bytes_surj bs) as (v & Hv & Hl); [by eapply bytes_Forall|]. rewrite Hlen in *.
  destruct (IH (a + 8)) as (ws & Hn & Hws & Hb).
  { replace (8 * Z.of_nat n) with (8 * Z.of_nat (S n) - 8) by lia. apply mapped_tail; [done|lia]. }
  exists (v :: ws). split_and!; [by rewrite <- Hn|by constructor|].
  unfold words_bytes. rewrite bind_cons, bytes_app, length_le_bytes, Hl. done.
Qed.
Lemma byte_mem_write (m : mem) a bs : byte_mem m → Forall byte bs → byte_mem (write_bytes m a bs).
Proof.
  intros Hm Hbs i b. destruct (decide (a ≤ i < a + Z.of_nat (length bs))) as [Hi|Hi].
  - destruct (lookup_lt_is_Some_2 bs (Z.to_nat (i - a))) as [c Hc]; [lia|].
    replace i with (a + Z.of_nat (Z.to_nat (i - a))) by lia. rewrite (lookup_write_bytes _ _ _ _ _ Hc). intros [= <-].
    by eapply Forall_lookup_1.
  - rewrite lookup_write_bytes_ne by lia. apply Hm.
Qed.
Lemma le_bytes_byte n v : Forall byte (le_bytes n v).
Proof. revert v. induction n as [|n IH]; intros v; [done|]. constructor; [apply u8_byte|apply IH]. Qed.
Lemma byte_mem_words (m : mem) a ws : byte_mem m → byte_mem (write_bytes m a (words_bytes ws)).
Proof.
  intros Hm. apply byte_mem_write; [done|]. unfold words_bytes. induction ws as [|w ws IH]; [done|].
  rewrite bind_cons. apply Forall_app. split; [apply le_bytes_byte|done].
Qed.

(** * A switch *)

(** The words of a context: what a core has when it calls. *)
Definition context (s : switcher) : list Z := callee s ++ [tpidr_el0 s; stack_ptr s].
Record switcher_ok (s : switcher) : Prop := {
  so_len : length (callee s) = CALLEE_REGS;
  so_words : Forall word_64 (context s);
}.
Definition CONTEXT_SIZE : Z := 112.

Lemma length_context s : switcher_ok s → length (context s) = 14%nat.
Proof. intros Hs. unfold context. rewrite length_app, (so_len _ Hs). done. Qed.

(** The core leaves its context at [x0] and goes on with the one at [x1], which may
    be what it has just stored. *)
Lemma switch_context_ok x0 x1 cs t p s (Q : Z → switcher → Prop) :
  switcher_ok s → mapped (sw_mem s) x0 CONTEXT_SIZE → length cs = CALLEE_REGS → Forall word_64 (cs ++ [t; p]) →
  bytes (write_bytes (sw_mem s) x0 (words_bytes (context s))) x1 (words_bytes (cs ++ [t; p])) →
  Q (default 0 (cs !! 11%nat))
    {| sw_mem := write_bytes (sw_mem s) x0 (words_bytes (context s)); callee := cs; tpidr_el0 := t; stack_ptr := p;
       irq_masked := false |} →
  wp (switch_context x0 x1) Q s.
Proof.
  intros Hs Hm Hcs Hws Hb HQ. pose proof (so_len _ Hs) as Hc.
  assert (Hmem : write_bytes (sw_mem s) x0 (words_bytes (context s)) =
    write_bytes (write_bytes (sw_mem s) x0 (words_bytes (callee s))) (x0 + 16 * 6)
      (words_bytes [tpidr_el0 s; stack_ptr s])).
  { unfold context. by rewrite words_bytes_app, write_bytes_app, length_words_bytes, Hc. }
  rewrite words_bytes_app, bytes_app, length_words_bytes, Hcs in Hb. destruct Hb as [Hb1 Hb2].
  apply Forall_app in Hws as [Hw1 Hw2].
  unfold switch_context, on_switch_mem. do 2 wp_step. apply store_words_ok.
  { rewrite Hc. eapply mapped_le; [exact Hm|done]. }
  do 2 wp_step. cbn [sw_mem]. apply store_words_ok.
  { eapply mapped_le; [apply (mapped_tail _ _ CONTEXT_SIZE (16 * 6)); [by apply mapped_write_bytes|done]|done]. }
  rewrite <- Hmem. do 2 wp_step. change 2%nat with (length [t; p]). cbn [sw_mem]. apply load_words_ok; [exact Hb2|done|].
  do 2 wp_step. cbn [sw_mem]. rewrite <- Hcs at 1. apply load_words_ok; [exact Hb1|done|]. do 4 wp_step. exact HQ.
Qed.

(** ** The theorem *)

Definition contexts_apart (a b : Z) : Prop := a + CONTEXT_SIZE ≤ b ∨ b + CONTEXT_SIZE ≤ a.
(** The registers [x19] to [x30] by their numbers. *)
Definition reg (s : switcher) (n : nat) : Z := default 0 (callee s !! (n - 19)%nat).
(** A field of the entry [i] of the table, of [n] bytes. *)
Definition tcb_field (n : nat) (m : mem) (task_list i off : Z) : option Z := read_le n m (tcb_addr task_list i + off).

Lemma bytes_apart (m : mem) a b s bs :
  switcher_ok s → Z.of_nat (length bs) = CONTEXT_SIZE → contexts_apart a b → bytes m b bs →
  bytes (write_bytes m a (words_bytes (context s))) b bs.
Proof.
  intros Hs Hl Hab. apply bytes_ext. intros i Hi. apply lookup_write_bytes_ne.
  rewrite length_words_bytes, length_context by done. unfold contexts_apart, CONTEXT_SIZE in *. lia.
Qed.
(** The words and the halves of words of a stored context. *)
Lemma stored_word (m : mem) a ws k w :
  ws !! k = Some w → bytes (write_bytes m a (words_bytes ws)) (a + 8 * Z.of_nat k) (le_bytes 8 w).
Proof.
  intros Hk. pose proof (bytes_write_bytes m a (words_bytes ws)) as Hb.
  rewrite <- (take_drop_middle ws k w Hk) in Hb at 2. rewrite words_bytes_app, bytes_app, length_words_bytes in Hb.
  destruct Hb as [_ Hb]. rewrite length_take_le in Hb by (apply lookup_lt_Some in Hk; lia).
  unfold words_bytes in Hb at 2. rewrite bind_cons, bytes_app in Hb. apply Hb.
Qed.
Lemma stored_halves (m : mem) a ws k w :
  ws !! k = Some w → word_64 w →
  read_le 4 (write_bytes m a (words_bytes ws)) (a + 8 * Z.of_nat k) = Some (w mod 2 ^ 32) ∧
  read_le 4 (write_bytes m a (words_bytes ws)) (a + 8 * Z.of_nat k + 4) = Some (w / 2 ^ 32).
Proof.
  intros Hk Hw. pose proof (stored_word m a ws k w Hk) as Hb.
  assert (Hsplit : le_bytes 8 w = le_bytes 4 w ++ le_bytes 4 (w >> 32)).
  { cbn [le_bytes app]. rewrite !Z.shiftr_shiftr by lia. done. }
  rewrite Hsplit, bytes_app, length_le_bytes in Hb. destruct Hb as [H1 H2].
  change (Z.of_nat 4) with 4 in H2. split.
  - rewrite (read_le_bytes _ _ _ _ H1). done.
  - rewrite (read_le_bytes _ _ _ _ H2). f_equal. rewrite Z.shiftr_div_pow2 by lia. unfold word_64 in Hw. apply Z.mod_small.
    change (2 ^ (8 * Z.of_nat 4)) with (2 ^ 32). split; [apply Z.div_pos; lia|apply Z.div_lt_upper_bound; lia].
Qed.
Lemma context_lookup s k : switcher_ok s → (k < 12)%nat → context s !! k = Some (reg s (19 + k)).
Proof.
  intros Hs Hk. unfold context, reg. replace (19 + k - 19)%nat with k by lia.
  destruct (lookup_lt_is_Some_2 (callee s) k) as [v Hv]; [by rewrite (so_len _ Hs)|].
  rewrite Hv. by apply lookup_app_l_Some.
Qed.
Lemma context_word s k w : switcher_ok s → context s !! k = Some w → word_64 w.
Proof. intros Hs. pose proof (so_words _ Hs) as Hw. rewrite Forall_lookup in Hw. apply Hw. Qed.
(** Any area holds a context. *)
Lemma mapped_context a (m : mem) :
  byte_mem m → mapped m a CONTEXT_SIZE →
  ∃ cs t p, length cs = CALLEE_REGS ∧ Forall word_64 (cs ++ [t; p]) ∧ bytes m a (words_bytes (cs ++ [t; p])).
Proof.
  intros Hm Ha. destruct (mapped_words 14 a m Hm Ha) as (ws & Hn & Hws & Hb).
  exists (take 12 ws), (default 0 (ws !! 12%nat)), (default 0 (ws !! 13%nat)).
  do 14 (destruct ws as [|? ws]; [done|]). destruct ws; [|done]. done.
Qed.

(** What a context does to the entries it is stored over. *)
Lemma stored_fields tasks i s :
  switcher_ok s →
  let m := write_bytes (sw_mem s) (tcb_addr tasks i) (words_bytes (context s)) in
  tcb_field 8 m tasks i CPU_INFO_OFFSET = Some (reg s 19) ∧
  tcb_field 4 m tasks i STATE_OFFSET = Some (reg s 21 mod 2 ^ 32) ∧
  tcb_field 4 m tasks i COUNTER_OFFSET = Some (reg s 21 / 2 ^ 32) ∧
  tcb_field 4 m tasks i ID_OFFSET = Some (reg s 22 / 2 ^ 32) ∧
  tcb_field 8 m tasks (i + 1) CPU_INFO_OFFSET = Some (reg s 25) ∧
  tcb_field 4 m tasks (i + 1) STATE_OFFSET = Some (reg s 27 mod 2 ^ 32) ∧
  tcb_field 4 m tasks (i + 1) COUNTER_OFFSET = Some (reg s 27 / 2 ^ 32) ∧
  tcb_field 4 m tasks (i + 1) ID_OFFSET = Some (reg s 28 / 2 ^ 32) ∧
  tcb_field 8 m tasks (i + 2) CPU_INFO_OFFSET = Some (tpidr_el0 s) ∧
  tcb_field 8 m tasks (i + 2) SP_OFFSET = Some (stack_ptr s).
Proof.
  intros Hs m. set (a := tcb_addr tasks i) in *.
  assert (Hword : ∀ k w, context s !! k = Some w → read_le 8 m (a + 8 * Z.of_nat k) = Some w).
  { intros k w Hk. unfold m. rewrite (read_le_bytes _ _ _ _ (stored_word _ a _ _ _ Hk)). f_equal.
    exact (Z.mod_small _ _ (context_word s k w Hs Hk)). }
  assert (Hhalf : ∀ k w, context s !! k = Some w → read_le 4 m (a + 8 * Z.of_nat k) = Some (w mod 2 ^ 32) ∧
    read_le 4 m (a + 8 * Z.of_nat k + 4) = Some (w / 2 ^ 32)).
  { intros k w Hk. apply stored_halves; [done|by eapply context_word]. }
  assert (Hreg : ∀ k, (k < 12)%nat → context s !! k = Some (reg s (19 + k))) by (intros; by apply context_lookup).
  assert (Ht : context s !! 12%nat = Some (tpidr_el0 s) ∧ context s !! 13%nat = Some (stack_ptr s)).
  { unfold context. rewrite !lookup_app_r, (so_len _ Hs) by (rewrite (so_len _ Hs); unfold CALLEE_REGS; lia). done. }
  destruct Ht as [Ht Hp].
  assert (Hat : ∀ n e o d, tcb_addr tasks e + o = a + d → tcb_field n m tasks e o = read_le n m (a + d)).
  { intros n e o d E. unfold tcb_field. by rewrite E. }
  assert (Hw8 : ∀ e o k, (k < 12)%nat → tcb_addr tasks e + o = a + 8 * Z.of_nat k →
    tcb_field 8 m tasks e o = Some (reg s (19 + k))).
  { intros e o k Hk E. rewrite (Hat _ _ _ _ E). by apply Hword, Hreg. }
  assert (Hlo : ∀ e o k, (k < 12)%nat → tcb_addr tasks e + o = a + 8 * Z.of_nat k →
    tcb_field 4 m tasks e o = Some (reg s (19 + k) mod 2 ^ 32)).
  { intros e o k Hk E. rewrite (Hat _ _ _ _ E). by apply Hhalf, Hreg. }
  assert (Hhi : ∀ e o k, (k < 12)%nat → tcb_addr tasks e + o = a + 8 * Z.of_nat k + 4 →
    tcb_field 4 m tasks e o = Some (reg s (19 + k) / 2 ^ 32)).
  { intros e o k Hk E. unfold tcb_field. rewrite E. by apply Hhalf, Hreg. }
  split_and!; [apply (Hw8 _ _ 0%nat)|apply (Hlo _ _ 2%nat)|apply (Hhi _ _ 2%nat)|apply (Hhi _ _ 3%nat)|
    apply (Hw8 _ _ 6%nat)|apply (Hlo _ _ 8%nat)|apply (Hhi _ _ 8%nat)|apply (Hhi _ _ 9%nat)|
    erewrite Hat; [apply (Hword 12%nat), Ht|]|erewrite Hat; [apply (Hword 13%nat), Hp|]]; try lia;
    unfold a, tcb_addr, TCB_SIZE, CPU_INFO_OFFSET, SP_OFFSET, STATE_OFFSET, COUNTER_OFFSET, ID_OFFSET; lia.
Qed.

(** C34: a task that calls [switch_context] goes on where it was.  With areas of 112
    bytes that do not overlap, the core goes on with the registers, the stack and
    the thread register found at [x1], at its [x30], with interrupts enabled, and
    writes nothing but [x0]; and when a later call of any core switches to an area
    that still has what was stored, that core has the registers of the first call
    and returns from it.  The areas the scheduler passes are entries of [task_list],
    which have 48 bytes: there the call replaces the pointer, the state, the
    counter and the number of the task itself and of the one after it, and the
    pointers of the one behind that, by registers. *)
Theorem switch_context_correct s :
  switcher_ok s → byte_mem (sw_mem s) →
  (∀ a b, mapped (sw_mem s) a CONTEXT_SIZE → mapped (sw_mem s) b CONTEXT_SIZE → contexts_apart a b →
     wp (switch_context a b) (λ next s1,
       switcher_ok s1 ∧ bytes (sw_mem s) b (words_bytes (context s1)) ∧ next = reg s1 30 ∧ irq_masked s1 = false ∧
       (∀ x, x < a ∨ a + CONTEXT_SIZE ≤ x → sw_mem s1 !! x = sw_mem s !! x) ∧
       ∀ c s2, switcher_ok s2 → mapped (sw_mem s2) c CONTEXT_SIZE → contexts_apart c a →
         (∀ x, a ≤ x < a + CONTEXT_SIZE → sw_mem s2 !! x = sw_mem s1 !! x) →
         wp (switch_context c a)
            (λ next' s3, next' = reg s 30 ∧ context s3 = context s ∧ irq_masked s3 = false) s2) s) ∧
  (∀ tasks i j, mapped (sw_mem s) (tcb_addr tasks i) CONTEXT_SIZE → mapped (sw_mem s) (tcb_addr tasks j) CONTEXT_SIZE →
     wp (switch_context (tcb_addr tasks i) (tcb_addr tasks j)) (λ _ s1,
       tcb_field 8 (sw_mem s1) tasks i CPU_INFO_OFFSET = Some (reg s 19) ∧
       tcb_field 4 (sw_mem s1) tasks i STATE_OFFSET = Some (reg s 21 mod 2 ^ 32) ∧
       tcb_field 4 (sw_mem s1) tasks i COUNTER_OFFSET = Some (reg s 21 / 2 ^ 32) ∧
       tcb_field 4 (sw_mem s1) tasks i ID_OFFSET = Some (reg s 22 / 2 ^ 32) ∧
       tcb_field 8 (sw_mem s1) tasks (i + 1) CPU_INFO_OFFSET = Some (reg s 25) ∧
       tcb_field 4 (sw_mem s1) tasks (i + 1) STATE_OFFSET = Some (reg s 27 mod 2 ^ 32) ∧
       tcb_field 4 (sw_mem s1) tasks (i + 1) COUNTER_OFFSET = Some (reg s 27 / 2 ^ 32) ∧
       tcb_field 4 (sw_mem s1) tasks (i + 1) ID_OFFSET = Some (reg s 28 / 2 ^ 32) ∧
       tcb_field 8 (sw_mem s1) tasks (i + 2) CPU_INFO_OFFSET = Some (tpidr_el0 s) ∧
       tcb_field 8 (sw_mem s1) tasks (i + 2) SP_OFFSET = Some (stack_ptr s)) s).
Proof.
  intros Hs Hbytes. split.
  - intros a b Ha Hb Hab. destruct (mapped_context b _ Hbytes Hb) as (cs & t & p & Hcs & Hws & Hbb).
    assert (Hl : ∀ ws, length ws = 14%nat → Z.of_nat (length (words_bytes ws)) = CONTEXT_SIZE).
    { intros ws Hn. by rewrite length_words_bytes, Hn. }
    eapply (switch_context_ok a b cs t p); [done|done|done|done| |].
    { eapply bytes_apart; [done| |done|done]. apply Hl. rewrite length_app, Hcs. done. }
    unfold context at 1. cbn [sw_mem callee tpidr_el0 stack_ptr irq_masked]. split_and!; [|done|done|done| |].
    { constructor; [done|exact Hws]. }
    { intros x Hx. apply lookup_write_bytes_ne. by rewrite (Hl _ (length_context s Hs)). }
    intros c s2 Hs2 Hc Hca Hsame. eapply (switch_context_ok c a (callee s) (tpidr_el0 s) (stack_ptr s)); [done|done|
      apply Hs|apply (so_words _ Hs)| |].
    { eapply bytes_apart; [done|apply (Hl (context s)); by apply length_context|done|].
      eapply bytes_ext; [|apply (bytes_write_bytes (sw_mem s))]. intros x Hx. apply Hsame.
      change (callee s ++ [tpidr_el0 s; stack_ptr s]) with (context s) in Hx. by rewrite Hl in Hx by by apply length_context. }
    done.
  - intros tasks i j Hi Hj.
    destruct (mapped_context (tcb_addr tasks j) (write_bytes (sw_mem s) (tcb_addr tasks i) (words_bytes (context s))))
      as (cs & t & p & Hcs & Hws & Hb); [by apply byte_mem_words|by apply mapped_write_bytes|].
    eapply (switch_context_ok _ _ cs t p); [done|done|done|done|exact Hb|]. by apply stored_fields.
Qed.

(** * Example *)

(** A table of four tasks in zeroed memory, and a core whose registers hold their
    numbers. *)
Definition core_example : switcher := {|
  sw_mem := write_bytes ∅ 0x1000 (replicate 400 0); callee := [19; 20; 21; 22; 23; 24; 25; 26; 27 * 2 ^ 32 + 1; 28; 29; 30];
  tpidr_el0 := 5; stack_ptr := 0x8000; irq_masked := true |}.
Lemma core_example_ok : switcher_ok core_example.
Proof. constructor; [done|]. repeat (apply Forall_cons; split; [done|]). done. Qed.
Lemma core_example_bytes : byte_mem (sw_mem core_example).
Proof. apply byte_mem_write; [intros i b; by rewrite lookup_empty|]. by apply Forall_replicate. Qed.
Lemma mapped_example a : 0x1000 ≤ a ≤ 0x1000 + 288 → mapped (sw_mem core_example) a CONTEXT_SIZE.
Proof.
  intros Ha i Hi. unfold CONTEXT_SIZE in Hi. exists 0. cbn [sw_mem core_example].
  replace (a + i) with (0x1000 + Z.of_nat (Z.to_nat (a + i - 0x1000))) by lia.
  apply lookup_write_bytes, lookup_replicate. split; [done|lia].
Qed.

(** A task of the table that yields and one at rest 112 bytes contexts_apart. *)
Lemma switch_context_correct_witness :
  wp (switch_context 0x1000 0x1070) (λ next s1, next = reg s1 30 ∧ irq_masked s1 = false) core_example ∧
  wp (switch_context (tcb_addr 0x1000 0) (tcb_addr 0x1000 1)) (λ _ s1,
    tcb_field 4 (sw_mem s1) 0x1000 1 STATE_OFFSET = Some 1 ∧ tcb_field 4 (sw_mem s1) 0x1000 1 COUNTER_OFFSET = Some 27) core_example.
Proof.
  destruct (switch_context_correct core_example core_example_ok core_example_bytes) as [H1 H2]. split.
  - eapply wp_mono; [apply H1; [apply mapped_example; lia|apply mapped_example; lia|left; done]|].
    cbn beta. intros next s1 (_ & _ & Hn & Hi & _). by split.
  - eapply wp_mono; [apply (H2 0x1000 0 1); apply mapped_example; unfold tcb_addr, TCB_SIZE; lia|].
    cbn beta. intros _ s1 (_ & _ & _ & _ & _ & Hs & Hc & _). by split.
Defined.
