(* ===== verification/Cache.v ===== *)
(** The maintenance of the data cache by ranges of addresses:
    [include/mem/page.h]. *)

From S2P Require Import Prelude.

(** * Definitions *)

(** A data cache over a memory: the lines it holds, by their numbers, with the bytes
    they hold, by their addresses. *)
Record cache := { memory : Z → Z; lines : gmap Z (Z → Z) }.

Section cache.
(** The lines of the hardware, and [cacheline_bytes], which [setup_cache] reads. *)
Context (line cacheline_bytes : Z).

(** What the core reads, the cache first. *)
Definition view (s : cache) (a : Z) : Z :=
  match lines s !! (a / line) with Some l => l a | None => memory s a end.

(** The instructions [dc civac] and [dc ivac], which the inline assembly is meant to
    be: the line of an address is written back and dropped, or only dropped. *)
Definition clean_and_invalidate_dcache_one (a : Z) : St cache unit :=
  modify (λ s, {| memory := λ x, if x / line =? a / line then view s x else memory s x;
                  lines := delete (a / line) (lines s) |}).
Definition invalidate_dcache_one (a : Z) : St cache unit :=
  modify (λ s, {| memory := memory s; lines := delete (a / line) (lines s) |}).

(** [for (; p < end; p += cacheline_bytes)]. *)
Fixpoint line_loop (one : Z → St cache unit) (fuel : nat) (p e : Z) : St cache unit :=
  match fuel with
  | O => nofuel
  | S k => if p <? e then one p;; line_loop one k (u64 (p + cacheline_bytes)) e else mret tt
  end.

Definition clean_and_invalidate_dcache_va_range (fuel : nat) (p size : Z) : St cache Z :=
  let e := u64 (p + size) in
  line_loop clean_and_invalidate_dcache_one fuel p e;;
  mret 0.

(** [x % cacheline_bytes] of an [unsigned long]; by zero it is a fault. *)
Definition line_offset (x : Z) : St cache Z :=
  if cacheline_bytes =? 0 then fault else mret (x mod cacheline_bytes).
(** The local [size], which the loop does not use, is left out. *)
Definition invalidate_dcache_va_range (fuel : nat) (p size : Z) : St cache Z :=
  let e := u64 (p + size) in
  off ← line_offset p;
  p ← (if truthy off then
         let p := u64 (p - off) in
         clean_and_invalidate_dcache_one p;;
         mret (u64 (p + cacheline_bytes))
       else mret p);
  off ← line_offset e;
  e ← (if truthy off then
         let e := u64 (e - off) in
         clean_and_invalidate_dcache_one e;;
         mret e
       else mret e);
  line_loop invalidate_dcache_one fuel p e;;
  mret 0.
End cache.

(** * The effect of a range *)

Section effect.
Context (line : Z).

(** From [s] to [s'] the lines [cs] were written back and the lines [cs] and [ds]
    dropped, the lines of [cs] first. *)
Record maintained (cs ds : list Z) (s s' : cache) : Prop := {
  mt_memory : ∀ a, memory s' a = if decide (a / line ∈ cs) then view line s a else memory s a;
  mt_lines : ∀ n, lines s' !! n = if decide (n ∈ cs ++ ds) then None else lines s !! n;
}.

Lemma maintained_nil s : maintained [] [] s s.
Proof. constructor; intros; by rewrite decide_False by apply not_elem_of_nil. Qed.
(** A core reads what it read before, or the memory where a line was dropped. *)
Lemma maintained_view cs ds s s' a :
  maintained cs ds s s' →
  view line s' a = if decide (a / line ∈ cs) then view line s a
                   else if decide (a / line ∈ ds) then memory s a else view line s a.
Proof.
  intros [Hm Hl]. unfold view at 1. rewrite Hl, Hm.
  destruct (decide (a / line ∈ cs)) as [Hc|Hc], (decide (a / line ∈ ds)) as [Hd|Hd].
  1, 2: by rewrite decide_True by (apply elem_of_app; by left).
  - by rewrite decide_True by (apply elem_of_app; by right).
  - by rewrite decide_False by (rewrite elem_of_app; tauto).
Qed.
Lemma maintained_clean cs s s' a (Q : unit → cache → Prop) :
  maintained cs [] s s' →
  (∀ s'', maintained (cs ++ [a / line]) [] s s'' → Q tt s'') →
  wp (clean_and_invalidate_dcache_one line a) Q s'.
Proof.
  intros Hs HQ. unfold clean_and_invalidate_dcache_one. wp_step. apply HQ.
  constructor; cbn [memory lines].
  - intros x. rewrite (maintained_view _ _ _ _ x Hs), (mt_memory _ _ _ _ Hs).
    destruct (Z.eqb_spec (x / line) (a / line)) as [->|Hne].
    + rewrite (decide_True (P := a / line ∈ cs ++ _)) by (apply elem_of_app; right; by left).
      destruct (decide (a / line ∈ cs)); [done|]. by rewrite decide_False by apply not_elem_of_nil.
    + destruct (decide (x / line ∈ cs)).
      * by rewrite decide_True by (apply elem_of_app; by left).
      * by rewrite decide_False by (rewrite elem_of_app, list_elem_of_singleton; tauto).
  - intros n. rewrite app_nil_r. destruct (decide (n = a / line)) as [->|Hne].
    + rewrite lookup_delete_eq, decide_True by (apply elem_of_app; right; by left). done.
    + rewrite lookup_delete_ne, (mt_lines _ _ _ _ Hs), app_nil_r by done.
      destruct (decide (n ∈ cs)).
      * by rewrite decide_True by (apply elem_of_app; by left).
      * by rewrite decide_False by (rewrite elem_of_app, list_elem_of_singleton; tauto).
Qed.
Lemma maintained_drop cs ds s s' a (Q : unit → cache → Prop) :
  maintained cs ds s s' →
  (∀ s'', maintained cs (ds ++ [a / line]) s s'' → Q tt s'') → wp (invalidate_dcache_one line a) Q s'.
Proof.
  intros [Hm Hl] HQ. unfold invalidate_dcache_one. wp_step. apply HQ. constructor; cbn [memory lines]; [exact Hm|].
  intros n. rewrite app_assoc. destruct (decide (n = a / line)) as [->|Hne].
  - rewrite lookup_delete_eq, decide_True by (apply elem_of_app; right; by left). done.
  - rewrite lookup_delete_ne, Hl by done. destruct (decide (n ∈ cs ++ ds)).
    + by rewrite decide_True by (apply elem_of_app; by left).
    + by rewrite decide_False by (rewrite elem_of_app, list_elem_of_singleton; tauto).
Qed.
End effect.

(** * The loops *)

Section loops.
Context (line c : Z) (Hline : 0 < line) (Hc : 0 < c).

(** The lines of the addresses a loop from [p] to [e] passes. *)
Definition passed (p e : Z) : list Z := (λ k, (p + c * k) / line) <$> seqZ 0 ((e - p + c - 1) / c).

Lemma passed_nil p e : e ≤ p → passed p e = [].
Proof using Hc.
  intros He. unfold passed. destruct (decide ((e - p + c - 1) / c ≤ 0)) as [Hk|Hk]; [by rewrite seqZ_nil|].
  exfalso. apply Hk. apply Z.lt_succ_r, Z.div_lt_upper_bound; lia.
Qed.
Lemma passed_cons p e : p < e → passed p e = p / line :: passed (p + c) e.
Proof using Hc.
  intros He. unfold passed.
  assert ((e - p + c - 1) / c = (e - (p + c) + c - 1) / c + 1) as ->.
  { replace (e - p + c - 1) with (e - (p + c) + c - 1 + 1 * c) by lia. apply Z.div_add. lia. }
  assert (0 ≤ (e - (p + c) + c - 1) / c) by (apply Z.div_pos; lia).
  rewrite seqZ_cons by lia. cbn [fmap list_fmap]. f_equal; [f_equal; lia|].
  replace (Z.pred _) with ((e - (p + c) + c - 1) / c) by lia. change (Z.succ 0) with (1 + 0).
  rewrite <- fmap_add_seqZ, <- list_fmap_compose. apply list_fmap_ext. intros i k _. cbn. f_equal. lia.
Qed.
Lemma elem_of_passed p e n : n ∈ passed p e ↔ ∃ k, 0 ≤ k ∧ p + c * k < e ∧ n = (p + c * k) / line.
Proof using Hc.
  unfold passed. rewrite list_elem_of_fmap. split.
  - intros (k & -> & Hk%elem_of_seqZ). exists k. split_and!; [lia| |done].
    assert (c * (k + 1) ≤ c * ((e - p + c - 1) / c)) by nia.
    pose proof (Z.mul_div_le (e - p + c - 1) c Hc). lia.
  - intros (k & Hk & Hlt & ->). exists k. split; [done|]. apply elem_of_seqZ. split; [lia|].
    apply Z.lt_le_trans with (k + 1); [lia|]. apply Z.div_le_lower_bound; lia.
Qed.

Lemma line_loop_ok (R : list Z → cache → Prop) one fuel p e xs (Q : unit → cache → Prop) s :
  (∀ ys a s (Q : unit → cache → Prop), R ys s → (∀ s', R (ys ++ [a / line]) s' → Q tt s') → wp (one a) Q s) →
  0 ≤ p → e + c ≤ 2 ^ 64 → Z.max 0 (e - p) + c ≤ c * Z.of_nat fuel →
  R xs s → (∀ s', R (xs ++ passed p e) s' → Q tt s') → wp (line_loop c one fuel p e) Q s.
Proof using Hc.
  intros Hone. revert p xs s. induction fuel as [|fuel IH]; intros p xs s Hp He Hf HR HQ; cbn [line_loop].
  { lia. }
  destruct (Z.ltb_spec p e).
  - rewrite Nat2Z.inj_succ in Hf. wp_step. apply (Hone xs); [done|]. intros s' HR'. unfold u64. rewrite Z.mod_small by lia.
    assert (1 ≤ Z.of_nat fuel) by nia.
    apply (IH _ (xs ++ [p / line])); [lia|lia|nia|done|]. intros s'' HR''. apply HQ.
    rewrite passed_cons by done. by rewrite <- app_assoc in HR''.
  - wp_step. apply HQ. by rewrite passed_nil, app_nil_r by lia.
Qed.

Lemma clean_lines_ok fuel p e cs s0 (Q : unit → cache → Prop) s :
  0 ≤ p → e + c ≤ 2 ^ 64 → Z.max 0 (e - p) + c ≤ c * Z.of_nat fuel →
  maintained line cs [] s0 s → (∀ s', maintained line (cs ++ passed p e) [] s0 s' → Q tt s') →
  wp (line_loop c (clean_and_invalidate_dcache_one line) fuel p e) Q s.
Proof using Hc.
  apply (line_loop_ok (λ xs s, maintained line xs [] s0 s)). intros ys a s1 Q1. apply maintained_clean.
Qed.
Lemma drop_lines_ok fuel p e cs s0 (Q : unit → cache → Prop) s :
  0 ≤ p → e + c ≤ 2 ^ 64 → Z.max 0 (e - p) + c ≤ c * Z.of_nat fuel →
  maintained line cs [] s0 s → (∀ s', maintained line cs (passed p e) s0 s' → Q tt s') →
  wp (line_loop c (invalidate_dcache_one line) fuel p e) Q s.
Proof using Hc.
  intros Hp He Hf Hs HQ. apply (line_loop_ok (λ xs s, maintained line cs xs s0 s) _ _ _ _ []); try done.
  intros ys a s1 Q1. apply maintained_drop.
Qed.
End loops.

(** * The ranges *)

Section ranges.
Context (line : Z) (Hline : 0 < line).

Lemma clean_range_ok c fuel p size s :
  0 < c → 0 ≤ p → 0 ≤ size → p + size + c ≤ 2 ^ 64 → size + c ≤ c * Z.of_nat fuel →
  wp (clean_and_invalidate_dcache_va_range line c fuel p size)
     (λ r s', r = 0 ∧ maintained line (passed line c p (p + size)) [] s s') s.
Proof using Hline.
  intros Hc Hp Hs Hw Hf. unfold clean_and_invalidate_dcache_va_range, u64. rewrite Z.mod_small by lia. wp_step.
  eapply (clean_lines_ok line c Hc _ _ _ [] s); [lia|lia|lia|apply maintained_nil|]. intros s' Hs'. wp_step. done.
Qed.

(** The lines the invalidation writes back, those of the multiples of [c], which is
    [cacheline_bytes], below the ends of a range that are no multiples themselves. *)
Definition partial (c p size n : Z) : Prop :=
  (n = (c * (p / c)) / line ∧ p mod c ≠ 0) ∨ (n = (c * ((p + size) / c)) / line ∧ (p + size) mod c ≠ 0).
#[export] Instance partial_dec c p size n : Decision (partial c p size n).
Proof using Type. unfold partial. apply _. Defined.
(** The first and the last address the loop of the invalidation passes. *)
Definition inner_start (c p : Z) : Z := if p mod c =? 0 then p else c * (p / c) + c.
Definition inner_end (c e : Z) : Z := c * (e / c).

Section step.
Context (c : Z) (Hc : 0 < c).

Lemma line_offset_ok x (Q : Z → cache → Prop) s : Q (x mod c) s → wp (line_offset c x) Q s.
Proof using Hc. intros HQ. unfold line_offset. by rewrite (proj2 (Z.eqb_neq c 0)) by lia. Qed.
Lemma line_floor x : x - x mod c = c * (x / c).
Proof using Hc. pose proof (Z.div_mod x c). lia. Qed.
Lemma line_floor_range x : 0 ≤ x → 0 ≤ c * (x / c) ≤ x.
Proof using Hc.
  intros Hx. pose proof (Z.div_mod x c). pose proof (Z.mod_pos_bound x c).
  assert (0 ≤ x / c) by (apply Z.div_pos; lia). nia.
Qed.

Lemma invalidate_range_ok fuel p size s :
  0 ≤ p → 0 ≤ size → p + size + c ≤ 2 ^ 64 → size + c ≤ c * Z.of_nat fuel →
  wp (invalidate_dcache_va_range line c fuel p size)
     (λ r s', r = 0 ∧ ∃ cs, (∀ n, n ∈ cs ↔ partial c p size n) ∧
        maintained line cs (passed line c (inner_start c p) (inner_end c (p + size))) s s') s.
Proof using Hc Hline.
  intros Hp Hs Hw Hf. unfold invalidate_dcache_va_range.
  assert (u64 (p + size) = p + size) as -> by (apply Z.mod_small; lia). cbv zeta.
  pose proof (line_floor_range p Hp). pose proof (line_floor_range (p + size) ltac:(lia)).
  wp_step. apply line_offset_ok. wp_step.
  assert (Hstart : ∀ (Q : Z → cache → Prop), (∀ s' cs, (∀ n, n ∈ cs ↔ n = (c * (p / c)) / line ∧ p mod c ≠ 0) →
    maintained line cs [] s s' → Q (inner_start c p) s') →
    wp (if truthy (p mod c) then clean_and_invalidate_dcache_one line (u64 (p - p mod c));;
          mret (u64 (u64 (p - p mod c) + c)) else mret p) Q s).
  { intros Q HQ. unfold truthy, inner_start in *. rewrite line_floor.
    unfold u64. rewrite !(Z.mod_small (c * (p / c))) by lia.
    destruct (Z.eqb_spec (p mod c) 0) as [E|E]; cbn [negb]; wp_step.
    - apply (HQ _ []); [|apply maintained_nil]. intros n. rewrite elem_of_nil. tauto.
    - eapply (maintained_clean line []); [apply maintained_nil|]. intros s' Hs'. wp_step.
      pose proof (line_floor p). pose proof (Z.mod_pos_bound p c). rewrite Z.mod_small by lia.
      apply (HQ _ _) in Hs'; [exact Hs'|]. intros n.
      rewrite elem_of_app, elem_of_nil, list_elem_of_singleton. tauto. }
  apply Hstart. clear Hstart. intros s1 cs Hcs H1. wp_step. apply line_offset_ok. wp_step.
  assert (Hend : ∀ (Q : Z → cache → Prop), (∀ s' cs', (∀ n, n ∈ cs' ↔ partial c p size n) →
    maintained line cs' [] s s' → Q (inner_end c (p + size)) s') →
    wp (if truthy ((p + size) mod c) then
          clean_and_invalidate_dcache_one line (u64 (p + size - (p + size) mod c));;
          mret (u64 (p + size - (p + size) mod c)) else mret (p + size)) Q s1).
  { intros Q HQ. unfold truthy, inner_end, partial in *. rewrite line_floor.
    unfold u64. rewrite !(Z.mod_small _ (2 ^ 64)) by lia.
    destruct (Z.eqb_spec ((p + size) mod c) 0) as [E|E]; cbn [negb]; wp_step.
    - rewrite <- (line_floor (p + size)), E, Z.sub_0_r in HQ. apply (HQ _ cs); [|done]. intros n. rewrite Hcs. tauto.
    - eapply (maintained_clean line cs); [done|]. intros s' Hs'. wp_step.
      apply (HQ _ _) in Hs'; [exact Hs'|]. intros n. rewrite elem_of_app, Hcs, list_elem_of_singleton. tauto. }
  apply Hend. clear Hend. intros s2 cs2 Hcs2 H2. wp_step.
  eapply (drop_lines_ok line c Hc); [..|exact H2|].
  4: { intros s3 H3. wp_step. split; [done|]. by exists cs2. }
  - unfold inner_start. case_match; lia.
  - unfold inner_end. lia.
  - assert (p ≤ inner_start c p)
      by (unfold inner_start; pose proof (line_floor p); pose proof (Z.mod_pos_bound p c); case_match; lia).
    unfold inner_end. lia.
Qed.

(** A multiple of [c] in a line, with the [c] bytes from there in the range. *)
Definition range_block (p size n : Z) : Prop := ∃ k, p ≤ c * k ∧ c * k + c ≤ p + size ∧ n = (c * k) / line.
Lemma passed_range_block p size n : n ∈ passed line c (inner_start c p) (inner_end c (p + size)) ↔ range_block p size n.
Proof using Hc.
  pose proof (Z.div_mod p c). pose proof (Z.mod_pos_bound p c).
  pose proof (Z.div_mod (p + size) c). pose proof (Z.mod_pos_bound (p + size) c).
  rewrite elem_of_passed by done. unfold range_block, inner_end, inner_start.
  assert (Hs : (if p mod c =? 0 then p else c * (p / c) + c) =
               c * (if p mod c =? 0 then p / c else p / c + 1)).
  { destruct (Z.eqb_spec (p mod c) 0); lia. }
  rewrite Hs. set (q := if p mod c =? 0 then p / c else p / c + 1).
  assert (Hq : p ≤ c * q < p + c) by (unfold q; destruct (Z.eqb_spec (p mod c) 0); nia). clearbody q. clear Hs.
  split.
  - intros (k & Hk & Hlt & ->). exists (q + k). rewrite Z.mul_add_distr_l. assert (0 ≤ c * k) by nia.
    assert (q + k + 1 ≤ (p + size) / c) by (apply Z.le_succ_l; apply (Z.mul_lt_mono_pos_l c); lia).
    split_and!; [lia|nia|done].
  - intros (k & Hlo & Hhi & ->). exists (k - q).
    assert (q ≤ k) by (apply Z.lt_succ_r, (Z.mul_lt_mono_pos_l c); lia).
    assert (k + 1 ≤ (p + size) / c) by (apply Z.div_le_lower_bound; lia).
    split_and!; [lia|nia|f_equal; lia].
Qed.
(** The lines whose bytes are lost. *)
Definition dropped (p size n : Z) : Prop := range_block p size n ∧ ¬ partial c p size n.
End step.

(** A line that lies in a range as a whole.  With [cacheline_bytes] the line of the
    hardware those are the lines lost, and so they are for a range of whole lines. *)
Definition whole (p size n : Z) : Prop := p ≤ line * n ∧ line * n + line ≤ p + size.
Lemma dropped_whole c p size n :
  0 ≤ size → c = line ∨ ((c | line) ∧ 0 < c ∧ (line | p) ∧ (line | p + size)) → dropped c p size n ↔ whole p size n.
Proof using Hline.
  intros Hs H. pose proof (Z.div_mod p line). pose proof (Z.mod_pos_bound p line).
  pose proof (Z.div_mod (p + size) line). pose proof (Z.mod_pos_bound (p + size) line).
  assert (Hl : ∀ x, (line * x) / line = x) by (intros x; rewrite Z.mul_comm; apply Z.div_mul; lia).
  unfold dropped, whole, range_block, partial. destruct H as [->|([d Hd] & Hc & [u Hu] & [v Hv])].
  - rewrite !Hl. split.
    + intros [(k & Hlo & Hhi & Hn) _]. rewrite Hl in Hn. subst n. lia.
    + intros [Hlo Hhi]. split.
      * exists n. by rewrite Hl.
      * intros [[-> Hne]|[-> Hne]]; lia.
  - assert (p mod c = 0) as Ep by (apply Z.mod_divide; [lia|]; exists (u * d); lia).
    assert ((p + size) mod c = 0) as Ee by (apply Z.mod_divide; [lia|]; exists (v * d); lia).
    rewrite Ep, Ee. split.
    + intros [(k & Hlo & Hhi & ->) _]. pose proof (Z.div_mod (c * k) line). pose proof (Z.mod_pos_bound (c * k) line).
      assert (u ≤ c * k / line) by (apply Z.div_le_lower_bound; lia).
      assert (c * k / line < v) by (apply Z.div_lt_upper_bound; lia). nia.
    + intros [Hlo Hhi]. split; [|lia]. exists (d * n). assert (0 < d) by nia.
      replace (c * (d * n)) with (line * n) by lia. rewrite Hl. split_and!; [done| |done].
      assert (c ≤ line) by nia. lia.
Qed.

(** C18: the cache maintenance of a range.  The first function makes what the core
    sees of the range the contents of memory, for a range that starts at a multiple
    of [cacheline_bytes], which divides the line of the hardware, and changes nothing
    the core sees; it writes back only the lines of the addresses it passes, so that
    the last line of a range that starts in the middle of one can be left out.  The
    second one, for any [cacheline_bytes] but 0, which is a fault, writes back, for
    either end that is no multiple of [cacheline_bytes], the line of the multiple below
    it, and makes the core read memory in every other line in which a block of
    [cacheline_bytes] of the range starts.  Those
    are the lines of the range as a whole, and no byte outside it is lost, when
    [cacheline_bytes] is the line of the hardware or the range is one of whole lines;
    [setup_cache] takes the last byte of [CTR_EL0] for it, which is smaller on the
    usual cores, and then bytes before and behind the range can be lost.  Both
    return. *)
Theorem dcache_ranges_correct p size s :
  0 ≤ p → 0 ≤ size →
  (∀ c fuel, 0 < c → (c | line) → p + size + line ≤ 2 ^ 64 → size + c ≤ c * Z.of_nat fuel →
     wp (clean_and_invalidate_dcache_va_range line c fuel p size)
        (λ r s', r = 0 ∧ (∀ a, view line s' a = view line s a) ∧
           (p mod c = 0 → ∀ a, p ≤ a < p + size → memory s' a = view line s a) ∧
           ∀ a, (∀ k, 0 ≤ k → c * k < size → (p + c * k) / line ≠ a / line) → memory s' a = memory s a) s) ∧
  (∀ c fuel, 0 < c → p + size + c ≤ 2 ^ 64 → size + c ≤ c * Z.of_nat fuel →
     wp (invalidate_dcache_va_range line c fuel p size)
        (λ r s', r = 0 ∧ ∀ a,
           (dropped c p size (a / line) → view line s' a = memory s a) ∧
           (¬ dropped c p size (a / line) → view line s' a = view line s a) ∧
           memory s' a = if decide (partial c p size (a / line)) then view line s a else memory s a) s) ∧
  (∀ c n, c = line ∨ ((c | line) ∧ 0 < c ∧ (line | p) ∧ (line | p + size)) →
     dropped c p size n ↔ whole p size n) ∧
  (∀ fuel, invalidate_dcache_va_range line 0 fuel p size s = Fault).
Proof using Hline.
  intros Hp Hs. split_and!.
  - intros c fuel Hc Hdiv Hw Hf. pose proof (Z.divide_pos_le c line Hline Hdiv).
    eapply wp_mono; [apply clean_range_ok; lia|]. intros r s' [-> Hm]. split; [done|]. split_and!.
    + intros a. rewrite (maintained_view _ _ _ _ _ a Hm). case_decide; [done|].
      by rewrite decide_False by apply not_elem_of_nil.
    + intros Hal a Ha. rewrite (mt_memory _ _ _ _ _ Hm). apply decide_True. apply elem_of_passed; [done|].
      exists ((a - p) / c). pose proof (Z.div_mod (a - p) c). pose proof (Z.mod_pos_bound (a - p) c).
      assert (0 ≤ (a - p) / c) by (apply Z.div_pos; lia). split_and!; [done|lia|].
      destruct Hdiv as [d ->]. rewrite Z.mul_comm, <- !Z.div_div by nia. f_equal.
      rewrite (Z.mul_comm c), Z.div_add by lia.
      replace a with (p + (a - p)) at 1 by lia.
      apply Z.mod_divide in Hal as [q ->]; [|lia]. rewrite Z.add_comm, Z.div_add, Z.div_mul by lia. lia.
    + intros a Ha. rewrite (mt_memory _ _ _ _ _ Hm). apply decide_False. rewrite elem_of_passed by done.
      intros (k & Hk & Hlt & He). apply (Ha k); [done|lia|done].
  - intros c fuel Hc Hw Hf. eapply wp_mono; [by apply invalidate_range_ok|]. intros r s' (-> & cs & Hcs & Hm).
    split; [done|]. intros a. rewrite (maintained_view _ _ _ _ _ a Hm), (mt_memory _ _ _ _ _ Hm).
    specialize (Hcs (a / line)). unfold dropped. rewrite <- (passed_range_block c Hc).
    split_and!; [|intros Hd|]; repeat case_decide; tauto.
  - intros c n Hn. by apply dropped_whole.
  - done.
Qed.
End ranges.

(** * Examples *)

(** Lines of 64 bytes that hold 7, over a memory of zeros. *)
Definition cache_example : cache := {| memory := λ _, 0; lines := list_to_map ((λ n, (n, λ _, 7)) <$> seqZ 0 4) |}.
Lemma dcache_ranges_correct_witness :
  wp (clean_and_invalidate_dcache_va_range 64 64 3 64 128)
     (λ _ s', ∀ a, 64 ≤ a < 192 → memory s' a = view 64 cache_example a) cache_example ∧
  wp (invalidate_dcache_va_range 64 64 4 60 128)
     (λ _ s', view 64 s' 63 = 7 ∧ view 64 s' 64 = 0 ∧ view 64 s' 127 = 0 ∧ view 64 s' 128 = 7) cache_example ∧
  wp (invalidate_dcache_va_range 64 4 3 68 8) (λ _ s', view 64 s' 64 = 0) cache_example.
Proof.
  destruct (dcache_ranges_correct 64 ltac:(lia) 64 128 cache_example ltac:(lia) ltac:(lia)) as [Hclean _].
  destruct (dcache_ranges_correct 64 ltac:(lia) 60 128 cache_example ltac:(lia) ltac:(lia)) as (_ & Hinv & Hwhole & _).
  destruct (dcache_ranges_correct 64 ltac:(lia) 68 8 cache_example ltac:(lia) ltac:(lia)) as (_ & Hsmall & _).
  split_and!.
  - eapply wp_mono; [apply (Hclean 64); [lia|by exists 1|lia..]|]. intros r s' (_ & _ & Hm & _). by apply Hm.
  - eapply wp_mono; [apply (Hinv 64); lia|]. intros r s' [_ Ha].
    assert (Hd : ∀ n, dropped 64 64 60 128 n ↔ 60 ≤ 64 * n ∧ 64 * n + 64 ≤ 188) by (intros n; apply Hwhole; by left).
    split_and!.
    1, 4: etrans; [apply (Ha _); rewrite Hd; vm_compute; intuition discriminate|reflexivity].
    all: apply (Ha _); rewrite Hd; split; vm_compute; discriminate.
  - eapply wp_mono; [apply (Hsmall 4); lia|]. intros r s' [_ Ha]. apply (Ha 64). split.
    + exists 17. split_and!; [lia..|reflexivity].
    + intros [[_ H]|[_ H]]; by apply H.
Defined.
(** A range that starts in the middle of a line: its last bytes are not written
    back. *)
Example unaligned_range :
  match clean_and_invalidate_dcache_va_range 64 64 3 60 8 cache_example with
  | Done (_, s') => memory s' 63 = 7 ∧ memory s' 64 = 0 ∧ view 64 s' 64 = 7
  | _ => False
  end.
Proof. by vm_compute. Qed.
(** [cacheline_bytes] as [setup_cache] reads it from a Cortex-A72, 4 for lines of 64
    bytes: the bytes around a range of 8 are lost. *)
Example small_step_loses :
  match invalidate_dcache_va_range 64 4 3 68 8 cache_example with
  | Done (_, s') => view 64 cache_example 64 = 7 ∧ view 64 s' 64 = 0 ∧ memory s' 64 = 0 ∧ view 64 s' 127 = 0
  | _ => False
  end.
Proof. by vm_compute. Qed.
