(* ===== verification/Bitmap.v ===== *)
(** The page bitmap of [mem/bitmap.c]. *)

From S2P Require Import Prelude Config ByteMem.

(** [bitmap_t]: the address of the bytes, and the number of bits. *)
Record bitmap_t := { bits : Z; size : Z }.

(** The loop of [bitmap_init], from the index [i]. *)
Fixpoint bitmap_init_loop (fuel : nat) (buffer n i : Z) : St mem unit :=
  match fuel with
  | O => nofuel
  | S k =>
      if i <? n then store8 (buffer + i) 0;; bitmap_init_loop k buffer n (u64 (i + 1))
      else mret tt
  end.
Definition bitmap_init (fuel : nat) (buffer sz : Z) : St mem bitmap_t :=
  bitmap_init_loop fuel buffer (u64 (sz + 7) / 8) 0;; mret {| bits := buffer; size := sz |}.

Definition bitmap_set (b : bitmap_t) (index : Z) : St mem unit :=
  if index <? size b then
    v ← load8 (bits b + index / 8);
    store8 (bits b + index / 8) (v .| (1 << (index mod 8)))
  else mret tt.

Definition bitmap_clear (b : bitmap_t) (index : Z) : St mem unit :=
  if index <? size b then
    v ← load8 (bits b + index / 8);
    store8 (bits b + index / 8) (v .& Z.lnot (1 << (index mod 8)))
  else mret tt.

Definition bitmap_test (b : bitmap_t) (index : Z) : St mem Z :=
  if index <? size b then
    v ← load8 (bits b + index / 8);
    mret (of_bool (truthy (v .& (1 << (index mod 8)))))
  else mret 0.

(** [return -1] from a function of type [uint64_t]. *)
Definition NOT_FOUND : Z := u64 (-1).

Fixpoint find_first_loop (fuel : nat) (b : bitmap_t) (i : Z) : St mem Z :=
  match fuel with
  | O => nofuel
  | S k =>
      if i <? size b then
        t ← bitmap_test b i;
        if truthy t then find_first_loop k b (u64 (i + 1)) else mret i
      else mret NOT_FOUND
  end.
Definition bitmap_find_first_free (fuel : nat) (b : bitmap_t) : St mem Z :=
  find_first_loop fuel b 0.

(** The inner loop of [bitmap_find_contiguous_free]: the [j] it stops at. *)
Fixpoint contiguous_inner (fuel : nat) (b : bitmap_t) (count i j : Z) : St mem Z :=
  match fuel with
  | O => nofuel
  | S k =>
      if j <? count then
        t ← bitmap_test b (u64 (i + j));
        if truthy t then mret j else contiguous_inner k b count i (u64 (j + 1))
      else mret j
  end.
Fixpoint contiguous_outer (fuel : nat) (b : bitmap_t) (count i : Z) : St mem Z :=
  match fuel with
  | O => nofuel
  | S k =>
      if i <=? u64 (size b - count) then
        j ← contiguous_inner fuel b count i 0;
        if j =? count then mret i else contiguous_outer k b count (u64 (i + 1))
      else mret NOT_FOUND
  end.
Definition bitmap_find_contiguous_free (fuel : nat) (b : bitmap_t) (count : Z) : St mem Z :=
  contiguous_outer fuel b count 0.

(** The bitmap and its new value: unchanged when an argument is invalid. *)
Definition bitmap_create_from_memory (fuel : nat) (b : option bitmap_t)
    (phys_start phys_size : Z) : St mem (option bitmap_t) :=
  match b with
  | None => mret None
  | Some b0 =>
      if negb (truthy phys_start) || negb (truthy phys_size) then mret (Some b0)
      else b' ← bitmap_init fuel phys_start (phys_size / PAGE_SIZE); mret (Some b')
  end.

(** * The bits a bitmap stands for

    [bitmap_repr b u m]: the bitmap [b] in the memory [m] has the bits [u]. *)

Definition bit (u : list bool) (i : Z) : bool :=
  bool_decide (0 ≤ i) && default false (u !! Z.to_nat i).

Record bitmap_repr (b : bitmap_t) (u : list bool) (m : mem) : Prop := {
  bm_size : size b = Z.of_nat (length u);
  bm_bound : size b < 2 ^ 63;
  bm_bits : ∀ i, 0 ≤ i < size b →
    ∃ v, m !! (bits b + i / 8) = Some v ∧ byte v ∧ Z.testbit v (i mod 8) = bit u i;
}.

(** No bit is set among the [n] bits from [i] on; bits past the end count as
    clear, as [bitmap_test] has them. *)
Definition free_run (u : list bool) (i n : Z) : Prop :=
  ∀ j, i ≤ j < i + n → bit u j = false.

Lemma bit_insert u i j v :
  0 ≤ i < Z.of_nat (length u) → 0 ≤ j →
  bit (<[Z.to_nat i := v]> u) j = if i =? j then v else bit u j.
Proof.
  intros Hi Hj. unfold bit. rewrite !bool_decide_true by done. simpl.
  destruct (Z.eqb_spec i j) as [->|Hne].
  - rewrite list_lookup_insert_eq by lia. done.
  - rewrite list_lookup_insert_ne by lia. done.
Qed.

Lemma bit_beyond u i : Z.of_nat (length u) ≤ i → bit u i = false.
Proof.
  intros Hi. unfold bit. rewrite lookup_ge_None_2 by lia. by rewrite andb_false_r.
Qed.

(** A byte whose bit [idx mod 8] is changed to [nb]. *)
Lemma bitmap_repr_update b u m idx v v' nb :
  bitmap_repr b u m → 0 ≤ idx < size b → m !! (bits b + idx / 8) = Some v → byte v' →
  (∀ j, 0 ≤ j < 8 → Z.testbit v' j = if j =? idx mod 8 then nb else Z.testbit v j) →
  bitmap_repr b (<[Z.to_nat idx := nb]> u) (<[bits b + idx / 8 := v']> m).
Proof.
  intros [Hs Hb Hbits] Hidx Hv Hv' Ht. constructor; [by rewrite length_insert|done|].
  intros i Hi. rewrite bit_insert by lia. destruct (Hbits i Hi) as (w & Hw & Hbw & Htw).
  pose proof (Z.mod_pos_bound i 8 ltac:(lia)).
  destruct (decide (idx / 8 = i / 8)) as [Heq|Hne].
  - exists v'. rewrite Heq, lookup_insert_eq in *. split_and!; [done..|].
    simplify_eq. rewrite Ht by done.
    destruct (Z.eqb_spec (i mod 8) (idx mod 8)); destruct (Z.eqb_spec idx i);
      try done; exfalso; Z.div_mod_to_equations; lia.
  - exists w. rewrite lookup_insert_ne by lia. split_and!; [done..|].
    rewrite Htw. destruct (Z.eqb_spec idx i); [subst; done|done].
Qed.

Lemma testbit_u8 x j : 0 ≤ j < 8 → Z.testbit (u8 x) j = Z.testbit x j.
Proof. intros Hj. unfold u8. apply Z.mod_pow2_bits_low. lia. Qed.

Lemma bitmap_set_ok b u m i :
  bitmap_repr b u m → 0 ≤ i →
  wp (bitmap_set b i) (λ _ m', bitmap_repr b (<[Z.to_nat i := true]> u) m' ∧
        ∀ a, a ≠ bits b + i / 8 → m' !! a = m !! a) m.
Proof.
  intros Hr Hi. unfold bitmap_set. destruct (Z.ltb_spec i (size b)).
  - destruct (bm_bits _ _ _ Hr i) as (v & Hv & Hbv & Hbit); [lia|].
    wp_step. eapply wp_load8; [done|]. eapply wp_store8; [eauto|].
    split; [|intros; by rewrite lookup_insert_ne by done].
    eapply bitmap_repr_update; [done|lia|done|apply u8_byte|].
    intros j Hj. rewrite testbit_u8 by done.
    pose proof (Z.mod_pos_bound i 8 ltac:(lia)).
    rewrite Z.lor_spec, testbit_1_shiftl by lia.
    destruct (Z.eqb_spec j (i mod 8)); [apply orb_true_r|apply orb_false_r].
  - wp_step. split; [|done]. rewrite list_insert_ge; [done|].
    destruct Hr. lia.
Qed.

Lemma bitmap_clear_ok b u m i :
  bitmap_repr b u m → 0 ≤ i →
  wp (bitmap_clear b i) (λ _ m', bitmap_repr b (<[Z.to_nat i := false]> u) m' ∧
        ∀ a, a ≠ bits b + i / 8 → m' !! a = m !! a) m.
Proof.
  intros Hr Hi. unfold bitmap_clear. destruct (Z.ltb_spec i (size b)).
  - destruct (bm_bits _ _ _ Hr i) as (v & Hv & Hbv & Hbit); [lia|].
    wp_step. eapply wp_load8; [done|]. eapply wp_store8; [eauto|].
    split; [|intros; by rewrite lookup_insert_ne by done].
    eapply bitmap_repr_update; [done|lia|done|apply u8_byte|].
    intros j Hj. rewrite testbit_u8 by done.
    pose proof (Z.mod_pos_bound i 8 ltac:(lia)).
    rewrite Z.land_spec, Z.lnot_spec, testbit_1_shiftl by lia.
    destruct (Z.eqb_spec j (i mod 8)); [apply andb_false_r|apply andb_true_r].
  - wp_step. split; [|done]. rewrite list_insert_ge; [done|].
    destruct Hr. lia.
Qed.

Lemma bitmap_test_ok b u m i (Q : Z → mem → Prop) :
  bitmap_repr b u m → 0 ≤ i → Q (of_bool (bit u i)) m → wp (bitmap_test b i) Q m.
Proof.
  intros Hr Hi HQ. unfold bitmap_test. destruct (Z.ltb_spec i (size b)).
  - destruct (bm_bits _ _ _ Hr i) as (v & Hv & Hbv & Hbit); [lia|].
    wp_step. eapply wp_load8; [done|]. wp_step.
    rewrite land_bit_test, Hbit by (apply Z.mod_pos_bound; lia). done.
  - wp_step. rewrite bit_beyond in HQ by (destruct Hr; lia). done.
Qed.

Lemma find_first_loop_ok b u m fuel i :
  bitmap_repr b u m → 0 ≤ i ≤ size b → size b - i < Z.of_nat fuel →
  (∀ j, 0 ≤ j < i → bit u j = true) →
  wp (find_first_loop fuel b i)
     (λ r m', m' = m ∧ ((r = NOT_FOUND ∧ ∀ j, 0 ≤ j < size b → bit u j = true) ∨
        (0 ≤ r < size b ∧ bit u r = false ∧ ∀ j, 0 ≤ j < r → bit u j = true))) m.
Proof.
  intros Hr. revert i. induction fuel as [|k IH]; intros i Hi Hf Hall; [lia|].
  cbn [find_first_loop]. destruct (Z.ltb_spec i (size b)) as [Hlt|Hge].
  - wp_step. eapply bitmap_test_ok; [done|lia|]. rewrite truthy_of_bool.
    destruct (bit u i) eqn:Hb; [|wp_step; split; [done|right; split_and!; [lia..|done|done]]].
    unfold u64. rewrite Z.mod_small by (destruct Hr; lia). apply IH; [lia..|].
    intros j Hj. destruct (decide (j = i)) as [->|]; [done|apply Hall; lia].
  - wp_step. split; [done|]. left. split; [done|]. intros j Hj. apply Hall. lia.
Qed.

Lemma bitmap_find_first_free_ok b u m fuel :
  bitmap_repr b u m → size b < Z.of_nat fuel →
  wp (bitmap_find_first_free fuel b)
     (λ r m', m' = m ∧ ((r = NOT_FOUND ∧ ∀ j, 0 ≤ j < size b → bit u j = true) ∨
        (0 ≤ r < size b ∧ bit u r = false ∧ ∀ j, 0 ≤ j < r → bit u j = true))) m.
Proof.
  intros Hr Hf. apply find_first_loop_ok; [done| |lia|intros; lia].
  destruct Hr. lia.
Qed.

Lemma contiguous_inner_ok b u m fuel count i j :
  bitmap_repr b u m → 0 ≤ i → 0 ≤ j ≤ count → i + count < 2 ^ 64 →
  count - j < Z.of_nat fuel → free_run u i j →
  wp (contiguous_inner fuel b count i j)
     (λ r m', m' = m ∧ 0 ≤ r ≤ count ∧ (r = count ↔ free_run u i count)) m.
Proof.
  intros Hr Hi. revert j. induction fuel as [|k IH]; intros j Hj Hic Hf Hrun; [lia|].
  cbn [contiguous_inner]. destruct (Z.ltb_spec j count).
  - unfold u64. rewrite !(Z.mod_small _ (2 ^ 64)) by lia.
    wp_step. eapply bitmap_test_ok; [done|lia|]. rewrite truthy_of_bool.
    destruct (bit u (i + j)) eqn:Hb.
    + wp_step. split_and!; [done|lia..|]. split; [lia|].
      intros Hfr. rewrite Hfr in Hb by lia. done.
    + apply IH; [lia..|]. intros x Hx.
      destruct (decide (x = i + j)) as [->|]; [done|apply Hrun; lia].
  - wp_step. assert (j = count) as -> by lia. split_and!; [done|lia..|done].
Qed.

Lemma free_run_at_end u n : free_run u (Z.of_nat (length u)) n.
Proof. intros j Hj. apply bit_beyond. lia. Qed.

(** The search stops at the first free run that starts within the limit the
    loop computes; there is always one at the end of the bitmap. *)
Lemma contiguous_outer_ok b u m fuel count i :
  bitmap_repr b u m → 0 ≤ count → size b + count < 2 ^ 64 → 0 ≤ i →
  (size b + 1 - i) + count < Z.of_nat fuel →
  (∀ x, 0 ≤ x < i → ¬ free_run u x count) →
  wp (contiguous_outer fuel b count i)
     (λ r m', m' = m ∧
       ((r = NOT_FOUND ∧ u64 (size b - count) < size b ∧
         ∀ x, 0 ≤ x ≤ u64 (size b - count) → ¬ free_run u x count) ∨
        (0 ≤ r ≤ size b ∧ r ≤ u64 (size b - count) ∧ free_run u r count ∧
         ∀ x, 0 ≤ x < r → ¬ free_run u x count))) m.
Proof.
  intros Hr Hc Hsc. revert i. pose proof (bm_size _ _ _ Hr) as Hs.
  pose proof (bm_bound _ _ _ Hr) as Hb.
  induction fuel as [|k IH]; intros i Hi Hf Hno.
  { destruct (decide (i ≤ size b)); [lia|]. exfalso.
    apply (Hno (size b)); [lia|]. rewrite Hs. apply free_run_at_end. }
  assert (i ≤ size b) as Hile.
  { destruct (decide (i ≤ size b)); [done|]. exfalso.
    apply (Hno (size b)); [lia|]. rewrite Hs. apply free_run_at_end. }
  cbn [contiguous_outer]. destruct (Z.leb_spec i (u64 (size b - count))).
  - wp_step. eapply wp_mono.
    { apply (contiguous_inner_ok b u m (S k) count i 0); [done|lia|lia|lia|lia|]. intros j Hj. lia. }
    intros j ? (-> & Hj & Hiff). destruct (Z.eqb_spec j count) as [->|Hne].
    + wp_step. split; [done|]. right. split_and!; [lia..|by apply Hiff|done].
    + unfold u64 at 1. rewrite Z.mod_small by lia. apply IH; [lia..|].
      intros x Hx. destruct (decide (x = i)) as [->|]; [tauto|apply Hno; lia].
  - wp_step. split; [done|]. left. split_and!; [done|lia|]. intros x Hx. apply Hno. lia.
Qed.

Lemma find_contiguous_lowest b u m fuel count :
  bitmap_repr b u m → 0 ≤ count ≤ size b →
  size b + 1 + count < Z.of_nat fuel →
  wp (bitmap_find_contiguous_free fuel b count)
     (λ r m', m' = m ∧
       ((r = NOT_FOUND ∧ ∀ x, 0 ≤ x → x + count ≤ size b → ¬ free_run u x count) ∨
        (0 ≤ r ∧ r + count ≤ size b ∧ free_run u r count ∧
         ∀ x, 0 ≤ x < r → ¬ free_run u x count))) m.
Proof.
  intros Hr Hc Hf. pose proof (bm_bound _ _ _ Hr).
  eapply wp_mono; [apply (contiguous_outer_ok b u m fuel count 0); [done|lia..|intros; lia]|].
  unfold u64. rewrite Z.mod_small by lia.
  intros r m' [-> [(-> & _ & Hno)|(? & ? & ? & ?)]]; (split; [done|]); [left|right].
  - split; [done|]. intros x ??. apply Hno. lia.
  - split_and!; [lia..|done|done].
Qed.

(** The loop bound [size - count] wraps around, and the bits past the end count as
    free. *)
Lemma bitmap_find_contiguous_free_overrun b u m fuel count :
  bitmap_repr b u m → size b < count → size b + count < 2 ^ 64 →
  size b + 1 + count < Z.of_nat fuel →
  wp (bitmap_find_contiguous_free fuel b count)
     (λ r m', m' = m ∧ 0 ≤ r ≤ size b ∧ size b < r + count ∧ r ≠ NOT_FOUND ∧
        free_run u r count ∧ ∀ x, 0 ≤ x < r → ¬ free_run u x count) m.
Proof.
  intros Hr Hc Hsc Hf. pose proof (bm_bound _ _ _ Hr). pose proof (bm_size _ _ _ Hr).
  eapply wp_mono; [apply (contiguous_outer_ok b u m fuel count 0); [done|lia..|intros; lia]|].
  assert (size b < u64 (size b - count)) as Hlim.
  { unfold u64. rewrite <- (Z.mod_add _ 1) by lia. rewrite Z.mod_small; lia. }
  intros r m' [-> [(-> & Hlt & _)|(? & ? & ? & ?)]]; [lia|].
  assert (NOT_FOUND = 2 ^ 64 - 1) as -> by reflexivity. split_and!; [done|lia..|done|done].
Qed.

(** C5: [bitmap_find_contiguous_free], asked for no more bits than there are, ends
    and finds the lowest free run of [count] bits that lies within the bitmap; it
    answers -1 exactly when there is none.  Asked for more, it does not answer -1: it
    returns the lowest index from which the bits count as free, as those past the end
    do, a run that leaves the bitmap.  The memory is unchanged. *)
Theorem bitmap_find_contiguous_free_correct b u m fuel count :
  bitmap_repr b u m → 0 ≤ count → size b + count < 2 ^ 64 → size b + 1 + count < Z.of_nat fuel →
  wp (bitmap_find_contiguous_free fuel b count)
     (λ r m', m' = m ∧
       if decide (count ≤ size b) then
         (r = NOT_FOUND ∧ ∀ x, 0 ≤ x → x + count ≤ size b → ¬ free_run u x count) ∨
         (0 ≤ r ∧ r + count ≤ size b ∧ free_run u r count ∧ ∀ x, 0 ≤ x < r → ¬ free_run u x count)
       else 0 ≤ r ≤ size b ∧ size b < r + count ∧ r ≠ NOT_FOUND ∧
         free_run u r count ∧ ∀ x, 0 ≤ x < r → ¬ free_run u x count) m.
Proof.
  intros Hr Hc Hs Hf. destruct (decide _).
  - by apply find_contiguous_lowest.
  - apply (bitmap_find_contiguous_free_overrun b u m fuel count Hr); lia.
Qed.

(** * The bitmap as an array of bits *)

Inductive bitmap_call :=
  | BSet (index : Z)
  | BClear (index : Z)
  | BTest (index : Z)
  | BFindFirst.

Definition exec_bitmap (fuel : nat) (b : bitmap_t) (c : bitmap_call) : St mem Z :=
  match c with
  | BSet i => bitmap_set b i;; mret 0
  | BClear i => bitmap_clear b i;; mret 0
  | BTest i => bitmap_test b i
  | BFindFirst => bitmap_find_first_free fuel b
  end.
Fixpoint exec_bitmap_calls (fuel : nat) (b : bitmap_t) (cs : list bitmap_call) :
    St mem (list Z) :=
  match cs with
  | [] => mret []
  | c :: cs' => r ← exec_bitmap fuel b c; rs ← exec_bitmap_calls fuel b cs'; mret (r :: rs)
  end.

(** The least index of a clear bit. *)
Fixpoint first_clear (u : list bool) : option nat :=
  match u with
  | [] => None
  | x :: u' => if x then S <$> first_clear u' else Some O
  end.

Definition bitmap_spec (c : bitmap_call) (u : list bool) : Z * list bool :=
  match c with
  | BSet i => (0, <[Z.to_nat i := true]> u)
  | BClear i => (0, <[Z.to_nat i := false]> u)
  | BTest i => (of_bool (bit u i), u)
  | BFindFirst => (from_option Z.of_nat NOT_FOUND (first_clear u), u)
  end.
Fixpoint bitmap_specs (cs : list bitmap_call) (u : list bool) : list Z * list bool :=
  match cs with
  | [] => ([], u)
  | c :: cs' => let (r, u1) := bitmap_spec c u in
                let (rs, u2) := bitmap_specs cs' u1 in (r :: rs, u2)
  end.

Definition bitmap_call_ok (c : bitmap_call) : Prop :=
  match c with BSet i | BClear i | BTest i => 0 ≤ i | BFindFirst => True end.

(** The bytes of the bitmap's buffer. *)
Definition in_bitmap (b : bitmap_t) (a : Z) : Prop :=
  ∃ i, 0 ≤ i < size b ∧ a = bits b + i / 8.

Lemma first_clear_spec u :
  match first_clear u with
  | Some n => (n < length u)%nat ∧ bit u (Z.of_nat n) = false ∧
              ∀ j, 0 ≤ j < Z.of_nat n → bit u j = true
  | None => ∀ j, 0 ≤ j < Z.of_nat (length u) → bit u j = true
  end.
Proof.
  assert (Hcons : ∀ (x : bool) u j, 0 < j → bit (x :: u) j = bit u (j - 1)).
  { intros x v j Hj. unfold bit. rewrite !bool_decide_true by lia. simpl.
    replace (Z.to_nat j) with (S (Z.to_nat (j - 1))) by lia. done. }
  induction u as [|x u IH]; simpl; [intros; lia|]. destruct x; simpl.
  - destruct (first_clear u) as [n|]; simpl.
    + destruct IH as (Hn & Hb & Hall). split_and!; [lia| |].
      * rewrite Hcons by lia. replace (Z.of_nat (S n) - 1) with (Z.of_nat n) by lia. done.
      * intros j Hj. destruct (decide (j = 0)) as [->|]; [done|].
        rewrite Hcons by lia. apply Hall. lia.
    + intros j Hj. destruct (decide (j = 0)) as [->|]; [done|].
      rewrite Hcons by lia. apply IH. lia.
  - split_and!; [lia|done|intros; lia].
Qed.

Lemma first_clear_unique u r :
  (r = NOT_FOUND ∧ ∀ j, 0 ≤ j < Z.of_nat (length u) → bit u j = true) ∨
  (0 ≤ r < Z.of_nat (length u) ∧ bit u r = false ∧ ∀ j, 0 ≤ j < r → bit u j = true) →
  r = from_option Z.of_nat NOT_FOUND (first_clear u).
Proof.
  intros H. pose proof (first_clear_spec u) as Hs. destruct (first_clear u) as [n|]; simpl.
  - destruct Hs as (Hn & Hb & Hall). destruct H as [[-> H]|(Hr & Hbr & H)].
    + rewrite H in Hb by lia. done.
    + destruct (Z.lt_trichotomy r (Z.of_nat n)) as [Hlt|[|Hlt]]; [|done|].
      * rewrite Hall in Hbr by lia. done.
      * rewrite H in Hb by lia. done.
  - destruct H as [[-> _]|(Hr & Hbr & _)]; [done|]. rewrite Hs in Hbr by lia. done.
Qed.

Lemma exec_bitmap_refines fuel b c u m :
  bitmap_repr b u m → size b < Z.of_nat fuel → bitmap_call_ok c →
  wp (exec_bitmap fuel b c)
     (λ r m', (r, snd (bitmap_spec c u)) = bitmap_spec c u ∧
        bitmap_repr b (snd (bitmap_spec c u)) m' ∧
        ∀ a, ¬ in_bitmap b a → m' !! a = m !! a) m.
Proof.
  intros Hr Hf Hok. destruct c as [i|i|i|]; simpl in *; wp_step.
  - destruct (decide (i < size b)) as [Hlt|Hge].
    + eapply wp_mono; [by apply bitmap_set_ok|]. intros _ m' [? Hm]. wp_step.
      split_and!; [done..|]. intros a Ha. apply Hm. intros ->. apply Ha. exists i. done.
    + unfold bitmap_set. rewrite (proj2 (Z.ltb_ge _ _)) by lia. wp_step.
      split_and!; [done| |done]. rewrite list_insert_ge by (destruct Hr; lia). done.
  - destruct (decide (i < size b)) as [Hlt|Hge].
    + eapply wp_mono; [by apply bitmap_clear_ok|]. intros _ m' [? Hm]. wp_step.
      split_and!; [done..|]. intros a Ha. apply Hm. intros ->. apply Ha. exists i. done.
    + unfold bitmap_clear. rewrite (proj2 (Z.ltb_ge _ _)) by lia. wp_step.
      split_and!; [done| |done]. rewrite list_insert_ge by (destruct Hr; lia). done.
  - eapply bitmap_test_ok; done.
  - eapply wp_mono; [by eapply bitmap_find_first_free_ok|].
    intros r m' [-> H]. split_and!; [|done..].
    rewrite (bm_size _ _ _ Hr) in H. by rewrite (first_clear_unique _ _ H).
Qed.

(** C4: the bitmap of mem/bitmap.c is an array of bits.  For any sequence of
    set, clear, test and find-first calls, with indices inside or outside the
    bitmap, the results are those of the same calls on the array (an index past
    the end changes nothing and tests as 0, no free bit is answered with -1),
    the calls return, and no byte outside the buffer changes. *)
Theorem bitmap_refinement fuel b cs u m :
  bitmap_repr b u m → size b < Z.of_nat fuel → Forall bitmap_call_ok cs →
  wp (exec_bitmap_calls fuel b cs)
     (λ rs m', rs = fst (bitmap_specs cs u) ∧ bitmap_repr b (snd (bitmap_specs cs u)) m' ∧
        ∀ a, ¬ in_bitmap b a → m' !! a = m !! a) m.
Proof.
  intros Hr Hf Hok. revert u m Hr.
  induction Hok as [|c cs Hc Hcs IH]; intros u m Hr; simpl; [by wp_step|].
  wp_step. eapply wp_mono; [by eapply exec_bitmap_refines|].
  intros r m1 (Heq & Hr1 & Hm1). wp_step. destruct (bitmap_spec c u) as [r0 u1]. simpl in *.
  eapply wp_mono; [by apply (IH u1)|]. intros rs m2 (-> & Hr2 & Hm2). wp_step.
  destruct (bitmap_specs cs u1) as [rs2 u2]. simpl in *. simplify_eq.
  split_and!; [done..|]. intros a Ha. by rewrite Hm2, Hm1.
Qed.

(** ** [bitmap_init] and [bitmap_create_from_memory] *)

Lemma bitmap_init_loop_ok fuel buffer n i (m : mem) :
  0 ≤ i ≤ n → n < 2 ^ 63 → n - i < Z.of_nat fuel → mapped m buffer n →
  (∀ j, 0 ≤ j < i → m !! (buffer + j) = Some 0) →
  wp (bitmap_init_loop fuel buffer n i)
     (λ _ m', (∀ j, 0 ≤ j < n → m' !! (buffer + j) = Some 0) ∧
        ∀ a, ¬ buffer ≤ a < buffer + n → m' !! a = m !! a) m.
Proof.
  revert i m. induction fuel as [|k IH]; intros i m Hi Hn Hf Hm Hz; [lia|].
  cbn [bitmap_init_loop]. destruct (Z.ltb_spec i n).
  - wp_step. eapply wp_store8; [apply Hm; lia|]. change (u8 0) with 0.
    unfold u64. rewrite Z.mod_small by lia. eapply wp_mono.
    { apply IH; [lia..| |]; [by apply mapped_insert|]. intros j Hj.
      destruct (decide (j = i)) as [->|]; [apply lookup_insert_eq|].
      rewrite lookup_insert_ne by lia. apply Hz. lia. }
    intros _ m' [Hz' Hout]. split; [done|]. intros a Ha. rewrite Hout by done.
    apply lookup_insert_ne. lia.
  - wp_step. assert (i = n) as -> by lia. done.
Qed.

Lemma bit_replicate n i : bit (replicate n false) i = false.
Proof.
  unfold bit. destruct (replicate n false !! Z.to_nat i) eqn:E; [|by rewrite andb_false_r].
  apply lookup_replicate in E as [-> _]. by rewrite andb_false_r.
Qed.

Lemma bitmap_init_ok fuel buffer sz (m : mem) :
  0 ≤ sz < 2 ^ 63 → (sz + 7) / 8 < Z.of_nat fuel → mapped m buffer ((sz + 7) / 8) →
  wp (bitmap_init fuel buffer sz)
     (λ b m', bits b = buffer ∧ size b = sz ∧
        bitmap_repr b (replicate (Z.to_nat sz) false) m' ∧
        ∀ a, ¬ buffer ≤ a < buffer + (sz + 7) / 8 → m' !! a = m !! a) m.
Proof.
  intros Hs Hf Hm. unfold bitmap_init. wp_step. unfold u64. rewrite Z.mod_small by lia.
  assert (0 ≤ (sz + 7) / 8 < 2 ^ 63) by (Z.div_mod_to_equations; lia).
  eapply wp_mono; [apply bitmap_init_loop_ok; [lia..|done|intros; lia]|].
  intros _ m' [Hz Hout]. wp_step. split_and!; [done..| |done].
  constructor; simpl; [rewrite length_replicate; lia|lia|].
  intros i Hi. exists 0. rewrite Hz by (Z.div_mod_to_equations; lia).
  rewrite bit_replicate, Z.bits_0. unfold byte. split_and!; [done|lia..|done].
Qed.

(** [bitmap_create_from_memory] leaves the bitmap alone when it is null or
    the region is empty or at address 0; otherwise it covers the region's pages,
    one bit each and all clear, with the buffer at the start of the region, and
    writes nothing else. *)
Lemma bitmap_create_from_memory_ok fuel b phys_start phys_size (m : mem) :
  0 ≤ phys_size < 2 ^ 63 → phys_size < Z.of_nat fuel →
  mapped m phys_start ((phys_size / PAGE_SIZE + 7) / 8) →
  wp (bitmap_create_from_memory fuel b phys_start phys_size)
     (λ b' m', if bool_decide (b = None ∨ phys_start = 0 ∨ phys_size = 0) then b' = b ∧ m' = m
        else ∃ bm, b' = Some bm ∧ bits bm = phys_start ∧ size bm = phys_size / PAGE_SIZE ∧
             bitmap_repr bm (replicate (Z.to_nat (phys_size / PAGE_SIZE)) false) m' ∧
             ∀ a, ¬ in_bitmap bm a → m' !! a = m !! a) m.
Proof.
  intros Hs Hf Hm. unfold bitmap_create_from_memory. destruct b as [b|].
  2:{ wp_step. by rewrite bool_decide_true by auto. }
  unfold truthy. destruct (Z.eqb_spec phys_start 0) as [->|Hp];
    [wp_step; by rewrite bool_decide_true by auto|].
  destruct (Z.eqb_spec phys_size 0) as [->|Hp'];
    [wp_step; by rewrite bool_decide_true by auto|].
  cbn [negb orb]. rewrite bool_decide_false by naive_solver. wp_step.
  unfold PAGE_SIZE in *. eapply wp_mono.
  { apply bitmap_init_ok; [| |done]; Z.div_mod_to_equations; lia. }
  intros bm m' (Hb & Hsz & Hr & Hout). wp_step. exists bm. split_and!; [done..|].
  intros a Ha. apply Hout. intros Hin. apply Ha. exists (8 * (a - phys_start)).
  rewrite Hb, Hsz. Z.div_mod_to_equations; lia.
Qed.

(** * Witnesses *)

(** Ten bits at the address 100, of which 0 and 9 are set. *)
Definition bitmap_example : bitmap_t := {| bits := 100; size := 10 |}.
Definition bits_example : list bool :=
  [true; false; false; false; false; false; false; false; false; true].
Definition memory_example : mem := <[100 := 1]> (<[101 := 2]> (<[102 := 77]> ∅)).

Lemma bitmap_example_repr : bitmap_repr bitmap_example bits_example memory_example.
Proof.
  constructor; [done|done|]. cbn [size bitmap_example]. intros i Hi.
  assert (i ∈ [0;1;2;3;4;5;6;7;8;9]) as Hin.
  { rewrite !elem_of_cons. lia. }
  rewrite !elem_of_cons in Hin.
  repeat destruct Hin as [->|Hin]; try by apply not_elem_of_nil in Hin.
  all: eexists; split_and!; [vm_compute; reflexivity|unfold byte; lia..|reflexivity].
Qed.

Definition calls_example : list bitmap_call := [BFindFirst; BSet 1; BFindFirst; BClear 9; BTest 9; BSet 10; BTest 12].

Lemma bitmap_refinement_witness :
  fst (bitmap_specs calls_example bits_example) = [1; 0; 2; 0; 0; 0; 0] ∧
  wp (exec_bitmap_calls 20 bitmap_example calls_example)
     (λ rs m', rs = fst (bitmap_specs calls_example bits_example) ∧
        bitmap_repr bitmap_example (snd (bitmap_specs calls_example bits_example)) m' ∧
        ∀ a, ¬ in_bitmap bitmap_example a → m' !! a = memory_example !! a) memory_example.
Proof.
  split; [reflexivity|]. apply bitmap_refinement; [apply bitmap_example_repr|reflexivity|].
  unfold calls_example. rewrite !Forall_cons. simpl. split_and!; try lia. by apply Forall_nil.
Defined.

Lemma bitmap_find_contiguous_free_correct_witness :
  bitmap_find_contiguous_free 20 bitmap_example 8 memory_example = Done (1, memory_example) ∧
  bitmap_find_contiguous_free 30 bitmap_example 11 memory_example = Done (10, memory_example) ∧
  wp (bitmap_find_contiguous_free 20 bitmap_example 8)
     (λ r m', m' = memory_example ∧
       if decide (8 ≤ size bitmap_example) then
         (r = NOT_FOUND ∧ ∀ x, 0 ≤ x → x + 8 ≤ size bitmap_example → ¬ free_run bits_example x 8) ∨
         (0 ≤ r ∧ r + 8 ≤ size bitmap_example ∧ free_run bits_example r 8 ∧
          ∀ x, 0 ≤ x < r → ¬ free_run bits_example x 8)
       else 0 ≤ r ≤ size bitmap_example ∧ size bitmap_example < r + 8 ∧ r ≠ NOT_FOUND ∧
         free_run bits_example r 8 ∧ ∀ x, 0 ≤ x < r → ¬ free_run bits_example x 8) memory_example.
Proof.
  split; [reflexivity|]. split; [reflexivity|].
  apply bitmap_find_contiguous_free_correct; [apply bitmap_example_repr|done|reflexivity|reflexivity].
Defined.

Lemma bitmap_create_example :
  wp (bitmap_create_from_memory 5000 (Some bitmap_example) 100 4096)
     (λ b' m', if bool_decide (Some bitmap_example = None ∨ 100 = 0 ∨ 4096 = 0)
        then b' = Some bitmap_example ∧ m' = memory_example
        else ∃ bm, b' = Some bm ∧ bits bm = 100 ∧ size bm = 4096 / PAGE_SIZE ∧
             bitmap_repr bm (replicate (Z.to_nat (4096 / PAGE_SIZE)) false) m' ∧
             ∀ a, ¬ in_bitmap bm a → m' !! a = memory_example !! a) memory_example.
Proof.
  apply bitmap_create_from_memory_ok; [lia|lia|].
  intros i Hi. change ((4096 / PAGE_SIZE + 7) / 8) with 1 in Hi.
  assert (i = 0) as -> by lia. eexists. reflexivity.
Defined.
