(* ===== verification/StringLib.v ===== *)
(** The C string and memory functions of [mem/string.c]. *)

From S2P Require Import Prelude ByteMem.

(** [char] is unsigned on AArch64, so a loaded byte is its own [char] value. *)

Fixpoint strlen_loop (fuel : nat) (buf len : Z) : St mem Z :=
  match fuel with
  | O => nofuel
  | S k => c ← load8 buf;
           if truthy c then strlen_loop k (buf + 1) (u64 (len + 1)) else mret len
  end.
Definition strlen (fuel : nat) (buf : Z) : St mem Z := strlen_loop fuel buf 0.

(** [while ( *p) ++p;] *)
Fixpoint skip_to_nul (fuel : nat) (p : Z) : St mem Z :=
  match fuel with
  | O => nofuel
  | S k => c ← load8 p; if truthy c then skip_to_nul k (p + 1) else mret p
  end.
(** [while (( *p++ = *src++) != 0);] *)
Fixpoint copy_to_nul (fuel : nat) (p src : Z) : St mem unit :=
  match fuel with
  | O => nofuel
  | S k => c ← load8 src; store8 p c;;
           if truthy c then copy_to_nul k (p + 1) (src + 1) else mret tt
  end.
Definition strcat (fuel : nat) (dest src : Z) : St mem Z :=
  p ← skip_to_nul fuel dest; copy_to_nul fuel p src;; mret dest.
Definition strcpy (fuel : nat) (dest src : Z) : St mem Z :=
  store8 dest 0;; strcat fuel dest src.

Fixpoint strncmp (fuel : nat) (a b n : Z) : St mem Z :=
  match fuel with
  | O => nofuel
  | S k =>
      if truthy n then
        x ← load8 a; y ← load8 b;
        if negb (x =? y) || (x =? 0) then mret (x - y)
        else strncmp k (a + 1) (b + 1) (u64 (n - 1))
      else mret 0
  end.
(** [include/aj_types.h]. *)
Definition SIZE_MAX : Z := 9223372036854775807.
Definition strcmp (fuel : nat) (a b : Z) : St mem Z := strncmp fuel a b SIZE_MAX.

Fixpoint strchr (fuel : nat) (s c : Z) : St mem Z :=
  match fuel with
  | O => nofuel
  | S k =>
      x ← load8 s;
      if x =? u8 c then mret s
      else if x =? 0 then mret NULL else strchr k (s + 1) c
  end.

Fixpoint memset_loop (fuel : nat) (a c n i : Z) : St mem unit :=
  match fuel with
  | O => nofuel
  | S k => if i <? n then store8 (a + i) c;; memset_loop k a c n (u64 (i + 1)) else mret tt
  end.
Definition memset (fuel : nat) (s c n : Z) : St mem Z := memset_loop fuel s c n 0;; mret s.

Fixpoint memcpy_loop (fuel : nat) (a b n i : Z) : St mem unit :=
  match fuel with
  | O => nofuel
  | S k =>
      if i <? n then v ← load8 (b + i); store8 (a + i) v;; memcpy_loop k a b n (u64 (i + 1))
      else mret tt
  end.
Definition memcpy (fuel : nat) (dest src n : Z) : St mem Z :=
  memcpy_loop fuel dest src n 0;; mret dest.

Fixpoint memcmp_loop (fuel : nat) (a b n ret : Z) : St mem Z :=
  match fuel with
  | O => nofuel
  | S k =>
      if truthy n then
        x ← load8 a; y ← load8 b;
        if truthy (x - y) then mret (x - y) else memcmp_loop k (a + 1) (b + 1) (u64 (n - 1)) (x - y)
      else mret ret
  end.
Definition memcmp (fuel : nat) (s1 s2 n : Z) : St mem Z := memcmp_loop fuel s1 s2 n 0.

(** [while (n--) *d++ = *s++;] *)
Fixpoint move_up (fuel : nat) (d s n : Z) : St mem unit :=
  match fuel with
  | O => nofuel
  | S k =>
      if truthy n then v ← load8 s; store8 d v;; move_up k (d + 1) (s + 1) (u64 (n - 1))
      else mret tt
  end.
(** [while (n--) *--d = *--s;] *)
Fixpoint move_down (fuel : nat) (d s n : Z) : St mem unit :=
  match fuel with
  | O => nofuel
  | S k =>
      if truthy n then v ← load8 (s - 1); store8 (d - 1) v;; move_down k (d - 1) (s - 1) (u64 (n - 1))
      else mret tt
  end.
Definition memmove (fuel : nat) (dest src n : Z) : St mem Z :=
  (if dest <=? src then move_up fuel dest src n
   else move_down fuel (dest + n) (src + n) n);; mret dest.

Fixpoint memchr (fuel : nat) (str c n : Z) : St mem Z :=
  match fuel with
  | O => nofuel
  | S k =>
      if truthy n then
        x ← load8 str;
        if x =? u8 c then mret str else memchr k (str + 1) c (u64 (n - 1))
      else mret NULL
  end.

(** The search loop of [strstr]; the fuel also bounds each [memcmp]. *)
Fixpoint strstr_loop (fuel : nat) (s1 s2 l1 l2 : Z) : St mem Z :=
  match fuel with
  | O => nofuel
  | S k =>
      if l2 <=? l1 then
        r ← memcmp fuel s1 s2 l2;
        if negb (truthy r) then mret s1 else strstr_loop k (s1 + 1) s2 (u64 (l1 - 1)) l2
      else mret NULL
  end.
Definition strstr (fuel : nat) (s1 s2 : Z) : St mem Z :=
  l2 ← strlen fuel s2;
  if negb (truthy l2) then mret s1
  else l1 ← strlen fuel s1; strstr_loop fuel s1 s2 l1 l2.

(** Character codes of [atol]. *)
Definition is_digit (c : Z) : bool := (48 <=? c) && (c <=? 57).
Fixpoint atol_blanks (fuel : nat) (s : Z) : St mem Z :=
  match fuel with
  | O => nofuel
  | S k => c ← load8 s; if (c =? 32) || (c =? 9) then atol_blanks k (s + 1) else mret s
  end.
Fixpoint atol_digits (fuel : nat) (s acc : Z) : St mem Z :=
  match fuel with
  | O => nofuel
  | S k =>
      c ← load8 s;
      if truthy c then
        if (c <? 48) || (57 <? c) then mret acc
        else atol_digits k (s + 1) (s64 (acc * 10 + (c - 48)))
      else mret acc
  end.
Definition atol (fuel : nat) (ptr : Z) : St mem Z :=
  s ← atol_blanks fuel ptr;
  c ← load8 s;
  if c =? 45 then acc ← atol_digits fuel (s + 1) 0; mret (s64 (- acc))
  else if c =? 43 then atol_digits fuel (s + 1) 0
  else atol_digits fuel s 0.

(** * C strings *)

(** A character that is not the terminator. *)
Definition nonzero (c : Z) : Prop := 0 < c < 256.
(** [cstr m a s]: a C string with the characters [s] is stored at [a]. *)
Definition cstr (m : mem) (a : Z) (s : list Z) : Prop :=
  bytes m a (s ++ [0]) ∧ Forall nonzero s.

(** The strict lexicographic order on character sequences. *)
Inductive lex_lt : list Z → list Z → Prop :=
  | lex_nil y t : lex_lt [] (y :: t)
  | lex_head x y s t : x < y → lex_lt (x :: s) (y :: t)
  | lex_tail x s t : lex_lt s t → lex_lt (x :: s) (x :: t).

(** What a comparison of [s] and [t] may return. *)
Definition compares (r : Z) (s t : list Z) : Prop :=
  (r = 0 ↔ s = t) ∧ (r < 0 ↔ lex_lt s t) ∧ (0 < r ↔ lex_lt t s).

(** The decimal value of the digits at the front of [s]. *)
Fixpoint decimal (acc : Z) (s : list Z) : Z :=
  match s with
  | [] => acc
  | c :: s' => if is_digit c then decimal (acc * 10 + (c - 48)) s' else acc
  end.

Lemma cstr_nil m a : cstr m a [] ↔ m !! a = Some 0.
Proof. unfold cstr. simpl. naive_solver. Qed.
Lemma cstr_cons m a c s :
  cstr m a (c :: s) ↔ m !! a = Some c ∧ nonzero c ∧ cstr m (a + 1) s.
Proof. unfold cstr. rewrite Forall_cons. simpl. naive_solver. Qed.

Lemma cstr_ext m m' a s :
  (∀ i, a ≤ i ≤ a + Z.of_nat (length s) → m' !! i = m !! i) → cstr m a s → cstr m' a s.
Proof.
  intros Heq [Hb Hf]. split; [|done]. eapply bytes_ext; [|done].
  intros i Hi. rewrite length_app in Hi. simpl in Hi. apply Heq. lia.
Qed.

Lemma nonzero_byte c : nonzero c → byte c.
Proof. unfold nonzero, byte. lia. Qed.
Lemma nonzero_truthy c : nonzero c → truthy c = true.
Proof. intros H. apply truthy_true. unfold nonzero in H. lia. Qed.

Lemma strlen_loop_ok fuel m a s len :
  cstr m a s → (length s < fuel)%nat → 0 ≤ len → len + Z.of_nat (length s) < 2 ^ 64 →
  wp (strlen_loop fuel a len) (λ r m', r = len + Z.of_nat (length s) ∧ m' = m) m.
Proof.
  revert a s len. induction fuel as [|k IH]; intros a s len Hs Hf Hl Hb; [lia|].
  cbn [strlen_loop]. wp_step. destruct s as [|c s].
  - apply cstr_nil in Hs. eapply wp_load8; [done|]. simpl. wp_step. split; [lia|done].
  - apply cstr_cons in Hs as (Hc & Hn & Hs). cbn [length] in *.
    eapply wp_load8; [done|]. rewrite nonzero_truthy, u64_small by (done || lia).
    eapply wp_mono; [apply IH; [done|lia..]|]. intros r m' [-> ->]. split; [lia|done].
Qed.

Lemma strlen_ok fuel m a s :
  cstr m a s → (length s < fuel)%nat → Z.of_nat (length s) < 2 ^ 64 →
  wp (strlen fuel a) (λ r m', r = Z.of_nat (length s) ∧ m' = m) m.
Proof. intros. apply (strlen_loop_ok fuel m a s 0); [done|lia..]. Qed.

Lemma skip_to_nul_ok fuel m a s :
  cstr m a s → (length s < fuel)%nat →
  wp (skip_to_nul fuel a) (λ r m', r = a + Z.of_nat (length s) ∧ m' = m) m.
Proof.
  revert a s. induction fuel as [|k IH]; intros a s Hs Hf; [lia|].
  cbn [skip_to_nul]. wp_step. destruct s as [|c s].
  - apply cstr_nil in Hs. eapply wp_load8; [done|]. simpl. wp_step. split; [lia|done].
  - apply cstr_cons in Hs as (Hc & Hn & Hs). cbn [length] in *.
    eapply wp_load8; [done|]. rewrite nonzero_truthy by done.
    eapply wp_mono; [apply IH; [done|lia]|]. intros r m' [-> ->]. split; [lia|done].
Qed.

(** The copy loop, when the source does not overlap what is written. *)
Definition disjoint (a n b k : Z) : Prop := a + n ≤ b ∨ b + k ≤ a.

Lemma copy_to_nul_ok fuel m p a s :
  cstr m a s → (length s < fuel)%nat → mapped m p (Z.of_nat (length s) + 1) →
  disjoint p (Z.of_nat (length s) + 1) a (Z.of_nat (length s) + 1) →
  wp (copy_to_nul fuel p a) (λ _ m', m' = write_bytes m p (s ++ [0])) m.
Proof.
  unfold disjoint. revert m p a s. induction fuel as [|k IH]; intros m p a s Hs Hf Hm Hd; [lia|].
  assert (is_Some (m !! p)) by (replace p with (p + 0) by lia; apply Hm; lia).
  cbn [copy_to_nul]. wp_step. destruct s as [|c s].
  - apply cstr_nil in Hs. eapply wp_load8; [done|]. wp_step. eapply wp_store8; [done|]. by wp_step.
  - apply cstr_cons in Hs as (Hc & Hn & Hs). cbn [length app write_bytes] in *.
    eapply wp_load8; [done|]. wp_step. eapply wp_store8; [done|].
    rewrite nonzero_truthy, u8_small by auto using nonzero_byte.
    apply IH; [|lia| |lia].
    + eapply cstr_ext; [|done]. intros i Hi. apply lookup_insert_ne. lia.
    + apply mapped_insert. eapply mapped_le; [apply (mapped_tail _ _ _ 1 Hm); lia|lia].
Qed.

Lemma strcat_ok fuel m d a s t :
  cstr m d s → cstr m a t → (length s < fuel)%nat → (length t < fuel)%nat →
  mapped m (d + Z.of_nat (length s)) (Z.of_nat (length t) + 1) →
  disjoint (d + Z.of_nat (length s)) (Z.of_nat (length t) + 1) a (Z.of_nat (length t) + 1) →
  wp (strcat fuel d a)
     (λ r m', r = d ∧ m' = write_bytes m (d + Z.of_nat (length s)) (t ++ [0])) m.
Proof.
  intros Hs Ht Hfs Hft Hm Hd. unfold strcat. wp_step.
  eapply wp_mono; [by apply (skip_to_nul_ok _ _ _ s)|]. intros p ? [-> ->]. wp_step.
  eapply wp_mono; [by apply (copy_to_nul_ok _ _ _ _ t)|]. intros _ ? ->. by wp_step.
Qed.

Lemma write_bytes_cstr m a s : Forall nonzero s → cstr (write_bytes m a (s ++ [0])) a s.
Proof. intros Hs. split; [apply bytes_write_bytes|done]. Qed.

(** The characters in place are those of the whole string. *)
Lemma write_bytes_append m a s bs :
  bytes m a s → write_bytes m (a + Z.of_nat (length s)) bs = write_bytes m a (s ++ bs).
Proof.
  intros Hs. rewrite write_bytes_app. f_equal. apply (write_bytes_unique _ _ _ _ Hs). done.
Qed.

(** C8: [strcpy] and [strcat] on a source that does not overlap the bytes they
    write return the destination, which then holds the copied string (after the
    one that was there, for [strcat]); they write exactly its characters and
    its terminator. *)
Theorem strcpy_strcat_correct fuel m d a (s t : list Z) :
  cstr m a t → (length s < fuel)%nat → (length t < fuel)%nat →
  mapped m d (Z.of_nat (length s) + Z.of_nat (length t) + 1) →
  disjoint d (Z.of_nat (length s) + Z.of_nat (length t) + 1) a (Z.of_nat (length t) + 1) →
  wp (strcpy fuel d a)
     (λ r m', r = d ∧ m' = write_bytes m d (t ++ [0]) ∧ cstr m' d t) m ∧
  (cstr m d s → wp (strcat fuel d a)
     (λ r m', r = d ∧ m' = write_bytes m d (s ++ t ++ [0]) ∧ cstr m' d (s ++ t)) m).
Proof.
  unfold disjoint. intros Ht Hfs Hft Hm Hd. split; [|intros Hs].
  - unfold strcpy. wp_step.
    eapply wp_store8; [replace d with (d + 0) by lia; apply Hm; lia|]. change (u8 0) with 0.
    eapply wp_mono.
    { apply (strcat_ok _ _ _ _ [] t); [by apply cstr_nil, lookup_insert_eq| |simpl; lia|done|..].
      - eapply cstr_ext; [|done]. intros i Hi. apply lookup_insert_ne. lia.
      - apply mapped_insert. cbn [length]. rewrite Z.add_0_r. eapply mapped_le; [done|lia].
      - unfold disjoint. simpl. lia. }
    intros r m' [-> ->]. cbn [length]. rewrite Z.add_0_r. split_and!; [done| |].
    + symmetry. apply write_bytes_unique; [apply bytes_write_bytes|].
      intros i Hi. rewrite lookup_write_bytes_ne; [|done].
      symmetry. apply lookup_insert_ne. rewrite length_app in Hi. simpl in Hi. lia.
    + apply write_bytes_cstr, Ht.
  - eapply wp_mono.
    { apply (strcat_ok _ _ _ _ s t Hs Ht Hfs Hft).
      - eapply mapped_le; [apply (mapped_tail _ _ _ _ Hm); lia|lia].
      - unfold disjoint. lia. }
    intros r m' [-> ->]. rewrite write_bytes_append by apply (bytes_app _ _ s [0]), Hs.
    split_and!; [done..|]. rewrite app_assoc. apply write_bytes_cstr, Forall_app.
    split; [apply Hs|apply Ht].
Qed.

(** ** Comparisons *)

Lemma lex_lt_irrefl s : ¬ lex_lt s s.
Proof. induction s; inversion 1; lia || done. Qed.

Lemma compares_refl s : compares 0 s s.
Proof. pose proof (lex_lt_irrefl s). unfold compares. split_and!; [tauto|split; [lia|tauto]..]. Qed.

Lemma compares_head x y s t : x ≠ y → compares (x - y) (x :: s) (y :: t).
Proof.
  intros Hne. unfold compares. split_and!; split.
  - lia.
  - congruence.
  - intros. apply lex_head. lia.
  - inversion 1; lia || congruence.
  - intros. apply lex_head. lia.
  - inversion 1; lia || congruence.
Qed.

Lemma compares_cons r x s t : compares r s t → compares r (x :: s) (x :: t).
Proof.
  intros (H1 & H2 & H3). unfold compares. split_and!.
  - rewrite H1. naive_solver.
  - rewrite H2. split; [apply lex_tail|inversion 1; [lia|done]].
  - rewrite H3. split; [apply lex_tail|inversion 1; [lia|done]].
Qed.

Lemma compares_nil_l y t : 0 < y → compares (0 - y) [] (y :: t).
Proof.
  intros Hy. unfold compares. split_and!; (split; [first [lia|intros; apply lex_nil]|]).
  - done.
  - intros; lia.
  - inversion 1.
Qed.
Lemma compares_nil_r x s : 0 < x → compares (x - 0) (x :: s) [].
Proof.
  intros Hx. unfold compares. split_and!; (split; [first [lia|intros; apply lex_nil]|]).
  - done.
  - inversion 1.
  - intros; lia.
Qed.

Lemma strncmp_ok fuel m a b n s t :
  cstr m a s → cstr m b t → (length s < fuel)%nat → Z.of_nat n < 2 ^ 64 →
  wp (strncmp fuel a b (Z.of_nat n)) (λ r m', m' = m ∧ compares r (take n s) (take n t)) m.
Proof.
  revert a b n s t. induction fuel as [|k IH]; intros a b n s t Hs Ht Hf Hn; [lia|].
  cbn [strncmp]. destruct n as [|n].
  { simpl. wp_step. split; [done|apply compares_refl]. }
  rewrite truthy_true by lia. wp_step.
  destruct s as [|x s]; [apply cstr_nil in Hs|apply cstr_cons in Hs as (Hx & Hnx & Hs)];
  (destruct t as [|y t]; [apply cstr_nil in Ht|apply cstr_cons in Ht as (Hy & Hny & Ht)]);
  unfold nonzero in *; (eapply wp_load8; [done|]; wp_step; eapply wp_load8; [done|]).
  - simpl. wp_step. split; [done|apply compares_refl].
  - rewrite Z.eqb_refl, orb_true_r. wp_step. split; [done|]. apply compares_nil_l. lia.
  - rewrite (proj2 (Z.eqb_neq x 0)) by lia. simpl. wp_step.
    split; [done|]. apply compares_nil_r. lia.
  - rewrite (proj2 (Z.eqb_neq x 0)), orb_false_r by lia. destruct (Z.eqb_spec x y) as [->|Hne].
    + cbn [negb]. replace (Z.of_nat (S n) - 1) with (Z.of_nat n) by lia.
      rewrite u64_small by lia. cbn [length] in Hf.
      eapply wp_mono; [apply IH; [done..|lia|lia]|]. intros r m' [-> Hr].
      split; [done|]. by apply compares_cons.
    + cbn [negb take]. wp_step. split; [done|]. by apply compares_head.
Qed.

Lemma memcmp_loop_ok fuel m a b s t :
  bytes m a s → bytes m b t → length s = length t → (length s < fuel)%nat →
  Z.of_nat (length s) < 2 ^ 64 →
  wp (memcmp_loop fuel a b (Z.of_nat (length s)) 0) (λ r m', m' = m ∧ compares r s t) m.
Proof.
  revert a b s t. induction fuel as [|k IH]; intros a b s t Hs Ht Hl Hf Hn; [lia|].
  cbn [memcmp_loop]. destruct s as [|x s], t as [|y t]; try done.
  { simpl. wp_step. split; [done|apply compares_refl]. }
  cbn [bytes length] in *. destruct Hs as [Hx Hs], Ht as [Hy Ht].
  rewrite truthy_true by lia. wp_step. eapply wp_load8; [done|]. wp_step.
  eapply wp_load8; [done|]. destruct (decide (x = y)) as [->|Hne].
  - rewrite Z.sub_diag. cbn [truthy Z.eqb negb].
    replace (Z.of_nat (S (length s)) - 1) with (Z.of_nat (length s)) by lia.
    rewrite u64_small by lia. eapply wp_mono; [apply (IH _ _ s t); done || lia|].
    intros r m' [-> Hr]. split; [done|]. by apply compares_cons.
  - rewrite truthy_true by lia. wp_step. split; [done|]. by apply compares_head.
Qed.

(** C9: the comparison functions compute the lexicographic order.  The sign of
    [strcmp] is that of the two strings, the sign of [strncmp] that of their
    first [n] characters, the sign of [memcmp] that of the [n] bytes; they are 0
    exactly on equality and write nothing. *)
Theorem comparisons_correct fuel m a b s t :
  (length s < fuel)%nat →
  (cstr m a s → cstr m b t →
     (∀ n, Z.of_nat n < 2 ^ 64 →
        wp (strncmp fuel a b (Z.of_nat n)) (λ r m', m' = m ∧ compares r (take n s) (take n t)) m) ∧
     (Z.of_nat (length s) ≤ SIZE_MAX → Z.of_nat (length t) ≤ SIZE_MAX →
        wp (strcmp fuel a b) (λ r m', m' = m ∧ compares r s t) m)) ∧
  (bytes m a s → bytes m b t → length s = length t → Z.of_nat (length s) < 2 ^ 64 →
     wp (memcmp fuel a b (Z.of_nat (length s))) (λ r m', m' = m ∧ compares r s t) m).
Proof.
  intros Hf. split.
  - intros Hs Ht. split; [intros n Hn; by apply strncmp_ok|].
    intros Hls Hlt. unfold strcmp. rewrite <- (Z2Nat.id SIZE_MAX) by (unfold SIZE_MAX; lia).
    eapply wp_mono; [apply (strncmp_ok _ _ _ _ _ s t); [done..|unfold SIZE_MAX; lia]|].
    intros r m' [-> Hr]. rewrite !take_ge in Hr by lia. done.
  - intros Hs Ht Hl Hn. by apply memcmp_loop_ok.
Qed.

(** ** Searches *)

(** The first index of [x] in [xs]. *)
Fixpoint index_of (x : Z) (xs : list Z) : option nat :=
  match xs with
  | [] => None
  | y :: xs' => if y =? x then Some O else S <$> index_of x xs'
  end.
(** A search's answer as an address. *)
Definition found_at (a : Z) (o : option nat) : Z :=
  from_option (λ i, a + Z.of_nat i) NULL o.

Lemma found_at_S a o : o ≠ None → found_at (a + 1) o = found_at a (S <$> o).
Proof. destruct o; [|done]. intros _. simpl. lia. Qed.
Lemma found_at_step a o : found_at a (S <$> o) = found_at (a + 1) o.
Proof. destruct o; simpl; lia. Qed.

Lemma strchr_ok fuel m a s c :
  cstr m a s → (length s < fuel)%nat →
  wp (strchr fuel a c) (λ r m', m' = m ∧ r = found_at a (index_of (u8 c) (s ++ [0]))) m.
Proof.
  revert a s. induction fuel as [|k IH]; intros a s Hs Hf; [lia|]. cbn [strchr]. wp_step.
  destruct s as [|x s].
  - apply cstr_nil in Hs. eapply wp_load8; [done|]. cbn [app index_of].
    destruct (Z.eqb_spec 0 (u8 c)); simpl; wp_step; split; done || lia.
  - apply cstr_cons in Hs as (Hx & Hn & Hs). eapply wp_load8; [done|]. cbn [app index_of length] in *.
    destruct (x =? u8 c) eqn:E; [wp_step; simpl; split; done || lia|].
    rewrite (proj2 (Z.eqb_neq x 0)) by (unfold nonzero in Hn; lia).
    eapply wp_mono; [apply IH; [done|lia]|]. intros r m' [-> ->]. by rewrite found_at_step.
Qed.

Lemma memchr_ok fuel m a bs c :
  bytes m a bs → (length bs < fuel)%nat → Z.of_nat (length bs) < 2 ^ 64 →
  wp (memchr fuel a c (Z.of_nat (length bs)))
     (λ r m', m' = m ∧ r = found_at a (index_of (u8 c) bs)) m.
Proof.
  revert a bs. induction fuel as [|k IH]; intros a bs Hb Hf Hn; [lia|]. cbn [memchr].
  destruct bs as [|x bs]; [by simpl; wp_step|].
  destruct Hb as [Hx Hb]. cbn [length index_of] in *. rewrite truthy_true by lia. wp_step.
  eapply wp_load8; [done|].
  destruct (x =? u8 c) eqn:E; [wp_step; simpl; split; done || lia|].
  replace (Z.of_nat (S (length bs)) - 1) with (Z.of_nat (length bs)) by lia.
  rewrite u64_small by lia. eapply wp_mono; [apply IH; [done|lia..]|].
  intros r m' [-> ->]. by rewrite found_at_step.
Qed.

(** The first index at which [t] occurs in [s]. *)
Fixpoint occurrence (t s : list Z) : option nat :=
  if bool_decide (t `prefix_of` s) then Some O
  else match s with [] => None | _ :: s' => S <$> occurrence t s' end.

Lemma occurrence_short t s : (length s < length t)%nat → occurrence t s = None.
Proof.
  revert t. induction s as [|x s IH]; intros t Hl; simpl in *;
    rewrite bool_decide_false by (intros Hp%prefix_length; simpl in *; lia); [done|].
  by rewrite IH by lia.
Qed.

Lemma strstr_loop_ok fuel m a b s t :
  cstr m a s → cstr m b t → t ≠ [] → (length s + length t < fuel)%nat →
  Z.of_nat (length s) < 2 ^ 63 → Z.of_nat (length t) < 2 ^ 63 →
  wp (strstr_loop fuel a b (Z.of_nat (length s)) (Z.of_nat (length t)))
     (λ r m', m' = m ∧ r = found_at a (occurrence t s)) m.
Proof.
  intros Hs Ht Ht0. assert (length t ≠ O) by (destruct t; done).
  revert a s Hs. induction fuel as [|k IH]; intros a s Hs Hf Hls Hlt; [lia|].
  cbn [strstr_loop]. destruct (Z.leb_spec (Z.of_nat (length t)) (Z.of_nat (length s))) as [Hle|Hlt'].
  - wp_step. assert (bytes m a (take (length t) s)) as Hpre.
    { apply (bytes_app m a _ (drop (length t) s)). rewrite take_drop.
      apply (bytes_app m a s [0]), Hs. }
    eapply wp_mono.
    { unfold memcmp. replace (Z.of_nat (length t)) with (Z.of_nat (length (take (length t) s)))
        by (rewrite length_take; lia).
      apply (memcmp_loop_ok _ _ _ _ _ t); [done|apply (bytes_app m b t [0]), Ht|..];
        rewrite length_take; lia. }
    intros r ? (-> & Hr & _). destruct (decide (r = 0)) as [->|Hr0].
    + simpl. wp_step. split; [done|]. assert (t `prefix_of` s) as Hp.
      { exists (drop (length t) s). rewrite <- (proj1 Hr eq_refl) at 1. by rewrite take_drop. }
      destruct s; simpl; rewrite bool_decide_true by done; simpl; lia.
    + rewrite truthy_true by done. cbn [negb]. destruct s as [|x s]; [simpl in *; lia|].
      apply cstr_cons in Hs as (_ & _ & Hs). cbn [length] in *.
      rewrite u64_small by lia. replace (Z.of_nat (S (length s)) - 1) with (Z.of_nat (length s)) by lia.
      eapply wp_mono; [apply (IH _ s); [done|lia..]|]. intros r' m' [-> ->]. split; [done|].
      cbn [occurrence]. rewrite bool_decide_false; [by rewrite found_at_step|].
      intros [u Hu]. apply Hr0, Hr. rewrite Hu. by rewrite take_app_length.
  - wp_step. split; [done|]. by rewrite occurrence_short by lia.
Qed.

(** C10: [strstr] returns the first place where the second string occurs in the
    first and NULL when it does not; [strchr] and [memchr] return the first
    place of a character (the terminator included for [strchr]) and NULL when
    there is none.  The searches end and write nothing. *)
Theorem searches_correct fuel m a (s : list Z) :
  (length s < fuel)%nat → Z.of_nat (length s) < 2 ^ 63 →
  (∀ b t, cstr m a s → cstr m b t → (length s + length t < fuel)%nat → Z.of_nat (length t) < 2 ^ 63 →
     wp (strstr fuel a b) (λ r m', m' = m ∧ r = found_at a (occurrence t s)) m) ∧
  (∀ c, cstr m a s →
     wp (strchr fuel a c) (λ r m', m' = m ∧ r = found_at a (index_of (u8 c) (s ++ [0]))) m) ∧
  (∀ c, bytes m a s →
     wp (memchr fuel a c (Z.of_nat (length s)))
        (λ r m', m' = m ∧ r = found_at a (index_of (u8 c) s)) m).
Proof.
  intros Hf Hl. split_and!.
  - intros b t Hs Ht Hft Hlt. unfold strstr. wp_step.
    eapply wp_mono; [apply (strlen_ok _ _ _ t); [done|lia..]|]. intros l2 ? [-> ->].
    destruct t as [|y t].
    { simpl. wp_step. split; [done|]. destruct s; simpl; lia. }
    rewrite truthy_true by (simpl; lia). cbn [negb]. wp_step.
    eapply wp_mono; [apply (strlen_ok _ _ _ s); [done|lia..]|]. intros l1 ? [-> ->].
    by apply strstr_loop_ok.
  - intros c Hs. by apply strchr_ok.
  - intros c Hs. apply memchr_ok; [done|done|lia].
Qed.

(** ** Copying and filling *)

Lemma memset_loop_ok fuel m a c bs i :
  mapped m a (Z.of_nat (length bs) + i) → (length bs < fuel)%nat → 0 ≤ i →
  bs = replicate (length bs) (u8 c) → i + Z.of_nat (length bs) < 2 ^ 64 →
  wp (memset_loop fuel a c (i + Z.of_nat (length bs)) i)
     (λ _ m', m' = write_bytes m (a + i) bs) m.
Proof.
  revert m bs i. induction fuel as [|k IH]; intros m bs i Hm Hf Hi Hbs Hn; [lia|].
  cbn [memset_loop]. destruct bs as [|x bs].
  { rewrite (proj2 (Z.ltb_ge _ _)) by (simpl; lia). by wp_step. }
  cbn [length replicate write_bytes] in *. injection Hbs as -> Hbs.
  rewrite (proj2 (Z.ltb_lt _ _)) by lia. wp_step. eapply wp_store8; [apply Hm; lia|].
  rewrite u64_small by lia.
  replace (i + Z.of_nat (S (length bs))) with (i + 1 + Z.of_nat (length bs)) by lia.
  replace (a + i + 1) with (a + (i + 1)) by lia.
  apply IH; [|lia..|done|lia]. apply mapped_insert. eapply mapped_le; [done|lia].
Qed.

Lemma memset_ok fuel m a c n :
  mapped m a (Z.of_nat n) → (n < fuel)%nat → Z.of_nat n < 2 ^ 64 →
  wp (memset fuel a c (Z.of_nat n)) (λ r m', r = a ∧ m' = write_bytes m a (replicate n (u8 c))) m.
Proof.
  intros Hm Hf Hn. pose proof (memset_loop_ok fuel m a c (replicate n (u8 c)) 0) as Hloop.
  rewrite length_replicate, !Z.add_0_r in Hloop. unfold memset. wp_step.
  eapply wp_mono; [apply Hloop; done || lia|]. intros _ ? ->. by wp_step.
Qed.

(** A region that [insert] at a lower address leaves alone. *)
Lemma bytes_insert_ne (m : mem) a bs p v :
  p < a ∨ a + Z.of_nat (length bs) ≤ p → bytes m a bs → bytes (<[p := v]> m) a bs.
Proof. intros Hp. apply bytes_ext. intros i Hi. apply lookup_insert_ne. lia. Qed.

Lemma memcpy_loop_ok fuel m d s bs i :
  bytes m (s + i) bs → Forall byte bs → mapped m (d + i) (Z.of_nat (length bs)) →
  d ≤ s ∨ s + i + Z.of_nat (length bs) ≤ d + i →
  (length bs < fuel)%nat → 0 ≤ i → i + Z.of_nat (length bs) < 2 ^ 64 →
  wp (memcpy_loop fuel d s (i + Z.of_nat (length bs)) i)
     (λ _ m', m' = write_bytes m (d + i) bs) m.
Proof.
  revert m bs i. induction fuel as [|k IH]; intros m bs i Hb Hv Hm Hd Hf Hi Hn; [lia|].
  cbn [memcpy_loop]. destruct bs as [|x bs].
  { rewrite (proj2 (Z.ltb_ge _ _)) by (simpl; lia). by wp_step. }
  cbn [length write_bytes bytes] in *. destruct Hb as [Hx Hb]. apply Forall_cons in Hv as [Hxv Hv].
  rewrite (proj2 (Z.ltb_lt _ _)) by lia. wp_step. eapply wp_load8; [done|]. wp_step.
  eapply wp_store8; [replace (d + i) with (d + i + 0) by lia; apply Hm; lia|].
  rewrite u64_small, u8_small by (done || lia).
  replace (i + Z.of_nat (S (length bs))) with (i + 1 + Z.of_nat (length bs)) by lia.
  replace (d + i + 1) with (d + (i + 1)) by lia. rewrite <- Z.add_assoc in Hb.
  apply IH; [apply bytes_insert_ne; [lia|done]|done| |lia..].
  apply mapped_insert. replace (d + (i + 1)) with (d + i + 1) by lia.
  eapply mapped_le; [apply (mapped_tail _ _ _ 1 Hm)|]; lia.
Qed.

Lemma move_up_ok fuel m d s bs :
  bytes m s bs → Forall byte bs → mapped m d (Z.of_nat (length bs)) → d ≤ s →
  (length bs < fuel)%nat → Z.of_nat (length bs) < 2 ^ 64 →
  wp (move_up fuel d s (Z.of_nat (length bs))) (λ _ m', m' = write_bytes m d bs) m.
Proof.
  revert m d s bs. induction fuel as [|k IH]; intros m d s bs Hb Hv Hm Hd Hf Hn; [lia|].
  cbn [move_up]. destruct bs as [|x bs]; [by simpl; wp_step|].
  cbn [length write_bytes bytes] in *. destruct Hb as [Hx Hb]. apply Forall_cons in Hv as [Hxv Hv].
  rewrite truthy_true by lia. wp_step. eapply wp_load8; [done|]. wp_step.
  eapply wp_store8; [replace d with (d + 0) by lia; apply Hm; lia|].
  rewrite u64_small, u8_small by (done || lia).
  replace (Z.of_nat (S (length bs)) - 1) with (Z.of_nat (length bs)) by lia.
  apply IH; [apply bytes_insert_ne; [lia|done]|done| |lia..].
  apply mapped_insert. eapply mapped_le; [apply (mapped_tail _ _ _ 1 Hm)|]; lia.
Qed.

Lemma write_bytes_snoc m a bs x :
  write_bytes m a (bs ++ [x]) = write_bytes (<[a + Z.of_nat (length bs) := x]> m) a bs.
Proof.
  symmetry. apply write_bytes_unique.
  - apply bytes_app. split; [apply bytes_write_bytes|]. simpl. split; [|done].
    rewrite lookup_write_bytes_ne by lia. apply lookup_insert_eq.
  - intros i Hi. rewrite length_app in Hi. simpl in Hi.
    rewrite lookup_write_bytes_ne by lia. apply lookup_insert_ne. lia.
Qed.

Lemma move_down_ok fuel m d s bs :
  bytes m s bs → Forall byte bs → mapped m d (Z.of_nat (length bs)) → s ≤ d →
  (length bs < fuel)%nat → Z.of_nat (length bs) < 2 ^ 64 →
  wp (move_down fuel (d + Z.of_nat (length bs)) (s + Z.of_nat (length bs)) (Z.of_nat (length bs)))
     (λ _ m', m' = write_bytes m d bs) m.
Proof.
  revert m bs. induction fuel as [|k IH]; intros m bs Hb Hv Hm Hd Hf Hn; [lia|].
  cbn [move_down]. destruct bs as [|x bs' _] using rev_ind; [by simpl; wp_step|].
  rewrite length_app, Nat.add_1_r in *. apply bytes_app in Hb as [Hb [Hx _]].
  apply Forall_app in Hv as [Hv [Hxv _]%Forall_cons].
  rewrite truthy_true by lia. wp_step.
  replace (d + Z.of_nat (S (length bs')) - 1) with (d + Z.of_nat (length bs')) by lia.
  replace (s + Z.of_nat (S (length bs')) - 1) with (s + Z.of_nat (length bs')) by lia.
  replace (Z.of_nat (S (length bs')) - 1) with (Z.of_nat (length bs')) by lia.
  eapply wp_load8; [done|]. wp_step. eapply wp_store8; [apply Hm; lia|].
  rewrite u64_small, u8_small, write_bytes_snoc by (done || lia).
  apply IH; [apply bytes_insert_ne; [lia|done]|done| |lia..].
  apply mapped_insert. eapply mapped_le; [done|lia].
Qed.

(** C11: [memmove] copies the [n] source bytes to the destination whatever the
    overlap of the two regions; [memcpy] does when the destination does not
    start inside the source; [memset] fills the region with the low byte of its
    argument.  Each returns the destination and writes nothing else. *)
Theorem memory_copies_correct fuel m d s (bs : list Z) c :
  mapped m d (Z.of_nat (length bs)) → (length bs < fuel)%nat → Z.of_nat (length bs) < 2 ^ 64 →
  (bytes m s bs → Forall byte bs →
     wp (memmove fuel d s (Z.of_nat (length bs))) (λ r m', r = d ∧ m' = write_bytes m d bs) m) ∧
  (bytes m s bs → Forall byte bs → d ≤ s ∨ s + Z.of_nat (length bs) ≤ d →
     wp (memcpy fuel d s (Z.of_nat (length bs))) (λ r m', r = d ∧ m' = write_bytes m d bs) m) ∧
  wp (memset fuel d c (Z.of_nat (length bs)))
     (λ r m', r = d ∧ m' = write_bytes m d (replicate (length bs) (u8 c))) m.
Proof.
  intros Hm Hf Hn. split_and!.
  - intros Hb Hv. unfold memmove. wp_step. destruct (Z.leb_spec d s); eapply wp_mono;
      [by apply move_up_ok|intros _ ? ->; by wp_step
      |apply move_down_ok; done || lia|intros _ ? ->; by wp_step].
  - intros Hb Hv Hd. unfold memcpy. wp_step. eapply wp_mono.
    { apply (memcpy_loop_ok fuel m d s bs 0); rewrite ?Z.add_0_r; done || lia. }
    intros _ ? ->. wp_step. by rewrite Z.add_0_r.
  - by apply memset_ok.
Qed.

(** ** [atol] *)

(** The decimal number a string starts with. *)
Fixpoint skip_blanks (s : list Z) : list Z :=
  match s with c :: s' => if (c =? 32) || (c =? 9) then skip_blanks s' else s | [] => [] end.
Definition signed_decimal (s : list Z) : Z :=
  match s with
  | c :: s' => if c =? 45 then - decimal 0 s' else if c =? 43 then decimal 0 s' else decimal 0 s
  | [] => 0
  end.

Lemma s64_mod x y : x mod 2 ^ 64 = y mod 2 ^ 64 → s64 x = s64 y.
Proof.
  intros H. unfold s64. rewrite <- (Zplus_mod_idemp_l x), <- (Zplus_mod_idemp_l y). by rewrite H.
Qed.
Lemma s64_mod_l x : s64 x mod 2 ^ 64 = x mod 2 ^ 64.
Proof. unfold s64. rewrite Zminus_mod_idemp_l. f_equal. lia. Qed.
Lemma s64_step x c : s64 (s64 x * 10 + c) = s64 (x * 10 + c).
Proof.
  apply s64_mod. rewrite <- Zplus_mod_idemp_l, <- Zmult_mod_idemp_l, s64_mod_l.
  by rewrite Zmult_mod_idemp_l, Zplus_mod_idemp_l.
Qed.
Lemma s64_opp x : s64 (- s64 x) = s64 (- x).
Proof.
  apply s64_mod. rewrite <- !Z.sub_0_l, <- Zminus_mod_idemp_r, s64_mod_l.
  by rewrite Zminus_mod_idemp_r.
Qed.

Lemma atol_digits_ok fuel m a s acc :
  cstr m a s → (length s < fuel)%nat →
  wp (atol_digits fuel a (s64 acc)) (λ r m', m' = m ∧ r = s64 (decimal acc s)) m.
Proof.
  revert a s acc. induction fuel as [|k IH]; intros a s acc Hs Hf; [lia|].
  cbn [atol_digits]. wp_step. destruct s as [|c s].
  - apply cstr_nil in Hs. eapply wp_load8; [done|]. simpl. by wp_step.
  - apply cstr_cons in Hs as (Hc & Hn & Hs). cbn [length decimal] in *.
    eapply wp_load8; [done|]. rewrite nonzero_truthy by done. unfold is_digit.
    rewrite Z.ltb_antisym, (Z.ltb_antisym c 57), <- negb_andb.
    destruct ((48 <=? c) && (c <=? 57)); simpl; [|by wp_step].
    rewrite s64_step. apply IH; [done|lia].
Qed.

Lemma atol_blanks_ok fuel m a s :
  cstr m a s → (length s < fuel)%nat →
  wp (atol_blanks fuel a)
     (λ r m', m' = m ∧ cstr m r (skip_blanks s) ∧ (length (skip_blanks s) ≤ length s)%nat) m.
Proof.
  revert a s. induction fuel as [|k IH]; intros a s Hs Hf; [lia|].
  cbn [atol_blanks]. wp_step. destruct s as [|c s].
  - apply cstr_nil in Hs as Hz. eapply wp_load8; [done|]. simpl. by wp_step.
  - apply cstr_cons in Hs as Hc. destruct Hc as (Hc & Hn & Hs'). cbn [length skip_blanks] in *.
    eapply wp_load8; [done|]. destruct ((c =? 32) || (c =? 9)); [|by wp_step].
    eapply wp_mono; [apply IH; [done|lia]|]. intros r m' (-> & ? & ?). split_and!; [done..|lia].
Qed.

(** [atol] gives the number the string starts with, up to the wrap-around of
    the 64-bit registers that hold a [long]. *)
Lemma atol_ok fuel m a s :
  cstr m a s → (length s < fuel)%nat →
  wp (atol fuel a) (λ r m', m' = m ∧ r = s64 (signed_decimal (skip_blanks s))) m.
Proof.
  intros Hs Hf. unfold atol. wp_step. eapply wp_mono; [by eapply atol_blanks_ok|].
  intros p ? (-> & Hp & Hl). wp_step. change 0 with (s64 0).
  destruct (skip_blanks s) as [|c t].
  - apply cstr_nil in Hp as Hz. eapply wp_load8; [done|]. by apply (atol_digits_ok fuel m p []); [apply cstr_nil|simpl; lia].
  - apply cstr_cons in Hp as Hc. destruct Hc as (Hc & Hn & Ht). cbn [length signed_decimal] in *.
    eapply wp_load8; [done|]. destruct (c =? 45); [|destruct (c =? 43)].
    + wp_step. eapply wp_mono; [eapply atol_digits_ok; [done|lia]|].
      intros r m' [-> ->]. wp_step. split; [done|]. apply s64_opp.
    + eapply atol_digits_ok; [done|lia].
    + eapply atol_digits_ok; [done|simpl; lia].
Qed.

(** * Witnesses *)

(** "abcab" at the address 100, "ca" at 200. *)
Definition strings_example : mem :=
  write_bytes (write_bytes ∅ 100 ([97; 98; 99; 97; 98] ++ [0])) 200 ([99; 97] ++ [0]).
Ltac eval_cstr := split; [vm_compute; tauto|repeat constructor].

Lemma strings_example_100 : cstr strings_example 100 [97; 98; 99; 97; 98].
Proof. eval_cstr. Qed.
Lemma strings_example_200 : cstr strings_example 200 [99; 97].
Proof. eval_cstr. Qed.

Lemma strcpy_strcat_correct_witness :
  wp (strcpy 9 100 200)
     (λ r m', r = 100 ∧ m' = write_bytes strings_example 100 ([99; 97] ++ [0]) ∧
        cstr m' 100 [99; 97]) strings_example.
Proof.
  refine (proj1 (strcpy_strcat_correct 9 strings_example 100 200 [97] [99; 97] _ _ _ _ _)).
  - apply strings_example_200.
  - simpl. lia.
  - simpl. lia.
  - eapply mapped_le; [apply (bytes_mapped _ _ _ (proj1 strings_example_100))|simpl; lia].
  - left. simpl. lia.
Defined.

Lemma comparisons_correct_witness :
  strcmp 9 100 200 strings_example = Done (-2, strings_example) ∧
  wp (strcmp 9 100 200)
     (λ r m', m' = strings_example ∧ compares r [97; 98; 99; 97; 98] [99; 97]) strings_example.
Proof.
  split; [reflexivity|].
  destruct (comparisons_correct 9 strings_example 100 200 [97; 98; 99; 97; 98] [99; 97]) as [H _];
    [simpl; lia|].
  destruct H as [_ H]; [apply strings_example_100|apply strings_example_200|].
  apply H; unfold SIZE_MAX; simpl; lia.
Defined.

Lemma searches_correct_witness :
  strstr 9 100 200 strings_example = Done (102, strings_example) ∧
  wp (strstr 9 100 200)
     (λ r m', m' = strings_example ∧
        r = found_at 100 (occurrence [99; 97] [97; 98; 99; 97; 98])) strings_example.
Proof.
  split; [reflexivity|].
  destruct (searches_correct 9 strings_example 100 [97; 98; 99; 97; 98]) as [H _];
    [simpl; lia|simpl; lia|].
  apply H; [apply strings_example_100|apply strings_example_200|simpl; lia..].
Defined.

(** The regions overlap: three bytes move up by one. *)
Lemma memory_copies_correct_witness :
  wp (memmove 9 101 100 3)
     (λ r m', r = 101 ∧ m' = write_bytes strings_example 101 [97; 98; 99]) strings_example.
Proof.
  refine (proj1 (memory_copies_correct 9 strings_example 101 100 [97; 98; 99] 0 _ _ _) _ _).
  - eapply mapped_le; [apply (mapped_tail _ _ _ 1 (bytes_mapped _ _ _ (proj1 strings_example_100)))|];
      simpl; lia.
  - simpl. lia.
  - simpl. lia.
  - vm_compute. tauto.
  - unfold byte. repeat constructor; lia.
Defined.
