(* ===== verification/Printf.v ===== *)
(** The formatted output of [io/printf.c]. *)

From Stdlib Require Import Ascii.
From S2P Require Import Prelude ByteMem StringLib.

(** The code of a character. *)
Definition ch (c : ascii) : Z := Z.of_N (N_of_ascii c).

(** [static char digits[16]]. *)
Definition digits : list Z :=
  [48; 49; 50; 51; 52; 53; 54; 55; 56; 57; 97; 98; 99; 100; 101; 102].
(** [digits[i]]; an index outside the array faults. *)
Definition digit_at (i : Z) : St mem Z :=
  if 0 <=? i then deref (digits !! Z.to_nat i) else fault.

(** [pstream_t] and [strprops_t]. *)
Record pstream := { p_buffer : Z; p_remain : Z; p_added : Z }.
Record strprops := { pad : Z; npad : Z; alternate : bool }.
Definition set_pad (c : Z) (p : strprops) : strprops :=
  {| pad := c; npad := npad p; alternate := alternate p |}.
Definition set_npad (n : Z) (p : strprops) : strprops :=
  {| pad := pad p; npad := n; alternate := alternate p |}.
Definition set_alternate (p : strprops) : strprops :=
  {| pad := pad p; npad := npad p; alternate := true |}.

Definition addchar (p : pstream) (c : Z) : St mem pstream :=
  if truthy (p_remain p) then
    store8 (p_buffer p) c;;
    mret {| p_buffer := p_buffer p + 1; p_remain := s32 (p_remain p - 1);
            p_added := s32 (p_added p + 1) |}
  else mret {| p_buffer := p_buffer p; p_remain := p_remain p; p_added := s32 (p_added p + 1) |}.

(** [while (npad > 0) { addchar(p, props.pad); --npad; }], with the final [npad]. *)
Fixpoint pad_left (fuel : nat) (p : pstream) (c n : Z) : St mem (pstream * Z) :=
  match fuel with
  | O => nofuel
  | S k => if 0 <? n then p ← addchar p c; pad_left k p c (s32 (n - 1)) else mret (p, n)
  end.
(** [while (npad < 0) { addchar(p, props.pad); ++npad; }] *)
Fixpoint pad_right (fuel : nat) (p : pstream) (c n : Z) : St mem pstream :=
  match fuel with
  | O => nofuel
  | S k => if n <? 0 then p ← addchar p c; pad_right k p c (s32 (n + 1)) else mret p
  end.
(** [while ( *s) addchar(p, *s++);] *)
Fixpoint addstr (fuel : nat) (p : pstream) (s : Z) : St mem pstream :=
  match fuel with
  | O => nofuel
  | S k => c ← load8 s; if truthy c then p ← addchar p c; addstr k p (s + 1) else mret p
  end.

Definition print_str (fuel : nat) (p : pstream) (s : Z) (props : strprops) : St mem pstream :=
  pn ← (if 0 <? npad props then
          len ← strlen fuel s;
          pad_left fuel p (pad props) (s32 (npad props - len))
        else mret (p, npad props));
  let '(p, n) := pn in
  p ← addstr fuel p s;
  if n <? 0 then
    len ← strlen fuel s;
    pad_right fuel p 32 (s32 (n + len))
  else mret p.

(** [while (n) { *p++ = digits[n % base]; n /= base; }]: the final [p]. *)
Fixpoint put_digits (fuel : nat) (p n base : Z) : St mem Z :=
  match fuel with
  | O => nofuel
  | S k =>
      if truthy n then
        d ← digit_at (Z.rem n base);
        store8 p d;; put_digits k (p + 1) (Z.quot n base) base
      else mret p
  end.

(** The loop that reverses the text from [buf] to [p], from the index [i]. *)
Fixpoint reverse_loop (fuel : nat) (buf p i : Z) : St mem unit :=
  match fuel with
  | O => nofuel
  | S k =>
      if i <? Z.quot (p - buf) 2 then
        tmp ← load8 (buf + i);
        v ← load8 (p + (-1 - i));
        store8 (buf + i) v;;
        store8 (p + (-1 - i)) tmp;;
        reverse_loop k buf p (i + 1)
      else mret tt
  end.

(** [buf] is the address of the local array of the function. *)
Definition print_int (fuel : nat) (buf : Z) (ps : pstream) (n base : Z) (props : strprops) :
    St mem pstream :=
  let '(n, s) := if n <? 0 then (s64 (- n), 1) else (n, 0) in
  p ← put_digits fuel buf n base;
  p ← (if truthy s then store8 p (ch "-");; mret (p + 1) else mret p);
  p ← (if p =? buf then store8 p (ch "0");; mret (p + 1) else mret p);
  reverse_loop fuel buf p 0;;
  store8 p 0;;
  print_str fuel ps buf props.

Definition print_unsigned (fuel : nat) (buf : Z) (ps : pstream) (n base : Z) (props : strprops) :
    St mem pstream :=
  p ← put_digits fuel buf n base;
  r ← (if p =? buf then store8 p (ch "0");; mret (p + 1, ps, props)
       else if alternate props && (base =? 16) then
         if pad props =? ch "0" then
           ps ← addchar ps (ch "0");
           ps ← addchar ps (ch "x");
           mret (p, ps, if 0 <? npad props then set_npad (Z.max (npad props - 2) 0) props else props)
         else
           store8 p (ch "x");;
           store8 (p + 1) (ch "0");; mret (p + 2, ps, props)
       else mret (p, ps, props));
  let '(p, ps, props) := r in
  reverse_loop fuel buf p 0;;
  store8 p 0;;
  print_str fuel ps buf props.

(** [while ( *f >= '0' && *f <= '9') ++f, ++len;]: the number of digits. *)
Fixpoint count_digits (fuel : nat) (f len : Z) : St mem Z :=
  match fuel with
  | O => nofuel
  | S k => c ← load8 f; if is_digit c then count_digits k (f + 1) (len + 1) else mret len
  end.
(** The number and the new format pointer. *)
Definition fmtnum (fuel : nat) (fmt : Z) : St mem (Z * Z) :=
  c ← load8 fmt;
  len ← (if c =? ch "-" then count_digits fuel (fmt + 1) 1 else count_digits fuel fmt 0);
  num ← atol fuel fmt;
  mret (s32 num, fmt + len).

(** The cases of the [switch] of [vsnprintf]. *)
Inductive conversion :=
  | CPercent | CChar | CEnd | CAlternate | CZero | CWidth | CLong | CSize
  | CDecimal | CUnsigned | CHex | CPointer | CString | COther.
Definition classify (f : Z) : conversion :=
  if f =? ch "%" then CPercent
  else if f =? ch "c" then CChar
  else if f =? 0 then CEnd
  else if f =? ch "#" then CAlternate
  else if f =? ch "0" then CZero
  else if (ch "1" <=? f) && (f <=? ch "9") || (f =? ch "-") then CWidth
  else if f =? ch "l" then CLong
  else if (f =? ch "t") || (f =? ch "z") then CSize
  else if f =? ch "d" then CDecimal
  else if f =? ch "u" then CUnsigned
  else if f =? ch "x" then CHex
  else if f =? ch "p" then CPointer
  else if f =? ch "s" then CString
  else COther.

(** [va_arg]: the next argument register; the list is empty past the last one. *)
Definition va_next (va : list Z) : St mem (Z * list Z) :=
  match va with v :: va' => mret (v, va') | [] => fault end.

(** [*(uint32_t * )p], least significant byte first. *)
Definition load32 (p : Z) : St mem Z :=
  b0 ← load8 p; b1 ← load8 (p + 1); b2 ← load8 (p + 2); b3 ← load8 (p + 3);
  mret (b0 + (b1 << 8) + (b2 << 16) + (b3 << 24)).

(** From the label [morefmt] to the end of the [switch]: the stream, the format
    pointer and the arguments left.  [stk] is the address of the local array of
    [print_int] and [print_unsigned]. *)
Fixpoint directive (fuel : nat) (stk : Z) (s : pstream) (fmt : Z) (va : list Z)
    (nlong : Z) (props : strprops) : St mem (pstream * Z * list Z) :=
  match fuel with
  | O => nofuel
  | S k =>
      f ← load8 fmt;
      let fmt := fmt + 1 in
      match classify f with
      | CPercent => s ← addchar s (ch "%"); mret (s, fmt, va)
      | CChar => '(v, va) ← va_next va; s ← addchar s v; mret (s, fmt, va)
      | CEnd => mret (s, fmt - 1, va)
      | CAlternate => directive k stk s fmt va nlong (set_alternate props)
      | CZero =>
          '(n, fmt) ← fmtnum k (fmt + 1 - 1);
          directive k stk s fmt va nlong (set_npad n (set_pad (ch "0") props))
      | CWidth =>
          '(n, fmt) ← fmtnum k (fmt - 1);
          directive k stk s fmt va nlong (set_npad n props)
      | CLong => directive k stk s fmt va (nlong + 1) props
      | CSize => directive k stk s fmt va 1 props
      | CDecimal =>
          '(v, va) ← va_next va;
          s ← print_int k stk s (if nlong =? 0 then s32 v else s64 v) 10 props;
          mret (s, fmt, va)
      | CUnsigned =>
          '(v, va) ← va_next va;
          s ← print_unsigned k stk s (u32 v) 10 props; mret (s, fmt, va)
      | CHex =>
          '(v, va) ← va_next va;
          s ← print_unsigned k stk s (u32 v) 16 props; mret (s, fmt, va)
      | CPointer =>
          '(v, va) ← va_next va;
          w ← load32 v;
          s ← print_unsigned k stk s w 16 (set_alternate props); mret (s, fmt, va)
      | CString =>
          '(v, va) ← va_next va;
          s ← print_str k s v props; mret (s, fmt, va)
      | COther => s ← addchar s f; mret (s, fmt, va)
      end
  end.

Definition default_props : strprops := {| pad := ch " "; npad := 0; alternate := false |}.

Fixpoint vsnprintf_loop (fuel : nat) (stk : Z) (s : pstream) (fmt : Z) (va : list Z) :
    St mem pstream :=
  match fuel with
  | O => nofuel
  | S k =>
      f ← load8 fmt;
      if truthy f then
        if negb (f =? ch "%") then s ← addchar s f; vsnprintf_loop k stk s (fmt + 1) va
        else
          '(s, fmt, va) ← directive k stk s (fmt + 1) va 0 default_props;
          vsnprintf_loop k stk s fmt va
      else mret s
  end.
Definition vsnprintf (fuel : nat) (stk buf size fmt : Z) (va : list Z) : St mem Z :=
  s ← vsnprintf_loop fuel stk {| p_buffer := buf; p_remain := s32 (size - 1); p_added := 0 |} fmt va;
  store8 (p_buffer s) 0;;
  mret (p_added s).

(** [binstr]: the loop from the bit count [i] on, with [c] the next address. *)
Fixpoint binstr_loop (fuel : nat) (x c i n : Z) : St mem unit :=
  match fuel with
  | O => nofuel
  | S k =>
      store8 c (if truthy (x .& (1 << (n - i - 1))) then ch "1" else ch "0");;
      let c := c + 1 in
      let i := i + 1 in
      if i =? n then store8 c 0
      else if Z.rem i 4 =? 0 then store8 c (ch "'");; binstr_loop k x (c + 1) i n
      else binstr_loop k x c i n
  end.
Definition binstr (fuel : nat) (x out : Z) : St mem unit := binstr_loop fuel x out 0 (4 * 8).

(** * The text each conversion stands for *)

(** [txt] with the padding the properties ask for: on the left with the pad
    character, on the right with blanks. *)
Definition padded (props : strprops) (txt : list Z) : list Z :=
  replicate (Z.to_nat (npad props - Z.of_nat (length txt))) (pad props) ++ txt ++
  replicate (Z.to_nat (- npad props - Z.of_nat (length txt))) 32.

(** The digits of [n] in a base, least significant first. *)
Fixpoint rdigits (k : nat) (base n : Z) : list Z :=
  match k with
  | O => []
  | S k => if n =? 0 then []
           else default 0 (digits !! Z.to_nat (n mod base)) :: rdigits k base (n / base)
  end.
(** The numeral of [n]: 64 digits are enough for a 64-bit number in any base. *)
Definition numeral (base n : Z) : list Z :=
  if n =? 0 then [48] else rev (rdigits 64 base n).
Definition int_text (base n : Z) : list Z :=
  if n <? 0 then 45 :: numeral base (- n) else numeral base n.
Definition unsigned_text (base n : Z) (props : strprops) : list Z :=
  if negb (n =? 0) && alternate props && (base =? 16) then
    if pad props =? 48 then
      48 :: 120 :: padded (if 0 <? npad props then set_npad (Z.max (npad props - 2) 0) props
                           else props) (numeral base n)
    else padded props (48 :: 120 :: numeral base n)
  else padded props (numeral base n).

Lemma length_padded props txt :
  Z.of_nat (length (padded props txt)) = Z.max (Z.abs (npad props)) (Z.of_nat (length txt)).
Proof. unfold padded. rewrite !length_app, !length_replicate. lia. Qed.

Lemma digit_nonzero i : 0 ≤ i < 16 → nonzero (default 0 (digits !! Z.to_nat i)).
Proof.
  intros Hi. destruct (lookup_lt_is_Some_2 digits (Z.to_nat i)) as [d Hd]; [simpl; lia|].
  rewrite Hd. simpl. apply list_elem_of_lookup_2 in Hd.
  assert (Forall nonzero digits) as H by (unfold nonzero; repeat constructor).
  rewrite Forall_forall in H. by apply H.
Qed.

Lemma rdigits_nonzero k base n : 2 ≤ base ≤ 16 → Forall nonzero (rdigits k base n).
Proof.
  intros Hb. revert n. induction k as [|k IH]; intros n; simpl; [done|].
  destruct (n =? 0); [done|]. constructor; [|apply IH].
  apply digit_nonzero. pose proof (Z.mod_pos_bound n base ltac:(lia)). lia.
Qed.

Lemma length_rdigits k j base n :
  2 ≤ base → 0 ≤ n < base ^ Z.of_nat j → (length (rdigits k base n) ≤ j)%nat.
Proof.
  intros Hb. revert j n. induction k as [|k IH]; intros j n Hn; simpl; [lia|].
  destruct (Z.eqb_spec n 0) as [->|Hne]; [simpl; lia|]. destruct j as [|j]; [simpl in Hn; lia|].
  simpl. apply le_n_S, IH. rewrite Nat2Z.inj_succ, Z.pow_succ_r in Hn by lia.
  split; [apply Z.div_pos; lia|apply Z.div_lt_upper_bound; lia].
Qed.

(** * The stream *)

Section stream.
Context (m0 : mem) (base cap stk : Z).

(** The output buffer has [cap + 1] bytes, the local array 27. *)
Definition in_out (a : Z) : Prop := base ≤ a ≤ base + cap.
Definition in_stk (a : Z) : Prop := stk ≤ a < stk + 27.

Record layout : Prop := {
  lay_cap : 0 ≤ cap < 2 ^ 31 - 1;
  lay_out : mapped m0 base (cap + 1);
  lay_stk : mapped m0 stk 27;
  lay_disj : disjoint base (cap + 1) stk 27;
}.

(** The stream [p] has been given the characters [out]: what fits is in the
    buffer, and nothing but the buffer and the local array has changed. *)
Record stream (p : pstream) (out : list Z) (m : mem) : Prop := {
  st_buffer : p_buffer p = base + Z.min (Z.of_nat (length out)) cap;
  st_remain : p_remain p = cap - Z.min (Z.of_nat (length out)) cap;
  st_added : p_added p = Z.of_nat (length out);
  st_bytes : bytes m base (take (Z.to_nat cap) out);
  st_out : mapped m base (cap + 1);
  st_stk : mapped m stk 27;
  st_frame : ∀ a, ¬ in_out a → ¬ in_stk a → m !! a = m0 !! a;
}.
(** Only the output buffer differs. *)
Definition keeps (m m' : mem) : Prop := ∀ a, ¬ in_out a → m' !! a = m !! a.

#[local] Set Default Proof Using "Type*".
Context (Hlay : layout).

Lemma keeps_trans m1 m2 m3 : keeps m1 m2 → keeps m2 m3 → keeps m1 m3.
Proof. intros H1 H2 a Ha. by rewrite H2, H1. Qed.
Lemma keeps_refl m : keeps m m.
Proof. done. Qed.

Lemma addchar_ok p c out m :
  stream p out m → Z.of_nat (length out) + 1 < 2 ^ 31 →
  wp (addchar p c) (λ p' m', stream p' (out ++ [u8 c]) m' ∧ keeps m m') m.
Proof.
  intros [Hb Hr Ha Hby Ho Hs Hf] Hl. unfold addchar. destruct Hlay as [Hcap _ _ _].
  destruct (decide (p_remain p = 0)) as [H0|H0].
  - rewrite H0. change (truthy 0) with false. wp_step. split; [|done].
    constructor; cbn [p_buffer p_remain p_added]; rewrite ?length_app; cbn [length]; [lia|lia| | |done|done|done].
    + rewrite Ha, s32_small by lia. lia.
    + rewrite take_app_le by lia. done.
  - rewrite truthy_true by done. wp_step.
    assert (length out < Z.to_nat cap)%nat by lia.
    rewrite take_ge in Hby by lia.
    eapply wp_store8; [apply (mapped_at _ base (cap + 1)); [done|lia]|]. wp_step.
    split; [|intros a Hout; apply lookup_insert_ne; unfold in_out in Hout; lia].
    constructor; cbn [p_buffer p_remain p_added]; rewrite ?length_app; cbn [length].
    + lia.
    + rewrite s32_small by lia. lia.
    + rewrite Ha, s32_small by lia. lia.
    + rewrite take_ge by (rewrite length_app; simpl; lia). apply bytes_app. split.
      * apply bytes_insert_ne; [lia|done].
      * simpl. split; [|done]. replace (base + Z.of_nat (length out)) with (p_buffer p) by lia. apply lookup_insert_eq.
    + by apply mapped_insert.
    + by apply mapped_insert.
    + intros a Hout Hstk. rewrite lookup_insert_ne; [by apply Hf|]. unfold in_out in Hout. lia.
Qed.

(** The string at [a] does not overlap the output buffer. *)
Definition apart (a n : Z) : Prop := disjoint base (cap + 1) a n.

Lemma cstr_keeps m m' a s :
  keeps m m' → apart a (Z.of_nat (length s) + 1) → cstr m a s → cstr m' a s.
Proof.
  intros Hk Ha. apply cstr_ext. intros i Hi. apply Hk. unfold apart, disjoint, in_out in *. lia.
Qed.

Lemma pad_left_ok fuel p c n out m :
  stream p out m → byte c → - 2 ^ 31 ≤ n < 2 ^ 31 → Z.of_nat (length out) + Z.max 0 n < 2 ^ 31 →
  n < Z.of_nat fuel → (0 < fuel)%nat →
  wp (pad_left fuel p c n)
     (λ r m', stream (fst r) (out ++ replicate (Z.to_nat n) c) m' ∧ snd r = Z.min 0 n ∧ keeps m m') m.
Proof.
  revert p n out m. induction fuel as [|k IH]; intros p n out m Hp Hc Hn Hl Hf H0; [lia|].
  cbn [pad_left]. destruct (Z.ltb_spec 0 n).
  - wp_step. eapply wp_mono; [apply addchar_ok; [done|lia]|]. intros p1 m1 [Hp1 Hk1].
    rewrite u8_small in Hp1 by done. rewrite s32_small by lia.
    eapply wp_mono; [apply IH; [done|done|lia| |lia..]|].
    { rewrite length_app. simpl. lia. }
    intros r m2 (Hp2 & Hr & Hk2). rewrite <- app_assoc in Hp2.
    replace (Z.to_nat n) with (S (Z.to_nat (n - 1))) by lia.
    split_and!; [done|lia|by eapply keeps_trans].
  - wp_step. replace (Z.to_nat n) with O by lia. cbn [replicate fst snd]. rewrite app_nil_r.
    split_and!; [done|lia|done].
Qed.

Lemma pad_right_ok fuel p c n out m :
  stream p out m → byte c → - 2 ^ 31 ≤ n → Z.of_nat (length out) - Z.min 0 n < 2 ^ 31 →
  - n < Z.of_nat fuel → (0 < fuel)%nat → n < 2 ^ 31 →
  wp (pad_right fuel p c n)
     (λ p' m', stream p' (out ++ replicate (Z.to_nat (- n)) c) m' ∧ keeps m m') m.
Proof.
  revert p n out m. induction fuel as [|k IH]; intros p n out m Hp Hc Hn Hl Hf H0 Hn'; [lia|].
  cbn [pad_right]. destruct (Z.ltb_spec n 0).
  - wp_step. eapply wp_mono; [apply addchar_ok; [done|lia]|]. intros p1 m1 [Hp1 Hk1].
    rewrite u8_small in Hp1 by done. rewrite s32_small by lia.
    eapply wp_mono; [apply IH; [done|done|lia| |lia..]|].
    { rewrite length_app. simpl. lia. }
    intros r m2 (Hp2 & Hk2). rewrite <- app_assoc in Hp2.
    replace (Z.to_nat (- n)) with (S (Z.to_nat (- (n + 1)))) by lia.
    split; [done|by eapply keeps_trans].
  - wp_step. replace (Z.to_nat (- n)) with O by lia. cbn [replicate]. rewrite app_nil_r. done.
Qed.

Lemma addstr_ok fuel p a s out m :
  stream p out m → cstr m a s → apart a (Z.of_nat (length s) + 1) →
  (length s < fuel)%nat → Z.of_nat (length out) + Z.of_nat (length s) < 2 ^ 31 →
  wp (addstr fuel p a) (λ p' m', stream p' (out ++ s) m' ∧ keeps m m') m.
Proof.
  revert p a s out m. induction fuel as [|k IH]; intros p a s out m Hp Hs Ha Hf Hl; [lia|].
  cbn [addstr]. wp_step. destruct s as [|c s].
  - apply cstr_nil in Hs. eapply wp_load8; [done|]. simpl. wp_step. by rewrite app_nil_r.
  - apply cstr_cons in Hs as (Hc & Hn & Hs). cbn [length] in *.
    eapply wp_load8; [done|]. rewrite nonzero_truthy by done. wp_step.
    eapply wp_mono; [apply addchar_ok; [done|lia]|]. intros p1 m1 [Hp1 Hk1].
    rewrite u8_small in Hp1 by auto using nonzero_byte.
    assert (apart (a + 1) (Z.of_nat (length s) + 1)) as Ha' by (unfold apart, disjoint in *; lia).
    eapply wp_mono; [apply (IH _ _ s); [done|by eapply cstr_keeps|done|lia|]|].
    { rewrite length_app. simpl. lia. }
    intros p2 m2 [Hp2 Hk2]. rewrite <- app_assoc in Hp2. split; [done|by eapply keeps_trans].
Qed.

Lemma print_str_ok fuel p a s props out m :
  stream p out m → cstr m a s → apart a (Z.of_nat (length s) + 1) → byte (pad props) →
  - 2 ^ 31 ≤ npad props < 2 ^ 31 →
  Z.of_nat (length out) + Z.of_nat (length (padded props s)) < 2 ^ 31 →
  (length (padded props s) < fuel)%nat →
  wp (print_str fuel p a props) (λ p' m', stream p' (out ++ padded props s) m' ∧ keeps m m') m.
Proof.
  intros Hp Hs Ha Hc Hn Hl Hf. pose proof (length_padded props s) as Hpl.
  unfold print_str, padded. wp_step.
  destruct (Z.ltb_spec 0 (npad props)).
  - wp_step. eapply wp_mono; [apply (strlen_ok _ _ _ s); [done|lia..]|]. intros l ? [-> ->].
    rewrite s32_small by lia.
    eapply wp_mono; [apply pad_left_ok; [done|done|lia..]|].
    intros [p1 n1] m1 (Hp1 & Hn1 & Hk1). cbn [fst snd] in *. wp_step.
    eapply wp_mono; [apply (addstr_ok _ _ _ s); [done|by eapply cstr_keeps|done|lia|]|].
    { rewrite length_app, length_replicate. lia. }
    intros p2 m2 [Hp2 Hk2]. pose proof (keeps_trans _ _ _ Hk1 Hk2) as Hk.
    replace (Z.to_nat (- npad props - Z.of_nat (length s))) with O by lia.
    cbn [replicate]. rewrite app_nil_r, app_assoc.
    destruct (Z.ltb_spec n1 0); wp_step; [|done].
    eapply wp_mono; [apply (strlen_ok _ _ _ s); [by eapply cstr_keeps|lia..]|]. intros l ? [-> ->].
    subst n1. rewrite s32_small by lia.
    eapply wp_mono; [apply pad_right_ok; [done|unfold byte; lia|lia|rewrite !length_app, length_replicate; lia|lia..]|].
    intros p3 m3 [Hp3 Hk3]. rewrite Z.min_r in Hp3 by lia.
    replace (Z.to_nat (- (npad props - Z.of_nat (length s) + Z.of_nat (length s)))) with O in Hp3 by lia.
    cbn [replicate] in Hp3. rewrite app_nil_r, <- app_assoc in Hp3. rewrite <- app_assoc.
    split; [done|by eapply keeps_trans].
  - wp_step. replace (Z.to_nat (npad props - Z.of_nat (length s))) with O by lia. cbn [replicate app].
    eapply wp_mono; [apply (addstr_ok _ _ _ s); [done..|lia|lia]|].
    intros p2 m2 [Hp2 Hk2]. rewrite app_assoc. destruct (Z.ltb_spec (npad props) 0); wp_step.
    + eapply wp_mono; [apply (strlen_ok _ _ _ s); [by eapply cstr_keeps|lia..]|]. intros l ? [-> ->].
      rewrite s32_small by lia.
      eapply wp_mono; [apply pad_right_ok; [done|unfold byte; lia|lia|rewrite !length_app; lia|lia..]|].
      intros p3 m3 [Hp3 Hk3].
      replace (- (npad props + Z.of_nat (length s))) with (- npad props - Z.of_nat (length s)) in Hp3 by lia.
      split; [done|by eapply keeps_trans].
    + replace (Z.to_nat (- npad props - Z.of_nat (length s))) with O by lia.
      cbn [replicate]. by rewrite app_nil_r.
Qed.

(** ** Numbers *)

(** Only the local array differs. *)
Definition keeps_stk (m m' : mem) : Prop := ∀ a, ¬ in_stk a → m' !! a = m !! a.

Lemma stream_stk p out m m' :
  stream p out m → keeps_stk m m' → mapped m' stk 27 → stream p out m'.
Proof.
  intros [Hb Hr Ha Hby Ho Hs Hf] Hk Hm. destruct Hlay as [Hcap _ _ Hd].
  unfold keeps_stk, disjoint, in_stk, in_out in *.
  constructor; [done..| | |done|].
  - eapply bytes_ext; [|done]. intros i Hi. rewrite length_take in Hi. apply Hk. lia.
  - intros i Hi. rewrite Hk by lia. by apply Ho.
  - intros a Hout Hstk. rewrite Hk by done. by apply Hf.
Qed.

Lemma keeps_stk_write m i bs :
  0 ≤ i → i + Z.of_nat (length bs) ≤ 27 → keeps_stk m (write_bytes m (stk + i) bs).
Proof. intros Hi Hl a Ha. unfold in_stk in Ha. apply lookup_write_bytes_ne. lia. Qed.

Lemma stream_write_stk p out m i bs :
  stream p out m → 0 ≤ i → i + Z.of_nat (length bs) ≤ 27 →
  stream p out (write_bytes m (stk + i) bs).
Proof.
  intros Hp Hi Hl. eapply stream_stk; [done|by apply keeps_stk_write|].
  apply mapped_write_bytes, Hp.
Qed.

Lemma digit_at_ok i (Q : Z → mem → Prop) m :
  0 ≤ i < 16 → Q (default 0 (digits !! Z.to_nat i)) m → wp (digit_at i) Q m.
Proof.
  intros Hi HQ. unfold digit_at. rewrite (proj2 (Z.leb_le _ _)) by lia.
  destruct (lookup_lt_is_Some_2 digits (Z.to_nat i)) as [d Hd]; [simpl; lia|].
  apply wp_deref. exists d. by rewrite Hd in HQ |- *.
Qed.

Lemma put_digits_ok fuel k p n b m :
  2 ≤ b ≤ 16 → 0 ≤ n < b ^ Z.of_nat k → (k < fuel)%nat →
  mapped m p (Z.of_nat (length (rdigits k b n))) →
  wp (put_digits fuel p n b)
     (λ p' m', p' = p + Z.of_nat (length (rdigits k b n)) ∧ m' = write_bytes m p (rdigits k b n)) m.
Proof.
  intros Hb. revert k p n m. induction fuel as [|f IH]; intros k p n m Hn Hf Hm; [lia|].
  cbn [put_digits]. destruct (decide (n = 0)) as [->|Hne].
  { change (truthy 0) with false. wp_step. destruct k; simpl; split; done || lia. }
  destruct k as [|k]; [simpl in Hn; lia|].
  rewrite truthy_true by done. cbn [rdigits] in *. rewrite (proj2 (Z.eqb_neq n 0)) in * by done.
  rewrite Z.rem_mod_nonneg, Z.quot_div_nonneg by lia. cbn [length write_bytes] in *.
  pose proof (Z.mod_pos_bound n b ltac:(lia)). wp_step.
  apply digit_at_ok; [lia|]. wp_step.
  eapply wp_store8; [apply (mapped_at _ _ _ p Hm); lia|].
  rewrite u8_small by (apply nonzero_byte, digit_nonzero; lia).
  eapply wp_mono; [apply (IH k)|].
  - rewrite Nat2Z.inj_succ, Z.pow_succ_r in Hn by lia.
    split; [apply Z.div_pos; lia|apply Z.div_lt_upper_bound; lia].
  - lia.
  - apply mapped_insert. eapply mapped_le; [apply (mapped_tail _ _ _ 1 Hm); lia|lia].
  - intros p' m' [-> ->]. split; [lia|done].
Qed.

Lemma reverse_loop_ok fuel buf i xs m :
  bytes m (buf + i) xs → Forall byte xs → 0 ≤ i → (length xs < fuel)%nat →
  wp (reverse_loop fuel buf (buf + 2 * i + Z.of_nat (length xs)) i)
     (λ _ m', m' = write_bytes m (buf + i) (rev xs)) m.
Proof.
  revert i xs m. induction fuel as [|k IH]; intros i xs m Hb Hv Hi Hf; [lia|].
  cbn [reverse_loop].
  replace (buf + 2 * i + Z.of_nat (length xs) - buf) with (2 * i + Z.of_nat (length xs)) by lia.
  rewrite Z.quot_div_nonneg by lia.
  assert (Hsmall : (length xs ≤ 1)%nat → rev xs = xs) by (destruct xs as [|? [|??]]; simpl; done || lia).
  destruct (Z.ltb_spec i ((2 * i + Z.of_nat (length xs)) / 2)) as [Hlt|Hge].
  2:{ wp_step. rewrite Hsmall by (Z.div_mod_to_equations; lia).
      apply write_bytes_unique; done. }
  destruct xs as [|x xs]; [exfalso; simpl in Hlt; Z.div_mod_to_equations; lia|].
  destruct xs as [|y ys _] using rev_ind; [exfalso; simpl in Hlt; Z.div_mod_to_equations; lia|].
  cbn [length bytes] in *. rewrite length_app in *. cbn [length] in *.
  destruct Hb as [Hx [Hys [Hy _]]%bytes_app].
  apply Forall_cons in Hv as [Hxv [Hysv [Hyv _]%Forall_cons]%Forall_app].
  set (p := buf + 2 * i + Z.of_nat (S (length ys + 1))) in *.
  replace (p + (-1 - i)) with (buf + i + 1 + Z.of_nat (length ys)) by lia.
  wp_step. eapply wp_load8; [done|]. wp_step. eapply wp_load8; [done|]. wp_step.
  eapply wp_store8; [eauto|]. wp_step.
  eapply wp_store8; [rewrite lookup_insert_ne by lia; eauto|]. rewrite !u8_small by done.
  replace p with (buf + 2 * (i + 1) + Z.of_nat (length ys)) by lia.
  eapply wp_mono.
  { apply IH; [|done|lia..]. replace (buf + (i + 1)) with (buf + i + 1) by lia.
    apply bytes_insert_ne; [lia|]. apply bytes_insert_ne; [lia|done]. }
  intros _ m' ->. cbn [rev]. rewrite rev_app_distr. cbn [rev app write_bytes].
  rewrite write_bytes_snoc, length_rev. replace (buf + (i + 1)) with (buf + i + 1) by lia.
  f_equal.
Qed.

Lemma numeral_pos b n k :
  2 ≤ b ≤ 16 → 0 < n < b ^ Z.of_nat k → (k ≤ 64)%nat → numeral b n = rev (rdigits k b n).
Proof.
  intros Hb Hn Hk. unfold numeral. rewrite (proj2 (Z.eqb_neq n 0)) by lia. f_equal.
  assert (Hgen : ∀ j k' n', 0 ≤ n' < b ^ Z.of_nat k' → (k' ≤ j)%nat → rdigits j b n' = rdigits k' b n').
  { induction j as [|j IH]; intros k' n' Hn' Hj; [by replace k' with O by lia|].
    destruct k' as [|k']; simpl; [simpl in Hn'; by replace n' with 0 by lia|].
    destruct (n' =? 0); [done|]. f_equal. apply IH; [|lia].
    rewrite Nat2Z.inj_succ, Z.pow_succ_r in Hn' by lia.
    split; [apply Z.div_pos; lia|apply Z.div_lt_upper_bound; lia]. }
  apply Hgen; [lia|done].
Qed.

(** The text of [k] or fewer digits, left in the local array in the order of
    the number, with [pre] in front. *)
Lemma reverse_terminate_ok fuel xs m :
  bytes m stk xs → Forall nonzero xs → (length xs < fuel)%nat → (length xs ≤ 26)%nat →
  mapped m stk 27 →
  wp (reverse_loop fuel stk (stk + Z.of_nat (length xs)) 0;; store8 (stk + Z.of_nat (length xs)) 0)
     (λ _ m', m' = write_bytes m stk (rev xs ++ [0]) ∧ cstr m' stk (rev xs)) m.
Proof.
  intros Hb Hv Hf Hl Hm. wp_step. eapply wp_mono.
  { pose proof (reverse_loop_ok fuel stk 0 xs m) as Hr.
    rewrite Z.mul_0_r, !Z.add_0_r in Hr. apply Hr; [done| |lia|lia].
    eapply Forall_impl; [done|apply nonzero_byte]. }
  intros _ ? ->. eapply wp_store8.
  { eapply (mapped_at _ stk 27); [by apply mapped_write_bytes|lia]. }
  change (u8 0) with 0. rewrite write_bytes_app, length_rev. split; [done|].
  rewrite <- (length_rev xs) at 1. change (<[?i := 0]> ?m) with (write_bytes m i [0]).
  rewrite <- write_bytes_app. apply write_bytes_cstr. by apply List.Forall_rev.
Qed.

Lemma nonzero_const c : nonzero c ↔ 0 < c < 256.
Proof. done. Qed.

(** What the buffer holds before it is reversed, written by [put_digits] and
    the statements after it, and the rest of the function. *)
Lemma print_number_ok fuel xs ps props out m m1 :
  stream ps out m → m1 = write_bytes m stk xs → Forall nonzero xs → (length xs ≤ 26)%nat →
  byte (pad props) → - 2 ^ 31 ≤ npad props < 2 ^ 31 →
  Z.of_nat (length out) + Z.of_nat (length (padded props (rev xs))) < 2 ^ 31 →
  (length (padded props (rev xs)) < fuel)%nat →
  wp (reverse_loop fuel stk (stk + Z.of_nat (length xs)) 0;;
      store8 (stk + Z.of_nat (length xs)) 0;; print_str fuel ps stk props)
     (λ ps' m', stream ps' (out ++ padded props (rev xs)) m') m1.
Proof.
  intros Hp -> Hv Hx Hc Hn Hl Hf. pose proof (length_padded props (rev xs)) as Hpl.
  rewrite length_rev in Hpl.
  assert (Hp1 : stream ps out (write_bytes m stk xs)).
  { pose proof (stream_write_stk ps out m 0 xs Hp) as H. rewrite Z.add_0_r in H. apply H; lia. }
  pose proof (reverse_terminate_ok fuel xs (write_bytes m stk xs)) as Hrt.
  specialize (Hrt (bytes_write_bytes _ _ _) Hv ltac:(lia) Hx (st_stk _ _ _ Hp1)).
  apply wp_bind in Hrt. wp_step. eapply wp_mono; [exact Hrt|]. intros [] m2 H2. wp_step.
  eapply wp_mono; [exact H2|]. intros _ m3 [-> Hs].
  eapply wp_mono; [apply (print_str_ok fuel ps stk (rev xs))|by intros ? ? [? _]]; [|done| |done..].
  - pose proof (stream_write_stk ps out (write_bytes m stk xs) 0 (rev xs ++ [0]) Hp1) as H.
    rewrite Z.add_0_r in H. apply H; [lia|]. rewrite length_app, length_rev. simpl. lia.
  - unfold apart. destruct Hlay. rewrite length_rev. unfold disjoint in *. lia.
Qed.

Lemma stk_cell m bs i : mapped m stk 27 → 0 ≤ i < 27 → is_Some (write_bytes m stk bs !! (stk + i)).
Proof. intros Hm Hi. by apply (mapped_write_bytes m stk 27 stk bs). Qed.

Lemma write_bytes_push (m : mem) a bs c :
  <[a + Z.of_nat (length bs) := c]> (write_bytes m a bs) = write_bytes m a (bs ++ [c]).
Proof. by rewrite write_bytes_app. Qed.

Lemma print_int_ok fuel ps n props out m :
  stream ps out m → - 2 ^ 63 < n < 2 ^ 63 → byte (pad props) → - 2 ^ 31 ≤ npad props < 2 ^ 31 →
  Z.of_nat (length out) + Z.of_nat (length (padded props (int_text 10 n))) < 2 ^ 31 →
  (length (padded props (int_text 10 n)) + 64 < fuel)%nat →
  wp (print_int fuel stk ps n 10 props)
     (λ ps' m', stream ps' (out ++ padded props (int_text 10 n)) m') m.
Proof.
  intros Hp Hn Hc Hnp Hl Hf. unfold print_int, int_text in *.
  set (v := if n <? 0 then - n else n).
  assert (0 ≤ v < 10 ^ Z.of_nat 19) as Hv by (subst v; destruct (Z.ltb_spec n 0); lia).
  pose proof (length_rdigits 19 19 10 v ltac:(lia) Hv) as Hlen.
  assert (Hnz : Forall nonzero (rdigits 19 10 v)) by (apply rdigits_nonzero; lia).
  assert ((if n <? 0 then (s64 (- n), 1) else (n, 0)) = (v, of_bool (n <? 0))) as ->.
  { subst v. destruct (Z.ltb_spec n 0); [rewrite s64_small by lia|]; done. }
  cbn beta iota. wp_step. eapply wp_mono.
  { apply (put_digits_ok _ 19); [lia|done|lia|]. eapply mapped_le; [apply Hp|lia]. }
  intros p m1 [-> ->]. wp_step. rewrite truthy_of_bool. subst v.
  pose proof (print_number_ok fuel) as Hnum. destruct (Z.ltb_spec n 0) as [Hneg|Hpos].
  - rewrite (numeral_pos 10 (- n) 19) in * by lia.
    change (45 :: rev ?l) with (rev [45] ++ rev l) in *. rewrite <- rev_app_distr in *.
    wp_step. eapply wp_store8; [apply stk_cell; [apply Hp|lia]|]. wp_step.
    rewrite (proj2 (Z.eqb_neq _ _)) by lia. wp_step. rewrite write_bytes_push.
    specialize (Hnum (rdigits 19 10 (- n) ++ [45]) ps props out m _ Hp eq_refl).
    rewrite length_app, Nat2Z.inj_add, Z.add_assoc in Hnum. cbn [length] in Hnum.
    apply wp_bind in Hnum; [exact Hnum|apply Forall_app; split; [done|by repeat constructor]|lia|done..|lia].
  - wp_step. destruct (decide (n = 0)) as [->|Hne].
    + cbn [rdigits Z.eqb length]. rewrite Z.add_0_r, Z.eqb_refl. wp_step.
      cbn [write_bytes]. eapply wp_store8; [apply (mapped_at _ stk 27); [apply Hp|lia]|]. wp_step.
      specialize (Hnum [48] ps props out m _ Hp eq_refl).
      apply wp_bind in Hnum; [exact Hnum|by repeat constructor|simpl; lia|done..|].
      change (rev [48]) with (numeral 10 0). lia.
    + rewrite (numeral_pos 10 n 19) in * by lia.
      assert (length (rdigits 19 10 n) ≠ O).
      { cbn [rdigits]. by rewrite (proj2 (Z.eqb_neq n 0)) by done. }
      rewrite (proj2 (Z.eqb_neq _ _)) by lia. wp_step.
      specialize (Hnum (rdigits 19 10 n) ps props out m _ Hp eq_refl).
      apply wp_bind in Hnum; [exact Hnum|done|lia|done..|lia].
Qed.

Lemma stream_add_two ps c d out m :
  stream ps out m → Z.of_nat (length out) + 2 < 2 ^ 31 → byte c → byte d →
  wp (addchar ps c ≫= λ ps, addchar ps d)
     (λ ps' m', stream ps' (out ++ [c; d]) m' ∧ keeps m m') m.
Proof.
  intros Hp Hl Hc Hd. wp_step. eapply wp_mono; [apply addchar_ok; [done|lia]|].
  intros p1 m1 [Hp1 Hk1]. eapply wp_mono; [apply addchar_ok; [done|rewrite length_app; cbn [length]; lia]|].
  intros p2 m2 [Hp2 Hk2]. rewrite !u8_small, <- app_assoc in Hp2 by done.
  split; [done|by eapply keeps_trans].
Qed.

Lemma bytes_keeps m m' a bs :
  keeps m m' → apart a (Z.of_nat (length bs)) → bytes m a bs → bytes m' a bs.
Proof.
  intros Hk Ha. apply bytes_ext. intros i Hi. apply Hk. unfold apart, disjoint, in_out in *. lia.
Qed.

Lemma print_number_ok' fuel xs ps props out m :
  stream ps out m → bytes m stk xs → Forall nonzero xs → (length xs ≤ 26)%nat →
  byte (pad props) → - 2 ^ 31 ≤ npad props < 2 ^ 31 →
  Z.of_nat (length out) + Z.of_nat (length (padded props (rev xs))) < 2 ^ 31 →
  (length (padded props (rev xs)) < fuel)%nat →
  wp (reverse_loop fuel stk (stk + Z.of_nat (length xs)) 0)
     (λ _ m', wp (store8 (stk + Z.of_nat (length xs)) 0;; print_str fuel ps stk props)
        (λ ps' m', stream ps' (out ++ padded props (rev xs)) m') m') m.
Proof.
  intros Hp Hb Hv Hx Hc Hn Hl Hf. assert (m = write_bytes m stk xs) as Hm by by apply write_bytes_unique.
  pose proof (print_number_ok fuel xs ps props out m m Hp Hm Hv Hx Hc Hn Hl Hf) as H.
  apply wp_bind in H. exact H.
Qed.

Definition byte_props (props : strprops) : Prop :=
  byte (pad props) ∧ - 2 ^ 31 ≤ npad props < 2 ^ 31.

Lemma print_unsigned_ok fuel ps n b props out m :
  stream ps out m → 0 ≤ n < 2 ^ 32 → b = 10 ∨ b = 16 → byte_props props →
  Z.of_nat (length out) + Z.of_nat (length (unsigned_text b n props)) < 2 ^ 31 →
  (length (unsigned_text b n props) + 64 < fuel)%nat →
  wp (print_unsigned fuel stk ps n b props)
     (λ ps' m', stream ps' (out ++ unsigned_text b n props) m') m.
Proof.
  intros Hp Hn Hb [Hc Hnp] Hl Hf. unfold print_unsigned, unsigned_text in *.
  assert (n < b ^ Z.of_nat 10) as Hv by (destruct Hb as [-> | ->]; lia).
  pose proof (length_rdigits 10 10 b n ltac:(lia) ltac:(lia)) as Hlen.
  assert (Hnz : Forall nonzero (rdigits 10 b n)) by (apply rdigits_nonzero; lia).
  wp_step. eapply wp_mono.
  { apply (put_digits_ok _ 10); [lia|lia|lia|]. eapply mapped_le; [apply Hp|lia]. }
  intros p m1 [-> ->].
  destruct (Z.eqb_spec n 0) as [->|Hne]; cbn [negb andb] in *.
  { cbn [rdigits Z.eqb length write_bytes]. rewrite Z.add_0_r, Z.eqb_refl. wp_step.
    eapply wp_store8; [apply (mapped_at _ stk 27); [apply Hp|lia]|]. wp_step.
    change (u8 (ch "0")) with 48.
    pose proof (stream_write_stk ps out m 0 [48] Hp) as Hp1. rewrite Z.add_0_r in Hp1.
    apply (print_number_ok' fuel [48]); [apply Hp1; [done|simpl; lia]|split; [apply lookup_insert_eq|done]
      |by repeat constructor|simpl; lia|done..|].
    change (rev [48]) with (numeral b 0). lia. }
  rewrite (numeral_pos b n 10) in * by lia.
  assert (length (rdigits 10 b n) ≠ O).
  { cbn [rdigits]. by rewrite (proj2 (Z.eqb_neq n 0)) by done. }
  rewrite (proj2 (Z.eqb_neq (_ + _) _)) by lia.
  assert (Hp1 : ∀ bs, Z.of_nat (length bs) ≤ 27 → stream ps out (write_bytes m stk bs)).
  { intros bs Hbs. pose proof (stream_write_stk ps out m 0 bs Hp) as H'.
    rewrite Z.add_0_r in H'. apply H'; lia. }
  pose proof (bytes_write_bytes m stk (rdigits 10 b n)) as Hby.
  destruct (alternate props && (b =? 16)); [|wp_step; apply print_number_ok'; auto with lia].
  change (ch "0") with 48. change (ch "x") with 120.
  destruct (pad props =? 48) eqn:Hpad; wp_step.
  - set (props' := if 0 <? npad props then _ else props) in *.
    assert (byte (pad props') ∧ - 2 ^ 31 ≤ npad props' < 2 ^ 31) as [Hc' Hnp'].
    { subst props'. destruct (0 <? npad props); [|done]. split; [done|simpl; lia]. }
    pose proof (stream_add_two ps 48 120 out _ (Hp1 (rdigits 10 b n) ltac:(lia))) as H2.
    apply wp_bind in H2; [|cbn [length] in *; lia|done..].
    eapply wp_mono; [exact H2|]. intros p1 m2 H3. wp_step.
    eapply wp_mono; [exact H3|]. intros p2 m3 [Hp2 Hk]. wp_step.
    eapply wp_mono; [apply print_number_ok'; [done| |done|lia|done..| |]|].
    + eapply bytes_keeps; [done| |done]. destruct Hlay. unfold apart, disjoint in *. lia.
    + rewrite length_app. cbn [length] in *. lia.
    + cbn [length] in *. lia.
    + intros ps' m' Hs. rewrite <- app_assoc in Hs. exact Hs.
  - change (48 :: 120 :: rev ?l) with (rev [120; 48] ++ rev l) in *. rewrite <- rev_app_distr in *.
    eapply wp_store8; [apply stk_cell; [apply Hp|lia]|]. wp_step. rewrite write_bytes_push.
    eapply wp_store8.
    { rewrite <- Z.add_assoc. apply stk_cell; [apply Hp|lia]. }
    wp_step. change (u8 120) with 120. change (u8 48) with 48.
    replace (stk + Z.of_nat (length (rdigits 10 b n)) + 1) with
      (stk + Z.of_nat (length (rdigits 10 b n ++ [120]))) by (rewrite length_app; cbn [length]; lia).
    rewrite write_bytes_push, <- app_assoc. cbn [app].
    replace (stk + Z.of_nat (length (rdigits 10 b n)) + 2) with
      (stk + Z.of_nat (length (rdigits 10 b n ++ [120; 48]))) by (rewrite length_app; cbn [length]; lia).
    apply print_number_ok'; [apply Hp1; rewrite length_app; cbn [length]; lia|apply bytes_write_bytes
      |apply Forall_app; split; [done|by repeat constructor]|rewrite length_app; cbn [length]; lia|done..|lia].
Qed.


(** ** The format language *)

(** A string the caller owns: apart from the output buffer and the local array. *)
Definition str (a : Z) (s : list Z) : Prop :=
  cstr m0 a s ∧ disjoint base (cap + 1) a (Z.of_nat (length s) + 1) ∧
  disjoint stk 27 a (Z.of_nat (length s) + 1).

(** The 32-bit word a caller's pointer leads to. *)
Definition word (a w : Z) : Prop :=
  ∃ bs, bytes m0 a bs ∧ length bs = 4%nat ∧ Forall byte bs ∧
    w = foldr (λ b acc, b + 256 * acc) 0 bs ∧
    disjoint base (cap + 1) a 4 ∧ disjoint stk 27 a 4.

(** The characters a width takes up, and the width they denote. *)
Fixpoint digit_run (s : list Z) : nat :=
  match s with c :: s' => if is_digit c then S (digit_run s') else O | [] => O end.
Definition number_run (s : list Z) : nat :=
  match s with c :: s' => if c =? 45 then S (digit_run s') else digit_run s | [] => O end.
Definition number_value (s : list Z) : Z := s32 (s64 (signed_decimal (skip_blanks s))).

(** [conv f va nl pr out f' va']: the conversion whose characters after the
    percent sign (and after the flags read so far, [nl] of them an [l]) are at
    the front of [f] prints [out] and leaves the format [f'] and the arguments
    [va']. *)
Inductive conv : list Z → list Z → Z → strprops → list Z → list Z → list Z → Prop :=
  | conv_end va nl pr : conv [] va nl pr [] [] va
  | conv_percent c f va nl pr :
      classify c = CPercent → conv (c :: f) va nl pr [37] f va
  | conv_char c f v va nl pr :
      classify c = CChar → conv (c :: f) (v :: va) nl pr [u8 v] f va
  | conv_alternate c f va nl pr out f' va' :
      classify c = CAlternate → conv f va nl (set_alternate pr) out f' va' →
      conv (c :: f) va nl pr out f' va'
  | conv_zero c f va nl pr out f' va' :
      classify c = CZero →
      conv (drop (number_run f) f) va nl (set_npad (number_value f) (set_pad 48 pr)) out f' va' →
      conv (c :: f) va nl pr out f' va'
  | conv_width c f va nl pr out f' va' :
      classify c = CWidth →
      conv (drop (number_run (c :: f)) (c :: f)) va nl (set_npad (number_value (c :: f)) pr) out f' va' →
      conv (c :: f) va nl pr out f' va'
  | conv_long c f va nl pr out f' va' :
      classify c = CLong → conv f va (nl + 1) pr out f' va' → conv (c :: f) va nl pr out f' va'
  | conv_size c f va nl pr out f' va' :
      classify c = CSize → conv f va 1 pr out f' va' → conv (c :: f) va nl pr out f' va'
  | conv_decimal c f v n va nl pr :
      classify c = CDecimal → n = (if nl =? 0 then s32 v else s64 v) → - 2 ^ 63 < n →
      conv (c :: f) (v :: va) nl pr (padded pr (int_text 10 n)) f va
  | conv_unsigned c f v va nl pr :
      classify c = CUnsigned →
      conv (c :: f) (v :: va) nl pr (unsigned_text 10 (u32 v) pr) f va
  | conv_hex c f v va nl pr :
      classify c = CHex →
      conv (c :: f) (v :: va) nl pr (unsigned_text 16 (u32 v) pr) f va
  | conv_pointer c f v w va nl pr :
      classify c = CPointer → word v w →
      conv (c :: f) (v :: va) nl pr (unsigned_text 16 w (set_alternate pr)) f va
  | conv_string c f v s va nl pr :
      classify c = CString → str v s →
      conv (c :: f) (v :: va) nl pr (padded pr s) f va
  | conv_other c f va nl pr :
      classify c = COther → conv (c :: f) va nl pr [c] f va.

(** [formats f va out]: the format [f] with the arguments [va] prints [out]. *)
Inductive formats : list Z → list Z → list Z → Prop :=
  | formats_end va : formats [] va []
  | formats_plain c f va out :
      c ≠ 37 → formats f va out → formats (c :: f) va (c :: out)
  | formats_conv f va out1 f' va' out2 :
      conv f va 0 default_props out1 f' va' → formats f' va' out2 →
      formats (37 :: f) va (out1 ++ out2).

Lemma stream_str p out m a s :
  stream p out m → str a s → cstr m a s ∧ apart a (Z.of_nat (length s) + 1).
Proof.
  intros Hp (Hs & Ho & Hk). split; [|done]. eapply cstr_ext; [|done].
  intros i Hi. unfold disjoint in *. apply (st_frame _ _ _ Hp); unfold in_out, in_stk; lia.
Qed.

Lemma str_tail a c s : str a (c :: s) → nonzero c ∧ str (a + 1) s.
Proof.
  intros ((_ & Hn & Hs)%cstr_cons & Ho & Hk). cbn [length] in *. split; [done|].
  unfold str, disjoint in *. split_and!; [done|lia..].
Qed.
Lemma str_drop a s n : (n ≤ length s)%nat → str a s → str (a + Z.of_nat n) (drop n s).
Proof.
  revert a s. induction n as [|n IH]; intros a s Hn Hs.
  { by rewrite drop_0, Z.add_0_r. }
  destruct s as [|c s]; [simpl in Hn; lia|]. apply str_tail in Hs as [_ Hs].
  replace (a + Z.of_nat (S n)) with (a + 1 + Z.of_nat n) by lia.
  simpl. apply IH; [simpl in Hn; lia|done].
Qed.

Lemma digit_run_le s : (digit_run s ≤ length s)%nat.
Proof. induction s as [|c s]; simpl; [lia|]. destruct (is_digit c); lia. Qed.
Lemma number_run_le s : (number_run s ≤ length s)%nat.
Proof.
  destruct s as [|c s]; [done|]. unfold number_run.
  pose proof (digit_run_le s). pose proof (digit_run_le (c :: s)).
  destruct (c =? 45); simpl in *; lia.
Qed.

Lemma count_digits_ok fuel m a s l :
  cstr m a s → (length s < fuel)%nat →
  wp (count_digits fuel a l) (λ r m', m' = m ∧ r = l + Z.of_nat (digit_run s)) m.
Proof.
  revert a s l. induction fuel as [|k IH]; intros a s l Hs Hf; [lia|].
  cbn [count_digits]. wp_step. destruct s as [|c s].
  - apply cstr_nil in Hs. eapply wp_load8; [done|]. simpl. wp_step. split; [done|lia].
  - apply cstr_cons in Hs as (Hc & Hn & Hs). cbn [length digit_run] in *.
    eapply wp_load8; [done|]. destruct (is_digit c); [|wp_step; split; [done|lia]].
    eapply wp_mono; [apply IH; [done|lia]|]. intros r m' [-> ->]. split; [done|lia].
Qed.

Lemma fmtnum_ok fuel m a s :
  cstr m a s → (length s < fuel)%nat →
  wp (fmtnum fuel a)
     (λ r m', m' = m ∧ r = (number_value s, a + Z.of_nat (number_run s))) m.
Proof.
  intros Hs Hf. unfold fmtnum. wp_step.
  assert (Hrest : ∀ l, wp (num ← atol fuel a; mret (s32 num, a + l))
    (λ r m', m' = m ∧ r = (number_value s, a + l)) m).
  { intros l. wp_step. eapply wp_mono; [by apply (atol_ok _ _ _ s)|].
    intros r ? [-> ->]. by wp_step. }
  destruct s as [|c s].
  - apply cstr_nil in Hs as Hz. eapply wp_load8; [done|]. change (0 =? ch "-") with false. wp_step.
    eapply wp_mono; [by apply (count_digits_ok _ _ _ [])|]. intros r ? [-> ->]. apply Hrest.
  - apply cstr_cons in Hs as Hc. destruct Hc as (Hc & Hn & Hs'). eapply wp_load8; [done|].
    change (ch "-") with 45. unfold number_run. destruct (c =? 45); wp_step.
    + eapply wp_mono; [apply (count_digits_ok _ _ _ s); [done|simpl in Hf; lia]|]. intros r ? [-> ->].
      rewrite Nat2Z.inj_succ, <- Z.add_1_l. apply Hrest.
    + eapply wp_mono; [by apply (count_digits_ok _ _ _ (c :: s))|]. intros r ? [-> ->]. apply Hrest.
Qed.

Lemma load32_ok a w p out m (Q : Z → mem → Prop) :
  stream p out m → word a w → (0 ≤ w < 2 ^ 32 → Q w m) → wp (load32 a) Q m.
Proof.
  intros Hp (bs & Hb & Hl & Hv & Hw & Ho & Hk) HQ.
  assert (Hb' : bytes m a bs).
  { eapply bytes_ext; [|done]. intros i Hi. unfold disjoint in *.
    apply (st_frame _ _ _ Hp); unfold in_out, in_stk; lia. }
  destruct bs as [|b0 [|b1 [|b2 [|b3 [|]]]]]; try done. cbn [bytes] in Hb'.
  destruct Hb' as (H0 & H1 & H2 & H3 & _). replace (a + 1 + 1) with (a + 2) in * by lia.
  replace (a + 2 + 1) with (a + 3) in * by lia.
  rewrite !Forall_cons in Hv. destruct Hv as (Hv0 & Hv1 & Hv2 & Hv3 & _). unfold byte in *.
  cbn [foldr] in Hw. unfold load32.
  do 4 (wp_step; eapply wp_load8; [done|]). wp_step. rewrite !Z.shiftl_mul_pow2 by lia.
  replace (b0 + b1 * 2 ^ 8 + b2 * 2 ^ 16 + b3 * 2 ^ 24) with w by lia. apply HQ. lia.
Qed.

Lemma s32_range x : - 2 ^ 31 ≤ s32 x < 2 ^ 31.
Proof. unfold s32. pose proof (Z.mod_pos_bound (x + 2 ^ 31) (2 ^ 32) ltac:(lia)). lia. Qed.
Lemma s64_range x : - 2 ^ 63 ≤ s64 x < 2 ^ 63.
Proof. unfold s64. pose proof (Z.mod_pos_bound (x + 2 ^ 63) (2 ^ 64) ltac:(lia)). lia. Qed.

(** What a conversion leaves: the stream with its text, the rest of the format,
    the arguments left. *)
Definition conv_post (out : list Z) (f' va' : list Z) (r : pstream * Z * list Z) (m : mem) : Prop :=
  let '(p, a, va) := r in stream p out m ∧ str a f' ∧ va = va'.

Lemma width_run c f : classify c = CWidth → number_run (c :: f) ≠ O.
Proof.
  unfold classify, number_run. cbn [digit_run]. unfold is_digit.
  change (ch "-") with 45. change (ch "1") with 49. change (ch "9") with 57.
  repeat (case_match; try done); lia.
Qed.

Lemma directive_ok f va nl pr txt f' va' :
  conv f va nl pr txt f' va' →
  ∀ fuel p o a m, stream p o m → str a f → byte_props pr →
  Z.of_nat (length o) + Z.of_nat (length txt) < 2 ^ 31 →
  (length f + length txt + 66 < fuel)%nat →
  wp (directive fuel stk p a va nl pr) (conv_post (o ++ txt) f' va') m.
Proof.
  induction 1; intros fuel p o a m Hp Hs Hpr Hl Hf; (destruct fuel as [|k]; [lia|]);
    destruct (stream_str _ _ _ _ _ Hp Hs) as [Hm _];
    try (apply str_tail in Hs as Ht; destruct Ht as [Hn Ht]; apply cstr_cons in Hm as (Hm & _ & _));
    try apply cstr_nil in Hm;
    cbn [directive]; wp_step; (eapply wp_load8; [done|]); cbn zeta;
    try match goal with H : classify _ = _ |- _ => rewrite H end; cbn beta iota; cbn [length] in *.
  - change (classify 0) with CEnd. cbn beta iota. wp_step. rewrite app_nil_r.
    split_and!; [done| |done]. by replace (a + 1 - 1) with a by lia.
  - wp_step. eapply wp_mono; [apply addchar_ok; [done|lia]|]. intros p1 m1 [Hp1 _]. by wp_step.
  - cbn [va_next]. wp_step. eapply wp_mono; [apply addchar_ok; [done|lia]|].
    intros p1 m1 [Hp1 _]. by wp_step.
  - apply IHconv; [done..|lia].
  - wp_step. replace (a + 1 + 1 - 1) with (a + 1) by lia.
    pose proof (number_run_le f) as Hrun.
    destruct (stream_str _ _ _ _ _ Hp Ht) as [Hmf _].
    eapply wp_mono; [apply (fmtnum_ok _ _ _ f); [done|lia]|]. intros r ? [-> ->].
    apply IHconv; [done|by apply str_drop| |done|rewrite length_drop; lia].
    split; [unfold byte; simpl; lia|apply s32_range].
  - wp_step. replace (a + 1 - 1) with a by lia.
    pose proof (number_run_le (c :: f)) as Hrun.
    destruct (stream_str _ _ _ _ _ Hp Hs) as [Hmf _].
    eapply wp_mono; [apply (fmtnum_ok _ _ _ (c :: f)); [done|simpl; lia]|]. intros r ? [-> ->].
    apply IHconv; [done|by apply str_drop| |done|].
    + destruct Hpr. split; [done|apply s32_range].
    + pose proof (width_run c f ltac:(done)).
      rewrite length_drop. simpl in *; lia.
  - apply IHconv; [done..|lia].
  - apply IHconv; [done..|lia].
  - cbn [va_next]. wp_step. subst n. destruct Hpr as [? ?].
    eapply wp_mono; [apply print_int_ok; [done| |done..|lia]|].
    { split; [done|]. pose proof (s32_range v). pose proof (s64_range v). destruct (nl =? 0); lia. }
    intros p1 m1 Hp1. by wp_step.
  - cbn [va_next]. wp_step.
    eapply wp_mono; [apply print_unsigned_ok; [done|apply Z.mod_pos_bound; lia|lia|done..|lia]|].
    intros p1 m1 Hp1. by wp_step.
  - cbn [va_next]. wp_step.
    eapply wp_mono; [apply print_unsigned_ok; [done|apply Z.mod_pos_bound; lia|lia|done..|lia]|].
    intros p1 m1 Hp1. by wp_step.
  - cbn [va_next]. wp_step. eapply load32_ok; [done..|]. intros Hw. wp_step.
    eapply wp_mono; [apply print_unsigned_ok; [done|done|lia|done..|lia]|].
    intros p1 m1 Hp1. by wp_step.
  - cbn [va_next]. wp_step. destruct Hpr as [? ?]. destruct (stream_str _ _ _ v s Hp) as [Hsm Hsa]; [done|].
    eapply wp_mono; [apply (print_str_ok _ _ _ s); [done..|lia]|]. intros p1 m1 [Hp1 _]. by wp_step.
  - wp_step. eapply wp_mono; [apply addchar_ok; [done|lia]|]. intros p1 m1 [Hp1 _]. wp_step.
    by rewrite u8_small in Hp1 by by apply nonzero_byte.
Qed.

Lemma conv_shorter f va nl pr txt f' va' : conv f va nl pr txt f' va' → (length f' ≤ length f)%nat.
Proof. induction 1; cbn [length] in *; rewrite ?length_drop in *; cbn [length] in *; lia. Qed.

Lemma vsnprintf_loop_ok fuel f va txt p o a m :
  formats f va txt → stream p o m → str a f →
  Z.of_nat (length o) + Z.of_nat (length txt) < 2 ^ 31 →
  (length f + length txt + 70 < fuel)%nat →
  wp (vsnprintf_loop fuel stk p a va) (λ p' m', stream p' (o ++ txt) m') m.
Proof.
  intros Hfm. revert fuel p o a m.
  induction Hfm as [va|c f va txt Hc Hfm IH|f va txt1 f' va' txt2 Hcv Hfm IH];
    intros fuel p o a m Hp Hs Hl Hf; (destruct fuel as [|k]; [lia|]);
    destruct (stream_str _ _ _ _ _ Hp Hs) as [Hm _]; cbn [vsnprintf_loop]; wp_step.
  - apply cstr_nil in Hm. eapply wp_load8; [done|]. simpl. wp_step. by rewrite app_nil_r.
  - apply str_tail in Hs as [Hn Hs]. apply cstr_cons in Hm as (Hm & _ & _).
    cbn [length] in *. eapply wp_load8; [done|]. rewrite nonzero_truthy by done.
    change (ch "%") with 37. rewrite (proj2 (Z.eqb_neq c 37)) by done. cbn [negb]. wp_step.
    eapply wp_mono; [apply addchar_ok; [done|lia]|]. intros p1 m1 [Hp1 _].
    rewrite u8_small in Hp1 by by apply nonzero_byte.
    eapply wp_mono; [apply (IH k p1); [done|done| |lia]|].
    + rewrite length_app. simpl. lia.
    + intros p2 m2 Hp2. by rewrite <- app_assoc in Hp2.
  - apply str_tail in Hs as [Hn Hs]. apply cstr_cons in Hm as (Hm & _ & _).
    pose proof (conv_shorter _ _ _ _ _ _ _ Hcv).
    cbn [length] in *. rewrite length_app in *. eapply wp_load8; [done|].
    rewrite nonzero_truthy by done. change (37 =? ch "%") with true. cbn [negb]. wp_step.
    eapply wp_mono; [eapply (directive_ok _ _ _ _ _ _ _ Hcv k p); [done|done| |lia|lia]|].
    { by repeat split. }
    intros [[p1 a1] va1] m1 (Hp1 & Hs1 & ->).
    eapply wp_mono; [apply (IH k p1); [done|done| |lia]|].
    + rewrite length_app. lia.
    + intros p2 m2 Hp2. by rewrite <- app_assoc in Hp2.
Qed.

Lemma vsnprintf_ok fuel f va txt a :
  formats f va txt → str a f → Z.of_nat (length txt) < 2 ^ 31 →
  (length f + length txt + 70 < fuel)%nat →
  wp (vsnprintf fuel stk base (cap + 1) a va)
     (λ r m', r = Z.of_nat (length txt) ∧
        bytes m' base (take (Z.to_nat cap) txt ++ [0]) ∧
        ∀ i, ¬ in_out i → ¬ in_stk i → m' !! i = m0 !! i) m0.
Proof.
  intros Hfm Hs Hl Hf. pose proof Hlay as [Hcap Ho Hk Hd]. unfold vsnprintf.
  rewrite s32_small by lia. replace (cap + 1 - 1) with cap by lia. wp_step.
  eapply wp_mono; [apply (vsnprintf_loop_ok _ f _ txt _ []); [done| |done|simpl; lia|done]|].
  { constructor; cbn [p_buffer p_remain p_added length]; [lia..| |done|done|done]. by rewrite take_nil. }
  intros p m [Hb Hr Ha Hby Ho' Hs' Hfr]. cbn [app] in *. wp_step.
  eapply wp_store8; [apply (mapped_at _ base (cap + 1)); [done|lia]|]. wp_step.
  change (u8 0) with 0. split_and!; [done| |].
  - apply bytes_app. split.
    + apply bytes_insert_ne; [|done]. rewrite length_take. lia.
    + simpl. split; [|done]. rewrite length_take.
      replace (base + Z.of_nat (Z.to_nat cap `min` length txt)) with (p_buffer p) by lia.
      apply lookup_insert_eq.
  - intros i Hi1 Hi2. rewrite lookup_insert_ne; [by apply Hfr|]. unfold in_out in Hi1. lia.
Qed.
End stream.

(** C12: [vsnprintf] with a buffer of [size] bytes, at least one, prints the
    text its format and arguments stand for: it returns the length of the whole
    text, the buffer holds the text cut to [size - 1] characters and a
    terminator, and no byte outside the buffer and the local arrays changes. *)
Theorem vsnprintf_correct fuel (m : mem) buf size stk fmt f va txt :
  layout m buf (size - 1) stk → str m buf (size - 1) stk fmt f →
  formats m buf (size - 1) stk f va txt →
  Z.of_nat (length txt) < 2 ^ 31 → (length f + length txt + 70 < fuel)%nat →
  wp (vsnprintf fuel stk buf size fmt va)
     (λ r m', r = Z.of_nat (length txt) ∧
        bytes m' buf (take (Z.to_nat (size - 1)) txt ++ [0]) ∧
        ∀ i, ¬ buf ≤ i < buf + size → ¬ stk ≤ i < stk + 27 → m' !! i = m !! i) m.
Proof.
  intros Hlay Hs Hfm Hl Hf. replace size with (size - 1 + 1) at 1 by lia.
  eapply wp_mono; [by apply (vsnprintf_ok m buf (size - 1) stk Hlay _ f _ txt)|].
  intros r m' (-> & Hb & Hfr). split_and!; [done..|]. intros i H1 H2.
  apply Hfr; unfold in_out, in_stk; lia.
Qed.

(** ** [print_int] and [atol] *)

(** Every numeral starts with a digit and has nothing but digits. *)
Lemma digit_at_value i : 0 ≤ i < 10 →
  is_digit (default 0 (digits !! Z.to_nat i)) = true ∧ default 0 (digits !! Z.to_nat i) - 48 = i.
Proof.
  intros Hi. assert (i ∈ [0;1;2;3;4;5;6;7;8;9]) as Hin by (rewrite !elem_of_cons; lia).
  rewrite !elem_of_cons in Hin.
  repeat destruct Hin as [->|Hin]; try (by apply not_elem_of_nil in Hin); done.
Qed.

Lemma decimal_app acc ds s :
  Forall (λ c, is_digit c = true) ds → decimal acc (ds ++ s) = decimal (decimal acc ds) s.
Proof.
  revert acc. induction ds as [|d ds IH]; intros acc Hd; [done|].
  apply Forall_cons in Hd as [Hd Hds]. cbn [app decimal]. rewrite Hd. by apply IH.
Qed.

Lemma rdigits_digits k n : Forall (λ c, is_digit c = true) (rdigits k 10 n).
Proof.
  revert n. induction k as [|k IH]; intros n; cbn [rdigits]; [done|].
  destruct (n =? 0); [done|]. constructor; [|apply IH].
  apply digit_at_value. apply Z.mod_pos_bound. lia.
Qed.

Lemma decimal_rdigits k n : 0 ≤ n < 10 ^ Z.of_nat k → decimal 0 (rev (rdigits k 10 n)) = n.
Proof.
  revert n. induction k as [|k IH]; intros n Hn; cbn [rdigits]; [simpl in *; lia|].
  destruct (Z.eqb_spec n 0) as [->|Hne]; [done|]. cbn [rev].
  rewrite Nat2Z.inj_succ, Z.pow_succ_r in Hn by lia.
  rewrite decimal_app by (apply List.Forall_rev, rdigits_digits).
  rewrite IH by (split; [apply Z.div_pos; lia|apply Z.div_lt_upper_bound; lia]).
  destruct (digit_at_value (n mod 10)) as [Hd Hv]; [apply Z.mod_pos_bound; lia|].
  cbn [decimal]. rewrite Hd, Hv. pose proof (Z.div_mod n 10). lia.
Qed.

Lemma decimal_numeral n : 0 ≤ n < 2 ^ 64 → decimal 0 (numeral 10 n) = n.
Proof.
  intros Hn. destruct (decide (n = 0)) as [->|]; [done|].
  rewrite (numeral_pos 10 n 20) by lia. apply decimal_rdigits. lia.
Qed.

(** The first character of a numeral is a digit. *)
Lemma numeral_head n : 0 ≤ n < 2 ^ 64 → ∃ c s, numeral 10 n = c :: s ∧ is_digit c = true.
Proof.
  intros Hn. unfold numeral. destruct (Z.eqb_spec n 0) as [->|Hne]; [by exists 48, []|].
  pose proof (List.Forall_rev (rdigits_digits 64 n)) as Hd.
  destruct (rev (rdigits 64 10 n)) as [|c s] eqn:Hrev.
  - apply (f_equal length) in Hrev. rewrite length_rev in Hrev. cbn [rdigits] in Hrev.
    by rewrite (proj2 (Z.eqb_neq n 0)) in Hrev by done.
  - apply Forall_cons in Hd as [Hd _]. eauto.
Qed.

Lemma parse_int_text n : - 2 ^ 63 < n < 2 ^ 63 → signed_decimal (skip_blanks (int_text 10 n)) = n.
Proof.
  intros Hn. unfold int_text. destruct (Z.ltb_spec n 0).
  - cbn [skip_blanks signed_decimal Z.eqb orb]. simpl. rewrite decimal_numeral by lia. lia.
  - destruct (numeral_head n) as (c & s & Heq & Hd); [lia|].
    rewrite <- (decimal_numeral n) at 2 by lia. rewrite Heq. unfold is_digit in Hd.
    cbn [skip_blanks]. rewrite (proj2 (Z.eqb_neq c 32)), (proj2 (Z.eqb_neq c 9)) by lia.
    cbn [orb signed_decimal]. by rewrite (proj2 (Z.eqb_neq c 45)), (proj2 (Z.eqb_neq c 43)) by lia.
Qed.

Lemma int_text_nonzero n : Forall nonzero (int_text 10 n).
Proof.
  assert (H : ∀ v, Forall nonzero (numeral 10 v)).
  { intros v. unfold numeral. destruct (v =? 0); [by repeat constructor|].
    apply List.Forall_rev, rdigits_nonzero. lia. }
  unfold int_text. destruct (n <? 0); [constructor; [done|]|]; apply H.
Qed.

Lemma length_int_text n : - 2 ^ 63 < n < 2 ^ 63 → (length (int_text 10 n) ≤ 20)%nat.
Proof.
  assert (H : ∀ v, 0 ≤ v < 2 ^ 63 → (length (numeral 10 v) ≤ 19)%nat).
  { intros v Hv. unfold numeral. destruct (v =? 0); [simpl; lia|].
    rewrite length_rev. apply length_rdigits; [lia|]. change (10 ^ Z.of_nat 19) with (10 ^ 19). lia. }
  intros Hn. unfold int_text. destruct (Z.ltb_spec n 0); cbn [length]; [|pose proof (H n); lia].
  pose proof (H (- n)). lia.
Qed.

(** Printing and parsing a number are inverse: a [long], other than the
    least one, printed with "%ld" into a buffer of at least 21 bytes, is read
    back by [atol]. *)
Lemma print_parse_roundtrip fuel (m : mem) buf size stk fmt v :
  layout m buf (size - 1) stk → 21 ≤ size →
  str m buf (size - 1) stk fmt [ch "%"; ch "l"; ch "d"] →
  - 2 ^ 63 < v < 2 ^ 63 → (100 < fuel)%nat →
  wp (vsnprintf fuel stk buf size fmt [v];; atol fuel buf) (λ r _, r = v) m.
Proof.
  intros Hlay Hsize Hs Hv Hf. pose proof (length_int_text v Hv) as Hlen. wp_step.
  replace size with (size - 1 + 1) at 1 by lia. eapply wp_mono.
  { apply (vsnprintf_ok m buf (size - 1) stk Hlay _ [ch "%"; ch "l"; ch "d"] _ (int_text 10 v ++ []));
      [|done|rewrite app_nil_r; lia|rewrite app_nil_r; simpl; lia].
    eapply formats_conv; [|apply formats_end].
    apply conv_long; [done|].
    replace (int_text 10 v) with (padded default_props (int_text 10 v)); [apply conv_decimal; try done|].
    - simpl. rewrite s64_small by lia. done.
    - lia.
    - unfold padded. cbn [npad default_props].
      replace (Z.to_nat (0 - Z.of_nat (length (int_text 10 v)))) with O by lia.
      replace (Z.to_nat (-0 - Z.of_nat (length (int_text 10 v)))) with O by lia.
      cbn [replicate app]. by rewrite app_nil_r. }
  intros r m' (_ & Hb & _). rewrite app_nil_r, take_ge in Hb by lia.
  eapply wp_mono; [apply (atol_ok _ _ _ (int_text 10 v))|].
  - split; [done|apply int_text_nonzero].
  - lia.
  - intros r' ? [_ ->]. rewrite parse_int_text by done. apply s64_small. lia.
Qed.

(** ** [binstr] *)

(** Four bits of [x], the highest first, from the bit [k] down. *)
Definition bit_char (x k : Z) : Z := if Z.testbit x k then 49 else 48.
Definition nibble (x k : Z) : list Z :=
  [bit_char x k; bit_char x (k - 1); bit_char x (k - 2); bit_char x (k - 3)].
(** The nibbles of a 32-bit word, with quotes between them. *)
Definition binstr_text (x : Z) : list Z :=
  nibble x 31 ++ [39] ++ nibble x 27 ++ [39] ++ nibble x 23 ++ [39] ++ nibble x 19 ++ [39] ++
  nibble x 15 ++ [39] ++ nibble x 11 ++ [39] ++ nibble x 7 ++ [39] ++ nibble x 3.

(** The same text, from the [i]th bit on, as the loop builds it. *)
Fixpoint binstr_from (k : nat) (x i : Z) : list Z :=
  match k with
  | O => []
  | S k => bit_char x (31 - i) ::
           if i + 1 =? 32 then []
           else (if (i + 1) mod 4 =? 0 then [39] else []) ++ binstr_from k x (i + 1)
  end.

Lemma binstr_loop_ok k x c i m :
  0 ≤ i < 32 → 32 ≤ i + Z.of_nat k →
  mapped m c (Z.of_nat (length (binstr_from k x i)) + 1) →
  wp (binstr_loop k x c i 32) (λ _ m', m' = write_bytes m c (binstr_from k x i ++ [0])) m.
Proof.
  revert c i m. induction k as [|k IH]; intros c i m Hi Hk Hm; [lia|].
  cbn [binstr_loop binstr_from] in *. cbn [length] in Hm. wp_step.
  eapply wp_store8; [eapply (mapped_at _ _ _ c); [exact Hm|lia]|].
  rewrite land_bit_test by lia. replace (32 - i - 1) with (31 - i) by lia.
  assert (u8 (if Z.testbit x (31 - i) then ch "1" else ch "0") = bit_char x (31 - i)) as ->.
  { unfold bit_char. by destruct (Z.testbit x (31 - i)). }
  cbn [app write_bytes]. pose proof (mapped_tail _ _ _ 1 Hm ltac:(lia)) as Hm1.
  destruct (Z.eqb_spec (i + 1) 32) as [Heq|Hne]; cbn [app length write_bytes] in *.
  - eapply wp_store8; [|done]. apply mapped_insert_is_Some. eapply mapped_at; [exact Hm1|lia].
  - rewrite Z.rem_mod_nonneg by lia. destruct ((i + 1) mod 4 =? 0); cbn [app length write_bytes] in *.
    + wp_step. eapply wp_store8; [apply mapped_insert_is_Some; eapply mapped_at; [exact Hm1|lia]|].
      change (u8 (ch "'")) with 39. apply IH; [lia..|]. repeat apply mapped_insert.
      eapply mapped_le; [apply (mapped_tail _ _ _ 1 Hm1); lia|lia].
    + apply IH; [lia..|]. apply mapped_insert. eapply mapped_le; [exact Hm1|lia].
Qed.

(** [binstr] writes the 32 bits of its argument, most significant first,
    in groups of four separated by quotes, and a terminator: the 40 bytes of
    its array, and nothing else. *)
Lemma binstr_ok fuel x out (m : mem) :
  mapped m out 40 → (32 ≤ fuel)%nat →
  length (binstr_text x ++ [0]) = 40%nat ∧
  wp (binstr fuel x out) (λ _ m', m' = write_bytes m out (binstr_text x ++ [0])) m.
Proof.
  intros Hm Hf. split; [done|]. unfold binstr.
  assert (∀ k, binstr_from (32 + k) x 0 = binstr_text x) as Htxt by done.
  rewrite <- (Htxt (fuel - 32)%nat). change (4 * 8) with 32.
  replace (32 + (fuel - 32))%nat with fuel by lia.
  apply binstr_loop_ok; [lia..|].
  replace fuel with (32 + (fuel - 32))%nat by lia. by rewrite Htxt.
Qed.

(** * Witnesses *)

Definition codes (s : string) : list Z := ch <$> String.list_ascii_of_string s.

(** The format at 1000, the local array at 2000, the buffer at 3000, a string
    at 4000. *)
Definition printf_memory (fmt : string) : mem :=
  write_bytes (write_bytes (write_bytes (write_bytes ∅
    1000 (codes fmt ++ [0])) 2000 (replicate 27 0)) 3000 (replicate 30 0)) 4000 (codes "xyz" ++ [0]).

Lemma printf_memory_layout fmt : layout (printf_memory fmt) 3000 29 2000.
Proof.
  constructor; [lia| | |right; lia].
  - apply mapped_write_bytes. eapply (bytes_mapped _ _ (replicate 30 0)), bytes_write_bytes.
  - do 2 apply mapped_write_bytes. eapply (bytes_mapped _ _ (replicate 27 0)), bytes_write_bytes.
Qed.

Definition format_example : string := "a%05d|%-4x|%s".
Definition text_example : string := "a00-42|ff  |xyz".

Lemma vsnprintf_correct_witness :
  formats (printf_memory format_example) 3000 9 2000 (codes format_example) [-42; 255; 4000]
    (codes text_example) ∧
  wp (vsnprintf 200 2000 3000 10 1000 [-42; 255; 4000])
     (λ r m', r = 15 ∧ bytes m' 3000 (codes "a00-42|ff" ++ [0]) ∧
        ∀ i, ¬ 3000 ≤ i < 3000 + 10 → ¬ 2000 ≤ i < 2000 + 27 →
          m' !! i = printf_memory format_example !! i)
     (printf_memory format_example).
Proof.
  assert (Hs : ∀ a s, (a = 1000 ∧ s = codes format_example) ∨ (a = 4000 ∧ s = codes "xyz") →
    str (printf_memory format_example) 3000 9 2000 a s).
  { intros a s [[-> ->]|[-> ->]]; (split; [split; [vm_compute; tauto|by repeat constructor]|]);
      unfold disjoint; simpl; lia. }
  assert (formats (printf_memory format_example) 3000 9 2000 (codes format_example) [-42; 255; 4000]
    (codes text_example)) as Hfm.
  { apply (formats_plain _ _ _ _ 97); [done|].
    apply (formats_conv _ _ _ _ _ _ (codes "00-42") (codes "|%-4x|%s") [255; 4000] (codes "|ff  |xyz")).
    { apply conv_zero; [done|]. refine (conv_decimal _ _ _ _ (ch "d") (codes "|%-4x|%s") (-42) (-42) [255; 4000] 0
        (set_npad 5 (set_pad 48 default_props)) eq_refl eq_refl _). lia. }
    apply (formats_plain _ _ _ _ 124); [done|].
    apply (formats_conv _ _ _ _ _ _ (codes "ff  ") (codes "|%s") [4000] (codes "|xyz")).
    { apply conv_width; [done|]. exact (conv_hex _ _ _ _ (ch "x") (codes "|%s") 255 [4000] 0 (set_npad (-4) default_props) eq_refl). }
    apply (formats_plain _ _ _ _ 124); [done|].
    apply (formats_conv _ _ _ _ _ _ (codes "xyz") [] [] []); [|apply formats_end].
    refine (conv_string _ _ _ _ (ch "s") [] 4000 (codes "xyz") [] 0 default_props eq_refl _).
    apply Hs. auto. }
  split; [done|].
  apply (vsnprintf_correct 200 (printf_memory format_example) 3000 10 2000 1000
    (codes format_example) _ (codes text_example)); [|by apply Hs; left|done|simpl; lia|simpl; lia].
  destruct (printf_memory_layout format_example) as [? Ho Hk Hd].
  constructor; [lia|eapply mapped_le; [done|lia]|done|right; lia].
Defined.

Lemma print_parse_roundtrip_example :
  wp (vsnprintf 101 2000 3000 30 1000 [-9223372036854775807];; atol 101 3000)
     (λ r _, r = -9223372036854775807) (printf_memory "%ld").
Proof.
  apply (print_parse_roundtrip 101 (printf_memory "%ld") 3000 30 2000);
    [apply printf_memory_layout|lia| |lia|lia].
  split; [split; [vm_compute; tauto|by repeat constructor]|]; unfold disjoint; simpl; lia.
Defined.

Lemma binstr_example :
  binstr_text 0xC = codes "0000'0000'0000'0000'0000'0000'0000'1100" ∧
  wp (binstr 32 0xC 500)
     (λ _ m', m' = write_bytes (write_bytes ∅ 500 (replicate 40 0)) 500 (binstr_text 0xC ++ [0]))
     (write_bytes ∅ 500 (replicate 40 0)).
Proof.
  split; [reflexivity|]. apply binstr_ok; [|lia].
  apply (bytes_mapped _ _ (replicate 40 0)), bytes_write_bytes.
Defined.
