(* ===== verification/Gic.v ===== *)
(** The interrupt controller driver of [exception/gic/gic.c], over an abstract
    GICv2 device. *)

From S2P Require Import Prelude Config.

(** * Devices

    Memory-mapped registers belong to the hardware: a device type [D] with the
    effect of each access.  A read may change the device. *)

Class Device (D : Type) := {
  rd32 : Z → D → Z * D;
  wr32 : Z → Z → D → D;   (* the value, then the address *)
  wr8 : Z → Z → D → D;
  rd64 : Z → D → Z * D;
  wr64 : Z → Z → D → D;
}.

(** What the drivers work on: the device, the console, and [_gicv2.irq_nr]. *)
Record mach (D : Type) := { dev : D; log : list log_entry; irq_nr : Z }.
Arguments dev {D} m. Arguments log {D} m. Arguments irq_nr {D} m.
Arguments Build_mach {D} dev log irq_nr.

(** * Registers ([include/gic.h], [include/os_cfg.h]) *)

Definition GIC_NR_PRIVATE_IRQS : Z := 32.
Definition GIC_FIRST_SPI : Z := GIC_NR_PRIVATE_IRQS.
Definition SPI_ID_MAX : Z := 512.
Definition GICD_CTLR : Z := GICD_BASE_ADDR + 0x000.
Definition GICD_TYPER : Z := GICD_BASE_ADDR + 0x004.
Definition GICD_IIDR : Z := GICD_BASE_ADDR + 0x008.
Definition GICD_ISENABLER (x : Z) : Z := GICD_BASE_ADDR + (0x100 + 0x004 * x).
Definition GICD_ICENABLER (x : Z) : Z := GICD_BASE_ADDR + (0x180 + 0x004 * x).
Definition GICD_ISPENDER (x : Z) : Z := GICD_BASE_ADDR + (0x200 + 0x004 * x).
Definition GICD_ICPENDER (x : Z) : Z := GICD_BASE_ADDR + (0x280 + 0x004 * x).
Definition GICD_IPRIORITYR (x : Z) : Z := GICD_BASE_ADDR + (0x400 + 0x004 * x).
Definition GICD_ITARGETSR (x : Z) : Z := GICD_BASE_ADDR + (0x800 + 0x004 * x).
Definition GICD_ICFGR (x : Z) : Z := GICD_BASE_ADDR + (0xc00 + 0x004 * x).
Definition GICD_SGIR : Z := GICD_BASE_ADDR + 0xf00.
Definition GICD_TYPER_IRQS (typer : Z) : Z := ((typer .& 0x1f) + 1) * 32.
Definition GICD_TYPER_CPU_NUM (typer : Z) : Z := ((typer >> 5) .& 7) + 1.
Definition GICC_CTLR : Z := GICC_BASE_ADDR + 0x0000.
Definition GICC_PMR : Z := GICC_BASE_ADDR + 0x0004.
Definition GICC_IAR : Z := GICC_BASE_ADDR + 0x000c.
Definition GICC_EOIR : Z := GICC_BASE_ADDR + 0x0010.
Definition GICC_DIR : Z := GICC_BASE_ADDR + 0x1000.
Definition GICC_IAR_INT_ID_MASK : Z := 0x3ff.
Definition GICH_HCR : Z := GICH_BASE_ADDR + 0x0000.
Definition GICH_VMCR : Z := GICH_BASE_ADDR + 0x0008.
Definition GICH_ELSR0 : Z := GICH_BASE_ADDR + 0x0030.
Definition GICH_APR : Z := GICH_BASE_ADDR + 0x00f0.
Definition GICH_LR (x : Z) : Z := GICH_BASE_ADDR + 0x0100 + 0x4 * x.
Definition GICH_LR_NUM : Z := 4.
Definition GICD_CTRL_ENABLE_GROUP0 : Z := 1 << 0.
Definition GICD_CTRL_ENABLE_GROUP1 : Z := 1 << 1.
Definition GICC_CTRL_ENABLE_GROUP0 : Z := 1 << 0.

(** * The driver *)

Section gic.
Context {D : Type} `{Device D}.

Definition read32 (a : Z) : St (mach D) Z := λ s,
  let '(v, d) := rd32 a (dev s) in Done (v, Build_mach d (log s) (irq_nr s)).
Definition write32 (v a : Z) : St (mach D) unit := λ s,
  Done (tt, Build_mach (wr32 (u32 v) a (dev s)) (log s) (irq_nr s)).
Definition write8 (v a : Z) : St (mach D) unit := λ s,
  Done (tt, Build_mach (wr8 (u8 v) a (dev s)) (log s) (irq_nr s)).
(** An access of a whole [unsigned long]. *)
Definition read64 (a : Z) : St (mach D) Z := λ s,
  let '(v, d) := rd64 a (dev s) in Done (v, Build_mach d (log s) (irq_nr s)).
Definition write64 (v a : Z) : St (mach D) unit := λ s,
  Done (tt, Build_mach (wr64 (u64 v) a (dev s)) (log s) (irq_nr s)).
Definition print (e : log_entry) : St (mach D) unit := λ s,
  Done (tt, Build_mach (dev s) (log s ++ [e]) (irq_nr s)).
Definition set_irq_nr (n : Z) : St (mach D) unit := λ s,
  Done (tt, Build_mach (dev s) (log s) n).

Definition cpu_num : St (mach D) Z := v ← read32 GICD_TYPER; mret (u32 (GICD_TYPER_CPU_NUM v)).

Definition gic_test_init : St (mach D) unit :=
  v ← read32 GICD_CTLR;
  print (Printf (ln "    gicd enable %s") [Txt (if truthy v then "ok" else "error")]);;
  v ← read32 GICC_CTLR;
  print (Printf (ln "    gicc enable %s") [Txt (if truthy v then "ok" else "error")]);;
  n ← gets irq_nr;
  print (Printf (ln "    irq numbers: %d") [Num n]);;
  n ← cpu_num;
  print (Printf (ln "    cpu num: %d") [Num n]).

Definition gicc_init : St (mach D) unit :=
  write32 (0xff - 7) GICC_PMR;;
  write32 GICC_CTRL_ENABLE_GROUP0 GICC_CTLR.

(** The number of interrupts the distributor has, at most 1020. *)
Definition read_irq_nr : St (mach D) unit :=
  v ← read32 GICD_TYPER;
  set_irq_nr (GICD_TYPER_IRQS v);;
  n ← gets irq_nr;
  if 1020 <? n then set_irq_nr 1020 else mret tt.

Definition gic_init : St (mach D) unit :=
  read_irq_nr;;
  write32 (GICD_CTRL_ENABLE_GROUP0 .| GICD_CTRL_ENABLE_GROUP1) GICD_CTLR;;
  gicc_init;;
  gic_test_init.

Definition gic_read_iar : St (mach D) Z := read32 GICC_IAR.
Definition gic_iar_irqnr (iar : Z) : Z := iar .& GICC_IAR_INT_ID_MASK.
Definition gic_write_eoir (irqstat : Z) : St (mach D) unit := write32 irqstat GICC_EOIR.
Definition gic_write_dir (irqstat : Z) : St (mach D) unit := write32 irqstat GICC_DIR.
Definition gic_ipi_send_single (irq cpu : Z) : St (mach D) unit :=
  write32 ((1 << (cpu + 16)) .| irq) GICD_SGIR.

(** [vector & ((1 << 5) - 1)] as a shift of an [int]. *)
Definition int_mask (vector : Z) : Z := s32 (1 << (vector .& ((1 << 5) - 1))).

Definition gic_enable_int (vector pri : Z) : St (mach D) unit :=
  let reg := vector >> 5 in
  let mask := int_mask vector in
  print (Printf (ln "set enable: reg: %d, mask: 0x%x") [Num reg; Num mask]);;
  write32 mask (GICD_ISENABLER reg);;
  let n := vector >> 2 in
  let m := vector .& ((1 << 2) - 1) in
  print (Printf (ln "set priority: n: %d, m: %d, pri: %d") [Num n; Num m; Num pri]);;
  write8 ((pri << 3) .| (1 << 7)) (GICD_IPRIORITYR n + m).

Definition gic_disable_int (vector : Z) : St (mach D) unit :=
  let reg := vector >> 5 in
  let mask := int_mask vector in
  print (Printf (ln "disable: reg: %d, mask: 0x%x") [Num reg; Num mask]);;
  write32 mask (GICD_ICENABLER reg).

(** [val & mask != 0] is [val & (mask != 0)]. *)
Definition gic_get_enable (vector : Z) : St (mach D) Z :=
  let reg := vector >> 5 in
  let mask := int_mask vector in
  val ← read32 (GICD_ISENABLER reg);
  print (Printf (ln "get enable: reg: %x, mask: %x, value: %x") [Num reg; Num mask; Num val]);;
  mret (val .& of_bool (negb (mask =? 0))).

Definition gic_set_isenabler (n value : Z) : St (mach D) unit := write32 value (GICD_ISENABLER n).
Definition gic_set_ipriority (n value : Z) : St (mach D) unit := write32 value (GICD_IPRIORITYR n).
Definition gic_set_icenabler (n value : Z) : St (mach D) unit := write32 value (GICD_ICENABLER n).

(** [for (int i = 0; i < GIC_NR_PRIVATE_IRQS; i++) gic_enable_int(i, 0);] *)
Fixpoint enable_private (fuel : nat) (i : Z) : St (mach D) unit :=
  match fuel with
  | O => nofuel
  | S k => if i <? GIC_NR_PRIVATE_IRQS then gic_enable_int i 0;; enable_private k (i + 1) else mret tt
  end.

Definition gic_virtual_init : St (mach D) unit :=
  read_irq_nr;;
  write32 (GICD_CTRL_ENABLE_GROUP0 .| GICD_CTRL_ENABLE_GROUP1) GICD_CTLR;;
  write32 (0xff - 7) GICC_PMR;;
  write32 (GICC_CTRL_ENABLE_GROUP0 .| (1 << 9)) GICC_CTLR;;
  write32 (1 << 0) GICH_HCR;;
  write32 (1 << 0) GICH_VMCR;;
  enable_private 33 0;;
  gic_test_init;;
  v ← read32 GICH_HCR;
  print (Printf (ln "    gich enable %s") [Txt (if truthy v then "ok" else "error")]).

(** ** List registers *)

Definition gic_make_virtual_hardware_interrupt (vector pintvec pri grp1 : Z) : Z :=
  0x90000000 .| (u32 (u32 (pri .& 0xf8) << 20) .| (vector .& 0x1ff)
    .| u32 ((pintvec .& 0x1ff) << 10) .| u32 (grp1 << 30)).
Definition gic_make_virtual_software_interrupt (vector pri grp1 : Z) : Z :=
  0x10000000 .| (u32 (u32 (pri .& 0xf8) << 20) .| (vector .& 0x1ff) .| u32 (grp1 << 30)).
Definition gic_make_virtual_software_sgi (vector cpu_id pri grp1 : Z) : Z :=
  0x10000000 .| (u32 (u32 (pri .& 0xf8) << 20) .| (vector .& 0x1ff) .| u32 (grp1 << 30)
    .| u32 (u32 cpu_id << 10)).

Definition gic_read_lr (n : Z) : St (mach D) Z := read32 (GICH_LR n).
Definition gic_lr_read_pri (lr_value : Z) : Z := (lr_value .& (0xf8 << 20)) >> 20.
Definition gic_lr_read_vid (lr_value : Z) : Z := lr_value .& 0x1ff.
Definition gic_apr : St (mach D) Z := read32 GICH_APR.
Definition gic_elsr0 : St (mach D) Z := read32 GICH_ELSR0.
Definition gic_write_lr (n mask : Z) : St (mach D) unit := write32 mask (GICH_LR n).

Definition gic_set_np_int : St (mach D) unit :=
  v ← read32 GICH_HCR; write32 (v .| (1 << 3)) GICH_HCR.
Definition gic_clear_np_int : St (mach D) unit :=
  v ← read32 GICH_HCR; write32 (v .& Z.lnot (1 << 3)) GICH_HCR.
End gic.

(** * The architecture

    What the GICv2 architecture says of the registers the driver uses, with the
    observations it is stated by: the enable bit and the priority of each
    interrupt, the list registers. *)

Definition control_registers : list Z :=
  [GICD_CTLR; GICC_PMR; GICC_CTLR; GICH_HCR; GICH_VMCR; GICC_EOIR; GICC_DIR].

Class GicArch (D : Type) `{Device D} := {
  enabled : D → Z → bool;
  priority : D → Z → Z;
  lr : D → Z → Z;
  (* the priority bits the implementation has *)
  pri_bits : Z;
  (* a set-enable register sets the bits that are written as 1 *)
  enabled_isenabler d m n w : 0 ≤ n < 32 → 0 ≤ w < 1020 →
    enabled (wr32 m (GICD_ISENABLER n) d) w = enabled d w || ((w / 32 =? n) && Z.testbit m (w mod 32));
  enabled_icenabler d m n w : 0 ≤ n < 32 → 0 ≤ w < 1020 →
    enabled (wr32 m (GICD_ICENABLER n) d) w =
      enabled d w && negb ((w / 32 =? n) && Z.testbit m (w mod 32));
  (* reading one gives the enable bits *)
  rd_isenabler d n : 0 ≤ n < 32 →
    ∃ v, rd32 (GICD_ISENABLER n) d = (v, d) ∧ 0 ≤ v < 2 ^ 32 ∧
      ∀ k, 0 ≤ k < 32 → 32 * n + k < 1020 → Z.testbit v k = enabled d (32 * n + k);
  (* a priority register has a byte for each interrupt *)
  priority_wr8 d x v w : 0 ≤ v < 1020 → 0 ≤ w < 1020 →
    priority (wr8 x (GICD_IPRIORITYR 0 + v) d) w = if w =? v then x .& pri_bits else priority d w;
  priority_wr32 d x n w : 0 ≤ n < 255 → 0 ≤ w < 1020 →
    priority (wr32 x (GICD_IPRIORITYR n) d) w =
      if w / 4 =? n then u8 (x >> (8 * (w mod 4))) .& pri_bits else priority d w;
  (* the registers are independent of each other *)
  enabled_priority d x v w : 0 ≤ v < 1020 → enabled (wr8 x (GICD_IPRIORITYR 0 + v) d) w = enabled d w;
  enabled_priority32 d x n w : 0 ≤ n < 255 → enabled (wr32 x (GICD_IPRIORITYR n) d) w = enabled d w;
  priority_enable d m n w : 0 ≤ n < 32 → priority (wr32 m (GICD_ISENABLER n) d) w = priority d w;
  lr_wr8 d x v k : 0 ≤ v < 1020 → lr (wr8 x (GICD_IPRIORITYR 0 + v) d) k = lr d k;
  lr_enable d m n k : 0 ≤ n < 32 → lr (wr32 m (GICD_ISENABLER n) d) k = lr d k;
  lr_priority d x n k : 0 ≤ n < 255 → lr (wr32 x (GICD_IPRIORITYR n) d) k = lr d k;
  (* list registers hold what is written to them *)
  lr_wr d x n k : 0 ≤ n < 4 → 0 ≤ x < 2 ^ 32 → lr (wr32 x (GICH_LR n) d) k = if k =? n then x else lr d k;
  enabled_lr d x n w : 0 ≤ n < 4 → enabled (wr32 x (GICH_LR n) d) w = enabled d w;
  priority_lr d x n w : 0 ≤ n < 4 → priority (wr32 x (GICH_LR n) d) w = priority d w;
  rd_lr d n : 0 ≤ n < 4 → rd32 (GICH_LR n) d = (lr d n, d);
  lr_word d n : 0 ≤ n < 4 → 0 ≤ lr d n < 2 ^ 32;
  (* a bit of the empty status register is set when the list register is
     invalid: neither pending (bit 28) nor active (bit 29) *)
  rd_elsr d : ∃ v, rd32 GICH_ELSR0 d = (v, d) ∧ 0 ≤ v < 2 ^ 32 ∧
    ∀ n, 0 ≤ n < 4 → Z.testbit v n = negb (Z.testbit (lr d n) 28 || Z.testbit (lr d n) 29);
  rd_apr d : ∃ v, rd32 GICH_APR d = (v, d);
  (* the type register is read only; the control registers keep no interrupt state *)
  typer : Z;
  rd_typer d : rd32 GICD_TYPER d = (typer, d);
  rd_control d a : a ∈ [GICD_CTLR; GICC_CTLR; GICH_HCR] → ∃ v, rd32 a d = (v, d);
  enabled_control d x a w : a ∈ control_registers → enabled (wr32 x a d) w = enabled d w;
  lr_control d x a k : a ∈ control_registers → lr (wr32 x a d) k = lr d k;
}.

(** ** A device that behaves so *)

(** The enable bits, the priorities, the list registers, and the interrupt the
    acknowledge register answers with. *)
Record gic_dev := { g_en : Z → bool; g_pri : Z → Z; g_lr : Z → Z; g_iar : Z }.

Fixpoint word_of (n : nat) (f : Z → bool) : Z :=
  match n with
  | O => 0
  | S k => (if f (Z.of_nat k) then 1 << Z.of_nat k else 0) .| word_of k f
  end.

Definition gic_dev_rd32 (a : Z) (d : gic_dev) : Z * gic_dev :=
  let o := a - GICD_BASE_ADDR in
  if (0x100 <=? o) && (o <? 0x180) then
    (word_of 32 (λ k, g_en d (32 * ((o - 0x100) / 4) + k)), d)
  else if o =? 0x30030 then
    (word_of 4 (λ k, negb (Z.testbit (g_lr d k) 28 || Z.testbit (g_lr d k) 29)), d)
  else if (0x30100 <=? o) && (o <? 0x30110) then (u32 (g_lr d ((o - 0x30100) / 4)), d)
  else if a =? GICC_IAR then (g_iar d, d)
  else if o =? 4 then (8, d)
  else (0, d).
Definition gic_dev_wr32 (v a : Z) (d : gic_dev) : gic_dev :=
  let o := a - GICD_BASE_ADDR in
  if (0x100 <=? o) && (o <? 0x180) then
    {| g_en := λ w, g_en d w || ((w / 32 =? (o - 0x100) / 4) && Z.testbit v (w mod 32));
       g_pri := g_pri d; g_lr := g_lr d; g_iar := g_iar d |}
  else if (0x180 <=? o) && (o <? 0x200) then
    {| g_en := λ w, g_en d w && negb ((w / 32 =? (o - 0x180) / 4) && Z.testbit v (w mod 32));
       g_pri := g_pri d; g_lr := g_lr d; g_iar := g_iar d |}
  else if (0x400 <=? o) && (o <? 0x800) then
    {| g_en := g_en d; g_lr := g_lr d; g_iar := g_iar d;
       g_pri := λ w, if w / 4 =? (o - 0x400) / 4 then u8 (v >> (8 * (w mod 4))) .& 0xf8
                     else g_pri d w |}
  else if (0x30100 <=? o) && (o <? 0x30110) then
    {| g_en := g_en d; g_pri := g_pri d; g_iar := g_iar d;
       g_lr := λ k, if k =? (o - 0x30100) / 4 then u32 v else g_lr d k |}
  else d.
Definition gic_dev_wr8 (v a : Z) (d : gic_dev) : gic_dev :=
  let o := a - GICD_BASE_ADDR in
  if (0x400 <=? o) && (o <? 0x800) then
    {| g_en := g_en d; g_lr := g_lr d; g_iar := g_iar d;
       g_pri := λ w, if w =? o - 0x400 then v .& 0xf8 else g_pri d w |}
  else d.
#[export] Instance gic_dev_device : Device gic_dev :=
  {| rd32 := gic_dev_rd32; wr32 := gic_dev_wr32; wr8 := gic_dev_wr8;
     rd64 := gic_dev_rd32; wr64 := gic_dev_wr32 |}.

Lemma testbit_word_of n f k : 0 ≤ k → Z.testbit (word_of n f) k = (k <? Z.of_nat n) && f k.
Proof.
  intros Hk. induction n as [|n IH]; cbn [word_of]; [by rewrite Z.bits_0, (proj2 (Z.ltb_ge _ _)) by lia|].
  rewrite Z.lor_spec, IH. destruct (Z.eqb_spec k (Z.of_nat n)) as [->|Hne].
  - rewrite (proj2 (Z.ltb_ge _ _)), (proj2 (Z.ltb_lt _ (Z.of_nat (S n)))) by lia.
    rewrite orb_false_r. destruct (f (Z.of_nat n)); [|apply Z.bits_0].
    rewrite testbit_1_shiftl by lia. apply Z.eqb_refl.
  - assert (Z.testbit (if f (Z.of_nat n) then 1 << Z.of_nat n else 0) k = false) as ->.
    { destruct (f (Z.of_nat n)); [|apply Z.bits_0]. rewrite testbit_1_shiftl by lia. lia. }
    destruct (Z.ltb_spec k (Z.of_nat n)), (Z.ltb_spec k (Z.of_nat (S n))); done || lia.
Qed.

Lemma word_of_bound n f : 0 ≤ word_of n f < 2 ^ Z.of_nat n.
Proof.
  assert (0 ≤ word_of n f) as H0.
  { induction n as [|n IH]; cbn [word_of]; [lia|]. apply Z.lor_nonneg. split; [|done].
    destruct (f (Z.of_nat n)); [apply Z.shiftl_nonneg; lia|lia]. }
  split; [done|]. destruct (decide (word_of n f = 0)) as [->|Hne]; [lia|].
  apply Z.log2_lt_pow2; [lia|].
  destruct (decide (Z.log2 (word_of n f) < Z.of_nat n)) as [|Hge]; [done|].
  pose proof (Z.bit_log2 (word_of n f) ltac:(lia)) as Hb.
  rewrite testbit_word_of, (proj2 (Z.ltb_ge _ _)) in Hb by (lia || apply Z.log2_nonneg). done.
Qed.

(** The registers of [gic_dev] by their offsets. *)
Ltac gic_regs :=
  intros; cbn [rd32 wr32 wr8 gic_dev_device];
  unfold gic_dev_rd32, gic_dev_wr32, gic_dev_wr8, GICD_ISENABLER, GICD_ICENABLER, GICD_IPRIORITYR,
    GICH_LR, GICH_ELSR0, control_registers, GICD_CTLR, GICD_TYPER, GICC_PMR, GICC_CTLR,
    GICH_HCR, GICH_VMCR, GICC_EOIR, GICC_DIR, GICH_APR, GICC_IAR, GICC_BASE_ADDR, GICH_BASE_ADDR, GICD_BASE_ADDR in *;
  repeat match goal with
  | |- context [if ?b then _ else _] =>
      first [ assert (b = true) as -> by lia | assert (b = false) as -> by lia ]
  end; cbn [g_en g_pri g_lr g_iar fst snd].

(** The same for a register of a list. *)
Ltac gic_registers :=
  intros; unfold control_registers in *;
  match goal with
  | H : _ ∈ _ |- _ => rewrite !elem_of_cons in H; repeat destruct H as [->|H];
      try (by apply not_elem_of_nil in H); gic_regs; eauto
  end.

(** The index a register's address stands for. *)
Ltac gic_index n :=
  match goal with
  | |- context [Z.div ?e 4] =>
      match e with context [134217728] => replace (Z.div e 4) with n by (Z.div_mod_to_equations; lia) end
  end.

#[export, program] Instance gic_dev_arch : GicArch gic_dev := {|
  enabled d w := g_en d w;
  priority d w := g_pri d w;
  lr d k := u32 (g_lr d k);
  pri_bits := 0xf8;
  typer := 8;
|}.
Next Obligation. gic_regs. by gic_index n. Qed.
Next Obligation. gic_regs. by gic_index n. Qed.
Next Obligation.
  gic_regs. eexists. split; [done|]. split; [apply (word_of_bound 32)|]. intros k Hk Hk'.
  gic_index n. rewrite testbit_word_of by lia. by rewrite (proj2 (Z.ltb_lt _ _)) by lia.
Qed.
Next Obligation. gic_regs. by replace (_ - 1024) with v by lia. Qed.
Next Obligation. gic_regs. by gic_index n. Qed.
Next Obligation. by gic_regs. Qed.
Next Obligation. by gic_regs. Qed.
Next Obligation. by gic_regs. Qed.
Next Obligation. by gic_regs. Qed.
Next Obligation. by gic_regs. Qed.
Next Obligation. by gic_regs. Qed.
Next Obligation. gic_regs. gic_index n. destruct (k =? n); [|done]. rewrite (u32_small x) by lia. apply u32_small. lia. Qed.
Next Obligation. by gic_regs. Qed.
Next Obligation. by gic_regs. Qed.
Next Obligation. gic_regs. by gic_index n. Qed.
Next Obligation. gic_regs. apply Z.mod_pos_bound. lia. Qed.
Next Obligation.
  gic_regs. eexists. split; [done|]. split.
  { pose proof (word_of_bound 4 (λ k, negb (Z.testbit (g_lr d k) 28 || Z.testbit (g_lr d k) 29))).
    simpl in *; lia. }
  intros n Hn. rewrite testbit_word_of by lia. rewrite (proj2 (Z.ltb_lt _ _)) by (simpl; lia). cbn [andb].
  unfold u32. rewrite !Z.mod_pow2_bits_low by lia. done.
Qed.
Next Obligation. gic_regs. eauto. Qed.
Next Obligation. by gic_regs. Qed.
Next Obligation. gic_registers. Qed.
Next Obligation. gic_registers. Qed.
Next Obligation. gic_registers. Qed.

(** * The driver on such a device *)

Section gic_correct.
Context {D : Type} `{HA : GicArch D}.

Lemma wp_read32 a (Q : Z → mach D → Prop) s :
  Q (fst (rd32 a (dev s))) (Build_mach (snd (rd32 a (dev s))) (log s) (irq_nr s)) →
  wp (read32 a) Q s.
Proof. intros HQ. unfold wp, read32. by destruct (rd32 a (dev s)). Qed.
Lemma wp_write32 v a (Q : unit → mach D → Prop) s :
  Q tt (Build_mach (wr32 (u32 v) a (dev s)) (log s) (irq_nr s)) → wp (write32 v a) Q s.
Proof. done. Qed.
Lemma wp_write8 v a (Q : unit → mach D → Prop) s :
  Q tt (Build_mach (wr8 (u8 v) a (dev s)) (log s) (irq_nr s)) → wp (write8 v a) Q s.
Proof. done. Qed.
Lemma wp_print e (Q : unit → mach D → Prop) s :
  Q tt (Build_mach (dev s) (log s ++ [e]) (irq_nr s)) → wp (print e) Q s.
Proof. done. Qed.

Lemma int_mask_bit v : 0 ≤ v → u32 (int_mask v) = 1 << (v mod 32).
Proof.
  intros Hv. unfold int_mask, u32, s32.
  change ((1 << 5) - 1) with (Z.ones 5). rewrite Z.land_ones by lia. change (2 ^ 5) with 32.
  pose proof (Z.mod_pos_bound v 32 ltac:(lia)) as Hb.
  rewrite Z.shiftl_1_l. assert (0 < 2 ^ (v mod 32) ≤ 2 ^ 31).
  { split; [apply Z.pow_pos_nonneg; lia|apply Z.pow_le_mono_r; lia]. }
  rewrite Zminus_mod_idemp_l. rewrite Z.add_simpl_r. apply Z.mod_small. lia.
Qed.

Lemma int_mask_nonzero v : 0 ≤ v → int_mask v ≠ 0.
Proof.
  intros Hv Hz. pose proof (int_mask_bit v Hv) as H0. rewrite Hz in H0.
  change (u32 0) with 0 in H0. symmetry in H0. rewrite Z.shiftl_1_l in H0.
  revert H0. apply Z.pow_nonzero; [lia|]. apply Z.mod_pos_bound. lia.
Qed.

(** The bit of interrupt [v] in its enable register is that of no other. *)
Lemma enable_bit v w :
  0 ≤ v < 1020 → 0 ≤ w < 1020 →
  (w / 32 =? v >> 5) && Z.testbit (1 << (v mod 32)) (w mod 32) = (w =? v).
Proof.
  intros Hv Hw. rewrite Z.shiftr_div_pow2 by lia. change (2 ^ 5) with 32.
  rewrite testbit_1_shiftl by (apply Z.mod_pos_bound; lia).
  destruct (Z.eqb_spec (w / 32) (v / 32)), (Z.eqb_spec (w mod 32) (v mod 32)), (Z.eqb_spec w v);
    try done; exfalso; Z.div_mod_to_equations; lia.
Qed.

Lemma enable_reg v : 0 ≤ v < 1020 → 0 ≤ v >> 5 < 32.
Proof. intros Hv. rewrite Z.shiftr_div_pow2 by lia. change (2 ^ 5) with 32. Z.div_mod_to_equations; lia. Qed.

(** The priority byte of interrupt [v]: the register [v / 4], the byte [v mod 4]. *)
Lemma priority_byte v : 0 ≤ v → GICD_IPRIORITYR (v >> 2) + (v .& ((1 << 2) - 1)) = GICD_IPRIORITYR 0 + v.
Proof.
  intros Hv. unfold GICD_IPRIORITYR. rewrite Z.shiftr_div_pow2 by lia.
  change ((1 << 2) - 1) with (Z.ones 2). rewrite Z.land_ones by lia. change (2 ^ 2) with 4.
  pose proof (Z.div_mod v 4 ltac:(lia)). lia.
Qed.

(** What [gic_enable_int] does to a device. *)
Definition enabling (v p : Z) (d d' : D) : Prop :=
  (∀ w, 0 ≤ w < 1020 → enabled d' w = (w =? v) || enabled d w) ∧
  (∀ w, 0 ≤ w < 1020 → priority d' w =
     if w =? v then u8 ((p << 3) .| (1 << 7)) .& pri_bits else priority d w) ∧
  (∀ k, lr d' k = lr d k).

Lemma gic_enable_int_ok v p s :
  0 ≤ v < 1020 →
  wp (gic_enable_int v p)
     (λ _ s', enabling v p (dev s) (dev s') ∧ irq_nr s' = irq_nr s ∧ ∃ es, log s' = log s ++ es) s.
Proof.
  intros Hv. unfold gic_enable_int. wp_step. apply wp_print. wp_step. apply wp_write32. wp_step.
  apply wp_print. wp_step. apply wp_write8. cbn [dev log irq_nr].
  rewrite priority_byte, int_mask_bit by lia. pose proof (enable_reg v Hv).
  split_and!; [|done|rewrite <- app_assoc; eauto].
  split_and!.
  - intros w Hw. rewrite enabled_priority, enabled_isenabler by done.
    rewrite enable_bit by done. apply orb_comm.
  - intros w Hw. rewrite priority_wr8 by done. destruct (w =? v); [done|].
    by apply priority_enable.
  - intros k. rewrite lr_wr8 by done. by apply lr_enable.
Qed.

Lemma enable_private_ok fuel i s :
  0 ≤ i ≤ 32 → 32 - i < Z.of_nat fuel →
  wp (enable_private fuel i)
     (λ _ s', (∀ w, 0 ≤ w < 1020 → enabled (dev s') w = ((i <=? w) && (w <? 32)) || enabled (dev s) w) ∧
        (∀ k, lr (dev s') k = lr (dev s) k) ∧ irq_nr s' = irq_nr s) s.
Proof.
  revert i s. induction fuel as [|k IH]; intros i s Hi Hf; [lia|]. cbn [enable_private].
  unfold GIC_NR_PRIVATE_IRQS. destruct (Z.ltb_spec i 32).
  - wp_step. eapply wp_mono; [apply gic_enable_int_ok; lia|].
    intros _ s1 ((Hen & _ & Hlr) & Hnr & _). eapply wp_mono; [apply IH; lia|].
    intros _ s2 (Hen2 & Hlr2 & Hnr2). split_and!; [|intros; by rewrite Hlr2, Hlr|congruence].
    intros w Hw. rewrite Hen2, Hen by done.
    destruct (Z.leb_spec (i + 1) w), (Z.ltb_spec w 32), (Z.eqb_spec w i), (Z.leb_spec i w); done || lia.
  - wp_step. split_and!; [|done..]. intros w Hw.
    destruct (Z.leb_spec i w), (Z.ltb_spec w 32); done || lia.
Qed.

(** [val & mask != 0] compares the mask with 0 first. *)
Lemma gic_get_enable_first v s :
  0 ≤ v < 1020 →
  wp (gic_get_enable v)
     (λ r s', r = of_bool (enabled (dev s) (32 * (v / 32))) ∧ dev s' = dev s) s.
Proof.
  intros Hv. unfold gic_get_enable. pose proof (enable_reg v Hv) as Hreg.
  destruct (rd_isenabler (dev s) (v >> 5) Hreg) as (x & Hrd & Hx & Hbits).
  wp_step. apply wp_read32. rewrite Hrd. cbn [fst snd]. wp_step. apply wp_print. wp_step.
  split; [|done]. rewrite (proj2 (Z.eqb_neq _ _)) by (apply int_mask_nonzero; lia).
  change (of_bool (negb false)) with (Z.ones 1). rewrite Z.land_ones by lia. change (2 ^ 1) with 2.
  rewrite Z.shiftr_div_pow2 in * by lia. change (2 ^ 5) with 32 in *.
  specialize (Hbits 0 ltac:(lia)). rewrite Z.add_0_r in Hbits.
  rewrite <- Hbits by (Z.div_mod_to_equations; lia). rewrite Z.bit0_mod by lia.
  pose proof (Z.mod_pos_bound x 2 ltac:(lia)).
  assert (x mod 2 = 0 ∨ x mod 2 = 1) as [-> | ->] by lia; done.
Qed.
(** C15: [gic_enable_int] enables the interrupt it is given and gives it the
    priority [p << 3 | 0x80]; every other interrupt keeps its enable bit and its
    priority, and the list registers are not touched.  [gic_disable_int]
    disables that interrupt and no other.  [gic_get_enable] does not answer for the
    interrupt it is asked about but for the first one of the same register. *)
Theorem gic_enable_disable_correct v p s :
  0 ≤ v < 1020 →
  wp (gic_enable_int v p) (λ _ s', enabling v p (dev s) (dev s')) s ∧
  wp (gic_disable_int v)
     (λ _ s', ∀ w, 0 ≤ w < 1020 → enabled (dev s') w = negb (w =? v) && enabled (dev s) w) s ∧
  wp (gic_get_enable v)
     (λ r s', r = of_bool (enabled (dev s) (32 * (v / 32))) ∧ dev s' = dev s) s.
Proof.
  intros Hv. split_and!; [| |by apply gic_get_enable_first].
  - eapply wp_mono; [by apply gic_enable_int_ok|]. by intros _ s' [? _].
  - unfold gic_disable_int. wp_step. apply wp_print. wp_step. apply wp_write32.
    cbn [dev]. rewrite int_mask_bit by lia. intros w Hw.
    rewrite enabled_icenabler by (done || by apply enable_reg). rewrite enable_bit by done.
    apply andb_comm.
Qed.

End gic_correct.

Section gic_init.
#[local] Set Default Proof Using "Type*".
Context {D : Type} `{HA : GicArch D}.

Lemma gic_test_init_ok s :
  wp gic_test_init (λ _ s', dev s' = dev s ∧ irq_nr s' = irq_nr s ∧ ∃ es, log s' = log s ++ es) s.
Proof.
  unfold gic_test_init, cpu_num. destruct (rd_control (dev s) GICD_CTLR) as [v1 H1]; [set_solver|].
  destruct (rd_control (dev s) GICC_CTLR) as [v2 H2]; [set_solver|].
  wp_step. apply wp_read32. rewrite H1. cbn [fst snd]. wp_step. apply wp_print. wp_step.
  apply wp_read32. cbn [dev log irq_nr]. rewrite H2. cbn [fst snd]. wp_step. apply wp_print. wp_step.
  apply wp_print. wp_step. apply wp_read32. cbn [dev]. rewrite rd_typer. cbn [fst snd]. wp_step.
  apply wp_print. cbn [dev irq_nr log]. split_and!; [done|done|]. rewrite <- !app_assoc. eauto.
Qed.

Lemma read_irq_nr_ok s :
  wp read_irq_nr (λ _ s', dev s' = dev s ∧ log s' = log s ∧
    irq_nr s' = Z.min 1020 (32 * (typer mod 32 + 1))) s.
Proof.
  unfold read_irq_nr. wp_step. apply wp_read32. rewrite rd_typer. cbn [fst snd]. wp_step.
  eapply wp_done; [done|]. wp_step. cbn [irq_nr].
  assert (GICD_TYPER_IRQS typer = 32 * (typer mod 32 + 1)) as ->.
  { unfold GICD_TYPER_IRQS. change 31 with (Z.ones 5). rewrite Z.land_ones by lia.
    change (2 ^ 5) with 32. lia. }
  destruct (Z.ltb_spec 1020 (32 * (typer mod 32 + 1))); [eapply wp_done; [done|]|wp_step];
    cbn [dev log irq_nr]; split_and!; done || lia.
Qed.

(** [gic_virtual_init] ends with every private interrupt (0 to 31) enabled
    and the shared interrupts as they were, leaves the list registers alone, and
    records the number of interrupts the distributor has, which is between 32
    and 1020. *)
Lemma gic_virtual_init_correct s :
  wp gic_virtual_init
     (λ _ s', (∀ w, 0 ≤ w < 1020 → enabled (dev s') w = (w <? 32) || enabled (dev s) w) ∧
        (∀ k, lr (dev s') k = lr (dev s) k) ∧
        irq_nr s' = Z.min 1020 (32 * (typer mod 32 + 1)) ∧ 32 ≤ irq_nr s' ≤ 1020) s.
Proof.
  unfold gic_virtual_init. wp_step. eapply wp_mono; [apply read_irq_nr_ok|].
  intros _ [d1 l1 n1] (Hd1 & _ & Hn1). cbn [dev irq_nr] in *. subst d1 n1.
  do 5 (wp_step; apply wp_write32; cbn [dev log irq_nr]). wp_step.
  eapply wp_mono; [apply enable_private_ok; lia|]. intros _ s2 (Hen & Hlr & Hn2).
  cbn [dev irq_nr] in *. wp_step. eapply wp_mono; [apply gic_test_init_ok|].
  intros _ s3 (Hd3 & Hn3 & _). wp_step. apply wp_read32.
  destruct (rd_control (dev s3) GICH_HCR) as [v Hv]; [set_solver|]. rewrite Hv. cbn [fst snd]. wp_step.
  apply wp_print. cbn [dev irq_nr]. rewrite Hd3, Hn3, Hn2.
  pose proof (Z.mod_pos_bound typer 32 ltac:(lia)). split_and!; [| |done|lia|lia].
  - intros w Hw. rewrite Hen by done. rewrite !enabled_control by (unfold control_registers; set_solver).
    by rewrite (proj2 (Z.leb_le _ _)) by lia.
  - intros k. rewrite Hlr. by rewrite !lr_control by (unfold control_registers; set_solver).
Qed.
End gic_init.

(** ** List register words *)

(** The fields of a list register word: the virtual identifier in the bits 0 to
    8, the physical one in 10 to 18, the priority in 23 to 27, pending, group
    and hardware in 28, 30 and 31. *)
Definition lr_word_of (vid pid pri grp1 : Z) (hw : bool) : Z :=
  vid + pid * 2 ^ 10 + pri / 8 * 2 ^ 23 + 2 ^ 28 + grp1 * 2 ^ 30 + (if hw then 2 ^ 31 else 0).

(** The priority field keeps the five high bits of a byte. *)
Lemma land_f8 a : a .& 0xf8 = a / 8 mod 32 * 8.
Proof.
  change 0xf8 with (Z.ones 5 << 3). change 32 with (2 ^ 5). change 8 with (2 ^ 3).
  rewrite <- (Z.land_ones _ 5), <- Z.shiftr_div_pow2, <- Z.shiftl_mul_pow2 by lia.
  zbitwise. destruct (Z.ltb_spec i 3).
  - rewrite (Z.testbit_neg_r (Z.ones 5)) by lia. by rewrite !andb_false_r.
  - rewrite ?Z.land_spec, ?Z.shiftr_spec by lia. by replace (i - 3 + 3) with i by lia.
Qed.

Lemma gic_lr_read_pri_div x : 0 ≤ x → gic_lr_read_pri x = x / 2 ^ 23 mod 32 * 8.
Proof.
  intros Hx. unfold gic_lr_read_pri. rewrite Z.shiftr_land. change ((0xf8 << 20) >> 20) with 0xf8.
  rewrite land_f8, Z.shiftr_div_pow2, Z.div_div by lia. done.
Qed.
Lemma gic_lr_read_vid_mod x : gic_lr_read_vid x = x mod 512.
Proof. unfold gic_lr_read_vid. change 0x1ff with (Z.ones 9). by rewrite Z.land_ones by lia. Qed.

Section lr_words.
Context (vid pid pri grp1 : Z) (hw : bool).
Context (Hvid : 0 ≤ vid < 512) (Hpid : 0 ≤ pid < 512) (Hpri : 0 ≤ pri < 256).
Context (Hgrp : 0 ≤ grp1 ≤ 1).

Lemma lr_word_bound : 0 ≤ lr_word_of vid pid pri grp1 hw < 2 ^ 32.
Proof using Type*. unfold lr_word_of. destruct hw; Z.div_mod_to_equations; lia. Qed.

Lemma lr_word_vid : gic_lr_read_vid (lr_word_of vid pid pri grp1 hw) = vid.
Proof using Type*.
  rewrite gic_lr_read_vid_mod. unfold lr_word_of. destruct hw; Z.div_mod_to_equations; lia.
Qed.

Lemma lr_word_pri : gic_lr_read_pri (lr_word_of vid pid pri grp1 hw) = pri .& 0xf8.
Proof using Type*.
  rewrite gic_lr_read_pri_div, land_f8 by apply lr_word_bound. f_equal.
  unfold lr_word_of. destruct hw; Z.div_mod_to_equations; lia.
Qed.

Lemma lr_word_high : lr_word_of vid pid pri grp1 hw / 2 ^ 28 = 1 + grp1 * 4 + (if hw then 8 else 0).
Proof using Type*. unfold lr_word_of. destruct hw; Z.div_mod_to_equations; lia. Qed.

(** The word reads as a pending interrupt that is not active. *)
Lemma lr_word_state :
  Z.testbit (lr_word_of vid pid pri grp1 hw) 28 = true ∧
  Z.testbit (lr_word_of vid pid pri grp1 hw) 29 = false.
Proof using Type*.
  replace 29 with (1 + 28) by lia. rewrite <- (Z.shiftr_spec _ 28 1) by lia.
  rewrite <- (Z.add_0_l 28) at 1. rewrite <- (Z.shiftr_spec _ 28 0) by lia.
  rewrite Z.shiftr_div_pow2, lr_word_high by lia.
  assert (grp1 = 0 ∨ grp1 = 1) as [-> | ->] by lia; by destruct hw.
Qed.
End lr_words.

(** The fields of a word, in any order, are disjoint. *)
Lemma lor_fields v w p g b31 :
  0 ≤ v < 512 → 0 ≤ w < 512 → 0 ≤ p < 32 → 0 ≤ g ≤ 1 → 0 ≤ b31 ≤ 1 →
  (b31 * 2 ^ 31 + 2 ^ 28) .| (p * 8 * 2 ^ 20 .| v .| (w * 2 ^ 10) .| (g * 2 ^ 30)) =
  v + w * 2 ^ 10 + p * 2 ^ 23 + 2 ^ 28 + g * 2 ^ 30 + b31 * 2 ^ 31.
Proof.
  intros Hv Hw Hp Hg Hb. replace (p * 8 * 2 ^ 20) with (p * 2 ^ 23) by lia.
  rewrite <- (lor_high_low b31 (2 ^ 28) 31) by lia.
  assert (b31 * 2 ^ 31 .| 2 ^ 28 .| (p * 2 ^ 23 .| v .| (w * 2 ^ 10) .| (g * 2 ^ 30)) =
    b31 * 2 ^ 31 .| (g * 2 ^ 30 .| (1 * 2 ^ 28 .| (p * 2 ^ 23 .| (w * 2 ^ 10 .| v))))) as ->.
  { change (1 * 2 ^ 28) with (2 ^ 28). apply Z.bits_inj'. intros i Hi. rewrite !Z.lor_spec. btauto. }
  rewrite (lor_high_low w v 10) by lia. rewrite (lor_high_low p _ 23) by lia.
  rewrite (lor_high_low 1 _ 28) by lia. rewrite (lor_high_low g _ 30) by lia.
  rewrite (lor_high_low b31 _ 31) by lia. lia.
Qed.

(** The words the three constructors build. *)
Lemma make_hardware vector pintvec pri grp1 :
  0 ≤ pri → 0 ≤ grp1 ≤ 1 →
  gic_make_virtual_hardware_interrupt vector pintvec pri grp1 =
    lr_word_of (vector mod 512) (pintvec mod 512) (pri mod 256) grp1 true.
Proof.
  intros Hpri Hg. unfold gic_make_virtual_hardware_interrupt, lr_word_of.
  rewrite land_f8. change 0x1ff with (Z.ones 9). rewrite !Z.land_ones by lia. change (2 ^ 9) with 512.
  replace (pri mod 256 / 8) with (pri / 8 mod 32) by (Z.div_mod_to_equations; lia).
  rewrite !Z.shiftl_mul_pow2 by lia.
  pose proof (Z.mod_pos_bound (pri / 8) 32 ltac:(lia)).
  pose proof (Z.mod_pos_bound vector 512 ltac:(lia)).
  pose proof (Z.mod_pos_bound pintvec 512 ltac:(lia)).
  rewrite !u32_small by (rewrite ?u32_small; lia). apply (lor_fields _ _ _ _ 1); lia.
Qed.

Lemma lor_swap a b c : a .| b .| c = a .| c .| b.
Proof. by rewrite <- !Z.lor_assoc, (Z.lor_comm b). Qed.

Lemma make_software_sgi vector cpu_id pri grp1 :
  0 ≤ pri → 0 ≤ grp1 ≤ 1 → 0 ≤ cpu_id < 512 →
  gic_make_virtual_software_sgi vector cpu_id pri grp1 =
    lr_word_of (vector mod 512) cpu_id (pri mod 256) grp1 false.
Proof.
  intros Hpri Hg Hcpu. unfold gic_make_virtual_software_sgi, lr_word_of.
  rewrite land_f8. change 0x1ff with (Z.ones 9). rewrite !Z.land_ones by lia. change (2 ^ 9) with 512.
  replace (pri mod 256 / 8) with (pri / 8 mod 32) by (Z.div_mod_to_equations; lia).
  rewrite !Z.shiftl_mul_pow2 by lia.
  pose proof (Z.mod_pos_bound (pri / 8) 32 ltac:(lia)).
  pose proof (Z.mod_pos_bound vector 512 ltac:(lia)).
  rewrite !u32_small by (rewrite ?u32_small; lia).
  rewrite (lor_swap _ (grp1 * 2 ^ 30)).
  apply (lor_fields _ _ _ _ 0); lia.
Qed.

Lemma make_software vector pri grp1 :
  0 ≤ pri → 0 ≤ grp1 ≤ 1 →
  gic_make_virtual_software_interrupt vector pri grp1 =
    lr_word_of (vector mod 512) 0 (pri mod 256) grp1 false.
Proof.
  intros Hpri Hg. rewrite <- make_software_sgi by (done || lia).
  unfold gic_make_virtual_software_interrupt, gic_make_virtual_software_sgi.
  change (u32 (u32 0 << 10)) with 0. by rewrite Z.lor_0_r.
Qed.

(** The words made for the list registers decode to what they were made
    from.  For the three kinds of virtual interrupts, the readers give back the
    low 9 bits of the vector and the priority without its low 3 bits, and the
    word is that of a pending, inactive interrupt: an occupied list register. *)
Lemma list_register_roundtrip vector pintvec cpu_id pri grp1 :
  0 ≤ pri → 0 ≤ grp1 ≤ 1 → 0 ≤ cpu_id < 8 →
  Forall (λ x, 0 ≤ x < 2 ^ 32 ∧ gic_lr_read_vid x = vector mod 512 ∧
      gic_lr_read_pri x = (pri mod 256) .& 0xf8 ∧
      Z.testbit x 28 = true ∧ Z.testbit x 29 = false)
    [gic_make_virtual_hardware_interrupt vector pintvec pri grp1;
     gic_make_virtual_software_interrupt vector pri grp1;
     gic_make_virtual_software_sgi vector cpu_id pri grp1].
Proof.
  intros Hpri Hg Hcpu. rewrite make_hardware, make_software, make_software_sgi by lia.
  pose proof (Z.mod_pos_bound vector 512 ltac:(lia)) as Hv.
  pose proof (Z.mod_pos_bound pintvec 512 ltac:(lia)) as Hp.
  pose proof (Z.mod_pos_bound pri 256 ltac:(lia)) as Hq.
  repeat apply List.Forall_cons; [..|apply List.Forall_nil];
    (split; [apply lr_word_bound; lia|]; split; [apply lr_word_vid; lia|];
     split; [apply lr_word_pri; lia|apply lr_word_state; lia]).
Qed.

(** * Witnesses *)

Definition gic_example : mach gic_dev :=
  {| dev := {| g_en := λ w, w =? 32; g_pri := λ _, 0xa0; g_lr := λ _, 0; g_iar := 30 |};
     log := []; irq_nr := 0 |}.

(** Interrupt 33 is disabled, and the answer is that it is enabled. *)
Lemma gic_enable_disable_correct_witness :
  enabled (dev gic_example) 33 = false ∧ enabled (dev gic_example) (32 * (33 / 32)) = true ∧
  wp (gic_enable_int 33 0) (λ _ s', enabling 33 0 (dev gic_example) (dev s')) gic_example ∧
  wp (gic_disable_int 33)
     (λ _ s', ∀ w, 0 ≤ w < 1020 → enabled (dev s') w = negb (w =? 33) && enabled (dev gic_example) w)
     gic_example ∧
  wp (gic_get_enable 33)
     (λ r s', r = of_bool (enabled (dev gic_example) (32 * (33 / 32))) ∧ dev s' = dev gic_example) gic_example.
Proof. split; [reflexivity|]. split; [reflexivity|]. apply gic_enable_disable_correct. lia. Defined.

Lemma list_register_example :
  Forall (λ x, 0 ≤ x < 2 ^ 32 ∧ gic_lr_read_vid x = 27 mod 512 ∧
      gic_lr_read_pri x = (0xa0 mod 256) .& 0xf8 ∧
      Z.testbit x 28 = true ∧ Z.testbit x 29 = false)
    [gic_make_virtual_hardware_interrupt 27 27 0xa0 0; gic_make_virtual_software_interrupt 27 0xa0 0;
     gic_make_virtual_software_sgi 27 3 0xa0 0].
Proof. apply list_register_roundtrip; lia. Defined.

Lemma gic_virtual_init_correct_example :
  enabled (dev gic_example) 32 = true ∧
  wp gic_virtual_init
     (λ _ s', (∀ w, 0 ≤ w < 1020 → enabled (dev s') w = (w <? 32) || enabled (dev gic_example) w) ∧
        (∀ k, lr (dev s') k = lr (dev gic_example) k) ∧
        irq_nr s' = Z.min 1020 (32 * (typer mod 32 + 1)) ∧ 32 ≤ irq_nr s' ≤ 1020) gic_example.
Proof. split; [reflexivity|]. exact (gic_virtual_init_correct gic_example). Defined.
