(* ===== verification/Dw.v ===== *)
(** The second serial driver, [io/uart_dw_apb.c], for a DesignWare port. *)

From S2P Require Import Prelude Config Gic.

(** * Definitions *)

(** The fields of [DW8250Regs]: words one after the other. *)
Definition dw_rbr : Z := 0x00.
Definition dw_ier : Z := 0x04.
Definition dw_fcr : Z := 0x08.
Definition dw_lcr : Z := 0x0c.
Definition dw_mcr : Z := 0x10.
Definition dw_lsr : Z := 0x14.
Definition dw_usr : Z := 0x28.
Definition dw_dlf : Z := 0x30.

Definition UART_SRC_CLK : Z := 25000000.
Definition BST_UART_DLF_LEN : Z := 6.
Definition BAUDRATE : Z := 115200.

Section dw.
Context {D : Type} `{Device D}.

(** A division by zero is a fault. *)
Definition get_baud_divider (baudrate : Z) : option Z :=
  if baudrate =? 0 then None else Some (u32 (UART_SRC_CLK << (BST_UART_DLF_LEN - 4)) / baudrate).

Definition regs (base off : Z) : Z := u64 (base + off).
(** [regs(uart)->f = f'(regs(uart)->f)]. *)
Definition update (base off : Z) (f : Z → Z) : St (mach D) unit :=
  v ← read32 (regs base off); write32 (f v) (regs base off).
(** A loop until the bits of [mask] are, or are not, set. *)
Fixpoint poll (fuel : nat) (base off mask : Z) (want : bool) : St (mach D) unit :=
  match fuel with
  | O => nofuel
  | S fuel =>
      v ← read32 (regs base off);
      if Bool.eqb (truthy (v .& mask)) want then mret tt else poll fuel base off mask want
  end.

Definition DW8250_init (fuel : nat) (base : Z) : St (mach D) unit :=
  divider ← deref (get_baud_divider BAUDRATE);
  poll fuel base dw_usr 1 false;;
  write32 0 (regs base dw_ier);;
  write32 1 (regs base dw_fcr);;
  write32 0 (regs base dw_mcr);;
  update base dw_mcr (λ v, v .| (1 << 1));;
  update base dw_lcr (λ v, v .| (1 << 7));;
  write32 ((divider >> BST_UART_DLF_LEN) .& 0xff) (regs base dw_rbr);;
  write32 ((divider >> (BST_UART_DLF_LEN + 8)) .& 0xff) (regs base dw_ier);;
  write32 (divider .& ((1 << BST_UART_DLF_LEN) - 1)) (regs base dw_dlf);;
  update base dw_lcr (λ v, v .& u32 (Z.lnot (1 << 7)));;
  update base dw_lcr (λ v, v .| 3).

Definition DW8250_putchar (fuel : nat) (base c : Z) : St (mach D) unit :=
  poll fuel base dw_lsr (1 << 6) true;;
  write32 c (regs base dw_rbr).

Definition DW8250_getchar (base : Z) : St (mach D) Z :=
  v ← read32 (regs base dw_lsr);
  if truthy (v .& 1) then v ← read32 (regs base dw_rbr); mret (u8 (v .& 0xff)) else mret 0.

Definition DW8250_set_ier (base : Z) (enable : bool) : St (mach D) unit :=
  if enable then write32 1 (regs base dw_ier) else write32 0 (regs base dw_ier).
End dw.

(** * The port

    The registers of the hardware the driver configures, by the offsets of its
    manual: the first two words are the divisor while bit 7 of the line control
    register is set, and the fraction of the divisor is at [0xc0].  While the port is
    busy, moving a character, a write of the line control register or of the divisor
    is ignored. *)

Record port := { p_dll : Z; p_dlh : Z; p_ier : Z; p_fcr : Z; p_lcr : Z; p_mcr : Z; p_dlf : Z }.
Definition dlab (p : port) : bool := Z.testbit (p_lcr p) 7.
Definition port_write (busy : bool) (off v : Z) (p : port) : port := {|
  p_dll := if (off =? 0x00) && dlab p && negb busy then u8 v else p_dll p;
  p_dlh := if (off =? 0x04) && dlab p && negb busy then u8 v else p_dlh p;
  p_ier := if (off =? 0x04) && negb (dlab p) then u8 v else p_ier p;
  p_fcr := if off =? 0x08 then u8 v else p_fcr p;
  p_lcr := if (off =? 0x0c) && negb busy then u8 v else p_lcr p;
  p_mcr := if off =? 0x10 then v .& 0x7f else p_mcr p;
  p_dlf := if off =? 0xc0 then v .& 0x3f else p_dlf p |}.

(** What the driver relies on: a write does what the manual says to the registers, a
    read does nothing to them, the two control registers read as they were written,
    and a word stored in the first register is a character to send unless the divisor
    is open.  Whether the port is busy is bit 0 of the status register, which the
    manual has at [0x7c]. *)
Definition busy {D} `{Device D} (base : Z) (d : D) : bool := Z.testbit (fst (rd32 (base + 0x7c) d)) 0.
Class DwPort (D : Type) `{Device D} (base : Z) := {
  port_of : D → port;
  sent : D → list Z;
  port_base : 0 ≤ base ∧ base + 0x100 ≤ 2 ^ 64;
  port_wr off v d : 0 ≤ off < 0x100 → port_of (wr32 v (base + off) d) = port_write (busy base d) off v (port_of d);
  port_rd off d : 0 ≤ off < 0x100 →
    port_of (snd (rd32 (base + off) d)) = port_of d ∧ sent (snd (rd32 (base + off) d)) = sent d;
  port_rd_lcr d : fst (rd32 (base + 0x0c) d) = p_lcr (port_of d);
  port_rd_mcr d : fst (rd32 (base + 0x10) d) = p_mcr (port_of d);
  port_bytes d : 0 ≤ p_lcr (port_of d) < 256 ∧ 0 ≤ p_mcr (port_of d) < 256;
  port_send off v d : 0 ≤ off < 0x100 →
    sent (wr32 v (base + off) d) = if (off =? 0x00) && negb (dlab (port_of d)) then sent d ++ [u8 v] else sent d;
}.

(** The accesses of a driver.  The port goes idle, or gets busy, by itself at any of
    them: it stays idle when it is idle at every access as long as nothing is sent,
    and stays busy when it is busy at every access. *)
Inductive dw_access {D} `{DwPort D base} (sends : bool) : D → D → Prop :=
  | dw_access_rd off d : 0 ≤ off < 0x100 → dw_access sends d (snd (rd32 (base + off) d))
  | dw_access_wr off v d : 0 ≤ off < 0x100 → sends = true ∨ off ≠ 0x00 ∨ dlab (port_of d) = true →
      dw_access sends d (wr32 v (base + off) d).
Definition stays_idle {D} `{DwPort D base} (d : D) : Prop := ∀ d', rtc (dw_access false) d d' → busy base d' = false.
Definition stays_busy {D} `{DwPort D base} (d : D) : Prop := ∀ d', rtc (dw_access true) d d' → busy base d' = true.

(** The port answers: the device after a poll of the register at [a]. *)
Fixpoint polled {D} `{Device D} (fuel : nat) (a mask : Z) (want : bool) (d : D) : option D :=
  match fuel with
  | O => None
  | S fuel =>
      let '(v, d') := rd32 a d in
      if Bool.eqb (truthy (v .& mask)) want then Some d' else polled fuel a mask want d'
  end.

(** * The driver is correct *)

Section correct.
#[local] Set Default Proof Using "Type*".
Context {D : Type} `{HP : DwPort D base}.

Lemma regs_eq off : 0 ≤ off < 0x100 → regs base off = base + off.
Proof. intros Hoff. pose proof port_base. unfold regs, u64. apply Z.mod_small. lia. Qed.

Lemma poll_ok fuel off mask want d1 (Q : unit → mach D → Prop) s :
  0 ≤ off < 0x100 → polled fuel (base + off) mask want (dev s) = Some d1 →
  (∀ s', dev s' = d1 → port_of d1 = port_of (dev s) → sent d1 = sent (dev s) → Q tt s') →
  wp (poll fuel base off mask want) Q s.
Proof.
  intros Hoff. revert s. induction fuel as [|fuel IH]; intros s Hp HQ; [done|]. cbn [poll polled] in *. wp_step.
  rewrite regs_eq by done. apply wp_read32. destruct (port_rd off (dev s) Hoff) as [Hv Hs].
  destruct (rd32 (base + off) (dev s)) as [v d']. cbn [fst snd] in *. destruct (Bool.eqb _ _).
  - wp_step. injection Hp as ->. by apply HQ.
  - apply IH; [exact Hp|]. cbn [dev]. intros s' Hd E1 E2. apply HQ; congruence.
Qed.

(** The registers and the characters sent, while the port stays busy or idle. *)
Record at_port (b : bool) (p : port) (o : list Z) (d : D) : Prop := {
  ap_port : port_of d = p;
  ap_sent : sent d = o;
  ap_stays : if b then stays_busy d else stays_idle d;
}.
Lemma at_port_busy b p o d : at_port b p o d → busy base d = b.
Proof. intros [_ _ Hs]. destruct b; apply Hs, rtc_refl. Qed.
Lemma at_port_step b p o d d' : at_port b p o d → dw_access b d d' → at_port b (port_of d') (sent d') d'.
Proof. intros [_ _ Hs] Ha. constructor; [done..|]. destruct b; intros d2 Hd2; apply Hs; by eapply rtc_l. Qed.
Lemma write_ok b off v p o (Q : unit → mach D → Prop) s :
  at_port b p o (dev s) → 0 ≤ off < 0x100 → 0 ≤ v < 2 ^ 32 → b = true ∨ off ≠ 0x00 ∨ dlab p = true →
  (∀ s', at_port b (port_write b off v p) (if (off =? 0x00) && negb (dlab p) then o ++ [u8 v] else o) (dev s') → Q tt s') →
  wp (write32 v (regs base off)) Q s.
Proof.
  intros Hs Hoff Hv Hd HQ. rewrite regs_eq by done. pose proof (at_port_busy _ _ _ _ Hs) as Hb. pose proof Hs as [Hp Ho _].
  assert (u32 v = v) as Hu by (by apply Z.mod_small). apply HQ. cbn [dev]. rewrite Hu.
  rewrite <- Hp in Hd. pose proof (at_port_step _ _ _ _ _ Hs (dw_access_wr b off v (dev s) Hoff Hd)) as Hs'.
  rewrite port_wr, port_send, Hb, Hp, Ho in Hs' by done. exact Hs'.
Qed.
(** A read of a control register, and a write of what [f] makes of it. *)
Lemma update_ok b off f p o (Q : unit → mach D → Prop) s :
  at_port b p o (dev s) → off = 0x0c ∨ off = 0x10 → (∀ v, 0 ≤ v < 256 → 0 ≤ f v < 2 ^ 32) →
  (∀ s', at_port b (port_write b off (f (if off =? 0x0c then p_lcr p else p_mcr p)) p) o (dev s') → Q tt s') →
  wp (update base off f) Q s.
Proof.
  intros Hs Hoff Hf HQ. unfold update. wp_step. rewrite regs_eq by lia. apply wp_read32.
  pose proof Hs as [Hp Ho _]. destruct (port_rd off (dev s)) as [Hv Hw]; [lia|]. destruct (port_bytes (dev s)) as [Hl Hm].
  pose proof (at_port_step _ _ _ _ _ Hs (dw_access_rd b off (dev s) ltac:(lia))) as Hs'. rewrite Hv, Hw, Hp, Ho in Hs'.
  assert (fst (rd32 (base + off) (dev s)) = if off =? 0x0c then p_lcr p else p_mcr p) as Hrd
    by (rewrite <- Hp; destruct Hoff; subst off; [apply port_rd_lcr|apply port_rd_mcr]).
  rewrite Hp in Hl, Hm.
  destruct (rd32 (base + off) (dev s)) as [w d']. cbn [fst snd] in *. rewrite <- regs_eq by lia.
  eapply write_ok; [exact Hs'|lia|apply Hf; subst w; by destruct (off =? 0x0c)|right; left; lia|].
  intros s' E. apply HQ. rewrite <- Hrd. by rewrite (proj2 (Z.eqb_neq off 0)) in E by lia.
Qed.

(** The line control register after the start: eight data bits, the divisor closed,
    the other bits as they were. *)
Definition line_8bit (lcr : Z) : Z := (lcr .& 0x7f) .| 3.
Lemma line_8bit_eq x : u8 (u8 (u8 (x .| (1 << 7)) .& u32 (Z.lnot (1 << 7))) .| 3) = line_8bit x.
Proof using Type.
  unfold line_8bit, u8. change (u32 (Z.lnot (1 << 7))) with (2 ^ 32 - 1 - 128).
  apply Z.bits_inj'. intros i Hi. destruct (Z.ltb_spec i 8) as [Hlt|Hge].
  - assert (i ∈ [0;1;2;3;4;5;6;7]) as Hin by (rewrite !elem_of_cons; lia).
    rewrite !elem_of_cons in Hin.
    repeat destruct Hin as [->|Hin]; try by apply not_elem_of_nil in Hin.
    all: autorewrite with zbits; cbn; by rewrite ?andb_true_r, ?andb_false_r, ?orb_false_r, ?orb_true_r.
  - autorewrite with zbits. by rewrite (testbit_small 0x7f 7), (testbit_small 3 2), andb_false_r by lia.
Qed.
Lemma line_8bit_range x : 0 ≤ line_8bit x < 128.
Proof using Type.
  assert (line_8bit x mod 2 ^ 7 = line_8bit x) as <-; [|apply Z.mod_pos_bound; lia].
  unfold line_8bit. zbitwise. destruct (Z.ltb_spec i 7); autorewrite with zbits; [done|].
  by rewrite (testbit_small 0x7f 7), (testbit_small 3 2), andb_false_r by lia.
Qed.

(** The registers after the start, of a port that stays idle and of one that stays
    busy; the second one takes the divisor for a character. *)
Definition dw_started (p : port) : port :=
  Build_port 13 0 (if dlab p then p_ier p else 0) 1 (line_8bit (p_lcr p)) 2 (p_dlf p).
Definition dw_not_started (p : port) : port :=
  Build_port (p_dll p) (p_dlh p) (if dlab p then p_ier p else 0) 1 (p_lcr p) 2 (p_dlf p).

(** With the divisor open, whatever the line settings. *)
Lemma dlab_open x : Z.testbit (u8 (x .| (1 << 7))) 7 = true.
Proof using Type. unfold u8. autorewrite with zbits. apply orb_true_r. Qed.
Lemma u8_range x : 0 ≤ u8 x < 2 ^ 32.
Proof using Type. unfold u8. pose proof (Z.mod_pos_bound x (2 ^ 8)). lia. Qed.
Lemma lor_range a b : 0 ≤ a < 2 ^ 32 → 0 ≤ b < 2 ^ 32 → 0 ≤ a .| b < 2 ^ 32.
Proof using Type.
  intros Ha Hb. assert ((a .| b) mod 2 ^ 32 = a .| b) as <-; [|apply Z.mod_pos_bound; lia].
  zbitwise. destruct (Z.ltb_spec i 32); autorewrite with zbits; [done|].
  by rewrite (testbit_small a 32), (testbit_small b 32) by lia.
Qed.
Lemma land_range a b : 0 ≤ a < 2 ^ 32 → 0 ≤ a .& b < 2 ^ 32.
Proof using Type.
  intros Ha. assert ((a .& b) mod 2 ^ 32 = a .& b) as <-; [|apply Z.mod_pos_bound; lia].
  zbitwise. destruct (Z.ltb_spec i 32); autorewrite with zbits; [done|]. by rewrite (testbit_small a 32) by lia.
Qed.

(** The writes of the driver on a known port. *)
Section known.
#[local] Set Default Proof Using "Type".
Context (b : bool) (v dll dlh ier fcr lcr mcr dlf : Z).
Abbreviation p := (Build_port dll dlh ier fcr lcr mcr dlf).
Lemma write_rbr : port_write b dw_rbr v p =
  Build_port (if Z.testbit lcr 7 && negb b then u8 v else dll) dlh ier fcr lcr mcr dlf.
Proof. done. Qed.
Lemma write_ier : port_write b dw_ier v p =
  Build_port dll (if Z.testbit lcr 7 && negb b then u8 v else dlh) (if Z.testbit lcr 7 then ier else u8 v) fcr lcr mcr dlf.
Proof. unfold port_write, dlab. cbn [p_lcr]. by destruct (Z.testbit lcr 7). Qed.
Lemma write_fcr : port_write b dw_fcr v p = Build_port dll dlh ier (u8 v) lcr mcr dlf.
Proof. done. Qed.
Lemma write_lcr : port_write b dw_lcr v p = Build_port dll dlh ier fcr (if negb b then u8 v else lcr) mcr dlf.
Proof. done. Qed.
Lemma write_mcr : port_write b dw_mcr v p = Build_port dll dlh ier fcr lcr (v .& 0x7f) dlf.
Proof. done. Qed.
Lemma write_dlf : port_write b dw_dlf v p = p.
Proof. done. Qed.
End known.

(** The next access of a sequence that starts from a known port. *)
Ltac port_next E :=
  let s := fresh "s" in let E' := fresh "E" in intros s E'; clear E; rename E' into E;
  rewrite ?write_rbr, ?write_ier, ?write_fcr, ?write_lcr, ?write_mcr, ?write_dlf in E;
  unfold dlab in E; cbn [p_lcr p_mcr Z.eqb Pos.eqb dw_lcr dw_mcr dw_ier dw_fcr dw_rbr dw_dlf andb negb] in E;
  rewrite ?dlab_open, ?andb_false_r in E; cbn [andb negb] in E.
Ltac port_write_next E := wp_step; eapply write_ok;
  [exact E|done|done|first [by left | by right; left | by right; right; apply dlab_open]|port_next E].
Ltac port_update_next E := eapply update_ok;
  [exact E|(by left) || (by right)|cbn beta; intros; first [apply lor_range|apply land_range]; (lia || done)|port_next E].

Lemma DW8250_init_ok (b : bool) fuel d1 s :
  polled fuel (base + dw_usr) 1 false (dev s) = Some d1 → (if b then stays_busy d1 else stays_idle d1) →
  wp (DW8250_init fuel base)
     (λ _ s', let p := port_of (dev s) in
        port_of (dev s') = (if b then dw_not_started p else dw_started p) ∧
        sent (dev s') = if b && negb (dlab p) then sent (dev s) ++ [13] else sent (dev s)) s.
Proof.
  intros Hp Hstay. unfold DW8250_init. wp_step. apply wp_deref. exists 868. split; [reflexivity|]. wp_step.
  eapply poll_ok; [done|exact Hp|]. intros s0 Hd E1 E2. rewrite <- E1, <- E2.
  assert (E : at_port b (port_of d1) (sent d1) (dev s0)) by (by rewrite Hd). clear Hp E1 E2 Hd Hstay.
  set (o := sent d1) in *. destruct (port_of d1) as [dll dlh ier fcr lcr mcr dlf]. clearbody o. cbv zeta.
  destruct b.
  - do 3 port_write_next E. do 2 (wp_step; port_update_next E).
    do 3 port_write_next E. wp_step. port_update_next E. port_update_next E.
    unfold dw_not_started, dlab. cbn [p_lcr p_dll p_dlh p_ier p_dlf].
    destruct (Z.testbit lcr 7); cbn [andb negb] in *; by destruct E.
  - do 3 port_write_next E. do 2 (wp_step; port_update_next E).
    do 3 port_write_next E. wp_step. port_update_next E. port_update_next E.
    destruct E as [Ep Eo _]. rewrite Ep, line_8bit_eq. done.
Qed.

(** A divisor for every baud rate, in 64ths of the clock over 16. *)
Lemma get_baud_divider_ok b :
  0 < b < 2 ^ 32 →
  ∃ d, get_baud_divider b = Some d ∧ 16 * b * d ≤ 2 ^ BST_UART_DLF_LEN * UART_SRC_CLK < 16 * b * (d + 1).
Proof using Type.
  intros Hb. unfold get_baud_divider. rewrite (proj2 (Z.eqb_neq _ _)) by lia. eexists. split; [done|].
  change (u32 _) with 100000000. change (2 ^ BST_UART_DLF_LEN * UART_SRC_CLK) with (16 * 100000000).
  pose proof (Z.div_mod 100000000 b). pose proof (Z.mod_pos_bound 100000000 b). nia.
Qed.

(** C14: the driver of the second port, for a port that answers its polls.  A port
    that is and stays idle is started: the FIFOs on, the request to send raised, the
    divisor latch closed and eight data bits, and the integer part 13 of the divisor of
    the baud rate, which is rounded down to a 64th; interrupts are off when the latch
    was closed at the entry, and else as they were, since the word that switches them
    off is then one of the divisor.  The fraction goes to the offset [0x30] of the
    structure and not to the register of the fraction, which keeps what it had.  The
    driver polls the offset [0x28] and not the status register, so that it goes on with
    a port that is busy: one that stays so keeps its baud rate and its line settings,
    and sends the byte 13 of the divisor as a character.  A character is sent once the
    port is empty, nothing else changes; one that has arrived is read, and 0 stands for
    none; the interrupts are switched on and off. *)
Theorem DW8250_correct (s : mach D) :
  (∀ b, 0 < b < 2 ^ 32 → ∃ d, get_baud_divider b = Some d ∧
     16 * b * d ≤ 2 ^ BST_UART_DLF_LEN * UART_SRC_CLK < 16 * b * (d + 1)) ∧
  (∀ fuel d1, polled fuel (base + dw_usr) 1 false (dev s) = Some d1 → stays_idle d1 →
     wp (DW8250_init fuel base)
        (λ _ s', sent (dev s') = sent (dev s) ∧ port_of (dev s') =
           let p := port_of (dev s) in
           {| p_dll := 13; p_dlh := 0; p_ier := if dlab p then p_ier p else 0; p_fcr := 1;
              p_lcr := (p_lcr p .& 0x7f) .| 3; p_mcr := 2; p_dlf := p_dlf p |}) s) ∧
  (∀ fuel d1, polled fuel (base + dw_usr) 1 false (dev s) = Some d1 → stays_busy d1 →
     wp (DW8250_init fuel base)
        (λ _ s', let p := port_of (dev s) in
           sent (dev s') = (if dlab p then sent (dev s) else sent (dev s) ++ [13]) ∧
           port_of (dev s') =
             {| p_dll := p_dll p; p_dlh := p_dlh p; p_ier := if dlab p then p_ier p else 0; p_fcr := 1;
                p_lcr := p_lcr p; p_mcr := 2; p_dlf := p_dlf p |}) s) ∧
  (∀ fuel d1 c, 0 ≤ c < 256 → dlab (port_of (dev s)) = false →
     polled fuel (base + dw_lsr) (1 << 6) true (dev s) = Some d1 →
     wp (DW8250_putchar fuel base c)
        (λ _ s', port_of (dev s') = port_of (dev s) ∧ sent (dev s') = sent (dev s) ++ [c]) s) ∧
  wp (DW8250_getchar base)
     (λ c s', port_of (dev s') = port_of (dev s) ∧ sent (dev s') = sent (dev s) ∧
        let '(status, d1) := rd32 (base + dw_lsr) (dev s) in
        c = if Z.testbit status 0 then u8 (fst (rd32 (base + dw_rbr) d1)) else 0) s ∧
  (∀ enable, dlab (port_of (dev s)) = false →
     wp (DW8250_set_ier base enable)
        (λ _ s', let p := port_of (dev s) in
           sent (dev s') = sent (dev s) ∧ port_of (dev s') =
             {| p_dll := p_dll p; p_dlh := p_dlh p; p_ier := of_bool enable; p_fcr := p_fcr p;
                p_lcr := p_lcr p; p_mcr := p_mcr p; p_dlf := p_dlf p |}) s).
Proof.
  split_and!.
  - apply get_baud_divider_ok.
  - intros fuel d1 Hp Hb. eapply wp_mono; [by apply (DW8250_init_ok false fuel d1)|]. by intros [] s' [Hs Ho].
  - intros fuel d1 Hp Hb. eapply wp_mono; [by apply (DW8250_init_ok true fuel d1)|]. intros [] s' [Hs Ho].
    split; [|exact Hs]. rewrite Ho. by destruct (dlab _).
  - intros fuel d1 c Hc Hd Hp. unfold DW8250_putchar. wp_step. eapply poll_ok; [done|exact Hp|].
    intros s1 <- E1 S1. rewrite regs_eq by done. apply wp_write32. cbn [dev].
    assert (u8 (u32 c) = c) as Hu by (unfold u8, u32; by rewrite (Z.mod_small c (2 ^ 32)), (Z.mod_small c) by lia).
    rewrite port_wr, port_send, S1, E1, Hd by done. cbn [Z.eqb dw_rbr andb negb]. rewrite Hu. split; [|done].
    unfold port_write. rewrite Hd. by destruct (port_of (dev s)).
  - unfold DW8250_getchar. wp_step. rewrite !regs_eq by done. apply wp_read32.
    destruct (port_rd dw_lsr (dev s)) as [E1 S1]; [done|]. destruct (rd32 (base + dw_lsr) (dev s)) as [v d1].
    cbn [fst snd] in *. rewrite <- (land_bit_test v 0) by done. change (1 << 0) with 1. destruct (truthy (v .& 1)).
    + wp_step. apply wp_read32. cbn [dev]. destruct (port_rd dw_rbr d1) as [E2 S2]; [done|]. wp_step. cbn [dev].
      split_and!; [congruence|congruence|]. unfold u8. change 0xff with (Z.ones 8). rewrite Z.land_ones by done.
      by rewrite Z.mod_mod.
    + wp_step. by cbn [dev].
  - intros enable Hd. unfold DW8250_set_ier.
    assert (Hw : ∀ v, 0 ≤ v < 256 → wp (write32 v (regs base dw_ier)) (λ _ s', let p := port_of (dev s) in
      sent (dev s') = sent (dev s) ∧ port_of (dev s') = Build_port (p_dll p) (p_dlh p) v (p_fcr p) (p_lcr p) (p_mcr p) (p_dlf p)) s).
    { intros v Hv. rewrite regs_eq by done. apply wp_write32. cbn [dev]. rewrite port_wr, port_send by done. split; [done|].
      unfold port_write. rewrite Hd. cbn [dw_ier Z.eqb Pos.eqb andb negb].
      unfold u8, u32. by rewrite (Z.mod_small v (2 ^ 32)), (Z.mod_small v) by lia. }
    destruct enable; by apply Hw.
Qed.
End correct.

(** * Example *)

(** A port at [0x1000] that has the character 65, and is idle, or busy with a character
    that does not end. *)
Record dw_dev := { dw_port : port; dw_busy : bool; dw_out : list Z }.
Definition in_bytes (p : port) : port :=
  {| p_dll := p_dll p; p_dlh := p_dlh p; p_ier := p_ier p; p_fcr := p_fcr p; p_lcr := u8 (p_lcr p);
     p_mcr := p_mcr p .& 0x7f; p_dlf := p_dlf p |}.
#[local] Instance dw_device : Device dw_dev := {|
  rd32 a d := (if a =? 0x1000 then 65 else if a =? 0x100c then u8 (p_lcr (dw_port d))
               else if a =? 0x1010 then p_mcr (dw_port d) .& 0x7f else if a =? 0x1014 then 0x61
               else if a =? 0x107c then of_bool (dw_busy d) else 0, d);
  wr32 v a d := {| dw_port := port_write (dw_busy d) (a - 0x1000) v (in_bytes (dw_port d)); dw_busy := dw_busy d;
                   dw_out := if (a =? 0x1000) && negb (dlab (in_bytes (dw_port d))) then dw_out d ++ [u8 v] else dw_out d |};
  wr8 _ _ d := d; rd64 _ d := (0, d); wr64 _ _ d := d |}.
Lemma in_bytes_write b off v p : in_bytes (port_write b off v (in_bytes p)) = port_write b off v (in_bytes p).
Proof.
  assert (Hu : ∀ x, u8 (u8 x) = u8 x) by (intros; apply Z.mod_mod; lia).
  assert (Hl : ∀ x, (x .& 0x7f) .& 0x7f = x .& 0x7f) by (intros; by rewrite <- Z.land_assoc).
  unfold port_write, in_bytes. cbn [p_dll p_dlh p_ier p_fcr p_lcr p_mcr p_dlf]. f_equal.
  - destruct (_ && _); apply Hu.
  - destruct (off =? 0x10); apply Hl.
Qed.
Lemma dw_busy_eq d : busy 0x1000 d = dw_busy d.
Proof. unfold busy. cbn [rd32 dw_device fst Z.add Pos.add Pos.add_carry Pos.succ Z.eqb Pos.eqb]. by destruct (dw_busy d). Qed.
#[local] Instance dw_example_port : DwPort dw_dev 0x1000.
Proof.
  refine {| port_of d := in_bytes (dw_port d); sent := dw_out |}.
  - lia.
  - intros off v d Hoff. rewrite dw_busy_eq. cbn [wr32 dw_device dw_port]. rewrite in_bytes_write. f_equal. lia.
  - done.
  - done.
  - done.
  - intros d. cbn. split; [apply Z.mod_pos_bound; lia|]. change 127 with (Z.ones 7). rewrite Z.land_ones by done.
    pose proof (Z.mod_pos_bound (p_mcr (dw_port d)) (2 ^ 7)). lia.
  - intros off v d Hoff. cbn [wr32 dw_device dw_out].
    assert ((0x1000 + off =? 0x1000) = (off =? 0x00)) as -> by (destruct (Z.eqb_spec off 0), (Z.eqb_spec (0x1000 + off) 0x1000); lia).
    done.
Defined.
(** Its state does not change. *)
Lemma dw_stays sends d d' : rtc (dw_access sends) d d' → busy 0x1000 d' = busy 0x1000 d.
Proof. induction 1 as [|d d1 d2 Ha _ IH]; [done|]. rewrite IH, !dw_busy_eq. by destruct Ha. Qed.
Definition dw_example (b : bool) : mach dw_dev :=
  {| dev := {| dw_port := {| p_dll := 1; p_dlh := 1; p_ier := 5; p_fcr := 0; p_lcr := 0x1b; p_mcr := 0; p_dlf := 0 |};
               dw_busy := b; dw_out := [] |}; log := []; irq_nr := 0 |}.
Lemma DW8250_correct_witness :
  wp (DW8250_init 1 0x1000)
     (λ _ s', port_of (dev s') =
        {| p_dll := 13; p_dlh := 0; p_ier := 0; p_fcr := 1; p_lcr := 0x1b; p_mcr := 2; p_dlf := 0 |}) (dw_example false) ∧
  wp (DW8250_init 1 0x1000) (λ _ s', sent (dev s') = [13] ∧ p_dll (port_of (dev s')) = 1) (dw_example true) ∧
  wp (DW8250_putchar 1 0x1000 66) (λ _ s', sent (dev s') = [66]) (dw_example false) ∧
  wp (DW8250_getchar 0x1000) (λ c _, c = 65) (dw_example false) ∧
  wp (DW8250_set_ier 0x1000 true) (λ _ s', p_ier (port_of (dev s')) = 1) (dw_example false).
Proof.
  destruct (DW8250_correct (HP := dw_example_port) (dw_example false)) as (_ & Hi & _ & Hp & Hg & Hs).
  destruct (DW8250_correct (HP := dw_example_port) (dw_example true)) as (_ & _ & Hb & _). split_and!.
  - eapply wp_mono; [apply (Hi 1%nat (dev (dw_example false)) eq_refl)|by intros [] s' [_ Hs']].
    intros d' Hd. by rewrite (dw_stays _ _ _ Hd), dw_busy_eq.
  - eapply wp_mono; [apply (Hb 1%nat (dev (dw_example true)) eq_refl)|by intros [] s' [Ho ->]].
    intros d' Hd. by rewrite (dw_stays _ _ _ Hd), dw_busy_eq.
  - eapply wp_mono; [apply (Hp 1%nat (dev (dw_example false))); [lia|reflexivity|reflexivity]|]. intros [] s' [_ Hs']. exact Hs'.
  - eapply wp_mono; [exact Hg|]. intros c s' (_ & _ & Hc). exact Hc.
  - eapply wp_mono; [apply (Hs true); reflexivity|]. intros [] s' [_ E]. by rewrite E.
Defined.
