(* ===== verification/Frame.v ===== *)
(** The data of an exception: [include/exception.h]. *)

From S2P Require Import Prelude.

Definition NUM_REGS : nat := 31.

(** [trap_frame_t], also called [cpu_ctx_t]. *)
Record trap_frame := { r : list Z; usp : Z; elr : Z; spsr : Z }.

(** A frame has all its registers. *)
Definition frame_ok (f : trap_frame) : Prop := length (r f) = NUM_REGS.

Definition set_reg (i : nat) (v : Z) (f : trap_frame) : trap_frame :=
  {| r := <[i := v]> (r f); usp := usp f; elr := elr f; spsr := spsr f |}.
Definition set_elr (v : Z) (f : trap_frame) : trap_frame :=
  {| r := r f; usp := usp f; elr := v; spsr := spsr f |}.
Definition set_spsr (v : Z) (f : trap_frame) : trap_frame :=
  {| r := r f; usp := usp f; elr := elr f; spsr := v |}.
Definition set_usp (v : Z) (f : trap_frame) : trap_frame :=
  {| r := r f; usp := v; elr := elr f; spsr := spsr f |}.

(** [union hsr]: a word, and the fields of a data abort in it. *)
Definition hsr_len (bits : Z) : Z := (bits >> 25) .& 1.
Definition hsr_ec (bits : Z) : Z := (bits >> 26) .& 0x3f.
Definition dabt_write (bits : Z) : Z := (bits >> 6) .& 1.
Definition dabt_reg (bits : Z) : Z := (bits >> 16) .& 0x1f.
Definition dabt_size (bits : Z) : Z := (bits >> 22) .& 3.

(** [ept_violation_info_t]; [reason] is 0 for [PREFETCH], 1 for [DABT]. *)
Record ept_violation_info := { hsr : Z; reason : Z; gva : Z; gpa : Z }.

Lemma dabt_reg_range bits : 0 ≤ dabt_reg bits < 32.
Proof. unfold dabt_reg. change 0x1f with (Z.ones 5). rewrite Z.land_ones by lia. apply Z.mod_pos_bound. lia. Qed.
