(* ===== verification/Vectors.v ===== *)
(** The vectors in assembly: [SAVE_REGS], [RESTORE_REGS] and the tables of
    [exception/exception.S], [exception/exception_el2.S] and [exception/exception_el3.S],
    over bytes of memory. *)

From S2P Require Import Prelude ByteMem Word Frame Switch.

(** * Definitions *)

(** The level whose vectors run: it names the registers the macros move. *)
Inductive level := EL1 | EL2 | EL3.

(** A core in a vector: the general registers, the stack pointer, the one of the lower
    level ([sp_el0] at EL1, [sp_el1] at EL3), the link and state registers of the
    level, and where it is once [eret] has loaded them. *)
Record vcore := {
  vc_mem : mem;
  gpr : list Z;
  vc_sp : Z;
  lower_sp : Z;
  elr_elx : Z;
  spsr_elx : Z;
  vc_pc : Z;
  vc_pstate : Z;
}.
Definition set_vmem (m : mem) (c : vcore) : vcore :=
  {| vc_mem := m; gpr := gpr c; vc_sp := vc_sp c; lower_sp := lower_sp c; elr_elx := elr_elx c;
     spsr_elx := spsr_elx c; vc_pc := vc_pc c; vc_pstate := vc_pstate c |}.
Definition set_gpr (g : list Z) (c : vcore) : vcore :=
  {| vc_mem := vc_mem c; gpr := g; vc_sp := vc_sp c; lower_sp := lower_sp c; elr_elx := elr_elx c;
     spsr_elx := spsr_elx c; vc_pc := vc_pc c; vc_pstate := vc_pstate c |}.
Definition set_vsp (a : Z) (c : vcore) : vcore :=
  {| vc_mem := vc_mem c; gpr := gpr c; vc_sp := a; lower_sp := lower_sp c; elr_elx := elr_elx c;
     spsr_elx := spsr_elx c; vc_pc := vc_pc c; vc_pstate := vc_pstate c |}.
Definition set_banked (lsp el sps : Z) (c : vcore) : vcore :=
  {| vc_mem := vc_mem c; gpr := gpr c; vc_sp := vc_sp c; lower_sp := lsp; elr_elx := el;
     spsr_elx := sps; vc_pc := vc_pc c; vc_pstate := vc_pstate c |}.

(** ** Instructions *)

Definition on_vmem {A} (m : St mem A) : St vcore A := on_part vc_mem set_vmem m.
Definition read_x (i : nat) : St vcore Z := c ← get; deref (gpr c !! i).
Definition write_x (i : nat) (v : Z) : St vcore unit := modify (λ c, set_gpr (<[i := v]> (gpr c)) c).
Definition add_sp (d : Z) : St vcore unit := modify (λ c, set_vsp (vc_sp c + d) c).
(** [stp xi, xj, \[sp, off\]] and [ldp]. *)
Definition stp (i j : nat) (off : Z) : St vcore unit :=
  a ← read_x i; b ← read_x j; c ← get; on_vmem (store_words [a; b] (vc_sp c + off)).
Definition ldp (i j : nat) (off : Z) : St vcore unit :=
  c ← get;
  ws ← on_vmem (load_words 2 (vc_sp c + off));
  write_x i (default 0 (ws !! 0%nat));;
  write_x j (default 0 (ws !! 1%nat)).
(** [ldr xi, \[sp, off\]]. *)
Definition ldr (i : nat) (off : Z) : St vcore unit :=
  c ← get; v ← on_vmem (load_le 8 (vc_sp c + off)); write_x i v.

(** [stp x0, x1, ...] up to [stp x28, x29, ...], and the loads from [ldp x28, x29, ...]
    down. *)
Fixpoint stp_up (n i : nat) : St vcore unit :=
  match n with
  | O => mret tt
  | S n => stp (2 * i) (2 * i + 1) (8 * Z.of_nat (2 * i));; stp_up n (S i)
  end.
Fixpoint ldp_down (n : nat) : St vcore unit :=
  match n with
  | O => mret tt
  | S i => ldp (2 * i) (2 * i + 1) (8 * Z.of_nat (2 * i));; ldp_down i
  end.
Definition FRAME_SIZE : Z := 34 * 8.

(** ** [SAVE_REGS] and [RESTORE_REGS] *)

Definition SAVE_REGS (l : level) : St vcore unit :=
  add_sp (- FRAME_SIZE);;
  stp_up 15 0;;
  c ← get;
  match l with
  | EL2 =>
      write_x 1 (vc_sp c);; (a ← read_x 1; write_x 1 (u64 (a + 0x110)));; stp 30 1 (30 * 8);;
      write_x 10 (elr_elx c);; write_x 11 (spsr_elx c);; stp 10 11 (32 * 8)
  | _ =>
      write_x 9 (lower_sp c);; write_x 10 (elr_elx c);; write_x 11 (spsr_elx c);;
      stp 30 9 (30 * 8);; stp 10 11 (32 * 8)
  end.
Definition RESTORE_REGS (l : level) : St vcore unit :=
  ldp 10 11 (32 * 8);;
  (match l with
   | EL2 =>
       a ← read_x 10; b ← read_x 11; modify (λ c, set_banked (lower_sp c) a b c);; ldr 30 (30 * 8)
   | _ =>
       ldp 30 9 (30 * 8);;
       s ← read_x 9; a ← read_x 10; b ← read_x 11; modify (set_banked s a b)
   end);;
  ldp_down 15;;
  add_sp FRAME_SIZE.
Definition eret : St vcore unit :=
  modify (λ c, {| vc_mem := vc_mem c; gpr := gpr c; vc_sp := vc_sp c; lower_sp := lower_sp c; elr_elx := elr_elx c;
                  spsr_elx := spsr_elx c; vc_pc := elr_elx c; vc_pstate := spsr_elx c |}).

(** ** The tables *)

(** What an entry calls. *)
Inductive entry := Invalid (kind source : Z) | Handle_sync | Handle_irq | Current_irq.
Definition vector_table (l : level) : list entry :=
  match l with
  | EL2 =>
      [Invalid 0 0; Invalid 1 0; Invalid 2 0; Invalid 3 0;
       Invalid 0 1; Current_irq; Invalid 2 1; Invalid 3 1;
       Handle_sync; Handle_irq; Invalid 2 2; Invalid 3 2;
       Invalid 0 3; Invalid 1 3; Invalid 2 3; Invalid 3 3]
  | _ =>
      [Invalid 0 0; Invalid 1 0; Invalid 2 0; Invalid 3 0;
       Handle_sync; Handle_irq; Invalid 2 1; Invalid 3 1;
       Handle_sync; Handle_irq; Invalid 2 2; Invalid 3 2;
       Invalid 0 3; Invalid 1 3; Invalid 2 3; Invalid 3 3]
  end.
(** The hardware's offset from the base of the vectors: four sources, of four kinds
    each (synchronous, IRQ, FIQ, SError), 128 bytes apart. *)
Definition vector_offset (kind source : Z) : Z := 0x200 * source + 0x80 * kind.
Definition entry_at (l : level) (offset : Z) : option entry := vector_table l !! Z.to_nat (offset / 0x80).

Section entries.
(** The C function an entry calls, with the registers [x0] to [x2], and the ones
    [SAVE_REGS_EL2] ends with and [RESTORE_REGS_EL2] starts with. *)
Context (l : level) (handler : entry → St vcore unit) (vm_out vm_in : St vcore unit).

Definition run_entry (e : entry) : St vcore unit :=
  SAVE_REGS l;;
  (if l is EL2 then vm_out else mret tt);;
  c ← get;
  write_x 0 (vc_sp c);;
  (if e is Invalid kind source then write_x 1 kind;; write_x 2 source else mret tt);;
  handler e;;
  (if l is EL2 then vm_in else mret tt);;
  RESTORE_REGS l;;
  eret.
(** An exception: the core goes to the vector for its kind and source. *)
Definition take_vector (kind source : Z) : St vcore unit :=
  e ← deref (entry_at l (vector_offset kind source)); run_entry e.
(** The two that nothing calls: they start a program from a frame on the stack. *)
Definition el0_tesk_entry : St vcore unit := RESTORE_REGS EL1;; eret.
Definition guest_entry : St vcore unit := vm_in;; RESTORE_REGS EL2;; eret.
End entries.

(** * Frames in memory *)

(** [trap_frame_t] as the words of its fields. *)
Definition frame_words (f : trap_frame) : list Z := r f ++ [usp f; elr f; spsr f].
Record frame_64 (f : trap_frame) : Prop := { f64_ok : frame_ok f; f64_words : Forall word_64 (frame_words f) }.
Definition frame_bytes (f : trap_frame) : list Z := words_bytes (frame_words f).

(** The frame of a core: what [SAVE_REGS] means to store. *)
Definition frame_of (l : level) (c : vcore) : trap_frame :=
  {| r := gpr c; usp := if l is EL2 then vc_sp c else lower_sp c; elr := elr_elx c; spsr := spsr_elx c |}.
(** The core that goes on with a frame. *)
Definition goes_on_with (l : level) (f : trap_frame) (c : vcore) : Prop :=
  gpr c = r f ∧ (l ≠ EL2 → lower_sp c = usp f) ∧ vc_pc c = elr f ∧ vc_pstate c = spsr f.

Lemma length_frame_words f : frame_ok f → length (frame_words f) = 34%nat.
Proof. intros Hf. unfold frame_words. rewrite length_app, Hf. done. Qed.
Lemma length_frame_bytes f : frame_ok f → Z.of_nat (length (frame_bytes f)) = FRAME_SIZE.
Proof. intros Hf. unfold frame_bytes. rewrite length_words_bytes, length_frame_words by done. done. Qed.
Lemma frame_word f i w : frame_64 f → frame_words f !! i = Some w → word_64 w.
Proof. intros [_ Hw] Hi. by eapply Forall_lookup_1 in Hw. Qed.
Lemma frame_reg_word f i : frame_64 f → (i < 31)%nat → ∃ w, r f !! i = Some w ∧ frame_words f !! i = Some w ∧ word_64 w.
Proof.
  intros Hf Hi. destruct (lookup_lt_is_Some_2 (r f) i) as [w Hw]; [rewrite (f64_ok _ Hf); exact Hi|].
  assert (Hfw : frame_words f !! i = Some w) by (by apply lookup_app_l_Some). exists w. split_and!; try done.
  by eapply frame_word.
Qed.


(** * The macros *)

Lemma wp_read_x i v Q (c : vcore) : gpr c !! i = Some v → Q v c → wp (read_x i) Q c.
Proof. intros Hv HQ. unfold read_x. wp_step. by rewrite Hv. Qed.
Lemma wp_write_x i v Q (c : vcore) : Q tt (set_gpr (<[i := v]> (gpr c)) c) → wp (write_x i v) Q c.
Proof. done. Qed.
Lemma wp_stp i j off a b Q (c : vcore) :
  gpr c !! i = Some a → gpr c !! j = Some b → mapped (vc_mem c) (vc_sp c + off) 16 →
  Q tt (set_vmem (write_bytes (vc_mem c) (vc_sp c + off) (words_bytes [a; b])) c) → wp (stp i j off) Q c.
Proof.
  intros Ha Hb Hm HQ. unfold stp, on_vmem. wp_step. eapply wp_read_x; [exact Ha|]. wp_step.
  eapply wp_read_x; [exact Hb|]. do 3 wp_step. by apply store_words_ok.
Qed.
Lemma wp_ldp i j off a b Q (c : vcore) :
  bytes (vc_mem c) (vc_sp c + off) (words_bytes [a; b]) → word_64 a → word_64 b →
  Q tt (set_gpr (<[j := b]> (<[i := a]> (gpr c))) c) → wp (ldp i j off) Q c.
Proof.
  intros Hb Ha Hw HQ. unfold ldp, on_vmem. do 3 wp_step. change 2%nat with (length [a; b]).
  apply load_words_ok; [exact Hb|by rewrite !Forall_cons|]. cbn [default from_option lookup list_lookup id].
  wp_step. apply wp_write_x. apply wp_write_x. exact HQ.
Qed.

(** Words stored one after the other. *)
Lemma mapped_part (m : mem) a n b k : mapped m a n → a ≤ b → b + k ≤ a + n → mapped m b k.
Proof. intros Hm H1 H2 i Hi. replace (b + i) with (a + (b - a + i)) by lia. apply Hm. lia. Qed.
Lemma bytes_part (m : mem) a ws vs us b :
  bytes m a (words_bytes (ws ++ vs ++ us)) → b = a + 8 * Z.of_nat (length ws) → bytes m b (words_bytes vs).
Proof.
  rewrite !words_bytes_app, !bytes_app, length_words_bytes. intros (_ & Hv & _) ->. exact Hv.
Qed.
Lemma list_two {A} (l : list A) i x y :
  l !! i = Some x → l !! S i = Some y → l = take i l ++ [x; y] ++ drop (2 + i) l.
Proof.
  intros Hx Hy. rewrite <- (take_drop i l) at 1. f_equal. rewrite (drop_S _ _ _ Hx), (drop_S _ _ _ Hy). done.
Qed.

Lemma stp_up_ok n i Q (c : vcore) :
  length (gpr c) = NUM_REGS → (2 * (i + n) ≤ 30)%nat → mapped (vc_mem c) (vc_sp c + 16 * Z.of_nat i) (16 * Z.of_nat n) →
  Q tt (set_vmem (write_bytes (vc_mem c) (vc_sp c + 16 * Z.of_nat i)
                   (words_bytes (take (2 * n) (drop (2 * i) (gpr c))))) c) →
  wp (stp_up n i) Q c.
Proof.
  unfold NUM_REGS. revert i c. induction n as [|n IH]; intros i c Hg Hn Hm HQ; cbn [stp_up]; [wp_step; by destruct c|].
  destruct (lookup_lt_is_Some_2 (gpr c) (2 * i)) as [a Ha]; [lia|].
  destruct (lookup_lt_is_Some_2 (gpr c) (S (2 * i))) as [b Hb]; [lia|].
  wp_step. replace (2 * i + 1)%nat with (S (2 * i)) by lia.
  eapply wp_stp; [exact Ha|exact Hb|eapply mapped_part; [exact Hm|lia..]|].
  apply IH; cbn [gpr vc_sp vc_mem set_vmem]; [done|lia|apply mapped_write_bytes; eapply mapped_part; [exact Hm|lia..]|].
  replace (2 * S n)%nat with (S (S (2 * n))) in HQ by lia.
  rewrite (drop_S _ _ _ Ha), (drop_S _ _ _ Hb) in HQ. cbn [take] in HQ.
  change (a :: b :: ?l) with ([a; b] ++ l) in HQ. rewrite words_bytes_app, write_bytes_app, length_words_bytes in HQ.
  replace (2 * S i)%nat with (S (S (2 * i))) by lia.
  replace (vc_sp c + 8 * Z.of_nat (2 * i)) with (vc_sp c + 16 * Z.of_nat i) by lia.
  replace (vc_sp c + 16 * Z.of_nat (S i)) with (vc_sp c + 16 * Z.of_nat i + 8 * Z.of_nat (length [a; b])) by (cbn; lia).
  exact HQ.
Qed.

(** What [SAVE_REGS] leaves. *)
Record saved (l : level) (c c' : vcore) : Prop := {
  sd_sp : vc_sp c' = vc_sp c - FRAME_SIZE;
  sd_mem : vc_mem c' = write_bytes (vc_mem c) (vc_sp c - FRAME_SIZE) (frame_bytes (frame_of l c));
  sd_len : length (gpr c') = NUM_REGS;
}.
Lemma SAVE_REGS_ok l (c : vcore) :
  frame_64 (frame_of l c) → mapped (vc_mem c) (vc_sp c - FRAME_SIZE) FRAME_SIZE →
  wp (SAVE_REGS l) (λ _ c', saved l c c') c.
Proof.
  intros [Hok Hw] Hm. unfold frame_ok in Hok. cbn [r frame_of] in Hok. pose proof Hok as Hlen. unfold NUM_REGS in Hlen.
  destruct (lookup_lt_is_Some_2 (gpr c) 30) as [x30 H30]; [lia|].
  assert (Hsplit : gpr c = take 30 (gpr c) ++ [x30]).
  { rewrite <- (take_drop 30 (gpr c)) at 1. f_equal. rewrite (drop_S _ _ _ H30). f_equal. apply drop_ge. lia. }
  unfold SAVE_REGS, add_sp. do 3 wp_step. set (c1 := set_vsp _ c).
  assert (Hsp : vc_sp c1 = vc_sp c - FRAME_SIZE) by (cbn; lia).
  apply stp_up_ok; [exact Hok|lia|cbn [vc_mem c1 set_vsp]; rewrite Hsp; eapply mapped_part; [exact Hm|unfold FRAME_SIZE; lia..]|].
  change (gpr c1) with (gpr c). rewrite Hsp. change (2 * 0)%nat with 0%nat. rewrite drop_0, Z.add_0_r. change (2 * 15)%nat with 30%nat.
  change (vc_mem c1) with (vc_mem c). set (m1 := write_bytes _ _ _).
  assert (Hmem : ∀ u,
    write_bytes (write_bytes m1 (vc_sp c - FRAME_SIZE + 30 * 8) (words_bytes [x30; u]))
      (vc_sp c - FRAME_SIZE + 32 * 8) (words_bytes [elr_elx c; spsr_elx c]) =
    write_bytes (vc_mem c) (vc_sp c - FRAME_SIZE) (words_bytes (gpr c ++ [u; elr_elx c; spsr_elx c]))).
  { intros u.
    assert (gpr c ++ [u; elr_elx c; spsr_elx c] = take 30 (gpr c) ++ [x30; u] ++ [elr_elx c; spsr_elx c]) as ->.
    { rewrite Hsplit at 1. by rewrite <- app_assoc. }
    rewrite !words_bytes_app, !write_bytes_app, !length_words_bytes, length_take_le by lia. subst m1. f_equal. cbn. lia. }
  assert (Hm1 : ∀ b, 0 ≤ b → b + 16 ≤ FRAME_SIZE → mapped m1 (vc_sp c - FRAME_SIZE + b) 16).
  { intros b H1 H2. apply mapped_write_bytes. eapply mapped_part; [exact Hm|lia..]. }
  assert (Hin : ∀ i j v, i ≠ j → <[i := v]> (gpr c) !! j = gpr c !! j) by (intros; by rewrite list_lookup_insert_ne).
  wp_step.
  destruct l.
  1, 3: wp_step; apply wp_write_x; wp_step; apply wp_write_x; wp_step; apply wp_write_x; wp_step;
    (eapply (wp_stp _ _ _ x30 (lower_sp c)); [cbn [gpr set_gpr set_vmem c1 set_vsp]; by rewrite !list_lookup_insert_ne|
       cbn [gpr set_gpr set_vmem c1 set_vsp]; rewrite !list_lookup_insert_ne by done; apply list_lookup_insert_eq; lia|
       cbn [vc_mem vc_sp set_gpr set_vmem]; rewrite Hsp; by apply Hm1|]);
    (eapply (wp_stp _ _ _ (elr_elx c) (spsr_elx c)); [cbn [gpr set_gpr set_vmem c1 set_vsp];
       rewrite !list_lookup_insert_ne by done; apply list_lookup_insert_eq; rewrite ?length_insert; lia|
       cbn [gpr set_gpr set_vmem c1 set_vsp]; apply list_lookup_insert_eq; rewrite ?length_insert; lia|
       cbn [vc_mem vc_sp set_gpr set_vmem]; rewrite Hsp; apply mapped_write_bytes; by apply Hm1|]);
    (constructor; cbn [vc_mem vc_sp set_gpr set_vmem gpr]; [exact Hsp|rewrite Hsp, Hmem; done|by rewrite !length_insert]).
  assert (Hw64 : u64 (vc_sp c1 + 0x110) = vc_sp c).
  { rewrite Hsp. unfold FRAME_SIZE. replace (vc_sp c - 34 * 8 + 0x110) with (vc_sp c) by lia. apply u64_small.
    apply (frame_word (frame_of EL2 c) 31); [by constructor|]. unfold frame_words. cbn [r usp frame_of].
    rewrite lookup_app_r by (rewrite Hok; unfold NUM_REGS; lia). rewrite Hok. done. }
  wp_step. apply wp_write_x. wp_step. wp_step.
  eapply (wp_read_x 1 (vc_sp c1)); [cbn [gpr set_gpr set_vmem]; apply list_lookup_insert_eq; cbn [gpr c1 set_vsp]; lia|].
  apply wp_write_x. rewrite Hw64. wp_step.
  eapply (wp_stp _ _ _ x30 (vc_sp c)); [cbn [gpr set_gpr set_vmem c1 set_vsp]; by rewrite !list_lookup_insert_ne|
    cbn [gpr set_gpr set_vmem c1 set_vsp]; apply list_lookup_insert_eq; rewrite ?length_insert; lia|
    cbn [vc_mem vc_sp set_gpr set_vmem]; rewrite Hsp; by apply Hm1|].
  wp_step. apply wp_write_x. wp_step. apply wp_write_x.
  eapply (wp_stp _ _ _ (elr_elx c) (spsr_elx c)); [cbn [gpr set_gpr set_vmem c1 set_vsp];
    rewrite list_lookup_insert_ne by done; apply list_lookup_insert_eq; rewrite ?length_insert; lia|
    cbn [gpr set_gpr set_vmem c1 set_vsp]; apply list_lookup_insert_eq; rewrite ?length_insert; lia|
    cbn [vc_mem vc_sp set_gpr set_vmem]; rewrite Hsp; apply mapped_write_bytes; by apply Hm1|].
  constructor; cbn [vc_mem vc_sp set_gpr set_vmem gpr]; [exact Hsp|rewrite Hsp, Hmem; done|by rewrite !length_insert].
Qed.

(** The words of a frame in memory, by pairs. *)
Lemma frame_pair f (m : mem) a i x y :
  bytes m a (frame_bytes f) → frame_words f !! i = Some x → frame_words f !! S i = Some y →
  bytes m (a + 8 * Z.of_nat i) (words_bytes [x; y]).
Proof.
  intros Hb Hx Hy. unfold frame_bytes in Hb. rewrite (list_two _ _ _ _ Hx Hy) in Hb.
  eapply bytes_part; [exact Hb|]. apply lookup_lt_Some in Hx. rewrite length_take_le by lia. done.
Qed.

(** The loads fill the registers from the top down. *)
Definition filled (n : nat) (f : trap_frame) (g : list Z) : Prop :=
  length g = NUM_REGS ∧ ∀ j, (2 * n ≤ j)%nat → g !! j = r f !! j.
Lemma ldp_down_ok n f Q (c : vcore) :
  frame_64 f → (n ≤ 15)%nat → bytes (vc_mem c) (vc_sp c) (frame_bytes f) → filled n f (gpr c) →
  Q tt (set_gpr (r f) c) → wp (ldp_down n) Q c.
Proof.
  intros Hf. revert c. induction n as [|n IH]; intros c Hn Hb [Hlen Hg] HQ; cbn [ldp_down].
  - wp_step. assert (gpr c = r f) as E; [|rewrite <- E in HQ; by destruct c].
    apply list_eq. intros j. apply Hg. lia.
  - destruct (frame_reg_word f (2 * n) Hf) as (x & Hx & Hx' & Hx64); [lia|].
    destruct (frame_reg_word f (S (2 * n)) Hf) as (y & Hy & Hy' & Hy64); [lia|].
    wp_step. eapply wp_ldp; [eapply frame_pair; [exact Hb|exact Hx'|exact Hy']|done|done|].
    apply IH; [lia|exact Hb| |exact HQ]. unfold NUM_REGS in Hlen. split; [cbn; by rewrite !length_insert|].
    intros j Hj. cbn [gpr set_gpr]. destruct (decide (j = S (2 * n))) as [->|H1].
    { replace (2 * n + 1)%nat with (S (2 * n)) by lia. rewrite list_lookup_insert_eq by (rewrite length_insert; lia). done. }
    rewrite list_lookup_insert_ne by lia. destruct (decide (j = 2 * n)%nat) as [->|H2].
    { rewrite list_lookup_insert_eq by lia. done. }
    rewrite list_lookup_insert_ne by lia. apply Hg. lia.
Qed.

(** What [RESTORE_REGS] and [eret] make of a frame. *)
Lemma RESTORE_REGS_ok l f (c : vcore) :
  frame_64 f → length (gpr c) = NUM_REGS → bytes (vc_mem c) (vc_sp c) (frame_bytes f) →
  wp (RESTORE_REGS l;; eret)
     (λ _ c', goes_on_with l f c' ∧ vc_sp c' = vc_sp c + FRAME_SIZE ∧ vc_mem c' = vc_mem c) c.
Proof.
  intros Hf Hlen Hb. pose proof (f64_ok _ Hf) as Hok. unfold frame_ok in Hok. unfold NUM_REGS in *.
  assert (Htail : ∀ i, frame_words f !! (31 + i)%nat = [usp f; elr f; spsr f] !! i).
  { intros i. unfold frame_words. rewrite lookup_app_r by (rewrite Hok; lia). rewrite Hok. f_equal. lia. }
  destruct (frame_reg_word f 30 Hf) as (x30 & H30 & H30' & Hx30); [lia|].
  pose proof (frame_word f 31 _ Hf (Htail 0%nat)) as Hu. pose proof (frame_word f 32 _ Hf (Htail 1%nat)) as He.
  pose proof (frame_word f 33 _ Hf (Htail 2%nat)) as Hs.
  pose proof (frame_pair f _ _ 32 _ _ Hb (Htail 1%nat) (Htail 2%nat)) as Hb32.
  pose proof (frame_pair f _ _ 30 _ _ Hb H30' (Htail 0%nat)) as Hb30.
  change (8 * Z.of_nat 32) with (32 * 8) in Hb32. change (8 * Z.of_nat 30) with (30 * 8) in Hb30.
  assert (Hdown : ∀ g c', length g = 31%nat → g !! 30%nat = Some x30 → vc_mem c' = vc_mem c → vc_sp c' = vc_sp c → gpr c' = g →
    (l ≠ EL2 → lower_sp c' = usp f) → elr_elx c' = elr f → spsr_elx c' = spsr f →
    wp (ldp_down 15) (λ _ c1, wp (add_sp FRAME_SIZE) (λ _ c2, wp eret
       (λ _ c', goes_on_with l f c' ∧ vc_sp c' = vc_sp c + FRAME_SIZE ∧ vc_mem c' = vc_mem c) c2) c1) c').
  { intros g c' Hg Hg30 Hcm Hcs Hcg H1 H2 H3. apply (ldp_down_ok 15 f); [done|lia|by rewrite Hcm, Hcs| |].
    - split; [by rewrite Hcg|]. intros j Hj. rewrite Hcg. destruct (decide (j = 30%nat)) as [->|Hne]; [congruence|].
      rewrite !lookup_ge_None_2 by lia. done.
    - unfold add_sp, eret. do 2 wp_step. cbn. by rewrite Hcm, Hcs. }
  unfold RESTORE_REGS. do 2 wp_step. eapply wp_ldp; [exact Hb32|done|done|]. wp_step.
  destruct l.
  1, 3: do 2 wp_step; (eapply wp_ldp; [exact Hb30|done|done|]); wp_step;
    (eapply (wp_read_x 9 (usp f)); [cbn [gpr set_gpr]; apply list_lookup_insert_eq; rewrite !length_insert; lia|]); wp_step;
    (eapply (wp_read_x 10 (elr f)); [cbn [gpr set_gpr]; rewrite !list_lookup_insert_ne by done; apply list_lookup_insert_eq; lia|]);
    wp_step;
    (eapply (wp_read_x 11 (spsr f)); [cbn [gpr set_gpr]; rewrite !list_lookup_insert_ne by done;
       apply list_lookup_insert_eq; rewrite length_insert; lia|]);
    wp_step;
    (eapply Hdown; [| |done|done|done|done|done|done];
       cbn [gpr set_gpr set_banked]; [by rewrite !length_insert|
         rewrite list_lookup_insert_ne by done; apply list_lookup_insert_eq; rewrite !length_insert; lia]).
  do 2 wp_step. eapply (wp_read_x 10 (elr f)); [cbn [gpr set_gpr]; rewrite list_lookup_insert_ne by done; apply list_lookup_insert_eq; lia|].
  wp_step. eapply (wp_read_x 11 (spsr f)); [cbn [gpr set_gpr]; apply list_lookup_insert_eq; rewrite length_insert; lia|].
  do 2 wp_step. unfold ldr, on_vmem. do 3 wp_step. eapply (wp_load_le 8 _ x30).
  { unfold words_bytes in Hb30. rewrite bind_cons, bytes_app in Hb30. exact (proj1 Hb30). }
  rewrite Z.mod_small by exact Hx30. apply wp_write_x. wp_step.
  eapply Hdown; [| |done|done|done|done|done|done]; cbn [gpr set_gpr set_banked set_vmem]; [by rewrite !length_insert|].
  apply list_lookup_insert_eq. rewrite !length_insert. lia.
Qed.

(** * The vectors *)

(** The function an exception of a kind (synchronous, IRQ, FIQ, SError) from a source
    (the same level on [SP_EL0], on its own stack, a lower one in AArch64, in AArch32)
    is meant for. *)
Definition called (l : level) (kind source : Z) : entry :=
  match l with
  | EL2 =>
      if (source =? 1) && (kind =? 1) then Current_irq
      else if (source =? 2) && (kind =? 0) then Handle_sync
      else if (source =? 2) && (kind =? 1) then Handle_irq
      else Invalid kind source
  | _ =>
      if ((source =? 1) || (source =? 2)) && (kind =? 0) then Handle_sync
      else if ((source =? 1) || (source =? 2)) && (kind =? 1) then Handle_irq
      else Invalid kind source
  end.
Lemma entry_at_called l kind source :
  0 ≤ kind < 4 → 0 ≤ source < 4 → entry_at l (vector_offset kind source) = Some (called l kind source).
Proof.
  intros Hk Hs. assert (kind = 0 ∨ kind = 1 ∨ kind = 2 ∨ kind = 3) as Hk' by lia.
  assert (source = 0 ∨ source = 1 ∨ source = 2 ∨ source = 3) as Hs' by lia.
  destruct l; (destruct Hk' as [->|[->|[->| ->]]]); (destruct Hs' as [->|[->|[->| ->]]]); reflexivity.
Qed.

(** A function keeps the stack of its caller and the frame on it. *)
Definition keeps_frame (c c' : vcore) : Prop :=
  vc_sp c' = vc_sp c ∧ length (gpr c') = NUM_REGS ∧
  ∀ i, vc_sp c ≤ i < vc_sp c + FRAME_SIZE → vc_mem c' !! i = vc_mem c !! i.
(** The handler for [e], called with the address of the frame [f] and the numbers of the
    entry, leaves the frame [f']. *)
Definition leaves_frame (handler : entry → St vcore unit) (e : entry) (f f' : trap_frame) : Prop :=
  ∀ c, length (gpr c) = NUM_REGS → gpr c !! 0%nat = Some (vc_sp c) →
    (∀ kind source, e = Invalid kind source → gpr c !! 1%nat = Some kind ∧ gpr c !! 2%nat = Some source) →
    bytes (vc_mem c) (vc_sp c) (frame_bytes f) →
    wp (handler e) (λ _ c', vc_sp c' = vc_sp c ∧ length (gpr c') = NUM_REGS ∧
                            bytes (vc_mem c') (vc_sp c') (frame_bytes f')) c.

Section vectors.
Context (l : level) (handler : entry → St vcore unit) (vm_out vm_in : St vcore unit).
Context (Hout : ∀ c, length (gpr c) = NUM_REGS → wp vm_out (λ _ c', keeps_frame c c') c).
Context (Hin : ∀ c, length (gpr c) = NUM_REGS → wp vm_in (λ _ c', keeps_frame c c') c).

Lemma keeps_frame_bytes c c' f :
  frame_ok f → keeps_frame c c' → bytes (vc_mem c) (vc_sp c) (frame_bytes f) →
  bytes (vc_mem c') (vc_sp c') (frame_bytes f).
Proof using Type.
  intros Hf (Hs & _ & Hm) Hb. rewrite Hs. eapply bytes_ext; [|exact Hb].
  intros i Hi. rewrite length_frame_bytes in Hi by done. by apply Hm.
Qed.
(** The functions around the handler. *)
Lemma wp_around (p : St vcore unit) f Q c :
  (∀ c, length (gpr c) = NUM_REGS → wp p (λ _ c', keeps_frame c c') c) →
  frame_ok f → length (gpr c) = NUM_REGS → bytes (vc_mem c) (vc_sp c) (frame_bytes f) →
  (∀ c', vc_sp c' = vc_sp c → length (gpr c') = NUM_REGS → bytes (vc_mem c') (vc_sp c') (frame_bytes f) → Q tt c') →
  wp (if l is EL2 then p else mret tt) Q c.
Proof using Type.
  intros Hp Hf Hlen Hb HQ. destruct l; [by apply HQ| |by apply HQ].
  eapply wp_mono; [by apply Hp|]. intros [] c' Hk. apply HQ; [apply Hk|apply Hk|by eapply keeps_frame_bytes].
Qed.

Lemma el0_tesk_entry_ok f c :
  frame_64 f → length (gpr c) = NUM_REGS → bytes (vc_mem c) (vc_sp c) (frame_bytes f) →
  wp el0_tesk_entry (λ _ c', goes_on_with EL1 f c' ∧ vc_sp c' = vc_sp c + FRAME_SIZE ∧ vc_mem c' = vc_mem c) c.
Proof using Type. apply (RESTORE_REGS_ok EL1). Qed.
Lemma guest_entry_ok f c :
  frame_64 f → length (gpr c) = NUM_REGS → bytes (vc_mem c) (vc_sp c) (frame_bytes f) →
  wp (guest_entry vm_in) (λ _ c', goes_on_with EL2 f c' ∧ vc_sp c' = vc_sp c + FRAME_SIZE) c.
Proof using Hin.
  intros Hf Hlen Hb. unfold guest_entry. wp_step. eapply wp_mono; [by apply Hin|]. intros [] c1 Hk.
  eapply wp_mono; [apply (RESTORE_REGS_ok EL2 f); [done|apply Hk|by eapply keeps_frame_bytes; [apply Hf| |]]|].
  intros [] c2 (Hr & Hs & _). split; [exact Hr|]. rewrite Hs. f_equal. apply Hk.
Qed.

(** C32: an exception keeps the interrupted program, at all three levels: the core
    goes to the function for the kind and the source of the exception, with the frame
    of the program, as [trap_frame_t] lays it out, below its stack and the address of
    the frame in [x0]; and with the frame the function leaves there, which is the same
    one unless it changes it, the core goes on: in the registers, at the address and
    with the state of the frame, and its stack as it was.  Of the frame the one word
    that is not loaded is the stack pointer at EL2. *)
Theorem vector_roundtrip kind source f' (c : vcore) :
  0 ≤ kind < 4 → 0 ≤ source < 4 → frame_64 (frame_of l c) → frame_64 f' →
  mapped (vc_mem c) (vc_sp c - FRAME_SIZE) FRAME_SIZE →
  leaves_frame handler (called l kind source) (frame_of l c) f' →
  wp (take_vector l handler vm_out vm_in kind source) (λ _ c', goes_on_with l f' c' ∧ vc_sp c' = vc_sp c) c.
Proof using Hout Hin.
  intros Hk Hs Hf Hf' Hm Hh. unfold take_vector. rewrite entry_at_called by done. wp_step. apply wp_deref. eexists. split; [reflexivity|]. set (e := called l kind source) in *.
  unfold run_entry. wp_step. eapply wp_mono; [by apply SAVE_REGS_ok|]. intros [] c1 [Hsp Hmem Hlen].
  pose proof (f64_ok _ Hf) as Hok. wp_step. apply (wp_around vm_out (frame_of l c)); [done|done|done| |].
  { rewrite Hsp, Hmem. apply bytes_write_bytes. }
  intros c2 Hsp2 Hlen2 Hb2. do 2 wp_step. apply wp_write_x. wp_step.
  assert (Hargs : wp (if e is Invalid kind source then write_x 1 kind;; write_x 2 source else mret tt)
    (λ _ c3, vc_sp c3 = vc_sp c2 ∧ vc_mem c3 = vc_mem c2 ∧ length (gpr c3) = NUM_REGS ∧ gpr c3 !! 0%nat = Some (vc_sp c2) ∧
       ∀ kind source, e = Invalid kind source → gpr c3 !! 1%nat = Some kind ∧ gpr c3 !! 2%nat = Some source)
    (set_gpr (<[0%nat := vc_sp c2]> (gpr c2)) c2)).
  { unfold NUM_REGS in *. destruct e as [k s| | |].
    1: wp_step; apply wp_write_x; apply wp_write_x; cbn [vc_sp vc_mem gpr set_gpr]; split_and!; try done;
      [by rewrite !length_insert|rewrite !list_lookup_insert_ne by done; apply list_lookup_insert_eq; lia|];
      intros ?? [= <- <-]; split;
      [rewrite list_lookup_insert_ne by done; apply list_lookup_insert_eq; rewrite length_insert; lia
      |apply list_lookup_insert_eq; rewrite !length_insert; lia].
    all: wp_step; cbn [vc_sp vc_mem gpr set_gpr]; split_and!; try done; [by rewrite length_insert|apply list_lookup_insert_eq; lia]. }
  eapply wp_mono; [exact Hargs|]. intros [] c3 (Hsp3 & Hmem3 & Hlen3 & H03 & Hnums). wp_step.
  eapply wp_mono; [apply Hh; [exact Hlen3|by rewrite Hsp3|exact Hnums|by rewrite Hsp3, Hmem3]|].
  intros [] c4 (Hsp4 & Hlen4 & Hb4). wp_step. apply (wp_around vm_in f'); [done|apply Hf'|done|done|].
  intros c5 Hsp5 Hlen5 Hb5. eapply wp_mono; [by apply (RESTORE_REGS_ok l f')|].
  intros [] c6 (Hr & Hsp6 & _). split; [exact Hr|]. rewrite Hsp6, Hsp5, Hsp4, Hsp3, Hsp2, Hsp. lia.
Qed.
End vectors.

(** * Example *)

(** A core at EL0 with its number in every register, and a handler that gives its result
    in [x0]. *)
Definition vcore_example : vcore := {|
  vc_mem := write_bytes ∅ 0x1000 (replicate 272 0); gpr := seqZ 0 31; vc_sp := 0x1110; lower_sp := 0x80004000;
  elr_elx := 0x90000004; spsr_elx := 0x20000000; vc_pc := 0; vc_pstate := 0 |}.
Definition result_handler (e : entry) : St vcore unit := c ← get; on_vmem (store_words [77] (vc_sp c)).

Lemma vcore_example_frame : frame_64 (frame_of EL1 vcore_example).
Proof. constructor; [done|]. apply Forall_forall. intros x Hx. repeat (apply elem_of_cons in Hx as [->|Hx]; [done|]). by apply elem_of_nil in Hx. Qed.
Lemma result_handler_ok e f :
  frame_64 f → leaves_frame result_handler e f (set_reg 0 77 f).
Proof.
  intros Hf c Hlen _ _ Hb. destruct (frame_reg_word f 0 Hf) as (x & Hx & _); [lia|].
  destruct f as [[|y rs] u el sps]; [done|]. unfold result_handler, on_vmem. do 3 wp_step.
  unfold frame_bytes, frame_words in Hb. cbn [r usp elr spsr app] in Hb.
  change (y :: ?l) with ([y] ++ l) in Hb. rewrite words_bytes_app, bytes_app in Hb. destruct Hb as [Hy Hrest].
  apply store_words_ok; [exact (bytes_mapped _ _ _ Hy)|]. cbn [vc_sp gpr set_vmem vc_mem]. split_and!; [done|done|].
  change (frame_bytes _) with (words_bytes ([77] ++ rs ++ [u; el; sps])). rewrite words_bytes_app, bytes_app. split; [apply bytes_write_bytes|].
  eapply bytes_ext; [|exact Hrest]. intros i Hi. apply lookup_write_bytes_ne. rewrite !length_words_bytes in *. right. cbn in *. lia.
Qed.
Lemma vector_roundtrip_witness :
  wp (take_vector EL1 result_handler (mret tt) (mret tt) 0 2)
     (λ _ c', gpr c' = 77 :: seqZ 1 30 ∧ lower_sp c' = 0x80004000 ∧ vc_pc c' = 0x90000004 ∧ vc_sp c' = 0x1110) vcore_example.
Proof.
  eapply wp_mono.
  { apply (vector_roundtrip EL1 result_handler (mret tt) (mret tt)) with (f' := set_reg 0 77 (frame_of EL1 vcore_example));
      [intros c Hl; by split_and!|intros c Hl; by split_and!|lia|lia|apply vcore_example_frame| | |
       by apply result_handler_ok, vcore_example_frame].
    - constructor; [done|]. apply Forall_forall. intros x Hx.
      repeat (apply elem_of_cons in Hx as [->|Hx]; [done|]). by apply elem_of_nil in Hx.
    - intros i Hi. exists 0. cbn [vc_mem vcore_example vc_sp]. unfold FRAME_SIZE in *.
      replace (0x1110 - 34 * 8 + i) with (0x1000 + Z.of_nat (Z.to_nat i)) by lia.
      apply lookup_write_bytes, lookup_replicate. split; [done|lia]. }
  intros [] c' ((Hg & Hs & Hp & _) & Hsp). split_and!; [exact Hg|by apply Hs|exact Hp|exact Hsp].
Defined.
