(* ===== verification/Vgic.v ===== *)
(** The virtual interrupt controller: [hyper/vgic.c] and [hyper/vm.c]. *)

From S2P Require Import Prelude Config Gic Frame.

Definition VM_NUM_MAX : nat := 4.

(** The fields of [struct vgic_t] that the code uses: the maps between physical
    and virtual interrupts. *)
Record vgic := { ptov : list Z; vtop : list Z }.

(** [a[i] = v] on an array; out of range, the program is at fault. *)
Definition array_set {S} (a : list Z) (i v : Z) : St S (list Z) :=
  if (0 <=? i) && (i <? Z.of_nat (length a)) then mret (<[Z.to_nat i := v]> a) else fault.

(** [while (_val >>= 1) _i++;] *)
Fixpoint highest_bit_loop {S} (fuel : nat) (val i : Z) : St S Z :=
  match fuel with
  | O => nofuel
  | S k => let val := val >> 1 in
           if truthy val then highest_bit_loop k val (u32 (i + 1)) else mret i
  end.
(** [HIGHEST_BIT_POSITION(x)] of an [int]: the conversion to 64 bits is signed. *)
Definition HIGHEST_BIT_POSITION {S} (x : Z) : St S Z := highest_bit_loop 64 (u64 x) 0.

Section vgic.
Context {D : Type} `{Device D}.

(** [el2_ctx->r[reg_num]]. *)
Definition read_reg (ctx : trap_frame) (i : Z) : St (mach D) Z := deref (r ctx !! Z.to_nat i).

Definition virtual_gic_register_int (g : vgic) (pintvec vintvec : Z) : St (mach D) vgic :=
  p ← array_set (ptov g) pintvec vintvec;
  v ← array_set (vtop g) vintvec pintvec;
  mret {| ptov := p; vtop := v |}.

(** The accesses nothing calls; the handlers of [mem/ept.c] repeat them. *)
Definition vgicd_write (info : ept_violation_info) (el2_ctx : trap_frame) (paddr : Z) : St (mach D) unit :=
  let reg_num := dabt_reg (hsr info) in
  let len := 1 << (dabt_size (hsr info) .& 3) in
  v ← read64 paddr;
  print (Printf (ln "(%d bytes) 0x%x  R%d") [Num len; Num v; Num reg_num]);;
  v ← read64 paddr;
  print (Printf (ln "old data: 0x%x") [Num v]);;
  (if negb (reg_num =? 30) then v ← read_reg el2_ctx reg_num; write64 v paddr else mret tt);;
  v ← read64 paddr;
  print (Printf (ln "new data: 0x%x") [Num v]).
Definition vgicd_read (info : ept_violation_info) (el2_ctx : trap_frame) (paddr : Z) : St (mach D) trap_frame :=
  let reg_num := dabt_reg (hsr info) in
  let len := 1 << (dabt_size (hsr info) .& 3) in
  dat ← read64 paddr;
  v ← read64 paddr;
  print (Printf (ln "(%d bytes) 0x%x R%d") [Num len; Num v; Num reg_num]);;
  old ← read_reg el2_ctx reg_num;
  print (Printf (ln "old data: 0x%x") [Num old]);;
  let el2_ctx := if negb (reg_num =? 30) then set_reg (Z.to_nat reg_num) dat el2_ctx else el2_ctx in
  new ← read_reg el2_ctx reg_num;
  print (Printf (ln "new data: 0x%x") [Num new]);;
  mret el2_ctx.

(** The two branches of [intc_handler] for a write to a set-enable register. *)
Definition emulate_isenabler (info : ept_violation_info) (ctx : trap_frame) (id : Z) (text : string) :
    St (mach D) unit :=
  v ← read_reg ctx (dabt_reg (hsr info));
  let r := s32 v in
  let len := 1 << (dabt_size (hsr info)) in
  h ← HIGHEST_BIT_POSITION r;
  print (Printf (ln "gpa: %x, r: %x, len: %d, int id: %d") [Num (gpa info); Num r; Num len; Num (h + id)]);;
  h ← HIGHEST_BIT_POSITION r;
  gic_enable_int (s32 (h + id)) 0;;
  print (Info (ln text)).

Definition intc_handler (info : ept_violation_info) (ctx : trap_frame) : St (mach D) unit :=
  let gpa := gpa info in
  let within lo hi := (lo <=? gpa) && (gpa <? hi) in
  if (GICD_BASE_ADDR <=? gpa) && (gpa <=? GICD_BASE_ADDR + 0x0010000) then
    if truthy (dabt_write (hsr info)) then
      if gpa =? GICD_CTLR then print (Info (ln "      <<< gicd emu write GICD_CTLR"))
      else if gpa =? GICD_ISENABLER 0 then
        emulate_isenabler info ctx 0 "      <<< gicd emu write GICD_ISENABLER(0)"
      else if within (GICD_ISENABLER 1) (GICD_ICENABLER 0) then
        emulate_isenabler info ctx (s32 ((gpa - GICD_ISENABLER 0) / 4 * 32))
          "      <<< gicd emu write GICD_ISENABLER(i)"
      else if gpa =? GICD_ICENABLER 0 then
        print (Info (ln "      <<< gicd emu write GICD_ICENABLER(0)"))
      else if within (GICD_ICENABLER 1) (GICD_ISPENDER 0) then
        print (Info (ln "      <<< gicd emu write GICD_ICENABLER(i)"))
      else if gpa =? GICD_ISPENDER 0 then
        print (Info (ln "      <<< gicd emu write GICD_ISPENDER(0)"))
      else if within (GICD_ISPENDER 1) (GICD_ICPENDER 0) then
        print (Info (ln "      <<< gicd emu write GICD_ISPENDER(i)"))
      else if gpa =? GICD_ICPENDER 0 then
        print (Info (ln "      <<< gicd emu write GICD_ICPENDER(0)"))
      else if within (GICD_ICPENDER 1) (GICD_IPRIORITYR 0) then
        print (Info (ln "      <<< gicd emu write GICD_ICPENDER(i)"))
      else if within (GICD_IPRIORITYR 0) (GICD_IPRIORITYR (GIC_FIRST_SPI / 4)) then
        print (Info (ln "      <<< gicd emu write GICD_IPRIORITYR(sgi-ppi)"))
      else if within (GICD_IPRIORITYR (GIC_FIRST_SPI / 4)) (GICD_IPRIORITYR (SPI_ID_MAX / 4)) then
        print (Info (ln "      <<< gicd emu write GICD_IPRIORITYR(spi)"))
      else if within (GICD_ICFGR (GIC_FIRST_SPI / 16)) (GICD_ICFGR (SPI_ID_MAX / 16)) then
        print (Info (ln "      <<< gicd emu write GICD_ICFGR(i)"))
      else if within (GICD_ITARGETSR (GIC_FIRST_SPI / 4)) (GICD_ITARGETSR (SPI_ID_MAX / 4)) then
        print (Info (ln "      <<< gicd emu write GICD_ITARGETSR(i)"))
      else if gpa =? GICD_SGIR then print (Info (ln "      <<< gicd emu write GICD_SGIR(i)"))
      else
        print (Info (ln "# unsupported access"));;
        print (Printf (ln "gpa: 0x%x") [Num gpa])
    else
      if gpa =? GICD_CTLR then print (Warn (ln "      >>> gicd emu read GICD_CTLR"))
      else if gpa =? GICD_TYPER then print (Warn (ln "      >>> gicd emu read GICD_TYPER"))
      else if gpa =? GICD_IIDR then print (Warn (ln "      >>> gicd emu read GICD_IIDR"))
      else if gpa =? GICD_ISENABLER 0 then
        print (Warn (ln "      >>> gicd emu read GICD_ISENABLER(0)"))
      else if within (GICD_ISENABLER 1) (GICD_ICENABLER 0) then
        print (Warn (ln "      >>> gicd emu read GICD_ISENABLER(i)"))
      else if gpa =? GICD_ICENABLER 0 then
        print (Warn (ln "      >>> gicd emu read GICD_ICENABLER(0)"))
      else if within (GICD_ICENABLER 1) (GICD_ISPENDER 0) then
        print (Warn (ln "      >>> gicd emu read GICD_ICENABLER(i)"))
      else if gpa =? GICD_ISPENDER 0 then
        print (Warn (ln "      >>> gicd emu read GICD_ISPENDER(0)"))
      else if within (GICD_ISPENDER 1) (GICD_ICPENDER 0) then
        print (Warn (ln "      >>> gicd emu read GICD_ISPENDER(i)"))
      else if gpa =? GICD_ICPENDER 0 then
        print (Warn (ln "      >>> gicd emu read GICD_ICPENDER(0)"))
      else if within (GICD_ICPENDER 1) (GICD_IPRIORITYR 0) then
        print (Warn (ln "      >>> gicd emu read GICD_ICPENDER(i)"))
      else if within (GICD_IPRIORITYR 0) (GICD_IPRIORITYR (GIC_FIRST_SPI / 4)) then
        print (Warn (ln "      >>> gicd emu read GICD_IPRIORITYR(sgi-ppi)"))
      else if within (GICD_IPRIORITYR (GIC_FIRST_SPI / 4)) (GICD_IPRIORITYR (SPI_ID_MAX / 4)) then
        print (Warn (ln "      >>> gicd emu read GICD_IPRIORITYR(spi)"))
      else if within (GICD_ICFGR (GIC_FIRST_SPI / 16)) (GICD_ICFGR (SPI_ID_MAX / 16)) then
        print (Warn (ln "      >>> gicd emu read GICD_ICFGR(i)"))
      else if within (GICD_ITARGETSR (GIC_FIRST_SPI / 4)) (GICD_ITARGETSR (SPI_ID_MAX / 4)) then
        print (Warn (ln "      >>> gicd emu read GICD_ITARGETSR(i)"))
      else mret tt
  else print (Info (ln "emu gicd error")).

(** The loop of [vgic_inject], from the list register [i] on. *)
Fixpoint vgic_inject_loop (fuel : nat) (is_empty mask pri i : Z) : St (mach D) unit :=
  match fuel with
  | O => nofuel
  | S k =>
      if i <? GICH_LR_NUM then
        if truthy (is_empty .& (1 << i)) then gic_write_lr i mask
        else
          prev_lr ← gic_read_lr i;
          let prev_pri := u8 (gic_lr_read_pri prev_lr) in
          if pri <? prev_pri then
            gic_write_lr i mask;;
            print (Printf (ln "!!! premeption !!!") []);;
            vgic_inject_loop k is_empty prev_lr prev_pri (i + 1)
          else vgic_inject_loop k is_empty mask pri (i + 1)
      else mret tt
  end.
Definition vgic_inject (vector : Z) : St (mach D) unit :=
  let mask := gic_make_virtual_hardware_interrupt vector vector 0 0 in
  gic_set_ipriority 6 0xf8000000;;
  gic_set_ipriority 8 0x0000f800;;
  is_empty ← gic_elsr0;
  is_active ← gic_apr;
  let pri := gic_lr_read_pri mask in
  let irq_no := gic_lr_read_vid mask in
  vgic_inject_loop 5 is_empty mask pri 0.

(** [hyper/vm.c]. *)
Definition HV_TIMER_VECTOR : Z := 27.
Definition PL011_INT : Z := 33.
Definition v_timer_handler : St (mach D) unit := vgic_inject HV_TIMER_VECTOR.
Definition fake_console : St (mach D) unit := vgic_inject PL011_INT.
End vgic.

(** * Which interrupt a write enables *)

Lemma highest_bit_loop_ok {S} fuel v i (s : S) :
  0 ≤ v < 2 ^ Z.of_nat fuel → 0 ≤ i → i + Z.of_nat fuel < 2 ^ 32 → (0 < fuel)%nat →
  wp (highest_bit_loop fuel v i) (λ x s', s' = s ∧ x = i + Z.log2 v) s.
Proof.
  revert v i. induction fuel as [|k IH]; intros v i Hv Hi Hb Hf; [lia|].
  cbn [highest_bit_loop]. cbv zeta. destruct (decide (v >> 1 = 0)) as [Hz|Hz].
  - rewrite Hz. change (truthy 0) with false. wp_step. split; [done|].
    rewrite Z.shiftr_div_pow2 in Hz by lia. change (2 ^ 1) with 2 in Hz.
    assert (v = 0 ∨ v = 1) as [-> | ->] by (Z.div_mod_to_equations; lia); simpl; lia.
  - rewrite truthy_true by done.
    assert (v >> 1 = v / 2) as Hdiv by (rewrite Z.shiftr_div_pow2 by lia; done).
    rewrite Hdiv in *. rewrite u32_small by lia.
    destruct k as [|k]; [exfalso; apply Hz; simpl in Hv; Z.div_mod_to_equations; lia|].
    eapply wp_mono; [apply IH; [|lia..]|].
    + rewrite Nat2Z.inj_succ, Z.pow_succ_r in Hv by lia. Z.div_mod_to_equations; lia.
    + intros x s' [-> ->]. split; [done|].
      assert (2 ≤ v) by (Z.div_mod_to_equations; lia).
      assert (Z.log2 v = Z.log2 (v / 2) + 1); [|lia].
      rewrite <- Hdiv, Z.log2_shiftr by lia.
      assert (1 ≤ Z.log2 v); [|lia]. apply Z.log2_le_pow2; simpl; lia.
Qed.

(** The bit [HIGHEST_BIT_POSITION] finds in a register value: that of the low
    32 bits, but 63 when the sign bit of the [int] is set. *)
Definition highest (v : Z) : Z := if u32 v <? 2 ^ 31 then Z.log2 (u32 v) else 63.

Lemma HIGHEST_BIT_POSITION_ok {S} v (s : S) :
  wp (HIGHEST_BIT_POSITION (s32 v)) (λ x s', s' = s ∧ x = highest v) s.
Proof.
  unfold HIGHEST_BIT_POSITION, highest. pose proof (Z.mod_pos_bound v (2 ^ 32) ltac:(lia)) as Hb.
  assert (u64 (s32 v) = if u32 v <? 2 ^ 31 then u32 v else u32 v + (2 ^ 64 - 2 ^ 32)) as ->.
  { unfold u64, s32, u32. destruct (Z.ltb_spec (v mod 2 ^ 32) (2 ^ 31)) as [Hlt|Hge].
    - assert ((v + 2 ^ 31) mod 2 ^ 32 = v mod 2 ^ 32 + 2 ^ 31) as -> by (Z.div_mod_to_equations; lia).
      rewrite Z.mod_small by lia. lia.
    - assert ((v + 2 ^ 31) mod 2 ^ 32 = v mod 2 ^ 32 - 2 ^ 31) as -> by (Z.div_mod_to_equations; lia).
      rewrite <- (Z.mod_add _ 1) by lia. rewrite Z.mod_small; lia. }
  unfold u32 in *. destruct (Z.ltb_spec (v mod 2 ^ 32) (2 ^ 31)) as [Hlt|Hge].
  - eapply wp_mono; [apply highest_bit_loop_ok; [change (Z.of_nat 64) with 64|..]; lia|].
    intros x s' [-> ->]. split; [done|lia].
  - eapply wp_mono; [apply highest_bit_loop_ok; [change (Z.of_nat 64) with 64|..]; lia|].
    intros x s' [-> ->]. split; [done|]. rewrite Z.add_0_l.
    apply Z.log2_unique; [lia|]. change (2 ^ Z.succ 63) with (2 ^ 64). lia.
Qed.

Lemma highest_range v : 0 ≤ highest v < 64.
Proof.
  unfold highest. pose proof (Z.mod_pos_bound v (2 ^ 32) ltac:(lia)). unfold u32.
  destruct (Z.ltb_spec (v mod 2 ^ 32) (2 ^ 31)); [|lia].
  split; [apply Z.log2_nonneg|]. destruct (decide (v mod 2 ^ 32 = 0)) as [->|]; [simpl; lia|].
  assert (Z.log2 (v mod 2 ^ 32) < 31); [|lia]. apply Z.log2_lt_pow2; lia.
Qed.

Section vgic_correct.
#[local] Set Default Proof Using "Type*".
Context {D : Type} `{HA : GicArch D}.

Lemma emulate_isenabler_ok info ctx id text s v :
  r ctx !! Z.to_nat (dabt_reg (hsr info)) = Some v → 0 ≤ id → highest v + id < 1020 →
  wp (emulate_isenabler info ctx id text)
     (λ _ s', enabling (highest v + id) 0 (dev s) (dev s') ∧ irq_nr s' = irq_nr s) s.
Proof.
  intros Hv Hid Hlt. pose proof (highest_range v). unfold emulate_isenabler, read_reg. wp_step.
  apply wp_deref. exists v. split; [done|]. wp_step.
  eapply wp_mono; [apply HIGHEST_BIT_POSITION_ok|]. intros h ? [-> ->]. wp_step.
  apply wp_print. wp_step. eapply wp_mono; [apply HIGHEST_BIT_POSITION_ok|].
  intros h ? [-> ->]. wp_step. rewrite s32_small by lia.
  eapply wp_mono; [apply gic_enable_int_ok; lia|]. intros _ s2 (He & Hn & _).
  apply wp_print. done.
Qed.

(** The address of an access to a set-enable register. *)
Definition is_isenabler (a : Z) : Prop := GICD_ISENABLER 0 ≤ a < GICD_ICENABLER 0.

(** A guest's write to the set-enable register [n] of the distributor
    enables exactly one physical interrupt at the highest priority: that of the
    highest bit of the word, or of bit 63 when bit 31 of the word is set. *)
Lemma intc_handler_enables info ctx n v s :
  0 ≤ n < 32 → gpa info = GICD_ISENABLER n → dabt_write (hsr info) = 1 →
  r ctx !! Z.to_nat (dabt_reg (hsr info)) = Some v → highest v + 32 * n < 1020 →
  wp (intc_handler info ctx) (λ _ s', enabling (highest v + 32 * n) 0 (dev s) (dev s')) s.
Proof.
  intros Hn Hgpa Hw Hv Hlt. unfold intc_handler. rewrite Hgpa, Hw. change (truthy 1) with true.
  unfold GICD_ISENABLER, GICD_ICENABLER, GICD_CTLR, GICD_BASE_ADDR in *. cbn beta iota zeta.
  repeat match goal with
  | |- context [if ?b then _ else _] =>
      first [ assert (b = true) as -> by lia | assert (b = false) as -> by lia ]
  end.
  destruct (Z.eqb_spec (134217728 + (0x100 + 0x4 * n)) (134217728 + (0x100 + 0x4 * 0))) as [He|He].
  - assert (n = 0) as -> by lia. eapply wp_mono; [by apply emulate_isenabler_ok|]. by intros _ s' [? _].
  - assert ((134217728 + (256 + 4 * n) - (134217728 + (256 + 4 * 0))) / 4 * 32 = 32 * n) as ->
      by (Z.div_mod_to_equations; lia).
    rewrite (proj2 (Z.leb_le _ _)), (proj2 (Z.ltb_lt _ _)) by lia. cbn [andb].
    rewrite s32_small by lia.
    eapply wp_mono; [apply emulate_isenabler_ok; [done|lia|lia]|]. by intros _ s' [? _].
Qed.

(** No other access of the guest reaches the hardware: a read, a write
    outside the set-enable registers, or an access outside the distributor
    leaves the device as it is, and only prints. *)
Lemma intc_handler_contained info ctx s :
  dabt_write (hsr info) = 0 ∨ ¬ is_isenabler (gpa info) →
  wp (intc_handler info ctx)
     (λ _ s', dev s' = dev s ∧ irq_nr s' = irq_nr s ∧ ∃ es, log s' = log s ++ es) s.
Proof.
  intros Hout. unfold intc_handler.
  assert (Hp : ∀ e, wp (print e) (λ _ s', dev s' = dev s ∧ irq_nr s' = irq_nr s ∧
    ∃ es, log s' = log s ++ es) s) by (intros e; apply wp_print; eauto).
  destruct ((GICD_BASE_ADDR <=? gpa info) && (gpa info <=? GICD_BASE_ADDR + 0x0010000)); [|apply Hp].
  destruct (truthy (dabt_write (hsr info))) eqn:Hw.
  - destruct Hout as [Ho|Hout]; [by rewrite Ho in Hw|].
    destruct (Z.eqb_spec (gpa info) GICD_CTLR); [apply Hp|].
    destruct (Z.eqb_spec (gpa info) (GICD_ISENABLER 0)) as [He|_].
    { exfalso. apply Hout. rewrite He. unfold is_isenabler, GICD_ISENABLER, GICD_ICENABLER. lia. }
    destruct ((GICD_ISENABLER 1 <=? gpa info) && (gpa info <? GICD_ICENABLER 0)) eqn:Hin.
    { exfalso. apply Hout. unfold is_isenabler, GICD_ISENABLER, GICD_ICENABLER in *. lia. }
    repeat match goal with |- wp (if ?b then _ else _) _ _ => destruct b; [apply Hp|] end.
    wp_step. apply wp_print. apply wp_print. cbn [dev log irq_nr].
    split_and!; [done..|]. rewrite <- app_assoc. eauto.
  - repeat match goal with |- wp (if ?b then _ else _) _ _ => destruct b; [apply Hp|] end.
    wp_step. split_and!; [done..|]. exists []. by rewrite app_nil_r.
Qed.

(** C19: the emulated distributor: a guest's write to the set-enable register [n]
    enables exactly one physical interrupt at the highest priority, that of the
    highest bit of the word, or of bit 63 when bit 31 of the word is set; no other
    access reaches the hardware: a read, a write outside the set-enable registers,
    or an access outside the distributor leaves the device as it is, and only
    prints. *)
Theorem intc_handler_correct info ctx s :
  (∀ n v, 0 ≤ n < 32 → gpa info = GICD_ISENABLER n → dabt_write (hsr info) = 1 →
     r ctx !! Z.to_nat (dabt_reg (hsr info)) = Some v → highest v + 32 * n < 1020 →
     wp (intc_handler info ctx) (λ _ s', enabling (highest v + 32 * n) 0 (dev s) (dev s')) s) ∧
  (dabt_write (hsr info) = 0 ∨ ¬ is_isenabler (gpa info) →
     wp (intc_handler info ctx)
        (λ _ s', dev s' = dev s ∧ irq_nr s' = irq_nr s ∧ ∃ es, log s' = log s ++ es) s).
Proof. split; [intros n v; apply intc_handler_enables|apply intc_handler_contained]. Qed.
End vgic_correct.

(** * Injection *)

Section inject.
#[local] Set Default Proof Using "Type*".
Context {D : Type} `{HA : GicArch D}.

(** A list register that holds no interrupt. *)
Definition free (d : D) (n : Z) : bool := negb (Z.testbit (lr d n) 28 || Z.testbit (lr d n) 29).
(** The words of the list registers [i] to [n - 1]. *)
Definition lrs (d : D) (i n : Z) : list Z := lr d <$> seqZ i (n - i).

Lemma lrs_cons d i n : i < n → lrs d i n = lr d i :: lrs d (i + 1) n.
Proof.
  intros Hi. unfold lrs. rewrite seqZ_cons by lia. cbn [fmap list_fmap].
  by replace (Z.pred (n - i)) with (n - (i + 1)) by lia.
Qed.
Lemma lrs_nil d i : lrs d i i = [].
Proof. unfold lrs. by rewrite Z.sub_diag. Qed.
Lemma lrs_ext d d' i n : (∀ j, i ≤ j < n → lr d' j = lr d j) → lrs d' i n = lrs d i n.
Proof.
  intros He. unfold lrs. apply list_fmap_ext. intros k j Hj. apply He.
  apply lookup_seqZ in Hj as [-> Hj]. lia.
Qed.
Lemma elem_of_lrs d i n x : x ∈ lrs d i n ↔ ∃ j, i ≤ j < n ∧ x = lr d j.
Proof.
  unfold lrs. rewrite list_elem_of_fmap. split.
  - intros (j & -> & Hj%elem_of_seqZ). exists j. split; [lia|done].
  - intros (j & Hj & ->). exists j. rewrite elem_of_seqZ. split; [done|lia].
Qed.

(** What the loop does from the register [i] on: up to the first free register
    [e] the words are those that were there and the new one, and the registers
    after it are as they were; or no register is free and one word [x], of the
    lowest priority, is dropped. *)
Definition injected (i mask : Z) (d d' : D) : Prop :=
  (∃ e, i ≤ e < 4 ∧ free d e = true ∧ (∀ j, i ≤ j < e → free d j = false) ∧
     lrs d' i (e + 1) ≡ₚ mask :: lrs d i e ∧ (∀ j, e < j < 4 → lr d' j = lr d j)) ∨
  ((∀ j, i ≤ j < 4 → free d j = false) ∧
     ∃ x, x :: lrs d' i 4 ≡ₚ mask :: lrs d i 4 ∧
       ∀ y, y ∈ lrs d' i 4 → gic_lr_read_pri y ≤ gic_lr_read_pri x).

(** A step over an occupied register that keeps [kept] and passes [passed] on. *)
Lemma injected_step i mask kept passed d d1 d' :
  0 ≤ i < 4 → free d i = false → [kept; passed] ≡ₚ [mask; lr d i] →
  gic_lr_read_pri kept ≤ gic_lr_read_pri passed →
  (∀ j, i < j < 4 → lr d1 j = lr d j) → lr d' i = kept →
  injected (i + 1) passed d1 d' → injected i mask d d'.
Proof.
  intros Hi Hocc Hkp Hpri Hd1 Hkept Hinj.
  assert (Hfree : ∀ j, i < j < 4 → free d1 j = free d j) by (intros j Hj; unfold free; by rewrite Hd1).
  destruct Hinj as [(e & He & Hfe & Hbefore & Hperm & Hafter)|(Hfull & x & Hperm & Hx)]; [left|right].
  - exists e. split_and!; [lia|lia|by rewrite <- Hfree by lia| | |].
    + intros j Hj. destruct (decide (j = i)) as [->|]; [done|].
      rewrite <- Hfree by lia. apply Hbefore. lia.
    + rewrite (lrs_cons d') by lia. rewrite Hkept, Hperm, (lrs_cons d i e) by lia.
      rewrite (lrs_ext d d1) by (intros j Hj; apply Hd1; lia).
      change ([kept; passed] ++ lrs d (i + 1) e ≡ₚ [mask; lr d i] ++ lrs d (i + 1) e). by rewrite Hkp.
    + intros j Hj. rewrite Hafter by lia. apply Hd1. lia.
  - split.
    { intros j Hj. destruct (decide (j = i)) as [->|]; [done|].
      rewrite <- Hfree by lia. apply Hfull. lia. }
    rewrite (lrs_ext d d1) in Hperm by (intros j Hj; apply Hd1; lia).
    exists x. rewrite (lrs_cons d'), (lrs_cons d), Hkept by lia. split.
    + rewrite Permutation_swap, Hperm.
      change ([kept; passed] ++ lrs d (i + 1) 4 ≡ₚ [mask; lr d i] ++ lrs d (i + 1) 4). by rewrite Hkp.
    + intros y [->|Hy]%elem_of_cons; [|by apply Hx].
      assert (passed ∈ x :: lrs d' (i + 1) 4) as Hin by (rewrite Hperm; set_solver).
      apply elem_of_cons in Hin as [->|Hin]; [done|]. specialize (Hx _ Hin). lia.
Qed.

(** The rest of the device. *)
Definition same_distributor (d d' : D) : Prop :=
  ∀ w, 0 ≤ w < 1020 → enabled d' w = enabled d w ∧ priority d' w = priority d w.

Lemma lr_pri_byte x : 0 ≤ x → u8 (gic_lr_read_pri x) = gic_lr_read_pri x.
Proof.
  intros Hx. apply Z.mod_small. rewrite gic_lr_read_pri_div by done.
  pose proof (Z.mod_pos_bound (x / 2 ^ 23) 32 ltac:(lia)). lia.
Qed.

Lemma vgic_inject_loop_ok fuel is_empty mask i s :
  0 ≤ i ≤ 4 → 4 - i < Z.of_nat fuel → 0 ≤ mask < 2 ^ 32 →
  (∀ n, i ≤ n < 4 → Z.testbit is_empty n = free (dev s) n) →
  wp (vgic_inject_loop fuel is_empty mask (gic_lr_read_pri mask) i)
     (λ _ s', injected i mask (dev s) (dev s') ∧ same_distributor (dev s) (dev s') ∧
        (∀ k, k < i → lr (dev s') k = lr (dev s) k) ∧ irq_nr s' = irq_nr s) s.
Proof.
  revert mask i s. induction fuel as [|k IH]; intros mask i s Hi Hf Hm Hemp; [lia|].
  cbn [vgic_inject_loop]. unfold GICH_LR_NUM. destruct (Z.ltb_spec i 4) as [Hlt|Hge].
  2:{ wp_step. assert (i = 4) as -> by lia. split_and!; [|by intros w Hw|done..].
      right. split; [intros; lia|]. exists mask. split; [by rewrite !lrs_nil|]. intros y. rewrite lrs_nil. by intros ?%not_elem_of_nil. }
  rewrite land_bit_test, Hemp by lia. destruct (free (dev s) i) eqn:Hfree.
  - apply wp_write32. cbn [dev irq_nr]. rewrite u32_small by done. split_and!.
    + left. exists i. split_and!; [lia|lia|done|intros; lia| |].
      * rewrite lrs_cons, !lrs_nil by lia. by rewrite lr_wr, Z.eqb_refl by lia.
      * intros j Hj. rewrite lr_wr by lia. by rewrite (proj2 (Z.eqb_neq j i)) by lia.
    + intros w Hw. by rewrite enabled_lr, priority_lr by lia.
    + intros j Hj. rewrite lr_wr by lia. by rewrite (proj2 (Z.eqb_neq j i)) by lia.
    + done.
  - wp_step. apply wp_read32. rewrite rd_lr by lia. cbn [fst snd dev log irq_nr].
    pose proof (lr_word (dev s) i ltac:(lia)) as Hword. rewrite lr_pri_byte by lia.
    destruct (Z.ltb_spec (gic_lr_read_pri mask) (gic_lr_read_pri (lr (dev s) i))) as [Hpre|Hkeep].
    + wp_step. apply wp_write32. wp_step. apply wp_print. cbn [dev log irq_nr]. rewrite u32_small by done.
      assert (Hlr : ∀ j, j ≠ i → lr (wr32 mask (GICH_LR i) (dev s)) j = lr (dev s) j).
      { intros j Hj. rewrite lr_wr by lia. by rewrite (proj2 (Z.eqb_neq j i)) by lia. }
      eapply wp_mono; [apply (IH (lr (dev s) i)); [lia|lia|done|]|].
      { intros n Hn. rewrite Hemp by lia. unfold free. cbn [dev]. by rewrite Hlr by lia. }
      intros _ s' (Hinj & Hsame & Hlow & Hnr). cbn [dev irq_nr] in *. split_and!.
      * eapply (injected_step i mask mask); [lia|done|done|lia| | |exact Hinj].
        -- intros j Hj. apply Hlr. lia.
        -- rewrite Hlow, lr_wr, Z.eqb_refl by lia. done.
      * intros w Hw. destruct (Hsame w Hw) as [-> ->]. by rewrite enabled_lr, priority_lr by lia.
      * intros j Hj. rewrite Hlow by lia. apply Hlr. lia.
      * done.
    + eapply wp_mono; [apply IH; [cbn [dev]; lia|lia|done|]|].
      { intros n Hn. cbn [dev]. apply Hemp. lia. }
      intros _ s' (Hinj & Hsame & Hlow & Hnr). cbn [dev irq_nr] in *. split_and!; [|done| |done].
      * eapply (injected_step i mask (lr (dev s) i) mask); [lia|done|apply Permutation_swap|lia|done| |exact Hinj].
        apply Hlow. lia.
      * intros j Hj. apply Hlow. lia.
Qed.

(** C21: [vgic_inject] adds the pending hardware interrupt to the list registers
    and loses none that was there when one of the four is free: the registers
    up to the first free one hold the old words and the new one, the others are
    unchanged.  When none is free exactly one word is dropped, and no word that
    is kept has a lower priority than it.  The enable bits are unchanged, and so
    are the priorities except those of the interrupts 24 to 27 and 32 to 35. *)
Theorem vgic_inject_correct vector s :
  wp (vgic_inject vector)
     (λ _ s', injected 0 (lr_word_of (vector mod 512) (vector mod 512) 0 0 true) (dev s) (dev s') ∧
        (∀ w, 0 ≤ w < 1020 → enabled (dev s') w = enabled (dev s) w) ∧
        (∀ w, 0 ≤ w < 1020 → priority (dev s') w =
           if w / 4 =? 8 then u8 (0xf800 >> (8 * (w mod 4))) .& pri_bits
           else if w / 4 =? 6 then u8 (0xf8000000 >> (8 * (w mod 4))) .& pri_bits
           else priority (dev s) w)) s.
Proof.
  unfold vgic_inject. rewrite make_hardware by lia. change (0 mod 256) with 0.
  set (mask := lr_word_of _ _ _ _ _).
  pose proof (Z.mod_pos_bound vector 512 ltac:(lia)) as Hvec.
  assert (0 ≤ mask < 2 ^ 32) as Hmask by (apply lr_word_bound; lia).
  wp_step. apply wp_write32. wp_step. apply wp_write32. wp_step.
  unfold gic_elsr0, gic_apr. apply wp_read32. cbn [dev log irq_nr].
  change (u32 0xf8000000) with 0xf8000000. change (u32 0x0000f800) with 0xf800.
  set (d1 := wr32 0xf800 _ _).
  destruct (rd_elsr d1) as (v & Hrd & _ & Hbits). rewrite Hrd. cbn [fst snd]. wp_step.
  apply wp_read32. cbn [dev log irq_nr]. destruct (rd_apr d1) as [v2 Hrd2]. rewrite Hrd2.
  cbn [fst snd]. wp_step.
  assert (Hlr : ∀ k, lr d1 k = lr (dev s) k) by (intros k; unfold d1; by rewrite !lr_priority by lia).
  eapply wp_mono; [apply vgic_inject_loop_ok; [lia|lia|done|]|].
  { intros n Hn. cbn [dev]. by rewrite Hbits by lia. }
  intros _ s' (Hinj & Hsame & _ & _). cbn [dev] in *. split_and!.
  - unfold injected, lrs, free in *.
    assert (Hext : ∀ i n, lr d1 <$> seqZ i (n - i) = lr (dev s) <$> seqZ i (n - i)).
    { intros i n. apply (lrs_ext (dev s) d1 i n). intros j _. apply Hlr. }
    destruct Hinj as [(e & He & Hfe & Hb & Hp & Ha)|(Hfull & x & Hp & Hx)]; [left; exists e|right].
    + rewrite Hlr in Hfe. rewrite Hext in Hp. split_and!; [lia..|done| |done|].
      * intros j Hj. specialize (Hb j Hj). by rewrite Hlr in Hb.
      * intros j Hj. by rewrite Ha, Hlr.
    + rewrite Hext in Hp. split; [|eauto]. intros j Hj. specialize (Hfull j Hj). by rewrite Hlr in Hfull.
  - intros w Hw. destruct (Hsame w Hw) as [-> _]. unfold d1.
    by rewrite !enabled_priority32 by lia.
  - intros w Hw. destruct (Hsame w Hw) as [_ ->]. unfold d1. by rewrite !priority_wr32 by lia.
Qed.
End inject.

(** * Witnesses *)

(** A frame whose register x5 holds [v]. *)
Definition frame_example (v : Z) : trap_frame :=
  {| r := <[5%nat := v]> (replicate 31 0); usp := 0; elr := 0x1000; spsr := 0 |}.
(** A data abort of a store of x5. *)
Definition store_example (a : Z) : ept_violation_info :=
  {| hsr := (5 << 16) .| (2 << 22) .| (1 << 6); reason := 0; gva := a; gpa := a |}.

(** The word 0x82 in the register 1 has the bits of the interrupts 33 and 39;
    only 39 is enabled. *)
Lemma intc_handler_correct_witness :
  highest 0x82 + 32 * 1 = 39 ∧
  wp (intc_handler (store_example (GICD_ISENABLER 1)) (frame_example 0x82))
     (λ _ s', enabling (highest 0x82 + 32 * 1) 0 (dev gic_example) (dev s')) gic_example ∧
  wp (intc_handler (store_example (GICD_ICENABLER 1)) (frame_example 0x82))
     (λ _ s', dev s' = dev gic_example ∧ irq_nr s' = irq_nr gic_example ∧
        ∃ es, log s' = log gic_example ++ es) gic_example.
Proof.
  split_and!; [reflexivity|..].
  - apply (proj1 (intc_handler_correct (store_example (GICD_ISENABLER 1)) (frame_example 0x82) gic_example) 1 0x82);
      [lia|reflexivity|reflexivity|reflexivity|reflexivity].
  - apply intc_handler_correct. right. intros [_ H]. vm_compute in H. discriminate H.
Defined.

(** The register 0 holds a pending interrupt of priority 0x80: it moves to the
    register 1 and the new one takes its place. *)
Definition inject_example : mach gic_dev :=
  {| dev := {| g_en := λ _, false; g_pri := λ _, 0; g_iar := 0;
               g_lr := λ k, if k =? 0 then lr_word_of 33 33 0x80 0 true else 0 |};
     log := []; irq_nr := 0 |}.
Lemma vgic_inject_correct_witness :
  match vgic_inject 27 inject_example with
  | Done (_, s') => lrs (dev s') 0 4 = [lr_word_of 27 27 0 0 true; lr_word_of 33 33 0x80 0 true; 0; 0]
  | _ => False
  end ∧
  wp (vgic_inject 27)
     (λ _ s', injected 0 (lr_word_of (27 mod 512) (27 mod 512) 0 0 true) (dev inject_example) (dev s') ∧
        (∀ w, 0 ≤ w < 1020 → enabled (dev s') w = enabled (dev inject_example) w) ∧
        (∀ w, 0 ≤ w < 1020 → priority (dev s') w =
           if w / 4 =? 8 then u8 (0xf800 >> (8 * (w mod 4))) .& pri_bits
           else if w / 4 =? 6 then u8 (0xf8000000 >> (8 * (w mod 4))) .& pri_bits
           else priority (dev inject_example) w)) inject_example.
Proof. split; [reflexivity|]. exact (vgic_inject_correct 27 inject_example). Defined.
