(* ===== verification/Uart.v ===== *)
(** The serial console: [io/uart_pl011_early.c], [io/uart_pl011.c] and
    [io/io.c]. *)

From S2P Require Import Prelude Config Gic.

(** [include/uart_pl011.h]. *)
Definition UART0_DR : Z := UART0_BASE + 0x00.
Definition UART0_FR : Z := UART0_BASE + 0x18.
Definition UART0_IBRD : Z := UART0_BASE + 0x24.
Definition UART0_FBRD : Z := UART0_BASE + 0x28.
Definition UART0_LCRH : Z := UART0_BASE + 0x2C.
Definition UART0_CR : Z := UART0_BASE + 0x30.
Definition UART0_IMSC : Z := UART0_BASE + 0x38.
Definition UART0_MIS : Z := UART0_BASE + 0x40.
Definition UART0_ICR : Z := UART0_BASE + 0x44.

Definition BUFFER_SIZE : Z := 1024.

(** A ring buffer: an array, the index to read next and the index to write next. *)
Record ring := { cells : list Z; read_idx : Z; write_idx : Z }.

(** The two operations structures of [io/io.c]. *)
Inductive uart_ops := EarlyOps | AdvanceOps.

(** The static data of the drivers. *)
Record uart := {
  rx : ring;
  tx : ring;
  early_lock : bool;
  uart_op : option uart_ops;
}.
Definition set_rx (q : ring) (u : uart) : uart :=
  {| rx := q; tx := tx u; early_lock := early_lock u; uart_op := uart_op u |}.
Definition set_tx (q : ring) (u : uart) : uart :=
  {| rx := rx u; tx := q; early_lock := early_lock u; uart_op := uart_op u |}.
Definition set_early_lock (b : bool) (u : uart) : uart :=
  {| rx := rx u; tx := tx u; early_lock := b; uart_op := uart_op u |}.
Definition set_uart_op (o : uart_ops) (u : uart) : uart :=
  {| rx := rx u; tx := tx u; early_lock := early_lock u; uart_op := Some o |}.

(** The index after [i]. *)
Definition next_idx (i : Z) : Z := Z.rem (i + 1) BUFFER_SIZE.

(** [buffer[write_idx] = c;] *)
Definition store_cell (q : ring) (c : Z) : ring :=
  {| cells := <[Z.to_nat (write_idx q) := u8 c]> (cells q); read_idx := read_idx q;
     write_idx := write_idx q |}.
(** [write_idx = next_write_idx;] *)
Definition advance_write (q : ring) : ring :=
  {| cells := cells q; read_idx := read_idx q; write_idx := next_idx (write_idx q) |}.
(** [c = buffer[read_idx];] *)
Definition load_cell (q : ring) : option Z := cells q !! Z.to_nat (read_idx q).
(** [read_idx = (read_idx + 1) % BUFFER_SIZE;] *)
Definition advance_read (q : ring) : ring :=
  {| cells := cells q; read_idx := next_idx (read_idx q); write_idx := write_idx q |}.

(** A character goes in, and one comes out. *)
Definition ring_push (q : ring) (c : Z) : ring := advance_write (store_cell q c).
Definition ring_pop (q : ring) : option (Z * ring) := c ← load_cell q; Some (c, advance_read q).

Section uart.
Context {D : Type} `{Device D}.

(** The drivers work on the device and on their static data. *)
Definition con : Type := mach D * uart.
Definition on_mach {A} (m : St (mach D) A) : St con A := on_part fst (λ m c, (m, snd c)) m.
Definition on_uart {A} (m : St uart A) : St con A := on_part snd (λ u c, (fst c, u)) m.
Definition mmio_read (a : Z) : St con Z := on_mach (read32 a).
Definition mmio_write (a v : Z) : St con unit := on_mach (write32 v a).

(** The baud rate divisors and the line settings of both drivers. *)
Definition uartclk : Z := 24000000.
Definition baudrate : Z := 115200.
Definition ibrd : Z := uartclk / (16 * baudrate).
Definition fbrd : Z := (uartclk mod (16 * baudrate)) * 4 / baudrate.

Definition uart_early_init : St con unit :=
  mmio_write UART0_CR 0;;
  on_uart (modify (set_early_lock false));;
  mmio_write UART0_IBRD ibrd;;
  mmio_write UART0_FBRD fbrd;;
  mmio_write UART0_LCRH ((1 << 5) .| (1 << 6));;
  mmio_write UART0_CR ((1 << 0) .| (1 << 8) .| (1 << 9)).

(** [while (UART0_FR & mask);] *)
Fixpoint wait_flag (fuel : nat) (mask : Z) : St con unit :=
  match fuel with
  | O => nofuel
  | S k => v ← mmio_read UART0_FR; if truthy (v .& mask) then wait_flag k mask else mret tt
  end.

(** A lock that is held keeps its owner from it for good: one core cannot
    release it while it waits. *)
Definition take_early_lock : St uart unit := λ u,
  if early_lock u then NoFuel else Done (tt, set_early_lock true u).

Definition uart_early_putc (fuel : nat) (c : Z) : St con unit :=
  wait_flag fuel (1 << 5);;
  on_uart take_early_lock;;
  mmio_write UART0_DR c;;
  on_uart (modify (set_early_lock false)).

Definition uart_early_getc (fuel : nat) : St con Z :=
  wait_flag fuel (1 << 4);;
  v ← mmio_read UART0_DR; mret (u8 v).

Definition uart_advance_init : St con unit :=
  mmio_write UART0_CR 0;;
  mmio_write UART0_IBRD ibrd;;
  mmio_write UART0_FBRD fbrd;;
  mmio_write UART0_LCRH ((1 << 5) .| (1 << 6));;
  mmio_write UART0_IMSC 0;;
  mmio_write UART0_IMSC (3 << 4);;
  mmio_write UART0_CR ((1 << 0) .| (1 << 8) .| (1 << 9)).

(** Waiting on an empty ring ends only when an interrupt fills it: run alone,
    the loop does not end. *)
Definition uart_advance_getc : St con Z :=
  q ← on_uart (gets rx);
  if read_idx q =? write_idx q then nofuel
  else
    cq ← deref (ring_pop q);
    let '(c, q) := cq in
    on_uart (modify (set_rx q));; mret c.

Definition uart_advance_putc (c : Z) : St con unit :=
  q ← on_uart (gets tx);
  if next_idx (write_idx q) =? read_idx q then nofuel
  else
    on_uart (modify (set_tx (ring_push q c)));;
    v ← mmio_read UART0_IMSC;
    mmio_write UART0_IMSC (v .| 0x20).

(** [while (!(UART0_FR & 0x10)) ...]: the receive FIFO into the ring. *)
Fixpoint rx_loop (fuel : nat) : St con unit :=
  match fuel with
  | O => nofuel
  | S k =>
      fr ← mmio_read UART0_FR;
      if truthy (fr .& 0x10) then mret tt
      else
        c ← mmio_read UART0_DR;
        q ← on_uart (gets rx);
        (if negb (next_idx (write_idx q) =? read_idx q) then on_uart (modify (set_rx (ring_push q c)))
         else mret tt);;
        rx_loop k
  end.
(** [while (!(UART0_FR & 0x20) && (tx_read_idx != tx_write_idx)) ...] *)
Fixpoint tx_loop (fuel : nat) : St con unit :=
  match fuel with
  | O => nofuel
  | S k =>
      fr ← mmio_read UART0_FR;
      q ← on_uart (gets tx);
      if negb (truthy (fr .& 0x20)) && negb (read_idx q =? write_idx q) then
        cq ← deref (ring_pop q);
        let '(c, q) := cq in
        mmio_write UART0_DR c;;
        on_uart (modify (set_tx q));;
        tx_loop k
      else mret tt
  end.
Definition uart_interrupt_handler (fuel : nat) : St con unit :=
  mis ← mmio_read UART0_MIS;
  (if truthy (mis .& 0x10) then rx_loop fuel;; mmio_write UART0_ICR 0x10 else mret tt);;
  mis ← mmio_read UART0_MIS;
  if truthy (mis .& 0x20) then
    tx_loop fuel;;
    q ← on_uart (gets tx);
    (if read_idx q =? write_idx q then
       v ← mmio_read UART0_IMSC; mmio_write UART0_IMSC (v .& Z.lnot 0x20)
     else mret tt);;
    mmio_write UART0_ICR 0x20
  else mret tt.

(** ** [io/io.c] *)

Definition io_early_init : St con unit := uart_early_init;; on_uart (modify (set_uart_op EarlyOps)).

(** The call through [uart_op]; a null pointer faults. *)
Definition getc (fuel : nat) : St con Z :=
  o ← on_uart (gets uart_op);
  match o with
  | Some EarlyOps => uart_early_getc fuel
  | Some AdvanceOps => uart_advance_getc
  | None => fault
  end.
Definition putc (fuel : nat) (c : Z) : St con unit :=
  o ← on_uart (gets uart_op);
  match o with
  | Some EarlyOps => uart_early_putc fuel (u8 c)
  | Some AdvanceOps => uart_advance_putc (u8 c)
  | None => fault
  end.
End uart.

(** * The ring buffers are queues *)

(** The characters [l] are in the ring [q]. *)
Record ring_repr (q : ring) (l : list Z) : Prop := {
  rg_cells : length (cells q) = 1024%nat;
  rg_read : 0 ≤ read_idx q < 1024;
  rg_write : write_idx q = (read_idx q + Z.of_nat (length l)) mod 1024;
  rg_len : (length l ≤ 1023)%nat;
  rg_at : ∀ i : nat, (i < length l)%nat →
    cells q !! Z.to_nat ((read_idx q + Z.of_nat i) mod 1024) = l !! i;
}.
Definition ring_empty : ring := {| cells := replicate 1024 0; read_idx := 0; write_idx := 0 |}.
(** The tests of the code. *)
Definition is_full (q : ring) : bool := next_idx (write_idx q) =? read_idx q.
Definition is_empty (q : ring) : bool := read_idx q =? write_idx q.

Section ring.

Lemma next_idx_mod i : 0 ≤ i → next_idx i = (i + 1) mod 1024.
Proof. intros Hi. unfold next_idx. change BUFFER_SIZE with 1024. apply Z.rem_mod_nonneg; lia. Qed.
Lemma mod_1024 i : 0 ≤ i mod 1024 < 1024.
Proof. apply Z.mod_pos_bound. lia. Qed.
(** Indices within one turn of the ring are equal when their places are. *)
Lemma mod_inj a i j : 0 ≤ i < 1024 → 0 ≤ j < 1024 → (a + i) mod 1024 = (a + j) mod 1024 → i = j.
Proof. intros Hi Hj He. Z.div_mod_to_equations. lia. Qed.

Lemma ring_empty_repr : ring_repr ring_empty [].
Proof. by constructor; cbn; try lia. Qed.

Lemma is_full_ok q l : ring_repr q l → is_full q = bool_decide (length l = 1023%nat).
Proof.
  intros [_ Hr Hw Hl _]. unfold is_full. rewrite next_idx_mod, Hw by (rewrite Hw; apply mod_1024).
  rewrite Zplus_mod_idemp_l, <- Z.add_assoc.
  destruct (Z.eqb_spec ((read_idx q + (Z.of_nat (length l) + 1)) mod 1024) (read_idx q)) as [He|He];
    symmetry; [apply bool_decide_eq_true|apply bool_decide_eq_false]; Z.div_mod_to_equations; lia.
Qed.
Lemma is_empty_ok q l : ring_repr q l → is_empty q = bool_decide (l = []).
Proof.
  intros [_ Hr Hw Hl _]. unfold is_empty. rewrite Hw.
  destruct l as [|c l]; [cbn; rewrite Z.add_0_r, Z.mod_small by lia; apply Z.eqb_refl|].
  simpl length in *. rewrite bool_decide_false by done. apply Z.eqb_neq. Z.div_mod_to_equations. lia.
Qed.

Lemma store_cell_ok q l c :
  ring_repr q l → ring_repr (store_cell q c) l ∧ cells (store_cell q c) !! Z.to_nat (write_idx q) = Some (u8 c).
Proof.
  intros [Hc Hr Hw Hl Ha]. pose proof (mod_1024 (read_idx q + Z.of_nat (length l))) as Hb.
  split; [constructor; cbn; rewrite ?length_insert; try done|].
  - intros i Hi. rewrite list_lookup_insert_ne; [by apply Ha|]. rewrite Hw. intros He.
    pose proof (mod_1024 (read_idx q + Z.of_nat i)).
    apply Z2Nat.inj in He; [|lia..]. apply mod_inj in He; lia.
  - cbn. apply list_lookup_insert_eq. rewrite Hw. lia.
Qed.
Lemma advance_write_ok q l c :
  ring_repr q l → (length l ≤ 1022)%nat → cells q !! Z.to_nat (write_idx q) = Some c →
  ring_repr (advance_write q) (l ++ [c]).
Proof.
  intros [Hc Hr Hw Hl Ha] Hlen Hat. constructor; cbn; try done.
  - rewrite next_idx_mod, Hw, Zplus_mod_idemp_l by (rewrite Hw; apply mod_1024). rewrite length_app. simpl.
    f_equal. lia.
  - rewrite length_app. simpl. lia.
  - intros i Hi. rewrite length_app in Hi. simpl in Hi. destruct (decide (i = length l)) as [->|].
    + rewrite <- Hw, Hat. by rewrite list_lookup_middle.
    + rewrite Ha by lia. by rewrite lookup_app_l by lia.
Qed.
Lemma load_cell_ok q c l : ring_repr q (c :: l) → load_cell q = Some c.
Proof.
  intros [_ Hr _ _ Ha]. unfold load_cell. specialize (Ha 0%nat ltac:(simpl; lia)).
  rewrite Z.add_0_r, Z.mod_small in Ha by lia. exact Ha.
Qed.
Lemma advance_read_ok q c l : ring_repr q (c :: l) → ring_repr (advance_read q) l.
Proof.
  intros [Hc Hr Hw Hl Ha]. simpl in Hw, Hl. constructor; cbn; try done; try lia.
  - rewrite next_idx_mod by lia. apply mod_1024.
  - rewrite next_idx_mod by lia. rewrite Zplus_mod_idemp_l, Hw. f_equal. lia.
  - intros i Hi. rewrite next_idx_mod by lia. rewrite Zplus_mod_idemp_l.
    specialize (Ha (S i) ltac:(simpl; lia)). change ((c :: l) !! S i) with (l !! i) in Ha. rewrite <- Ha. do 3 f_equal. lia.
Qed.

Lemma ring_push_ok q l c :
  ring_repr q l → is_full q = false → ring_repr (ring_push q c) (l ++ [u8 c]).
Proof.
  intros Hq Hf. rewrite (is_full_ok q l) in Hf by done. apply bool_decide_eq_false in Hf.
  destruct (store_cell_ok q l c Hq) as [Hs Hat]. pose proof (rg_len _ _ Hq).
  apply advance_write_ok; [done|lia|done].
Qed.
Lemma ring_pop_ok q c l : ring_repr q (c :: l) → ring_pop q = Some (c, advance_read q) ∧ ring_repr (advance_read q) l.
Proof.
  intros Hq. unfold ring_pop. rewrite (load_cell_ok q c l) by done. split; [done|]. by apply advance_read_ok in Hq.
Qed.
End ring.

(** * One writer and one reader

    The loops of [uart_advance_putc] and [uart_interrupt_handler] (for the
    received characters: of the handler and [uart_advance_getc]) run on the same
    ring at the same time, one interrupting the other anywhere or each on a core
    of its own.  A step is one access to the ring. *)

Inductive writer :=
  | W_idle
  | W_room (c : Z)      (* the ring was not full *)
  | W_stored (c : Z).   (* the character is in the array *)
Inductive reader :=
  | R_idle
  | R_some              (* the ring was not empty *)
  | R_loaded (c : Z).   (* the character is out, the index not yet changed *)
(** The ring, where both are, the characters the writer finished with and those
    the reader has taken out, oldest first. *)
Record duplex := { dq : ring; dw : writer; dr : reader; written : list Z; taken : list Z }.

Inductive ring_step : duplex → duplex → Prop :=
  | step_room q r ws ts c :
      is_full q = false →
      ring_step {| dq := q; dw := W_idle; dr := r; written := ws; taken := ts |}
                {| dq := q; dw := W_room c; dr := r; written := ws; taken := ts |}
  | step_store q r ws ts c :
      ring_step {| dq := q; dw := W_room c; dr := r; written := ws; taken := ts |}
                {| dq := store_cell q c; dw := W_stored c; dr := r; written := ws; taken := ts |}
  | step_written q r ws ts c :
      ring_step {| dq := q; dw := W_stored c; dr := r; written := ws; taken := ts |}
                {| dq := advance_write q; dw := W_idle; dr := r; written := ws ++ [u8 c]; taken := ts |}
  | step_some q w ws ts :
      is_empty q = false →
      ring_step {| dq := q; dw := w; dr := R_idle; written := ws; taken := ts |}
                {| dq := q; dw := w; dr := R_some; written := ws; taken := ts |}
  | step_load q w ws ts c :
      load_cell q = Some c →
      ring_step {| dq := q; dw := w; dr := R_some; written := ws; taken := ts |}
                {| dq := q; dw := w; dr := R_loaded c; written := ws; taken := ts ++ [c] |}
  | step_taken q w ws ts c :
      ring_step {| dq := q; dw := w; dr := R_loaded c; written := ws; taken := ts |}
                {| dq := advance_read q; dw := w; dr := R_idle; written := ws; taken := ts |}.

Definition duplex_start : duplex :=
  {| dq := ring_empty; dw := W_idle; dr := R_idle; written := []; taken := [] |}.

(** What the two know of the ring, and where every character is. *)
Definition writer_inv (q : ring) (l : list Z) (w : writer) : Prop :=
  match w with
  | W_idle => True
  | W_room c => (length l ≤ 1022)%nat
  | W_stored c => (length l ≤ 1022)%nat ∧ cells q !! Z.to_nat (write_idx q) = Some (u8 c)
  end.
Definition reader_inv (ws ts l : list Z) (r : reader) : Prop :=
  match r with
  | R_idle => ws = ts ++ l
  | R_some => ws = ts ++ l ∧ l ≠ []
  | R_loaded c => ∃ ts' l', ts = ts' ++ [c] ∧ l = c :: l' ∧ ws = ts ++ l'
  end.
Definition duplex_inv (s : duplex) : Prop :=
  ∃ l, ring_repr (dq s) l ∧ writer_inv (dq s) l (dw s) ∧ reader_inv (written s) (taken s) l (dr s).

Section duplex.

Lemma writer_inv_shorter q q' l l' w :
  (length l' ≤ length l)%nat → cells q' = cells q → write_idx q' = write_idx q →
  writer_inv q l w → writer_inv q' l' w.
Proof. intros Hl Hc Hw. destruct w; cbn; [done|lia|]. rewrite Hc, Hw. intuition lia. Qed.
Lemma reader_inv_snoc ws ts l r c : reader_inv ws ts l r → reader_inv (ws ++ [c]) ts (l ++ [c]) r.
Proof.
  destruct r; cbn.
  - intros ->. by rewrite <- app_assoc.
  - intros [-> Hl]. rewrite <- app_assoc. split; [done|]. by destruct l.
  - intros (ts' & l' & -> & -> & ->). exists ts', (l' ++ [c]). by rewrite <- !app_assoc.
Qed.

Lemma ring_step_inv s s' : ring_step s s' → duplex_inv s → duplex_inv s'.
Proof.
  intros Hstep (l & Hq & Hw & Hr). destruct Hstep; cbn [dq dw dr written taken] in *.
  - exists l. split_and!; [done| |done]. cbn. rewrite (is_full_ok q l) in * by done.
    pose proof (rg_len _ _ Hq). apply bool_decide_eq_false in H. lia.
  - exists l. destruct (store_cell_ok q l c Hq). split_and!; [done| |done]. cbn in *. done.
  - destruct Hw as [Hlen Hat]. exists (l ++ [u8 c]). split_and!; [by apply advance_write_ok|done|].
    by apply reader_inv_snoc.
  - exists l. split_and!; [done..|]. cbn in *. split; [done|].
    rewrite (is_empty_ok q l) in * by done. by apply bool_decide_eq_false in H.
  - destruct Hr as [-> Hl]. destruct l as [|c' l']; [done|]. exists (c' :: l'). split_and!; [done..|].
    rewrite (load_cell_ok q c' l') in H by done. injection H as ->. cbn.
    exists ts, l'. by rewrite <- app_assoc.
  - destruct Hr as (ts' & l' & -> & -> & ->). exists l'. split_and!; [by apply advance_read_ok in Hq| |done].
    eapply writer_inv_shorter; [|done..|exact Hw]. simpl. lia.
Qed.

Lemma duplex_reachable s : rtc ring_step duplex_start s → duplex_inv s.
Proof.
  intros Hs. assert (H0 : duplex_inv duplex_start) by (exists []; split_and!; [apply ring_empty_repr|done..]).
  induction Hs as [|s1 s2 s3 H12 _ IH] in H0; [done|]. apply IH. by eapply ring_step_inv.
Qed.

(** C35: the ring buffer of the serial driver carries the characters in order,
    none lost and none twice, however the steps of its writer and its reader
    interleave: what was taken out is a prefix of what was written, the rest is
    at most 1023 characters and in the ring.  The writer waits only for a ring
    with 1023 characters, the reader only for an empty one. *)
Theorem ring_fifo s :
  rtc ring_step duplex_start s →
  (∃ l, written s = taken s ++ l ∧ (length l ≤ 1023)%nat) ∧
  (dr s = R_idle → ring_repr (dq s) (drop (length (taken s)) (written s)) ∧
     (is_empty (dq s) = true → taken s = written s) ∧
     (is_full (dq s) = true → (length (written s) = length (taken s) + 1023)%nat)).
Proof.
  intros Hs. destruct (duplex_reachable s Hs) as (l & Hq & Hw & Hr). pose proof (rg_len _ _ Hq) as Hlen.
  split.
  - destruct (dr s); cbn in Hr.
    + by exists l.
    + destruct Hr as [? _]. by exists l.
    + destruct Hr as (ts' & l' & _ & -> & ?). exists l'. split; [done|]. simpl in Hlen. lia.
  - intros Hi. rewrite Hi in Hr. cbn in Hr. rewrite Hr, drop_app_length. split_and!; [done| |].
    + rewrite (is_empty_ok _ l) by done. intros ->%bool_decide_eq_true. by rewrite app_nil_r.
    + rewrite (is_full_ok _ l), length_app by done. intros ->%bool_decide_eq_true. done.
Qed.
End duplex.

(** Two characters written, one taken out while the second was being stored. *)
Definition duplex_example : duplex :=
  {| dq := advance_write (advance_read (store_cell (advance_write (store_cell ring_empty 72)) 105));
     dw := W_idle; dr := R_idle; written := [72; 105]; taken := [72] |}.
Lemma ring_fifo_witness :
  rtc ring_step duplex_start duplex_example ∧
  ring_repr (dq duplex_example) [105] ∧ is_empty (dq duplex_example) = false.
Proof.
  assert (Hs : rtc ring_step duplex_start duplex_example).
  { eapply rtc_l; [apply (step_room _ _ _ _ 72); reflexivity|].
    eapply rtc_l; [apply step_store|]. eapply rtc_l; [apply step_written|].
    eapply rtc_l; [apply step_some; reflexivity|]. eapply rtc_l; [apply (step_room _ _ _ _ 105); reflexivity|].
    eapply rtc_l; [apply (step_load _ _ _ _ 72); reflexivity|]. eapply rtc_l; [apply step_store|].
    eapply rtc_l; [apply step_taken|]. eapply rtc_l; [apply step_written|]. apply rtc_refl. }
  split; [exact Hs|]. destruct (ring_fifo duplex_example Hs) as [_ Hidle]. destruct Hidle as [Hq _]; [done|].
  split; [exact Hq|reflexivity].
Defined.

(** * The interrupt handler

    A PL011 as its manual describes it, for one visit of the handler: nothing
    arrives and nothing leaves while the handler runs.  [rx_fifo] are the
    characters received, [sent] those given to it for transmission, [tx_room] the
    free places for more; [rx_irq] and [tx_irq] are the masked interrupts. *)

Class Pl011 (D : Type) `{Device D} := {
  rx_fifo : D → list Z;
  tx_room : D → nat;
  sent : D → list Z;
  imsc : D → Z;
  rx_irq : D → bool;
  tx_irq : D → bool;
  rd_fr : ∀ d, ∃ fr, rd32 UART0_FR d = (fr, d) ∧
    Z.testbit fr 4 = bool_decide (rx_fifo d = []) ∧ Z.testbit fr 5 = bool_decide (tx_room d = 0%nat);
  rd_mis : ∀ d, ∃ m, rd32 UART0_MIS d = (m, d) ∧ Z.testbit m 4 = rx_irq d ∧ Z.testbit m 5 = tx_irq d;
  rd_imsc : ∀ d, rd32 UART0_IMSC d = (imsc d, d);
  rd_dr : ∀ d c l, rx_fifo d = c :: l → ∃ v d', rd32 UART0_DR d = (v, d') ∧ u8 v = c ∧
    rx_fifo d' = l ∧ tx_room d' = tx_room d ∧ sent d' = sent d ∧ imsc d' = imsc d ∧ tx_irq d' = tx_irq d;
  wr_dr : ∀ d v n, tx_room d = S n → let d' := wr32 v UART0_DR d in
    sent d' = sent d ++ [u8 v] ∧ tx_room d' = n ∧ rx_fifo d' = rx_fifo d ∧ imsc d' = imsc d;
  wr_imsc : ∀ d v, 0 ≤ v < 2 ^ 32 → let d' := wr32 v UART0_IMSC d in
    imsc d' = v ∧ sent d' = sent d ∧ tx_room d' = tx_room d ∧ rx_fifo d' = rx_fifo d;
  wr_icr : ∀ d v, let d' := wr32 v UART0_ICR d in
    sent d' = sent d ∧ tx_room d' = tx_room d ∧ rx_fifo d' = rx_fifo d ∧ imsc d' = imsc d ∧
    (v = 0x10 → tx_irq d' = tx_irq d);
}.

Section access.
#[local] Set Default Proof Using "Type*".
Context {D : Type} `{Device D}.

Lemma wp_mmio_read a v d (Q : Z → @con D → Prop) (c : @con D) :
  rd32 a (dev (fst c)) = (v, d) → Q v (Build_mach d (log (fst c)) (irq_nr (fst c)), snd c) →
  wp (mmio_read a) Q c.
Proof. intros Hr HQ. unfold mmio_read, on_mach. wp_step. apply wp_read32. rewrite Hr. exact HQ. Qed.
Lemma wp_mmio_write a v (Q : unit → @con D → Prop) (c : @con D) :
  Q tt (Build_mach (wr32 (u32 v) a (dev (fst c))) (log (fst c)) (irq_nr (fst c)), snd c) →
  wp (mmio_write a v) Q c.
Proof. intros HQ. unfold mmio_write, on_mach. wp_step. apply wp_write32. exact HQ. Qed.
Lemma wp_on_uart {A} (m : St uart A) (Q : A → @con D → Prop) (c : @con D) :
  wp m (λ a u, Q a (fst c, u)) (snd c) → wp (on_uart m) Q c.
Proof. intros HQ. unfold on_uart. by wp_step. Qed.
End access.

Section handler.
#[local] Set Default Proof Using "Type*".
Context {D : Type} `{HP : Pl011 D}.

Lemma bit_truthy x k : 0 ≤ k → truthy (x .& (1 << k)) = Z.testbit x k.
Proof. apply land_bit_test. Qed.

(** The receive FIFO goes into the ring, as far as there is room. *)
Lemma rx_loop_ok fuel l (c : @con D) :
  ring_repr (rx (snd c)) l → (length (rx_fifo (dev (fst c))) < fuel)%nat →
  wp (rx_loop fuel)
     (λ _ c', ring_repr (rx (snd c')) (l ++ take (1023 - length l) (rx_fifo (dev (fst c)))) ∧
        tx (snd c') = tx (snd c) ∧ rx_fifo (dev (fst c')) = [] ∧
        tx_room (dev (fst c')) = tx_room (dev (fst c)) ∧ sent (dev (fst c')) = sent (dev (fst c)) ∧
        imsc (dev (fst c')) = imsc (dev (fst c)) ∧ tx_irq (dev (fst c')) = tx_irq (dev (fst c))) c.
Proof.
  revert l c. induction fuel as [|fu IH]; intros l [m u] Hq Hf; [lia|]. cbn [fst snd] in *. cbn [rx_loop]. wp_step.
  destruct (rd_fr (dev m)) as (fr & Hfr & Hb4 & _). eapply wp_mmio_read; [exact Hfr|].
  change 0x10 with (1 << 4). rewrite bit_truthy, Hb4 by lia.
  destruct (rx_fifo (dev m)) as [|x xs] eqn:Hx.
  - rewrite bool_decide_true by done. wp_step. cbn. rewrite take_nil, app_nil_r. done.
  - rewrite bool_decide_false by done. wp_step.
    destruct (rd_dr (dev m) x xs Hx) as (v & d' & Hv & Hvx & Hx' & Hroom & Hsent & Himsc & Htx).
    eapply wp_mmio_read; [cbn; exact Hv|]. wp_step. apply wp_on_uart. wp_step. cbn [fst snd dev log irq_nr].
    fold (is_full (rx u)). rewrite (is_full_ok _ l) by done. pose proof (rg_len _ _ Hq) as Hlen. wp_step.
    simpl in Hf. destruct (decide (length l = 1023%nat)) as [Heq|Hne].
    + rewrite bool_decide_true by done. cbn [negb]. wp_step. rewrite Heq, Nat.sub_diag. cbn [take].
      eapply wp_mono; [apply (IH l); [exact Hq|cbn; rewrite Hx'; lia]|]. cbn. rewrite Hx', Heq, Nat.sub_diag. cbn.
      intros _ [m2 u2] (? & ? & ? & ? & ? & ? & ?). split_and!; try done; congruence.
    + rewrite bool_decide_false by done. cbn [negb]. apply wp_on_uart. wp_step.
      eapply wp_mono; [apply (IH (l ++ [x]))|].
      * cbn. rewrite <- Hvx. apply ring_push_ok; [done|]. rewrite (is_full_ok _ l) by done.
        by apply bool_decide_eq_false.
      * cbn. rewrite Hx'. lia.
      * cbn. rewrite Hx'. intros _ [m2 u2] (Hq2 & ? & ? & ? & ? & ? & ?). cbn [fst snd] in *.
        split_and!; try done; [|congruence..].
        destruct (1023 - length l)%nat as [|k] eqn:Hk; [lia|]. cbn [take].
        rewrite length_app in Hq2. simpl in Hq2. rewrite <- app_assoc in Hq2.
        replace (1023 - (length l + 1))%nat with k in Hq2 by lia. exact Hq2.
Qed.

(** The ring goes into the transmit FIFO, as far as there is room. *)
Lemma tx_loop_ok fuel l (c : @con D) :
  ring_repr (tx (snd c)) l → (length l < fuel)%nat → Forall (λ x, 0 ≤ x < 256) l →
  let n := Nat.min (length l) (tx_room (dev (fst c))) in
  wp (tx_loop fuel)
     (λ _ c', ring_repr (tx (snd c')) (drop n l) ∧ rx (snd c') = rx (snd c) ∧
        rx_fifo (dev (fst c')) = rx_fifo (dev (fst c)) ∧
        sent (dev (fst c')) = sent (dev (fst c)) ++ take n l ∧
        imsc (dev (fst c')) = imsc (dev (fst c))) c.
Proof.
  cbv zeta. revert l c. induction fuel as [|fu IH]; intros l [m u] Hq Hf Hbytes; [lia|]. cbn [fst snd] in *.
  cbn [tx_loop]. wp_step.
  destruct (rd_fr (dev m)) as (fr & Hfr & _ & Hb5). eapply wp_mmio_read; [exact Hfr|]. wp_step. apply wp_on_uart.
  wp_step. cbn [fst snd dev log irq_nr]. change 0x20 with (1 << 5). rewrite bit_truthy, Hb5 by lia.
  fold (is_empty (tx u)). rewrite (is_empty_ok _ l) by done.
  destruct (tx_room (dev m)) as [|n] eqn:Hroom.
  { rewrite (bool_decide_true (0%nat = 0%nat)) by done. cbn [negb andb]. wp_step. cbn [fst snd].
    rewrite Nat.min_0_r. cbn. rewrite app_nil_r. done. }
  rewrite (bool_decide_false (S n = 0%nat)) by done. cbn [negb andb].
  destruct l as [|x l].
  { rewrite bool_decide_true by done. cbn [negb]. wp_step. cbn. rewrite app_nil_r. done. }
  rewrite bool_decide_false by done. cbn [negb]. wp_step. destruct (ring_pop_ok _ _ _ Hq) as [Hpop Hq'].
  rewrite Hpop. apply wp_deref. eexists. split; [done|]. cbn beta iota. wp_step. apply wp_mmio_write. wp_step.
  apply wp_on_uart. wp_step. cbn [fst snd dev log irq_nr]. apply Forall_cons in Hbytes as [Hx Hbytes].
  destruct (wr_dr (dev m) (u32 x) n Hroom) as (Hs & Hr & Hfifo & Him). simpl in Hf.
  eapply wp_mono; [apply (IH l); [exact Hq'|lia|done]|]. cbn [fst snd dev log irq_nr tx rx set_tx] in *.
  rewrite Hr, Hs, Hfifo, Him. intros _ [m2 u2] (? & ? & ? & Hs2 & ?). split_and!; try done.
  rewrite Hs2, <- app_assoc. cbn. do 2 f_equal. rewrite u32_small by lia. by apply Z.mod_small.
Qed.

Lemma clear_range x b : 0 ≤ x < 2 ^ 32 → 0 ≤ x .& Z.lnot b < 2 ^ 32.
Proof.
  intros Hx. assert (x .& Z.lnot b = (x .& Z.lnot b) mod 2 ^ 32) as ->; [|apply Z.mod_pos_bound; lia].
  zbitwise. destruct (decide (i < 32)).
  - rewrite Z.mod_pow2_bits_low by lia. by autorewrite with zbits.
  - rewrite Z.mod_pow2_bits_high by lia. by rewrite (testbit_small x 32) by lia.
Qed.

(** What a visit of the handler does. *)
Definition received_in (l fifo : list Z) : list Z := l ++ take (1023 - length l) fifo.

(** C36: the handler of the serial interrupts ends; with a receive interrupt it
    empties the receive FIFO into the ring, dropping what does not fit, and with
    a transmit interrupt it moves the characters of the other ring, in order, to
    the transmitter until that is full or the ring empty; it masks the transmit
    interrupt exactly when nothing is left to send. *)
Theorem uart_interrupt_handler_correct fuel lr lt (c : @con D) :
  ring_repr (rx (snd c)) lr → ring_repr (tx (snd c)) lt → Forall (λ x, 0 ≤ x < 256) lt →
  0 ≤ imsc (dev (fst c)) < 2 ^ 32 →
  (length (rx_fifo (dev (fst c))) < fuel)%nat → (length lt < fuel)%nat →
  let d := dev (fst c) in
  let n := if tx_irq d then Nat.min (length lt) (tx_room d) else 0%nat in
  wp (uart_interrupt_handler fuel)
     (λ _ c', let d' := dev (fst c') in
        ring_repr (rx (snd c')) (if rx_irq d then received_in lr (rx_fifo d) else lr) ∧
        rx_fifo d' = (if rx_irq d then [] else rx_fifo d) ∧
        ring_repr (tx (snd c')) (drop n lt) ∧ sent d' = sent d ++ take n lt ∧
        imsc d' = if tx_irq d && bool_decide (drop n lt = []) then imsc d .& Z.lnot 0x20 else imsc d) c.
Proof.
  intros Hrx Htx Hbytes Himsc Hf1 Hf2. cbv zeta. destruct c as [m u]. cbn [fst snd] in *.
  unfold uart_interrupt_handler. wp_step. destruct (rd_mis (dev m)) as (mis & Hmis & Hm4 & _).
  eapply wp_mmio_read; [exact Hmis|]. wp_step. change 0x10 with (1 << 4). rewrite bit_truthy, Hm4 by lia.
  apply wp_mono with (Q := λ _ c1,
    ring_repr (rx (snd c1)) (if rx_irq (dev m) then received_in lr (rx_fifo (dev m)) else lr) ∧
    rx_fifo (dev (fst c1)) = (if rx_irq (dev m) then [] else rx_fifo (dev m)) ∧ tx (snd c1) = tx u ∧
    tx_room (dev (fst c1)) = tx_room (dev m) ∧ sent (dev (fst c1)) = sent (dev m) ∧
    imsc (dev (fst c1)) = imsc (dev m) ∧ tx_irq (dev (fst c1)) = tx_irq (dev m)).
  { destruct (rx_irq (dev m)); [|by wp_step]. wp_step. eapply wp_mono; [apply (rx_loop_ok _ lr); done|].
    cbn [fst snd dev log irq_nr]. intros _ [m1 u1] (? & ? & ? & ? & ? & ? & ?). apply wp_mmio_write. cbn [fst snd dev].
    destruct (wr_icr (dev m1) (u32 (1 << 4))) as (E1 & E2 & E3 & E4 & E5). specialize (E5 eq_refl).
    split_and!; try done; cbn [fst snd] in *; congruence. }
  intros _ [m1 u1] (Hr1 & Hfifo1 & Ht1 & Hroom1 & Hsent1 & Him1 & Hirq1). cbn [fst snd] in *. wp_step.
  destruct (rd_mis (dev m1)) as (mis1 & Hmis1 & _ & Hm5). eapply wp_mmio_read; [exact Hmis1|].
  change 0x20 with (1 << 5). rewrite bit_truthy, Hm5, Hirq1 by lia.
  destruct (tx_irq (dev m)); [|wp_step; cbn [fst snd]; rewrite Ht1, app_nil_r; done].
  wp_step. eapply wp_mono; [apply (tx_loop_ok _ lt); cbn [fst snd]; rewrite ?Ht1; done|].
  cbn [fst snd dev log irq_nr]. rewrite Hroom1, Hsent1, Him1.
  set (n := Nat.min (length lt) (tx_room (dev m))). intros _ [m2 u2] (Hq2 & Hrx2 & Hfifo2 & Hsent2 & Him2).
  cbn [fst snd] in *. wp_step. apply wp_on_uart. wp_step. cbn [fst snd].
  fold (is_empty (tx u2)). rewrite (is_empty_ok _ (drop n lt)) by done. cbn [andb].
  destruct (bool_decide (drop n lt = [])).
  - wp_step. eapply wp_mmio_read; [cbn; apply rd_imsc|]. wp_step. apply wp_mmio_write. apply wp_mmio_write.
    cbn [fst snd dev log irq_nr]. rewrite Him2.
    assert (Hsmall : 0 ≤ imsc (dev m) .& Z.lnot (1 << 5) < 2 ^ 32).
    { by apply clear_range. }
    rewrite (u32_small (_ .& _)) by done.
    destruct (wr_imsc (dev m2) _ Hsmall) as (E1 & E2 & E3 & E4).
    match goal with |- context [wr32 (u32 (1 << 5)) UART0_ICR ?d] =>
      destruct (wr_icr d (u32 (1 << 5))) as (E5 & E6 & E7 & E8 & _) end.
    rewrite Hrx2, E7, E4, Hfifo2, Hfifo1, E5, E2, E8, E1. done.
  - wp_step. apply wp_mmio_write. cbn [fst snd dev log irq_nr].
    destruct (wr_icr (dev m2) (u32 (1 << 5))) as (E5 & E6 & E7 & E8 & _).
    rewrite Hrx2, E7, Hfifo2, Hfifo1, E5, E8. done.
Qed.
End handler.

(** ** Such a port *)

Record port := { p_rx : list Z; p_room : nat; p_sent : list Z; p_imsc : Z; p_rx_irq : bool; p_tx_irq : bool }.
Definition port_rd32 (a : Z) (d : port) : Z * port :=
  if a =? UART0_FR then
    ((if bool_decide (p_rx d = []) then 1 << 4 else 0) .| (if bool_decide (p_room d = 0%nat) then 1 << 5 else 0), d)
  else if a =? UART0_MIS then
    ((if p_rx_irq d then 1 << 4 else 0) .| (if p_tx_irq d then 1 << 5 else 0), d)
  else if a =? UART0_IMSC then (p_imsc d, d)
  else if a =? UART0_DR then
    match p_rx d with
    | [] => (0, d)
    | c :: l => (c, {| p_rx := l; p_room := p_room d; p_sent := p_sent d; p_imsc := p_imsc d;
                       p_rx_irq := p_rx_irq d; p_tx_irq := p_tx_irq d |})
    end
  else (0, d).
Definition port_wr32 (v a : Z) (d : port) : port :=
  if a =? UART0_DR then
    match p_room d with
    | O => d
    | S n => {| p_rx := p_rx d; p_room := n; p_sent := p_sent d ++ [u8 v]; p_imsc := p_imsc d;
                p_rx_irq := p_rx_irq d; p_tx_irq := p_tx_irq d |}
    end
  else if a =? UART0_IMSC then
    {| p_rx := p_rx d; p_room := p_room d; p_sent := p_sent d; p_imsc := v;
       p_rx_irq := p_rx_irq d; p_tx_irq := p_tx_irq d |}
  else d.
#[export] Instance port_device : Device port :=
  {| rd32 := port_rd32; wr32 := port_wr32; wr8 := port_wr32; rd64 := port_rd32; wr64 := port_wr32 |}.
#[export, program] Instance port_pl011 : Pl011 port := {|
  rx_fifo d := map u8 (p_rx d); tx_room := p_room; sent := p_sent; imsc := p_imsc;
  rx_irq := p_rx_irq; tx_irq := p_tx_irq |}.
Next Obligation.
  intros [l n s i r t]. eexists. split; [reflexivity|]. cbn [p_rx p_room].
  destruct l, n; split; reflexivity.
Qed.
Next Obligation.
  intros [l n s i r t]. eexists. split; [reflexivity|]. destruct r, t; split; reflexivity.
Qed.
Next Obligation. done. Qed.
Next Obligation.
  intros [l n s i r t] c l' Hl. cbn in Hl. destruct l as [|x l]; [done|]. injection Hl as <- <-.
  eexists _, _. split; [reflexivity|]. done.
Qed.
Next Obligation. intros [l m s i r t] v n Hn. cbn in Hn. subst m. done. Qed.
Next Obligation. intros d v Hv. done. Qed.
Next Obligation. intros d v. done. Qed.

(** Two characters have arrived and two wait to be sent, of which the
    transmitter has room for one. *)
Definition con_example : @con port :=
  ({| dev := {| p_rx := [104; 105]; p_room := 1; p_sent := []; p_imsc := 0x30; p_rx_irq := true; p_tx_irq := true |};
      log := []; irq_nr := 0 |},
   {| rx := ring_empty; tx := ring_push (ring_push ring_empty 72) 73; early_lock := false;
      uart_op := Some AdvanceOps |}).
Lemma uart_interrupt_handler_witness :
  wp (uart_interrupt_handler 3)
     (λ _ c', ring_repr (rx (snd c')) [104; 105] ∧ rx_fifo (dev (fst c')) = [] ∧
        ring_repr (tx (snd c')) [73] ∧ sent (dev (fst c')) = [72] ∧ imsc (dev (fst c')) = 0x30) con_example.
Proof.
  eapply wp_mono; [apply (uart_interrupt_handler_correct 3 [] [72; 73] con_example)|].
  - apply ring_empty_repr.
  - apply (ring_push_ok _ [72] 73); [apply (ring_push_ok _ [] 72); [apply ring_empty_repr|reflexivity]|reflexivity].
  - repeat constructor; lia.
  - cbn. lia.
  - cbn. lia.
  - cbn. lia.
  - intros ? c' (Hrx & Hfifo & Htx & Hsent & Himsc). split_and!;
      [exact Hrx|exact Hfifo|exact Htx|exact Hsent|exact Himsc].
Defined.
