(* ===== verification/Console.v ===== *)
(** The way of a message to the serial port: [uart_putstr] of [io/io.c] and the
    functions of [io/printf.c] that print. *)

From S2P Require Import Prelude Config Gic ByteMem StringLib Printf Uart.

Definition BUFSZ : Z := 1024.

Section console.
Context {D : Type} `{Device D}.

(** The memory, and the driver with its device. *)
Definition console : Type := mem * @con D.
Definition in_mem {A} (m : St mem A) : St console A := on_part fst (λ m c, (m, snd c)) m.
Definition in_con {A} (m : St (@con D) A) : St console A := on_part snd (λ d c, (fst c, d)) m.

(** The call through [uart_op]. *)
Definition op_putc (port : nat) (c : Z) : St console unit :=
  o ← in_con (on_uart (gets uart_op));
  match o with
  | Some EarlyOps => in_con (uart_early_putc port c)
  | Some AdvanceOps => in_con (uart_advance_putc c)
  | None => fault
  end.

(** [while ( *str) uart_op->uart_putc( *str++);]; [port] bounds the waiting for the
    port at each character. *)
Fixpoint putstr_loop (fuel port : nat) (str : Z) : St console unit :=
  match fuel with
  | O => nofuel
  | S k => c ← in_mem (load8 str);
           if truthy c then op_putc port c;; putstr_loop k port (str + 1) else mret tt
  end.
Definition uart_putstr (fuel port : nat) (str : Z) : St console unit :=
  o ← in_con (on_uart (gets uart_op));
  (if o is None then in_con (on_uart (modify (set_uart_op EarlyOps))) else mret tt);;
  putstr_loop fuel port str.

(** [printf], [vprintf], [warning] and [error] are the same function: [buf] is
    the address of its array, [stk] that of the local array of the callee. *)
Definition vprintf (fuel port : nat) (stk buf fmt : Z) (va : list Z) : St console Z :=
  r ← in_mem (vsnprintf fuel stk buf BUFSZ fmt va);
  uart_putstr fuel port buf;;
  mret r.
Definition printf := vprintf.
Definition warning := vprintf.
Definition error := vprintf.
Definition snprintf (fuel : nat) (stk buf size fmt : Z) (va : list Z) : St mem Z :=
  vsnprintf fuel stk buf size fmt va.

(** [lit] is the address of the string literal, here and below. *)
Definition print_info (fuel port : nat) (stk buf lit info : Z) : St console unit :=
  printf fuel port stk buf lit [info];; mret tt.
Definition print_warn (fuel port : nat) (stk buf lit info : Z) : St console unit :=
  printf fuel port stk buf lit [info];; mret tt.
Definition print_binstr (fuel port : nat) (stk buf out lit x : Z) : St console unit :=
  in_mem (binstr fuel x out);;
  printf fuel port stk buf lit [out];;
  mret tt.
End console.

(** * A port that sends what it is given

    [transmitted d] are the characters given to the port.  Polled long enough,
    [delay] times at most, it has room; a character written then is sent. *)

Fixpoint polls {D} `{Device D} (n : nat) (d d' : D) : Prop :=
  match n with
  | O => ∃ fr, rd32 UART0_FR d = (fr, d') ∧ Z.testbit fr 5 = false
  | S n => ∃ fr d1, rd32 UART0_FR d = (fr, d1) ∧ Z.testbit fr 5 = true ∧ polls n d1 d'
  end.
Class Transmitter (D : Type) `{Device D} := {
  transmitted : D → list Z;
  delay : nat;
  tx_ready : ∀ d, ∃ n d', (n ≤ delay)%nat ∧ polls n d d' ∧ transmitted d' = transmitted d;
  tx_write : ∀ d d' v, polls 0 d d' → transmitted (wr32 v UART0_DR d') = transmitted d' ++ [u8 v];
}.

(** The part of a text a C string can hold. *)
Fixpoint before_nul (s : list Z) : list Z :=
  match s with
  | [] => []
  | c :: s => if c =? 0 then [] else c :: before_nul s
  end.

Section printing.
#[local] Set Default Proof Using "Type*".
Context {D : Type} `{HT : Transmitter D}.

Lemma polls_last n d d' : polls n d d' → ∃ d0, polls 0 d0 d'.
Proof. revert d. induction n as [|n IH]; intros d; [eauto|]. intros (fr & d1 & _ & _ & Hp). by eapply IH. Qed.

Lemma wait_flag_polls fuel n d' (Q : unit → @con D → Prop) (c : @con D) :
  polls n (dev (fst c)) d' → (n < fuel)%nat →
  Q tt (Build_mach d' (log (fst c)) (irq_nr (fst c)), snd c) → wp (wait_flag fuel (1 << 5)) Q c.
Proof.
  revert fuel c. induction n as [|n IH]; intros [|fuel] [m u] Hp Hf HQ; try lia; cbn [wait_flag polls fst snd] in *.
  - destruct Hp as (fr & Hr & Hb). wp_step. eapply wp_mmio_read; [exact Hr|].
    rewrite land_bit_test, Hb by lia. exact HQ.
  - destruct Hp as (fr & d1 & Hr & Hb & Hp). wp_step. eapply wp_mmio_read; [exact Hr|].
    rewrite land_bit_test, Hb by lia. cbn beta iota.
    eapply (IH fuel (Build_mach d1 (log m) (irq_nr m), u)); [exact Hp|lia|exact HQ].
Qed.

Lemma u8_u32 x : u8 (u32 x) = u8 x.
Proof. unfold u8, u32. apply Z.mod_mod_divide. by exists (2 ^ 24). Qed.

Lemma uart_early_putc_ok port c (s : @con D) :
  (delay < port)%nat → early_lock (snd s) = false →
  wp (uart_early_putc port c)
     (λ _ s', transmitted (dev (fst s')) = transmitted (dev (fst s)) ++ [u8 c] ∧
        early_lock (snd s') = false ∧ uart_op (snd s') = uart_op (snd s)) s.
Proof.
  intros Hport Hl. destruct (tx_ready (dev (fst s))) as (n & d' & Hn & Hp & Ht).
  destruct (polls_last _ _ _ Hp) as [d0 Hlast].
  unfold uart_early_putc. wp_step. eapply wait_flag_polls; [exact Hp|lia|]. wp_step. apply wp_on_uart.
  eapply wp_done; [unfold take_early_lock; cbn [fst snd]; by rewrite Hl|]. wp_step. apply wp_mmio_write. apply wp_on_uart. wp_step.
  cbn [fst snd dev log irq_nr]. rewrite (tx_write _ _ _ Hlast), Ht. split_and!; [|done|done].
  by rewrite u8_u32.
Qed.

Lemma putstr_loop_ok fuel port a txt (s : @console D) :
  bytes (fst s) a (txt ++ [0]) → (length txt < fuel)%nat → (delay < port)%nat →
  early_lock (snd (snd s)) = false → uart_op (snd (snd s)) = Some EarlyOps →
  wp (putstr_loop fuel port a)
     (λ _ s', fst s' = fst s ∧
        transmitted (dev (fst (snd s'))) = transmitted (dev (fst (snd s))) ++ (u8 <$> before_nul txt)) s.
Proof.
  revert a txt s. induction fuel as [|k IH]; intros a txt [m c] Hb Hf Hport Hl Ho; [lia|].
  cbn [fst snd] in *. cbn [putstr_loop]. unfold in_mem. do 2 wp_step. destruct txt as [|x txt].
  - destruct Hb as [Hx _]. eapply wp_load8; [exact Hx|]. cbn. by rewrite app_nil_r.
  - cbn [app bytes] in Hb. destruct Hb as [Hx Hb]. simpl in Hf.
    eapply wp_load8; [exact Hx|]. cbn [fst snd before_nul]. destruct (Z.eqb_spec x 0) as [->|Hne].
    + cbn. by rewrite app_nil_r.
    + rewrite truthy_true by done. unfold op_putc, in_con. do 2 wp_step. apply wp_on_uart. do 2 wp_step.
      cbn [fst snd] in *. rewrite Ho. cbn beta iota. wp_step. cbn [fst snd].
      replace (fst c, snd c) with c by (by destruct c).
      eapply wp_mono; [by apply uart_early_putc_ok|]. intros ? c' (Ht & Hl' & Ho'). cbn beta in *.
      eapply wp_mono; [apply (IH (a + 1) txt); cbn [fst snd]; [done|lia|done|done|congruence]|].
      cbn [fst snd]. intros ? s' [-> Hs']. split; [done|]. rewrite Hs', Ht, <- app_assoc. done.
Qed.

(** [uart_putstr] sends a string. *)
Lemma uart_putstr_ok fuel port a txt (s : @console D) :
  bytes (fst s) a (txt ++ [0]) → (length txt < fuel)%nat → (delay < port)%nat →
  early_lock (snd (snd s)) = false → uart_op (snd (snd s)) ≠ Some AdvanceOps →
  wp (uart_putstr fuel port a)
     (λ _ s', fst s' = fst s ∧
        transmitted (dev (fst (snd s'))) = transmitted (dev (fst (snd s))) ++ (u8 <$> before_nul txt)) s.
Proof.
  intros Hb Hf Hport Hl Ho. destruct s as [m [mc u]]. cbn [fst snd] in *.
  unfold uart_putstr, in_con. do 2 wp_step. apply wp_on_uart. do 2 wp_step. cbn [fst snd].
  destruct (uart_op u) as [[]|] eqn:Hop; [|done|].
  - wp_step. by apply (putstr_loop_ok _ _ _ txt).
  - wp_step. apply wp_on_uart. wp_step. by apply (putstr_loop_ok _ _ _ txt).
Qed.

(** [printf] formats into its 1024 bytes and sends them. *)
Lemma vprintf_ok fuel port stk buf fmt f va txt (s : @console D) :
  layout (fst s) buf (BUFSZ - 1) stk → str (fst s) buf (BUFSZ - 1) stk fmt f →
  formats (fst s) buf (BUFSZ - 1) stk f va txt →
  Z.of_nat (length txt) < 2 ^ 31 → (length f + length txt + 70 < fuel)%nat → (delay < port)%nat →
  early_lock (snd (snd s)) = false → uart_op (snd (snd s)) ≠ Some AdvanceOps →
  wp (vprintf fuel port stk buf fmt va)
     (λ r s', r = Z.of_nat (length txt) ∧
        transmitted (dev (fst (snd s'))) =
          transmitted (dev (fst (snd s))) ++ (u8 <$> before_nul (take (Z.to_nat (BUFSZ - 1)) txt)) ∧
        ∀ i, ¬ buf ≤ i < buf + BUFSZ → ¬ stk ≤ i < stk + 27 → fst s' !! i = fst s !! i) s.
Proof.
  destruct s as [m c]. cbn [fst snd]. intros Hlay Hstr Hfm Hlen Hf Hport Hl Ho. unfold vprintf, in_mem. do 2 wp_step.
  eapply wp_mono; [by apply (vsnprintf_ok m buf (BUFSZ - 1) stk Hlay _ f _ txt)|].
  intros r m' (-> & Hb & Hfr). cbn beta in *. wp_step. cbn [fst snd].
  eapply wp_mono; [apply (uart_putstr_ok _ _ _ (take (Z.to_nat (BUFSZ - 1)) txt));
    [exact Hb|rewrite length_take; lia|done|done|done]|].
  intros ? [m2 c2] [Hm Ht]. cbn [fst snd] in *. wp_step. split_and!; [done|done|]. subst m2.
  intros i H1 H2. apply Hfr; unfold in_out, in_stk; lia.
Qed.

(** C37: [printf] on a port that is not yet switched to the interrupt driver,
    and that has room again after finitely many polls: the call returns the
    length of the whole text, the port has been given the first 1023 characters
    of it, up to a NUL if a [%c] put one there, in order and once each, and
    nothing but the buffer and the local array of the callee has changed. *)
Theorem printf_correct fuel port stk buf fmt f va txt (s : @console D) :
  layout (fst s) buf (BUFSZ - 1) stk → str (fst s) buf (BUFSZ - 1) stk fmt f →
  formats (fst s) buf (BUFSZ - 1) stk f va txt →
  Z.of_nat (length txt) < 2 ^ 31 → (length f + length txt + 70 < fuel)%nat → (delay < port)%nat →
  early_lock (snd (snd s)) = false → uart_op (snd (snd s)) ≠ Some AdvanceOps →
  wp (printf fuel port stk buf fmt va)
     (λ r s', r = Z.of_nat (length txt) ∧
        transmitted (dev (fst (snd s'))) =
          transmitted (dev (fst (snd s))) ++ (u8 <$> before_nul (take 1023 txt)) ∧
        ∀ i, ¬ buf ≤ i < buf + 1024 → ¬ stk ≤ i < stk + 27 → fst s' !! i = fst s !! i) s.
Proof. intros. by apply (vprintf_ok _ _ _ _ _ f). Qed.
End printing.

(** ** A slow port

    It is busy for two polls after every character. *)

Record slow_port := { busy : nat; sp_sent : list Z }.
Definition slow_rd32 (a : Z) (d : slow_port) : Z * slow_port :=
  if a =? UART0_FR then
    match Nat.min (busy d) 2 with
    | O => (0, d)
    | S n => (1 << 5, {| busy := n; sp_sent := sp_sent d |})
    end
  else (0, d).
Definition slow_wr32 (v a : Z) (d : slow_port) : slow_port :=
  if a =? UART0_DR then {| busy := 2; sp_sent := sp_sent d ++ [u8 v] |} else d.
#[export] Instance slow_device : Device slow_port :=
  {| rd32 := slow_rd32; wr32 := slow_wr32; wr8 := slow_wr32; rd64 := slow_rd32; wr64 := slow_wr32 |}.
#[export, program] Instance slow_transmitter : Transmitter slow_port := {| transmitted := sp_sent; delay := 2 |}.
Next Obligation.
  intros [n s]. destruct n as [|[|n]]; [exists 0%nat|exists 1%nat|exists 2%nat]; eexists; (split; [lia|]); split.
  1: eexists; split; reflexivity.
  2: eexists _, _; split_and!; [reflexivity|reflexivity|]; eexists; split; reflexivity.
  3: eexists _, _; split_and!; [unfold rd32, slow_device, slow_rd32; cbn [busy Nat.min]; rewrite Nat.min_0_r; reflexivity|reflexivity|];
     eexists _, _; split_and!; [reflexivity|reflexivity|]; eexists; split; reflexivity.
  all: done.
Qed.
Next Obligation. done. Qed.

(** The format at 1000, the local array at 2000, the buffer at 3000. *)
Definition console_example : @console slow_port :=
  (write_bytes (write_bytes (write_bytes ∅ 1000 (codes "a%d" ++ [0])) 2000 (replicate 27 0))
     3000 (replicate 1024 0),
   ({| dev := {| busy := 7; sp_sent := [33] |}; log := []; irq_nr := 0 |},
    {| rx := ring_empty; tx := ring_empty; early_lock := false; uart_op := None |})).
Lemma printf_correct_witness :
  wp (printf 100 3 2000 3000 1000 [-42])
     (λ r s', r = 4 ∧ sp_sent (dev (fst (snd s'))) = 33 :: codes "a-42") console_example.
Proof.
  assert (layout (fst console_example) 3000 1023 2000) as Hlay.
  { constructor; [lia| | |right; lia].
    - eapply (bytes_mapped _ _ (replicate 1024 0)), bytes_write_bytes.
    - apply mapped_write_bytes. eapply (bytes_mapped _ _ (replicate 27 0)), bytes_write_bytes. }
  eapply wp_mono.
  - apply (printf_correct 100 3 2000 3000 1000 (codes "a%d") [-42] (codes "a-42")); [exact Hlay| | |vm_compute; reflexivity| | |done|done].
    + split; [split; [vm_compute; tauto|by repeat constructor]|]. unfold disjoint; simpl; lia.
    + apply (formats_plain _ _ _ _ 97); [done|].
      apply (formats_conv _ _ _ _ _ _ (codes "-42") [] [] []); [|apply formats_end].
      refine (conv_decimal _ _ _ _ 100 [] (-42) (-42) [] 0 default_props eq_refl eq_refl _). lia.
    + cbn. lia.
    + cbn. lia.
  - intros ? s' (-> & Ht & _). split; [done|]. exact Ht.
Defined.
