(* ===== verification/Kernel.v ===== *)
(** The state of the kernel: the data of [include/task.h], [include/thread.h]
    and [exception/exception.c], beside the devices, the console and the virtual
    interrupt controllers. *)

From S2P Require Import Prelude Config Gic Frame Uart Vgic.

(** [include/task.h]. *)
Definition RUNNING : Z := 0.
Definition WAITING : Z := 1.

(** [tcb_t].  A pointer into an array of the kernel is the index it points to. *)
Record tcb := {
  t_cpu_info : option nat;
  t_sp : Z;
  t_state : Z;
  t_counter : Z;
  t_priority : Z;
  t_id : Z;
}.
Definition set_state (v : Z) (t : tcb) : tcb :=
  {| t_cpu_info := t_cpu_info t; t_sp := t_sp t; t_state := v; t_counter := t_counter t;
     t_priority := t_priority t; t_id := t_id t |}.
Definition set_counter (v : Z) (t : tcb) : tcb :=
  {| t_cpu_info := t_cpu_info t; t_sp := t_sp t; t_state := t_state t; t_counter := v;
     t_priority := t_priority t; t_id := t_id t |}.
Definition set_id (v : Z) (t : tcb) : tcb :=
  {| t_cpu_info := t_cpu_info t; t_sp := t_sp t; t_state := t_state t; t_counter := t_counter t;
     t_priority := t_priority t; t_id := v |}.
Definition set_cpu_info (v : option nat) (t : tcb) : tcb :=
  {| t_cpu_info := v; t_sp := t_sp t; t_state := t_state t; t_counter := t_counter t;
     t_priority := t_priority t; t_id := t_id t |}.

(** [cpu_t]: the saved frame, the address of the live one, the system registers. *)
Record cpu := { ctx : trap_frame; pctx : Z; sys_reg : option nat }.
Definition set_ctx (f : trap_frame) (c : cpu) : cpu :=
  {| ctx := f; pctx := pctx c; sys_reg := sys_reg c |}.
Definition set_pctx (a : Z) (c : cpu) : cpu :=
  {| ctx := ctx c; pctx := a; sys_reg := sys_reg c |}.
Definition set_sys_reg (i : option nat) (c : cpu) : cpu :=
  {| ctx := ctx c; pctx := pctx c; sys_reg := i |}.

(** [struct thread_info], one at the bottom of the stack of each core. *)
Record thread_info := {
  ti_cpu : Z;
  ti_flags : Z;
  ti_pgtable : Z;
  current_thread : option nat;
}.
Definition set_current (i : option nat) (t : thread_info) : thread_info :=
  {| ti_cpu := ti_cpu t; ti_flags := ti_flags t; ti_pgtable := ti_pgtable t; current_thread := i |}.

(** The functions installed in [g_handler_vec]. *)
Inductive handler := HTimer | HUart | HVTimer | HFakeConsole.

(** [cpu_sysregs_t] ([include/hyper/vcpu.h]), as the words of its fields in their
    order: how many there are, and the place of [spsr_el1]. *)
Definition SYSREG_WORDS : nat := 64.
Definition SPSR_EL1_FIELD : nat := 20.

(** The kernel.  [cpu_sysregs] has a block of system registers for each task;
    [frames] is the stack memory that holds trap frames, by their addresses. *)
Record kernel (D : Type) := {
  k_mach : mach D;
  k_uart : uart;
  task_list : list tcb;
  g_cpu_dec : list cpu;
  cpu_sysregs : list (list Z);
  task_count : Z;
  sched_lock : bool;
  print_lock : bool;
  infos : list thread_info;
  frames : gmap Z trap_frame;
  g_handler_vec : list (option handler);
  vgics : list vgic;
}.
Arguments k_mach {D} k. Arguments k_uart {D} k. Arguments task_list {D} k.
Arguments g_cpu_dec {D} k. Arguments cpu_sysregs {D} k. Arguments task_count {D} k.
Arguments sched_lock {D} k. Arguments print_lock {D} k. Arguments infos {D} k.
Arguments frames {D} k. Arguments g_handler_vec {D} k. Arguments vgics {D} k.

Section kernel.
Context {D : Type} `{Device D}.

Definition set_mach (m : mach D) (k : kernel D) : kernel D :=
  {| k_mach := m; k_uart := k_uart k; task_list := task_list k; g_cpu_dec := g_cpu_dec k;
     cpu_sysregs := cpu_sysregs k; task_count := task_count k; sched_lock := sched_lock k;
     print_lock := print_lock k; infos := infos k; frames := frames k;
     g_handler_vec := g_handler_vec k; vgics := vgics k |}.
Definition set_uart (u : uart) (k : kernel D) : kernel D :=
  {| k_mach := k_mach k; k_uart := u; task_list := task_list k; g_cpu_dec := g_cpu_dec k;
     cpu_sysregs := cpu_sysregs k; task_count := task_count k; sched_lock := sched_lock k;
     print_lock := print_lock k; infos := infos k; frames := frames k;
     g_handler_vec := g_handler_vec k; vgics := vgics k |}.
Definition set_tasks (ts : list tcb) (k : kernel D) : kernel D :=
  {| k_mach := k_mach k; k_uart := k_uart k; task_list := ts; g_cpu_dec := g_cpu_dec k;
     cpu_sysregs := cpu_sysregs k; task_count := task_count k; sched_lock := sched_lock k;
     print_lock := print_lock k; infos := infos k; frames := frames k;
     g_handler_vec := g_handler_vec k; vgics := vgics k |}.
Definition set_cpus (cs : list cpu) (k : kernel D) : kernel D :=
  {| k_mach := k_mach k; k_uart := k_uart k; task_list := task_list k; g_cpu_dec := cs;
     cpu_sysregs := cpu_sysregs k; task_count := task_count k; sched_lock := sched_lock k;
     print_lock := print_lock k; infos := infos k; frames := frames k;
     g_handler_vec := g_handler_vec k; vgics := vgics k |}.
Definition set_sysregs (rs : list (list Z)) (k : kernel D) : kernel D :=
  {| k_mach := k_mach k; k_uart := k_uart k; task_list := task_list k; g_cpu_dec := g_cpu_dec k;
     cpu_sysregs := rs; task_count := task_count k; sched_lock := sched_lock k;
     print_lock := print_lock k; infos := infos k; frames := frames k;
     g_handler_vec := g_handler_vec k; vgics := vgics k |}.
Definition set_task_count (n : Z) (k : kernel D) : kernel D :=
  {| k_mach := k_mach k; k_uart := k_uart k; task_list := task_list k; g_cpu_dec := g_cpu_dec k;
     cpu_sysregs := cpu_sysregs k; task_count := n; sched_lock := sched_lock k;
     print_lock := print_lock k; infos := infos k; frames := frames k;
     g_handler_vec := g_handler_vec k; vgics := vgics k |}.
Definition set_locks (l p : bool) (k : kernel D) : kernel D :=
  {| k_mach := k_mach k; k_uart := k_uart k; task_list := task_list k; g_cpu_dec := g_cpu_dec k;
     cpu_sysregs := cpu_sysregs k; task_count := task_count k; sched_lock := l;
     print_lock := p; infos := infos k; frames := frames k;
     g_handler_vec := g_handler_vec k; vgics := vgics k |}.
Definition set_infos (ti : list thread_info) (k : kernel D) : kernel D :=
  {| k_mach := k_mach k; k_uart := k_uart k; task_list := task_list k; g_cpu_dec := g_cpu_dec k;
     cpu_sysregs := cpu_sysregs k; task_count := task_count k; sched_lock := sched_lock k;
     print_lock := print_lock k; infos := ti; frames := frames k;
     g_handler_vec := g_handler_vec k; vgics := vgics k |}.
Definition set_frames (fs : gmap Z trap_frame) (k : kernel D) : kernel D :=
  {| k_mach := k_mach k; k_uart := k_uart k; task_list := task_list k; g_cpu_dec := g_cpu_dec k;
     cpu_sysregs := cpu_sysregs k; task_count := task_count k; sched_lock := sched_lock k;
     print_lock := print_lock k; infos := infos k; frames := fs;
     g_handler_vec := g_handler_vec k; vgics := vgics k |}.
Definition set_handlers (hs : list (option handler)) (k : kernel D) : kernel D :=
  {| k_mach := k_mach k; k_uart := k_uart k; task_list := task_list k; g_cpu_dec := g_cpu_dec k;
     cpu_sysregs := cpu_sysregs k; task_count := task_count k; sched_lock := sched_lock k;
     print_lock := print_lock k; infos := infos k; frames := frames k;
     g_handler_vec := hs; vgics := vgics k |}.
Definition set_vgics (vs : list vgic) (k : kernel D) : kernel D :=
  {| k_mach := k_mach k; k_uart := k_uart k; task_list := task_list k; g_cpu_dec := g_cpu_dec k;
     cpu_sysregs := cpu_sysregs k; task_count := task_count k; sched_lock := sched_lock k;
     print_lock := print_lock k; infos := infos k; frames := frames k;
     g_handler_vec := g_handler_vec k; vgics := vs |}.

(** The drivers inside the kernel. *)
Definition kmach {A} (m : St (mach D) A) : St (kernel D) A := on_part k_mach set_mach m.
Definition kcon {A} (m : St con A) : St (kernel D) A :=
  on_part (λ k, (k_mach k, k_uart k)) (λ c k, set_uart (snd c) (set_mach (fst c) k)) m.
Definition kprint (e : log_entry) : St (kernel D) unit := kmach (print e).

(** ** Accesses through pointers *)

Definition task_at (i : nat) : St (kernel D) tcb := k ← get; deref (task_list k !! i).
Definition update_task (i : nat) (f : tcb → tcb) : St (kernel D) unit :=
  t ← task_at i; modify (λ k, set_tasks (<[i := f t]> (task_list k)) k).
Definition cpu_at (i : nat) : St (kernel D) cpu := k ← get; deref (g_cpu_dec k !! i).
Definition update_cpu (i : nat) (f : cpu → cpu) : St (kernel D) unit :=
  c ← cpu_at i; modify (λ k, set_cpus (<[i := f c]> (g_cpu_dec k)) k).
Definition info_at (core : nat) : St (kernel D) thread_info := k ← get; deref (infos k !! core).
Definition update_info (core : nat) (f : thread_info → thread_info) : St (kernel D) unit :=
  t ← info_at core; modify (λ k, set_infos (<[core := f t]> (infos k)) k).
(** The structure behind a trap frame pointer. *)
Definition frame_at (sp : Z) : St (kernel D) trap_frame := k ← get; deref (frames k !! sp).
Definition store_frame (sp : Z) (f : trap_frame) : St (kernel D) unit :=
  frame_at sp;; modify (λ k, set_frames (<[sp := f]> (frames k)) k).

(** [task->cpu_info]. *)
Definition cpu_info_of (i : nat) : St (kernel D) nat := t ← task_at i; deref (t_cpu_info t).
(** [current_thread_info()->current_thread]. *)
Definition current (core : nat) : St (kernel D) nat :=
  ti ← info_at core; deref (current_thread ti).

(** [spin_lock]: the lock is taken when it is free; while it is held the loop
    goes on. *)
Definition spin_lock_sched : St (kernel D) unit := λ k,
  if sched_lock k then NoFuel else Done (tt, set_locks true (print_lock k) k).
Definition spin_unlock_sched : St (kernel D) unit :=
  modify (λ k, set_locks false (print_lock k) k).
Definition spin_lock_print : St (kernel D) unit := λ k,
  if print_lock k then NoFuel else Done (tt, set_locks (sched_lock k) true k).
Definition spin_unlock_print : St (kernel D) unit :=
  modify (λ k, set_locks (sched_lock k) false k).
End kernel.
