(* ===== verification/Sched.v ===== *)
(** The scheduler: [schedule/task.c]. *)

From S2P Require Import Prelude Config Gic Frame Uart Vgic Kernel.

(** [include/sys/sys.h]: the initial processor states of a user task and of a
    virtual machine. *)
Definition SPSR_EL1_USER : Z := 0.
Definition SPSR_EL2_VALUE_IRQ : Z := (1 << 6) .| (1 << 8) .| 5.

Section sched.
Context {D : Type} `{Device D}.

(** The number of cores, which the Makefile gives, and the assembly routine
    [switch_context] of [schedule/context.S]. *)
Context (SMP_NUM : Z) (switch_context : nat → nat → St (kernel D) unit).

(** The fields both task constructors set first. *)
Definition new_task (i : nat) (func : Z) (spsr : Z) : St (kernel D) unit :=
  update_task i (set_id (Z.of_nat i));;
  update_task i (set_state 1);;
  update_task i (set_cpu_info (Some i));;
  c ← cpu_info_of i;
  update_cpu c (λ x, set_ctx (set_elr func (ctx x)) x);;
  update_cpu c (λ x, set_ctx (set_spsr spsr (ctx x)) x).

(** A null pointer is [None]. *)
Definition create_task (task_func stack_top : Z) : St (kernel D) (option nat) :=
  n ← gets task_count;
  if MAX_TASKS <=? n then mret None
  else
    let i := Z.to_nat n in
    new_task i task_func SPSR_EL1_USER;;
    c ← cpu_info_of i;
    update_cpu c (λ x, set_ctx (set_usp stack_top (ctx x)) x);;
    update_task i (set_counter SYS_TASK_TICK);;
    modify (λ k, set_task_count (u32 (task_count k + 1)) k);;
    mret (Some i).

Definition craete_vm_task (task_func : Z) : St (kernel D) (option nat) :=
  n ← gets task_count;
  if MAX_TASKS <=? n then mret None
  else
    let i := Z.to_nat n in
    new_task i task_func SPSR_EL2_VALUE_IRQ;;
    c ← cpu_info_of i;
    update_cpu c (λ x, set_ctx (set_reg 0 0x70000000 (ctx x)) x);;
    update_cpu c (set_sys_reg (Some i));;
    x ← cpu_at c;
    j ← deref (sys_reg x);
    k ← get;
    b ← deref (cpu_sysregs k !! j);
    modify (λ k, set_sysregs (<[j := <[SPSR_EL1_FIELD := 0x30C50830]> b]> (cpu_sysregs k)) k);;
    update_task i (set_counter SYS_TASK_TICK);;
    modify (λ k, set_task_count (u32 (task_count k + 1)) k);;
    mret (Some i).

(** [for (int i = 0; i < MAX_TASKS; i++) task_list[i].id = -1;] *)
Fixpoint clear_ids (fuel : nat) (i : Z) : St (kernel D) unit :=
  match fuel with
  | O => nofuel
  | S k => if i <? MAX_TASKS then update_task (Z.to_nat i) (set_id (u32 (-1)));; clear_ids k (i + 1)
           else mret tt
  end.
Definition schedule_init : St (kernel D) unit :=
  modify (set_locks false false);; clear_ids 65 0.

Definition schedule_init_local (core : nat) : St (kernel D) unit :=
  spin_lock_print;;
  info ← info_at core;
  task_at (Z.to_nat (ti_cpu info));;
  update_info core (set_current (Some (Z.to_nat (ti_cpu info))));;
  c ← current core;
  t ← task_at c;
  kprint (Printf (ln "core %d current task %d") [Num (ti_cpu info); Num (t_id t)]);;
  update_task (Z.to_nat (ti_cpu info)) (set_state RUNNING);;
  spin_unlock_print.

Fixpoint print_task_loop (fuel : nat) (i : Z) : St (kernel D) unit :=
  match fuel with
  | O => nofuel
  | S k =>
      n ← gets task_count;
      if i <? n then
        t ← task_at (Z.to_nat i);
        c ← cpu_info_of (Z.to_nat i);
        x ← cpu_at c;
        kprint (Printf (ln "id: %x, elr: 0x%x") [Num (t_id t); Num (elr (ctx x))]);;
        print_task_loop k (i + 1)
      else mret tt
  end.
Definition print_current_task_list : St (kernel D) unit :=
  print_task_loop 65 0;; kprint (Printf (ln "") []).

Definition switch_context_el (old new : nat) (sp : Z) : St (kernel D) unit :=
  c ← cpu_info_of new;
  x ← cpu_at c;
  store_frame sp (ctx x).

(** The loop of [_schedule], from [i] on: the last [next_task_id]. *)
Fixpoint schedule_loop (fuel : nat) (core curr : nat) (i next_task_id : Z) : St (kernel D) Z :=
  match fuel with
  | O => nofuel
  | S k =>
      n ← gets task_count;
      if i <? n then
        t ← task_at curr;
        let next_task_id := u32 (t_id t + i) mod n in
        t' ← task_at (Z.to_nat next_task_id);
        if t_state t' =? RUNNING then schedule_loop k core curr (i + 1) next_task_id
        else
          update_task (Z.to_nat (t_id t)) (set_state WAITING);;
          update_task (Z.to_nat next_task_id) (set_state RUNNING);;
          update_info core (set_current (Some (Z.to_nat next_task_id)));;
          mret next_task_id
      else mret next_task_id
  end.

(** [sp] is null or the address of the trap frame. *)
Definition _schedule (core : nat) (sp : Z) : St (kernel D) unit :=
  n ← gets task_count;
  if n =? SMP_NUM then mret tt
  else
    curr ← current core;
    spin_lock_sched;;
    next_task_id ← schedule_loop 65 core curr 1 (u32 (-1));
    spin_unlock_sched;;
    t ← task_at curr;
    if next_task_id =? u32 (-1) then
      kprint (Printf (ln "no task to schedule, current task %d") [Num (t_id t)])
    else
      t' ← task_at (Z.to_nat next_task_id);
      ti ← info_at core;
      kprint (Printf (ln "core %d switch prev_task %d to next_task %d")
        [Num (ti_cpu ti); Num (t_id t); Num (t_id t')]);;
      if sp =? NULL then switch_context curr (Z.to_nat next_task_id)
      else switch_context_el curr (Z.to_nat next_task_id) sp.

Definition schedule (core : nat) : St (kernel D) unit :=
  curr ← current core;
  update_task curr (set_counter 0);;
  _schedule core NULL.

Definition timer_tick_schedule (core : nat) (sp : Z) : St (kernel D) unit :=
  curr ← current core;
  update_task curr (λ t, set_counter (u32 (t_counter t - 1)) t);;
  t ← task_at curr;
  if 0 <? t_counter t then mret tt
  else
    update_task curr (set_counter SYS_TASK_TICK);;
    _schedule core sp.

Definition save_cpu_ctx (core : nat) (sp : Z) : St (kernel D) unit :=
  curr ← current core;
  c ← cpu_info_of curr;
  f ← frame_at sp;
  update_cpu c (set_ctx f);;
  update_cpu c (set_pctx sp).
End sched.

(** * The round robin it implements

    The abstract machine: the task each core runs, the frame each task would
    resume with, the ticks each task has left. *)

Record rr := { rr_cur : list nat; rr_ctx : list trap_frame; rr_left : list Z }.

(** The first task after [c], in the cyclic order of [n] tasks and [d] places on
    or further, that no core runs. *)
Fixpoint next_from (k : nat) (cur : list nat) (n c d : nat) : option nat :=
  match k with
  | O => None
  | S k => if decide (((c + d) mod n)%nat ∈ cur) then next_from k cur n c (S d)
           else Some ((c + d) mod n)%nat
  end.
Definition next_waiting (cur : list nat) (n c : nat) : option nat := next_from (n - 1) cur n c 1.

(** A tick on a core whose task is interrupted with the frame [f]: the frame it
    goes on with, and the new state. *)
Definition rr_tick (core : nat) (f : trap_frame) (st : rr) : trap_frame * rr :=
  match rr_cur st !! core with
  | None => (f, st)
  | Some c =>
      let ctxs := <[c := f]> (rr_ctx st) in
      let left := default 0 (rr_left st !! c) - 1 in
      if 0 <? left then (f, {| rr_cur := rr_cur st; rr_ctx := ctxs; rr_left := <[c := left]> (rr_left st) |})
      else
        let lefts := <[c := SYS_TASK_TICK]> (rr_left st) in
        match next_waiting (rr_cur st) (length (rr_ctx st)) c with
        | None => (f, {| rr_cur := rr_cur st; rr_ctx := ctxs; rr_left := lefts |})
        | Some j => (default f (ctxs !! j),
                     {| rr_cur := <[core := j]> (rr_cur st); rr_ctx := ctxs; rr_left := lefts |})
        end
  end.

Section rr_laws.

(** What holds of the machine: the tasks of the cores are distinct and exist. *)
Record rr_ok (st : rr) : Prop := {
  rr_len : length (rr_left st) = length (rr_ctx st);
  rr_nodup : NoDup (rr_cur st);
  rr_range : Forall (λ j, (j < length (rr_ctx st))%nat) (rr_cur st);
  rr_ticks : Forall (λ l, 1 ≤ l ≤ SYS_TASK_TICK) (rr_left st);
}.

Lemma next_from_spec k cur n c d :
  match next_from k cur n c d with
  | Some j => ∃ e, (d ≤ e < d + k)%nat ∧ j = ((c + e) mod n)%nat ∧ (j ∉ cur) ∧
                ∀ e', (d ≤ e' < e)%nat → ((c + e') mod n)%nat ∈ cur
  | None => ∀ e, (d ≤ e < d + k)%nat → ((c + e) mod n)%nat ∈ cur
  end.
Proof.
  revert d. induction k as [|k IH]; intros d; cbn [next_from]; [intros; lia|].
  destruct (decide _) as [Hin|Hout].
  - specialize (IH (S d)). destruct (next_from k cur n c (S d)) as [j|].
    + destruct IH as (e & He & -> & Hj & Hb). exists e. split_and!; [lia|lia|done|done|].
      intros e' He'. destruct (decide (e' = d)) as [->|]; [done|apply Hb; lia].
    + intros e He. destruct (decide (e = d)) as [->|]; [done|apply IH; lia].
  - exists d. split_and!; [lia|lia|done|done|intros; lia].
Qed.

(** The places after [c], and [c] itself, are all the tasks. *)
Lemma cyclic_cover n c j :
  (c < n)%nat → (j < n)%nat → j = c ∨ ∃ e, (1 ≤ e < n)%nat ∧ j = ((c + e) mod n)%nat.
Proof.
  intros Hc Hj. destruct (decide (j = c)) as [->|Hne]; [by left|right].
  destruct (decide (c < j)%nat).
  - exists (j - c)%nat. split; [lia|]. rewrite Nat.mod_small; lia.
  - exists (j + n - c)%nat. split; [lia|]. replace (c + (j + n - c))%nat with (j + 1 * n)%nat by lia.
    rewrite Nat.Div0.mod_add. by rewrite Nat.mod_small.
Qed.

(** There is a waiting task when there are more tasks than cores. *)
Lemma next_waiting_some st c :
  rr_ok st → c ∈ rr_cur st → (length (rr_cur st) < length (rr_ctx st))%nat →
  ∃ j, next_waiting (rr_cur st) (length (rr_ctx st)) c = Some j ∧
    (j < length (rr_ctx st))%nat ∧ j ∉ rr_cur st.
Proof.
  intros [_ Hnd Hr _] Hc Hlt. unfold next_waiting. set (n := length (rr_ctx st)) in *.
  pose proof (next_from_spec (n - 1) (rr_cur st) n c 1) as Hs.
  destruct (next_from _ _ _ _ _) as [j|].
  - destruct Hs as (e & _ & -> & Hj & _). exists ((c + e) mod n)%nat. split_and!; [done| |done].
    apply Nat.mod_upper_bound. lia.
  - exfalso. rewrite Forall_forall in Hr.
    assert (seq 0 n ⊆ rr_cur st) as Hsub.
    { intros j Hj%elem_of_seq. destruct (cyclic_cover n c j) as [->|(e & He & ->)];
        [by apply Hr|lia|done|]. apply Hs. lia. }
    assert (length (seq 0 n) ≤ length (rr_cur st))%nat; [|rewrite length_seq in *; lia].
    apply submseteq_length, NoDup_submseteq; [apply NoDup_seq|apply Hsub].
Qed.

(** The cores run no more tasks than there are. *)
Lemma cur_le st : rr_ok st → (length (rr_cur st) ≤ length (rr_ctx st))%nat.
Proof.
  intros [_ Hnd Hr _]. rewrite <- (length_seq (length (rr_ctx st)) 0).
  apply submseteq_length, NoDup_submseteq; [done|]. intros j Hj.
  rewrite Forall_forall in Hr. apply elem_of_seq. specialize (Hr j Hj). lia.
Qed.

(** No task waits when there are as many tasks as cores. *)
Lemma next_waiting_none st c :
  rr_ok st → length (rr_ctx st) = length (rr_cur st) →
  next_waiting (rr_cur st) (length (rr_ctx st)) c = None.
Proof.
  intros [_ Hnd Hr _] Hlen. unfold next_waiting.
  pose proof (next_from_spec (length (rr_ctx st) - 1) (rr_cur st) (length (rr_ctx st)) c 1) as Hs.
  destruct (next_from _ _ _ _ _) as [j|]; [exfalso|done].
  destruct Hs as (e & He & Hje & Hj & _). set (n := length (rr_ctx st)) in *.
  assert (j < n)%nat as Hjn by (rewrite Hje; apply Nat.mod_upper_bound; lia).
  assert (length (j :: rr_cur st) ≤ length (seq 0 n))%nat; [|rewrite length_seq in *; simpl in *; lia].
  apply submseteq_length, NoDup_submseteq; [by apply NoDup_cons|].
  rewrite Forall_forall in Hr. intros i [->|Hi]%elem_of_cons; apply elem_of_seq; [lia|].
  specialize (Hr i Hi). lia.
Qed.

Lemma elem_of_insert_nodup (xs : list nat) i x y j :
  NoDup xs → xs !! i = Some x → y ∉ xs → (j ∈ <[i := y]> xs ↔ j = y ∨ (j ∈ xs ∧ j ≠ x)).
Proof.
  intros Hnd Hi Hy. rewrite !list_elem_of_lookup. split.
  - intros (k & Hk). destruct (decide (k = i)) as [->|Hne].
    + rewrite list_lookup_insert_eq in Hk by (by eapply lookup_lt_Some). left. congruence.
    + rewrite list_lookup_insert_ne in Hk by done. right. split; [by exists k|].
      intros ->. apply Hne. by eapply NoDup_lookup.
  - intros [->|[[k Hk] Hne]].
    + exists i. apply list_lookup_insert_eq. by eapply lookup_lt_Some.
    + exists k. rewrite list_lookup_insert_ne; [done|congruence].
Qed.

Lemma NoDup_insert_new (xs : list nat) i y : NoDup xs → y ∉ xs → NoDup (<[i := y]> xs).
Proof.
  intros Hnd Hy. apply NoDup_alt. intros a b z Ha Hb.
  assert (Hin : ∀ k, xs !! k = Some z → z ≠ y).
  { intros k Hk ->. apply Hy. by eapply list_elem_of_lookup_2. }
  destruct (decide (a = i)) as [->|Hai], (decide (b = i)) as [->|Hbi]; [done| | |].
  - rewrite list_lookup_insert_ne in Hb by done. apply list_lookup_insert_Some in Ha.
    naive_solver.
  - rewrite list_lookup_insert_ne in Ha by done. apply list_lookup_insert_Some in Hb.
    naive_solver.
  - rewrite !list_lookup_insert_ne in Ha, Hb by done. by eapply NoDup_alt.
Qed.

Lemma rr_tick_ok core f st : rr_ok st → rr_ok (snd (rr_tick core f st)).
Proof.
  intros Hok. pose proof Hok as [Hl Hnd Hr Ht]. unfold rr_tick.
  destruct (rr_cur st !! core) as [c|] eqn:Hc; [|done].
  assert (c < length (rr_ctx st))%nat as Hcn by (by eapply Forall_lookup_1 in Hr).
  destruct (lookup_lt_is_Some_2 (rr_left st) c) as [l Hlc]; [lia|].
  pose proof (Forall_lookup_1 _ _ _ _ Ht Hlc) as Hlr. rewrite Hlc. change (default 0 (Some l)) with l. cbn beta in Hlr.
  assert (Hlen : length (<[c := f]> (rr_ctx st)) = length (rr_ctx st)) by apply length_insert.
  assert (Htick : 1 ≤ SYS_TASK_TICK ≤ SYS_TASK_TICK) by (unfold SYS_TASK_TICK; lia).
  destruct (Z.ltb_spec 0 (l - 1)).
  - constructor; cbn [rr_cur rr_ctx rr_left snd]; [by rewrite Hlen, length_insert|done|by rewrite Hlen|].
    apply Forall_insert; [done|lia].
  - unfold next_waiting.
    pose proof (next_from_spec (length (rr_ctx st) - 1) (rr_cur st) (length (rr_ctx st)) c 1) as Hs.
    destruct (next_from _ _ _ _ _) as [j|].
    + destruct Hs as (e & _ & -> & Hj & _).
      constructor; cbn [rr_cur rr_ctx rr_left snd]; [by rewrite Hlen, length_insert|by apply NoDup_insert_new| |by apply Forall_insert].
      rewrite Hlen. apply Forall_insert; [done|]. apply Nat.mod_upper_bound. lia.
    + constructor; cbn [rr_cur rr_ctx rr_left snd]; [by rewrite Hlen, length_insert|done|by rewrite Hlen|by apply Forall_insert].
Qed.
End rr_laws.

(** * The kernel runs that machine *)

Section refines.
#[local] Set Default Proof Using "Type".
Context {D : Type} `{Device D}.

(** The state a task has in the kernel when the abstract machine is in [st]. *)
Definition task_of (st : rr) (i : nat) (t : tcb) : Prop :=
  t_id t = Z.of_nat i ∧ t_cpu_info t = Some i ∧ rr_left st !! i = Some (t_counter t) ∧
  t_state t = (if bool_decide (i ∈ rr_cur st) then RUNNING else WAITING).

Record sched_repr (k : kernel D) (st : rr) : Prop := {
  sr_ok : rr_ok st;
  sr_count : task_count k = Z.of_nat (length (rr_ctx st));
  sr_max : (length (rr_ctx st) ≤ 64)%nat;
  sr_tasks : ∀ i, (i < length (rr_ctx st))%nat → ∃ t, task_list k !! i = Some t ∧ task_of st i t;
  sr_ctx : ∀ i f, rr_ctx st !! i = Some f → ctx <$> g_cpu_dec k !! i = Some f;
  sr_infos : ∀ core c, rr_cur st !! core = Some c → current_thread <$> infos k !! core = Some (Some c);
}.

Lemma wp_deref_some {S A} (a : A) (o : option A) (Q : A → S → Prop) s :
  o = Some a → Q a s → wp (deref o) Q s.
Proof. intros -> HQ. exact HQ. Qed.

Lemma wp_task_at i t (Q : tcb → kernel D → Prop) k :
  task_list k !! i = Some t → Q t k → wp (task_at i) Q k.
Proof. intros Ht HQ. unfold task_at. wp_step. by eapply wp_deref_some. Qed.
Lemma wp_update_task i g t (Q : unit → kernel D → Prop) k :
  task_list k !! i = Some t → Q tt (set_tasks (<[i := g t]> (task_list k)) k) →
  wp (update_task i g) Q k.
Proof. intros Ht HQ. unfold update_task. wp_step. eapply wp_task_at; [done|]. by wp_step. Qed.
Lemma wp_cpu_at i c (Q : cpu → kernel D → Prop) k :
  g_cpu_dec k !! i = Some c → Q c k → wp (cpu_at i) Q k.
Proof. intros Ht HQ. unfold cpu_at. wp_step. by eapply wp_deref_some. Qed.
Lemma wp_update_cpu i g c (Q : unit → kernel D → Prop) k :
  g_cpu_dec k !! i = Some c → Q tt (set_cpus (<[i := g c]> (g_cpu_dec k)) k) →
  wp (update_cpu i g) Q k.
Proof. intros Ht HQ. unfold update_cpu. wp_step. eapply wp_cpu_at; [done|]. by wp_step. Qed.
Lemma wp_info_at i t (Q : thread_info → kernel D → Prop) k :
  infos k !! i = Some t → Q t k → wp (info_at i) Q k.
Proof. intros Ht HQ. unfold info_at. wp_step. by eapply wp_deref_some. Qed.
Lemma wp_update_info i g t (Q : unit → kernel D → Prop) k :
  infos k !! i = Some t → Q tt (set_infos (<[i := g t]> (infos k)) k) → wp (update_info i g) Q k.
Proof. intros Ht HQ. unfold update_info. wp_step. eapply wp_info_at; [done|]. by wp_step. Qed.
Lemma wp_frame_at sp f (Q : trap_frame → kernel D → Prop) k :
  frames k !! sp = Some f → Q f k → wp (frame_at sp) Q k.
Proof. intros Ht HQ. unfold frame_at. wp_step. by eapply wp_deref_some. Qed.
Lemma wp_store_frame sp f g (Q : unit → kernel D → Prop) k :
  frames k !! sp = Some g → Q tt (set_frames (<[sp := f]> (frames k)) k) → wp (store_frame sp f) Q k.
Proof. intros Ht HQ. unfold store_frame. wp_step. eapply wp_frame_at; [done|]. by wp_step. Qed.
Lemma wp_cpu_info_of i t c (Q : nat → kernel D → Prop) k :
  task_list k !! i = Some t → t_cpu_info t = Some c → Q c k → wp (cpu_info_of i) Q k.
Proof.
  intros Ht Hc HQ. unfold cpu_info_of. wp_step. eapply wp_task_at; [done|]. by eapply wp_deref_some.
Qed.
Lemma wp_kprint e (Q : unit → kernel D → Prop) k :
  (∀ m, Q tt (set_mach m k)) → wp (kprint e) Q k.
Proof. intros HQ. unfold kprint, kmach. wp_step. apply wp_print. apply HQ. Qed.

Lemma wp_current core c st (Q : nat → kernel D → Prop) k :
  sched_repr k st → rr_cur st !! core = Some c → Q c k → wp (current core) Q k.
Proof.
  intros Hk Hc HQ. pose proof (sr_infos _ _ Hk _ _ Hc) as Hi.
  apply fmap_Some in Hi as (ti & Hti & Hcur). unfold current. wp_step.
  eapply wp_info_at; [done|]. by eapply wp_deref_some.
Qed.

(** Nothing the scheduler reads changes when only the console does. *)
Lemma sched_repr_mach m k st : sched_repr k st → sched_repr (set_mach m k) st.
Proof. by intros []. Qed.
Lemma sched_repr_frames fs k st : sched_repr k st → sched_repr (set_frames fs k) st.
Proof. by intros []. Qed.
Lemma sched_repr_locks l p k st : sched_repr k st → sched_repr (set_locks l p k) st.
Proof. by intros []. Qed.

Lemma current_range st core c :
  rr_ok st → rr_cur st !! core = Some c → (c < length (rr_ctx st))%nat ∧ c ∈ rr_cur st.
Proof.
  intros Hok Hc. split; [|by eapply list_elem_of_lookup_2].
  by eapply Forall_lookup_1 in Hc; [|apply Hok].
Qed.

(** ** Saving the frame *)

Lemma save_cpu_ctx_ok core c sp f k st :
  sched_repr k st → rr_cur st !! core = Some c → frames k !! sp = Some f →
  wp (save_cpu_ctx core sp)
     (λ _ k', frames k' = frames k ∧ sched_lock k' = sched_lock k ∧
        sched_repr k' {| rr_cur := rr_cur st; rr_ctx := <[c := f]> (rr_ctx st); rr_left := rr_left st |}) k.
Proof.
  intros Hk Hc Hf. destruct (current_range st core c) as [Hcn _]; [apply Hk|done|].
  destruct (sr_tasks _ _ Hk c Hcn) as (t & Ht & Hid & Hcpu & Hleft & Hst).
  destruct (lookup_lt_is_Some_2 (rr_ctx st) c Hcn) as [f0 Hf0].
  pose proof (sr_ctx _ _ Hk _ _ Hf0) as Hctx. apply fmap_Some in Hctx as (x & Hx & _).
  unfold save_cpu_ctx. wp_step. eapply wp_current; [done..|]. wp_step.
  eapply wp_cpu_info_of; [done..|]. wp_step. eapply wp_frame_at; [done|]. wp_step.
  eapply wp_update_cpu; [done|]. wp_step.
  eapply wp_update_cpu; [cbn [g_cpu_dec set_cpus]; apply list_lookup_insert_eq; by eapply lookup_lt_Some|].
  split; [done|]. split; [done|]. destruct Hk as [[Hl Hnd Hr Hticks] Hcount Hmax Htasks Hctxs Hinfos].
  assert (Hlen : length (<[c := f]> (rr_ctx st)) = length (rr_ctx st)) by apply length_insert.
  constructor; cbn [rr_ctx rr_cur rr_left task_count task_list g_cpu_dec infos set_cpus];
    rewrite ?Hlen; [|done..| |done].
  - constructor; cbn [rr_ctx rr_cur rr_left]; by rewrite ?Hlen.
  - intros i f' Hi. rewrite list_insert_insert_eq. destruct (decide (i = c)) as [->|Hne].
    + rewrite list_lookup_insert_eq in Hi by done. rewrite list_lookup_insert_eq by (by eapply lookup_lt_Some).
      simpl. by simplify_eq.
    + rewrite list_lookup_insert_ne in Hi by done. rewrite list_lookup_insert_ne by done. by apply Hctxs.
Qed.

(** ** Choosing the next task *)

(** The kernel after the core gave up [c] and took [j]. *)
Definition switched (core c j : nat) (k k' : kernel D) : Prop :=
  ∃ tc tj ti, task_list k !! c = Some tc ∧ task_list k !! j = Some tj ∧ infos k !! core = Some ti ∧
    k' = set_infos (<[core := set_current (Some j) ti]> (infos k))
           (set_tasks (<[j := set_state RUNNING tj]> (<[c := set_state WAITING tc]> (task_list k))) k).

Lemma switched_repr core c j k k' st :
  sched_repr k st → rr_cur st !! core = Some c → (j < length (rr_ctx st))%nat → j ∉ rr_cur st →
  switched core c j k k' →
  sched_repr k' {| rr_cur := <[core := j]> (rr_cur st); rr_ctx := rr_ctx st; rr_left := rr_left st |}.
Proof.
  intros [[Hl Hnd Hr Hticks] Hcount Hmax Htasks Hctxs Hinfos] Hc Hj Hjc
    (tc & tj & ti & Htc & Htj & Hti & ->).
  assert (c ∈ rr_cur st) as Hcin by by eapply list_elem_of_lookup_2.
  assert (j ≠ c) as Hjne by congruence.
  constructor; cbn [rr_ctx rr_cur rr_left task_count task_list g_cpu_dec infos set_tasks set_infos];
    [|done|done| |done|].
  - constructor; cbn [rr_ctx rr_cur rr_left]; [done|by apply NoDup_insert_new|by apply Forall_insert|done].
  - intros i Hi. destruct (Htasks i Hi) as (t & Ht & Hid & Hcpu & Hleft & Hst).
    unfold task_of. cbn [rr_ctx rr_cur rr_left].
    rewrite (bool_decide_ext _ _ (elem_of_insert_nodup _ _ _ _ i Hnd Hc Hjc)).
    destruct (decide (i = j)) as [->|Hij]; [|destruct (decide (i = c)) as [->|Hic]].
    + rewrite list_lookup_insert_eq by (rewrite length_insert; by eapply lookup_lt_Some).
      simplify_eq. eexists. split; [done|]. cbn. rewrite bool_decide_true by auto. done.
    + rewrite list_lookup_insert_ne, list_lookup_insert_eq by (done || by eapply lookup_lt_Some).
      simplify_eq. eexists. split; [done|]. cbn. rewrite bool_decide_false by naive_solver. done.
    + rewrite !list_lookup_insert_ne by done. exists t. split; [done|].
      rewrite Hst. split_and!; [done..|].
      erewrite bool_decide_ext; [done|]. naive_solver.
  - intros core' c' Hc'. destruct (decide (core' = core)) as [->|Hne].
    + rewrite list_lookup_insert_eq in Hc' by (by eapply lookup_lt_Some).
      rewrite list_lookup_insert_eq by (by eapply lookup_lt_Some). simplify_eq. done.
    + rewrite list_lookup_insert_ne in Hc' by done. rewrite list_lookup_insert_ne by done.
      by apply Hinfos.
Qed.

Lemma schedule_loop_ok fuel m core c d nx j k st :
  sched_repr k st → rr_cur st !! core = Some c →
  next_from m (rr_cur st) (length (rr_ctx st)) c d = Some j → (d + m = length (rr_ctx st))%nat →
  (m < fuel)%nat →
  wp (schedule_loop fuel core c (Z.of_nat d) nx)
     (λ r k', r = Z.of_nat j ∧ switched core c j k k') k.
Proof.
  intros Hk Hc. destruct (current_range st core c) as [Hcn Hcin]; [apply Hk|done|].
  destruct (sr_tasks _ _ Hk c Hcn) as (t & Ht & Hid & _ & _ & _).
  pose proof (sr_max _ _ Hk) as Hmax.
  revert m d nx. induction fuel as [|fu IH]; intros m d nx Hnext Hdm Hf; [lia|].
  destruct m as [|m]; [done|]. cbn [schedule_loop next_from] in *. wp_step.
  rewrite (sr_count _ _ Hk), (proj2 (Z.ltb_lt _ _)) by lia. wp_step.
  eapply wp_task_at; [done|]. cbv zeta. rewrite Hid.
  rewrite u32_small by lia. rewrite <- Nat2Z.inj_add, <- Nat2Z.inj_mod.
  set (n := length (rr_ctx st)) in *. set (i := ((c + d) mod n)%nat) in *.
  assert (i < n)%nat as Hi by (apply Nat.mod_upper_bound; lia).
  destruct (sr_tasks _ _ Hk i Hi) as (t' & Ht' & _ & _ & _ & Hst').
  wp_step. rewrite Nat2Z.id. eapply wp_task_at; [done|]. rewrite Hst'.
  destruct (decide (i ∈ rr_cur st)) as [Hin|Hout].
  - rewrite bool_decide_true by done. cbn [Z.eqb RUNNING].
    replace (Z.of_nat d + 1) with (Z.of_nat (S d)) by lia. eapply IH; [done|lia|lia].
  - rewrite bool_decide_false by done. cbn [Z.eqb RUNNING WAITING].
    injection Hnext as <-. rewrite !Nat2Z.id. wp_step. eapply wp_update_task; [done|]. wp_step.
    assert (i ≠ c) by congruence.
    eapply wp_update_task; [cbn [task_list set_tasks]; by rewrite list_lookup_insert_ne|]. wp_step.
    pose proof (sr_infos _ _ Hk _ _ Hc) as Hti. apply fmap_Some in Hti as (ti & Hti & _).
    eapply wp_update_info; [exact Hti|]. wp_step. split; [done|]. by exists t, t', ti.
Qed.

Context (SMP_NUM : Z) (switch_context : nat → nat → St (kernel D) unit).

Lemma sched_repr_task_at k st i t :
  sched_repr k st → (i < length (rr_ctx st))%nat → task_list k !! i = Some t → task_of st i t.
Proof. intros Hk Hi Ht. destruct (sr_tasks _ _ Hk i Hi) as (t' & Ht' & ?). congruence. Qed.

(** The task of a core, whose frame is at [sp], gives way to the next waiting
    one, whose frame is copied there. *)
Lemma _schedule_ok core c sp f j k st :
  sched_repr k st → sched_lock k = false →
  rr_cur st !! core = Some c → frames k !! sp = Some f → sp ≠ NULL →
  Z.of_nat (length (rr_ctx st)) ≠ SMP_NUM →
  next_waiting (rr_cur st) (length (rr_ctx st)) c = Some j →
  wp (_schedule SMP_NUM switch_context core sp)
     (λ _ k', sched_repr k' {| rr_cur := <[core := j]> (rr_cur st); rr_ctx := rr_ctx st; rr_left := rr_left st |} ∧
        sched_lock k' = false ∧ frames k' = <[sp := default f (rr_ctx st !! j)]> (frames k)) k.
Proof.
  intros Hk Hlock Hc Hf Hsp Hn Hj. destruct (current_range st core c) as [Hcn Hcin]; [apply Hk|done|].
  pose proof (next_from_spec (length (rr_ctx st) - 1) (rr_cur st) (length (rr_ctx st)) c 1) as Hs.
  unfold next_waiting in Hj. rewrite Hj in Hs. destruct Hs as (e & He & Hje & Hjc & _).
  assert (j < length (rr_ctx st))%nat as Hjn by (rewrite Hje; apply Nat.mod_upper_bound; lia).
  pose proof (sr_max _ _ Hk) as Hmax.
  unfold _schedule. wp_step. rewrite (sr_count _ _ Hk), (proj2 (Z.eqb_neq _ _)) by done. wp_step.
  eapply wp_current; [done..|]. wp_step. eapply wp_done.
  { unfold spin_lock_sched. rewrite Hlock. done. }
  wp_step. set (st' := {| rr_cur := _; rr_ctx := _; rr_left := _ |}).
  eapply wp_mono.
  { apply (schedule_loop_ok 65 (length (rr_ctx st) - 1) core c 1 _ j (set_locks true (print_lock k) k) st);
      [by apply sched_repr_locks|done..|lia|lia]. }
  intros r k1 [-> Hsw].
  assert (Hk1 : sched_repr k1 st') by (eapply switched_repr; [by apply sched_repr_locks|done..]).
  assert (frames k1 = frames k) as Hfr by by destruct Hsw as (? & ? & ? & _ & _ & _ & ->).
  destruct (sr_tasks _ _ Hk1 c Hcn) as (tc & Htc & Hidc & _).
  destruct (sr_tasks _ _ Hk1 j Hjn) as (tj & Htj & Hidj & Hcpuj & _).
  assert (rr_cur st' !! core = Some j) as Hcj.
  { cbn [rr_cur st']. apply list_lookup_insert_eq. by eapply lookup_lt_Some. }
  pose proof (sr_infos _ _ Hk1 _ _ Hcj) as Hti. apply fmap_Some in Hti as (ti & Hti & _).
  destruct (lookup_lt_is_Some_2 (rr_ctx st) j Hjn) as [fj Hfj].
  pose proof (sr_ctx _ _ Hk1 _ _ Hfj) as Hctx. apply fmap_Some in Hctx as (x & Hx & Hxc).
  unfold spin_unlock_sched. wp_step. wp_step. eapply wp_task_at; [exact Htc|]. rewrite (proj2 (Z.eqb_neq (Z.of_nat j) _)).
  2:{ assert (u32 (-1) = 4294967295) as -> by reflexivity. lia. }
  wp_step. rewrite Nat2Z.id. eapply wp_task_at; [exact Htj|]. wp_step.
  eapply wp_info_at; [exact Hti|]. wp_step. apply wp_kprint. intros m.
  rewrite (proj2 (Z.eqb_neq sp NULL)) by done. unfold switch_context_el. wp_step.
  eapply wp_cpu_info_of; [exact Htj|exact Hcpuj|]. wp_step. eapply wp_cpu_at; [exact Hx|].
  eapply wp_store_frame; [cbn [frames set_mach set_locks]; by rewrite Hfr|].
  rewrite Hfj, <- Hxc. cbn [default from_option id frames set_frames set_mach set_locks sched_lock].
  split_and!; [|done|by rewrite Hfr].
  apply sched_repr_frames, sched_repr_mach, sched_repr_locks, Hk1.
Qed.

(** A timer tick on a core, after the frame was saved. *)
Lemma timer_tick_schedule_ok core c sp f k st :
  sched_repr k st → sched_lock k = false → rr_cur st !! core = Some c →
  frames k !! sp = Some f → rr_ctx st !! c = Some f → sp ≠ NULL →
  Z.of_nat (length (rr_cur st)) = SMP_NUM →
  wp (timer_tick_schedule SMP_NUM switch_context core sp)
     (λ _ k', sched_repr k' (snd (rr_tick core f st)) ∧ sched_lock k' = false ∧
        frames k' = <[sp := fst (rr_tick core f st)]> (frames k)) k.
Proof.
  intros Hk Hlock Hc Hf Hfc Hsp Hsmp. pose proof (sr_ok _ _ Hk) as Hok.
  destruct (current_range st core c) as [Hcn Hcin]; [done..|].
  destruct (sr_tasks _ _ Hk c Hcn) as (t & Ht & Hid & Hcpu & Hleft & Hst).
  pose proof (Forall_lookup_1 _ _ _ _ (rr_ticks _ Hok) Hleft) as Hl. cbn beta in Hl.
  change SYS_TASK_TICK with 20 in Hl.
  assert (Hupd : ∀ v, 1 ≤ v ≤ SYS_TASK_TICK →
    sched_repr (set_tasks (<[c := set_counter v t]> (task_list k)) k)
      {| rr_cur := rr_cur st; rr_ctx := rr_ctx st; rr_left := <[c := v]> (rr_left st) |}).
  { intros v Hv. destruct Hk as [[Hlen Hnd Hr Hticks] Hcount Hmax Htasks Hctxs Hinfos].
    constructor; cbn [rr_ctx rr_cur rr_left task_count task_list g_cpu_dec infos set_tasks]; [|done|done| |done|done].
    - constructor; cbn [rr_ctx rr_cur rr_left]; [by rewrite length_insert|done|done|by apply Forall_insert].
    - intros i Hi. unfold task_of. cbn [rr_ctx rr_cur rr_left]. destruct (decide (i = c)) as [->|Hne].
      + rewrite !list_lookup_insert_eq by (by eapply lookup_lt_Some).
        eexists. split; [done|]. by cbn.
      + rewrite !list_lookup_insert_ne by done. by apply Htasks. }
  unfold timer_tick_schedule. wp_step. eapply wp_current; [done..|]. wp_step.
  eapply wp_update_task; [done|]. wp_step.
  eapply wp_task_at; [cbn [task_list set_tasks]; apply list_lookup_insert_eq; by eapply lookup_lt_Some|].
  cbn [t_counter set_counter]. rewrite u32_small by lia.
  unfold rr_tick. rewrite Hc, Hleft. change (default 0 (Some (t_counter t))) with (t_counter t).
  rewrite (list_insert_id (rr_ctx st) c f) by done.
  destruct (Z.ltb_spec 0 (t_counter t - 1)) as [Hlt|Hge].
  { wp_step. cbn [fst snd]. split_and!; [apply Hupd; unfold SYS_TASK_TICK; lia|done|].
    cbn [frames set_tasks]. by rewrite insert_id. }
  wp_step. eapply wp_update_task;
    [cbn [task_list set_tasks]; apply list_lookup_insert_eq; by eapply lookup_lt_Some|].
  set (t2 := set_counter SYS_TASK_TICK _).
  assert (t2 = set_counter SYS_TASK_TICK t) as -> by done.
  cbn [task_list set_tasks]. rewrite list_insert_insert_eq.
  match goal with |- wp _ _ ?k2 =>
    assert (sched_repr k2 {| rr_cur := rr_cur st; rr_ctx := rr_ctx st;
      rr_left := <[c := SYS_TASK_TICK]> (rr_left st) |}) as Hk2
  end.
  { apply (Hupd SYS_TASK_TICK). unfold SYS_TASK_TICK. lia. }
  destruct (decide (length (rr_ctx st) = length (rr_cur st))) as [Heq|Hneq].
  - rewrite (next_waiting_none st c Hok) by done. unfold _schedule. wp_step.
    rewrite (sr_count _ _ Hk2). cbn [rr_ctx]. rewrite Heq, (proj2 (Z.eqb_eq _ _)) by done. wp_step.
    cbn [fst snd frames set_tasks]. split_and!; [done|done|by rewrite insert_id].
  - assert (length (rr_cur st) < length (rr_ctx st))%nat as Hlt by (pose proof (cur_le st Hok); lia).
    destruct (next_waiting_some st c Hok Hcin Hlt) as (j & Hj & Hjn & Hjc). rewrite Hj.
    eapply wp_mono; [apply (_schedule_ok core c sp f j _ _ Hk2); [done|done|done|done| |done]|].
    + cbn [rr_ctx]. lia.
    + intros _ k3 (Hk3 & Hl3 & Hf3). cbn [fst snd]. split_and!; [done..|]. exact Hf3.
Qed.
End refines.

(** * Runs

    A timer interrupt on a core: the task's registers are on the stack at [sp],
    as [f]; they are saved, the tick is counted, and what lies at [sp] then is
    restored.  A run is a sequence of interrupts on the cores, in any order. *)

Record tick := { tk_core : nat; tk_sp : Z; tk_frame : trap_frame }.
(** What a tick shows: the task before and its frame, the task after and its
    frame. *)
Record switch := { sw_from : nat; sw_in : trap_frame; sw_to : nat; sw_out : trap_frame }.

Section run.
Context {D : Type} `{Device D} (SMP_NUM : Z) (switch_context : nat → nat → St (kernel D) unit).

Definition tick_step (t : tick) : St (kernel D) switch :=
  store_frame (tk_sp t) (tk_frame t);;
  c ← current (tk_core t);
  save_cpu_ctx (tk_core t) (tk_sp t);;
  timer_tick_schedule SMP_NUM switch_context (tk_core t) (tk_sp t);;
  c' ← current (tk_core t);
  f ← frame_at (tk_sp t);
  mret {| sw_from := c; sw_in := tk_frame t; sw_to := c'; sw_out := f |}.
Fixpoint tick_run (ts : list tick) : St (kernel D) (list switch) :=
  match ts with
  | [] => mret []
  | t :: ts => s ← tick_step t; ss ← tick_run ts; mret (s :: ss)
  end.
End run.

(** The same of the abstract machine. *)
Definition rr_step (t : tick) (st : rr) : switch * rr :=
  let '(f, st') := rr_tick (tk_core t) (tk_frame t) st in
  ({| sw_from := default 0%nat (rr_cur st !! tk_core t); sw_in := tk_frame t;
      sw_to := default 0%nat (rr_cur st' !! tk_core t); sw_out := f |}, st').
Fixpoint rr_run (ts : list tick) (st : rr) : list switch * rr :=
  match ts with
  | [] => ([], st)
  | t :: ts => let '(s, st) := rr_step t st in let '(ss, st) := rr_run ts st in (s :: ss, st)
  end.

Lemma rr_tick_len core f st : length (rr_cur (snd (rr_tick core f st))) = length (rr_cur st) ∧
  length (rr_ctx (snd (rr_tick core f st))) = length (rr_ctx st).
Proof.
  unfold rr_tick. destruct (rr_cur st !! core); [|done].
  destruct (0 <? _); [|destruct (next_waiting _ _ _)]; cbn [snd rr_cur rr_ctx]; by rewrite ?length_insert.
Qed.

Lemma rr_step_len t st : length (rr_cur (snd (rr_step t st))) = length (rr_cur st) ∧
  length (rr_ctx (snd (rr_step t st))) = length (rr_ctx st).
Proof.
  unfold rr_step. pose proof (rr_tick_len (tk_core t) (tk_frame t) st) as Hl.
  by destruct (rr_tick (tk_core t) (tk_frame t) st).
Qed.
Lemma rr_step_ok t st : rr_ok st → rr_ok (snd (rr_step t st)).
Proof.
  unfold rr_step. intros Hok. pose proof (rr_tick_ok (tk_core t) (tk_frame t) st Hok) as Hl.
  by destruct (rr_tick (tk_core t) (tk_frame t) st).
Qed.

Section run_refines.
Context {D : Type} `{Device D} (SMP_NUM : Z) (switch_context : nat → nat → St (kernel D) unit).

(** The kernel state a tick may find: that of the abstract machine, every core
    running a task, the scheduler lock free. *)
Definition runs (k : kernel D) (st : rr) : Prop :=
  sched_repr k st ∧ sched_lock k = false ∧ Z.of_nat (length (rr_cur st)) = SMP_NUM.
(** A tick comes from a core, and its frame lies in mapped memory. *)
Definition tick_ok (k : kernel D) (t : tick) : Prop :=
  Z.of_nat (tk_core t) < SMP_NUM ∧ tk_sp t ≠ NULL ∧ is_Some (frames k !! tk_sp t).

Lemma tick_step_ok t k st :
  runs k st → tick_ok k t →
  wp (tick_step SMP_NUM switch_context t)
     (λ s k', s = fst (rr_step t st) ∧ runs k' (snd (rr_step t st)) ∧ dom (frames k') = dom (frames k)) k.
Proof.
  intros (Hk & Hl & Hn) (Hcore & Hsp & [f0 Hf0]). destruct t as [core sp f]. cbn in Hcore, Hsp, Hf0.
  destruct (lookup_lt_is_Some_2 (rr_cur st) core) as [c Hc]; [lia|].
  unfold tick_step, rr_step. cbn [tk_core tk_sp tk_frame]. wp_step.
  eapply wp_store_frame; [exact Hf0|]. wp_step.
  eapply wp_current; [apply sched_repr_frames; exact Hk|exact Hc|]. wp_step.
  eapply wp_mono; [apply (save_cpu_ctx_ok core c sp f _ st); [by apply sched_repr_frames|done|]|].
  { cbn [frames set_frames]. apply lookup_insert_eq. }
  intros _ k1 (Hf1 & Hl1 & Hk1). cbn [frames set_frames sched_lock] in Hf1, Hl1. wp_step.
  set (st1 := {| rr_cur := rr_cur st; rr_ctx := <[c := f]> (rr_ctx st); rr_left := rr_left st |}) in *.
  destruct (current_range st core c) as [Hcn _]; [apply Hk|done|].
  assert (rr_tick core f st1 = rr_tick core f st) as Heq.
  { unfold rr_tick, st1. cbn [rr_cur rr_ctx rr_left]. rewrite Hc, list_insert_insert_eq, length_insert. done. }
  eapply wp_mono; [apply (timer_tick_schedule_ok SMP_NUM switch_context core c sp f k1 st1 Hk1);
    [congruence|done| |cbn [rr_ctx st1]; by apply list_lookup_insert_eq|done|done]|].
  { rewrite Hf1. apply lookup_insert_eq. }
  rewrite Heq. intros _ k2 (Hk2 & Hl2 & Hf2). wp_step.
  destruct (rr_tick_len core f st) as [Hlen _].
  destruct (rr_tick core f st) as [fo st'] eqn:Ht. cbn [fst snd] in *.
  destruct (lookup_lt_is_Some_2 (rr_cur st') core) as [c' Hc']; [lia|].
  eapply wp_current; [exact Hk2|exact Hc'|]. wp_step.
  eapply wp_frame_at; [rewrite Hf2; apply lookup_insert_eq|]. wp_step. split_and!.
  - by rewrite Hc, Hc'.
  - split_and!; [done|done|lia].
  - rewrite Hf2, Hf1, !dom_insert_L. apply (elem_of_dom_2 (M:=gmap Z)) in Hf0. set_solver.
Qed.

Lemma tick_run_ok ts k st :
  runs k st → Forall (tick_ok k) ts →
  wp (tick_run SMP_NUM switch_context ts)
     (λ ss k', ss = fst (rr_run ts st) ∧ runs k' (snd (rr_run ts st))) k.
Proof.
  revert k st. induction ts as [|t ts IH]; intros k st Hk Hts; [by wp_step|].
  apply Forall_cons in Hts as [Ht Hts]. cbn [tick_run rr_run]. wp_step.
  eapply wp_mono; [by apply tick_step_ok|]. intros s k1 (-> & Hk1 & Hd). wp_step.
  destruct (rr_step t st) as [s st1]. cbn [fst snd] in *.
  eapply wp_mono; [apply (IH k1 st1); [done|]|].
  { eapply Forall_impl; [exact Hts|]. intros t' (? & ? & Hs). split_and!; [done|done|].
    rewrite <- elem_of_dom in *. by rewrite Hd. }
  intros ss k2 (-> & Hk2). wp_step. by destruct (rr_run ts st1).
Qed.
End run_refines.

(** * What the machine guarantees *)

(** The frame a task was last interrupted with in a run, [f] when it never was. *)
Fixpoint last_frame (j : nat) (f : trap_frame) (ss : list switch) : trap_frame :=
  match ss with
  | [] => f
  | s :: ss => last_frame j (if decide (sw_from s = j) then sw_in s else f) ss
  end.
Lemma last_frame_app j f ss ss' : last_frame j f (ss ++ ss') = last_frame j (last_frame j f ss) ss'.
Proof. revert f. induction ss; cbn; auto. Qed.

Section rr_runs.

Lemma rr_run_app ts ts' st :
  rr_run (ts ++ ts') st =
    let '(ss, st1) := rr_run ts st in let '(ss', st2) := rr_run ts' st1 in (ss ++ ss', st2).
Proof.
  revert st. induction ts as [|t ts IH]; intros st; cbn [app rr_run]; [by destruct (rr_run ts' st)|].
  destruct (rr_step t st) as [s st1]. rewrite IH. destruct (rr_run ts st1) as [ss st2].
  by destruct (rr_run ts' st2).
Qed.
Lemma rr_run_snoc ts t st :
  rr_run (ts ++ [t]) st =
    (fst (rr_run ts st) ++ [fst (rr_step t (snd (rr_run ts st)))], snd (rr_step t (snd (rr_run ts st)))).
Proof. rewrite rr_run_app. destruct (rr_run ts st). cbn. by destruct (rr_step t r). Qed.
Lemma rr_run_length ts st : length (fst (rr_run ts st)) = length ts.
Proof.
  revert st. induction ts as [|t ts IH]; intros st; cbn [rr_run]; [done|].
  destruct (rr_step t st) as [s st1]. specialize (IH st1). destruct (rr_run ts st1).
  cbn in *. by rewrite IH.
Qed.
Lemma rr_run_ok ts st : rr_ok st → rr_ok (snd (rr_run ts st)).
Proof.
  revert st. induction ts as [|t ts IH]; intros st Hok; cbn [rr_run]; [done|].
  pose proof (rr_step_ok t st Hok) as Hs. destruct (rr_step t st) as [s st1]. cbn in Hs.
  specialize (IH st1 Hs). by destruct (rr_run ts st1).
Qed.
Lemma rr_run_len ts st : length (rr_cur (snd (rr_run ts st))) = length (rr_cur st) ∧
  length (rr_ctx (snd (rr_run ts st))) = length (rr_ctx st).
Proof.
  revert st. induction ts as [|t ts IH]; intros st; cbn [rr_run]; [done|].
  pose proof (rr_step_len t st) as [Hs1 Hs2]. destruct (rr_step t st) as [s st1]. cbn in Hs1, Hs2.
  specialize (IH st1). destruct (rr_run ts st1). cbn in *. destruct IH. split; congruence.
Qed.

(** The saved frames of a step, and the frame the core goes on with. *)
Lemma rr_step_frames t st :
  rr_ok st → (tk_core t < length (rr_cur st))%nat →
  let '(s, st') := rr_step t st in
  rr_cur st !! tk_core t = Some (sw_from s) ∧ rr_cur st' !! tk_core t = Some (sw_to s) ∧
  sw_in s = tk_frame t ∧
  rr_ctx st' = <[sw_from s := sw_in s]> (rr_ctx st) ∧ rr_ctx st' !! sw_to s = Some (sw_out s).
Proof.
  intros Hok Ht. unfold rr_step, rr_tick. destruct t as [core sp f]. cbn [tk_core tk_frame] in *.
  destruct (lookup_lt_is_Some_2 _ _ Ht) as [c Hc]. rewrite Hc.
  destruct (current_range st core c Hok Hc) as [Hcn _].
  set (lft := default 0 (rr_left st !! c) - 1). destruct (0 <? lft).
  { cbn. rewrite Hc. cbn. split_and!; try done. by apply list_lookup_insert_eq. }
  unfold next_waiting. pose proof (next_from_spec (length (rr_ctx st) - 1) (rr_cur st) (length (rr_ctx st)) c 1) as Hs.
  destruct (next_from _ _ _ _ _) as [j|].
  - destruct Hs as (e & _ & Hje & _ & _).
    assert (j < length (rr_ctx st))%nat as Hjn by (rewrite Hje; apply Nat.mod_upper_bound; lia).
    destruct (lookup_lt_is_Some_2 (<[c := f]> (rr_ctx st)) j) as [fj Hfj]; [by rewrite length_insert|].
    cbn. rewrite list_lookup_insert_eq by done. cbn. split_and!; try done. by rewrite Hfj.
  - cbn. rewrite Hc. cbn. split_and!; try done. by apply list_lookup_insert_eq.
Qed.

(** A frame that is saved stays until its task is interrupted again. *)
Lemma rr_run_ctx ts st j f :
  rr_ok st → Forall (λ t, (tk_core t < length (rr_cur st))%nat) ts → rr_ctx st !! j = Some f →
  rr_ctx (snd (rr_run ts st)) !! j = Some (last_frame j f (fst (rr_run ts st))).
Proof.
  intros Hok Hts Hf. induction ts as [|t ts IH] using rev_ind; [done|].
  apply Forall_app in Hts as [Hts Ht]. specialize (IH Hts). apply Forall_cons in Ht as [Ht _].
  rewrite rr_run_snoc. cbn [fst snd]. pose proof (rr_run_ok ts st Hok) as Hok1.
  destruct (rr_run_len ts st) as [Hl1 _]. rewrite <- Hl1 in Ht.
  pose proof (rr_step_frames t _ Hok1 Ht) as Hs. set (st1 := snd (rr_run ts st)) in *.
  destruct (rr_step t st1) as [s st2]. destruct Hs as (_ & _ & _ & Hctx & _). cbn [fst snd].
  rewrite Hctx, last_frame_app. cbn [last_frame]. destruct (decide (sw_from s = j)) as [->|Hne].
  - apply list_lookup_insert_eq. by eapply lookup_lt_Some.
  - by rewrite list_lookup_insert_ne.
Qed.

Lemma rr_run_out ts st i s :
  rr_ok st → Forall (λ t, (tk_core t < length (rr_cur st))%nat) ts → fst (rr_run ts st) !! i = Some s →
  ∃ f, rr_ctx st !! sw_to s = Some f ∧ sw_out s = last_frame (sw_to s) f (take (S i) (fst (rr_run ts st))).
Proof.
  intros Hok Hts. revert i s. induction ts as [|t ts IH] using rev_ind; intros i s Hi; [done|].
  pose proof Hts as [Hts1 Ht]%Forall_app. apply Forall_cons in Ht as [Ht _].
  rewrite rr_run_snoc in *. cbn [fst] in *.
  destruct (decide (i < length (fst (rr_run ts st)))%nat) as [Hlt|Hge].
  { rewrite lookup_app_l in Hi by done. rewrite take_app_le by lia. by apply IH. }
  assert (i = length (fst (rr_run ts st))) as ->.
  { apply lookup_lt_Some in Hi. rewrite length_app in Hi. simpl in Hi. lia. }
  rewrite list_lookup_middle in Hi by done. injection Hi as <-.
  rewrite take_ge by (rewrite length_app; simpl; lia).
  pose proof (rr_run_ok ts st Hok) as Hok1. destruct (rr_run_len ts st) as [Hl1 Hl2].
  rewrite <- Hl1 in Ht.
  pose proof (rr_step_frames t _ Hok1 Ht) as Hs. set (st1 := snd (rr_run ts st)) in *.
  destruct (rr_step t st1) as [s st2] eqn:Hst. destruct Hs as (_ & _ & _ & Hctx & Hout). cbn [fst] in *.
  destruct (lookup_lt_is_Some_2 (rr_ctx st) (sw_to s)) as [f Hf].
  { rewrite <- Hl2. rewrite Hctx in Hout. apply lookup_lt_Some in Hout. by rewrite length_insert in Hout. }
  exists f. split; [done|].
  pose proof (rr_run_ctx (ts ++ [t]) st (sw_to s) f Hok Hts Hf) as Hc. rewrite rr_run_snoc in Hc.
  fold st1 in Hc. rewrite Hst in Hc. cbn [fst snd] in Hc. congruence.
Qed.
End rr_runs.

(** ** Fairness on one core *)

Section fair.

Lemma next_waiting_single n c :
  (c < n)%nat → (1 < n)%nat → next_waiting [c] n c = Some ((c + 1) mod n)%nat.
Proof.
  intros Hc Hn. unfold next_waiting. destruct (n - 1)%nat as [|k] eqn:Hk; [lia|]. cbn [next_from].
  destruct (decide _) as [Hin|]; [|done]. exfalso. apply list_elem_of_singleton in Hin.
  destruct (decide (c + 1 = n)%nat) as [He|He]; [rewrite He, Nat.Div0.mod_same in Hin; lia|].
  rewrite Nat.mod_small in Hin; lia.
Qed.

(** On one core the task keeps the core for the ticks it has left, and then the
    next one gets it. *)
Lemma rr_turn ts st c l :
  rr_ok st → rr_cur st = [c] → rr_left st !! c = Some l → length ts = Z.to_nat l →
  Forall (λ t, tk_core t = 0%nat) ts →
  rr_cur (snd (rr_run ts st)) = [((c + 1) mod length (rr_ctx st))%nat].
Proof.
  revert st l. induction ts as [|t ts IH]; intros st l Hok Hc Hl Hlen Hts.
  { pose proof (Forall_lookup_1 _ _ _ _ (rr_ticks _ Hok) Hl) as Hb. cbn in *. lia. }
  pose proof (Forall_lookup_1 _ _ _ _ (rr_ticks _ Hok) Hl) as Hb. cbn beta in Hb.
  apply Forall_cons in Hts as [Ht Hts]. cbn [rr_run].
  pose proof (rr_step_ok t st Hok) as Hok1. destruct (rr_step_len t st) as [_ Hn1].
  assert (Hcn : (c < length (rr_ctx st))%nat).
  { rewrite <- (rr_len _ Hok). by eapply lookup_lt_Some. }
  destruct (rr_step t st) as [s st1] eqn:Hst. cbn [snd] in *.
  unfold rr_step, rr_tick in Hst. rewrite Ht, Hc in Hst. change ([c] !! 0%nat) with (Some c) in Hst.
  cbn beta iota in Hst. rewrite Hl in Hst.
  change (default 0 (Some l)) with l in Hst. simpl length in Hlen.
  destruct (Z.ltb_spec 0 (l - 1)).
  - injection Hst as _ <-. rewrite <- Hn1.
    specialize (IH _ (l - 1) Hok1 eq_refl). cbn [rr_cur rr_left rr_ctx] in *.
    destruct (rr_run ts _) as [ss st2] eqn:Hr. apply IH; [|lia|done].
    apply list_lookup_insert_eq. by eapply lookup_lt_Some.
  - assert (ts = []) as -> by (apply nil_length_inv; lia). cbn [rr_run snd].
    destruct (decide (1 < length (rr_ctx st))%nat).
    + rewrite next_waiting_single in Hst by done. by injection Hst as _ <-.
    + assert (length (rr_ctx st) = 1)%nat as Hone by lia. rewrite Hone in *.
      change (next_waiting [c] 1 c) with (@None nat) in Hst.
      injection Hst as _ <-. cbn [rr_cur]. rewrite Nat.mod_1_r. f_equal. lia.
Qed.
End fair.

Section fair_runs.

Lemma rr_fair ts st c d :
  rr_ok st → rr_cur st = [c] → Forall (λ t, tk_core t = 0%nat) ts → (20 * d ≤ length ts)%nat →
  ∃ m, (d ≤ m ≤ 20 * d)%nat ∧
    rr_cur (snd (rr_run (take m ts) st)) = [((c + d) mod length (rr_ctx st))%nat].
Proof.
  intros Hok Hc Hts. pose proof (rr_range _ Hok) as Hr. rewrite Hc in Hr. apply Forall_cons in Hr as [Hcn _].
  induction d as [|d IH]; intros Hlen.
  { exists 0%nat. split; [lia|]. cbn. by rewrite Nat.add_0_r, Nat.mod_small. }
  destruct IH as (m & Hm & Hcur); [lia|]. pose proof (rr_run_ok (take m ts) st Hok) as Hok1.
  destruct (rr_run_len (take m ts) st) as [_ Hn1]. set (st1 := snd (rr_run (take m ts) st)) in *.
  set (c1 := ((c + d) mod length (rr_ctx st))%nat) in *.
  destruct (lookup_lt_is_Some_2 (rr_left st1) c1) as [l Hl].
  { rewrite (rr_len _ Hok1), Hn1. apply Nat.mod_upper_bound. lia. }
  pose proof (Forall_lookup_1 _ _ _ _ (rr_ticks _ Hok1) Hl) as Hb. unfold SYS_TASK_TICK in Hb.
  exists (m + Z.to_nat l)%nat. split; [lia|]. rewrite <- take_take_drop, rr_run_app.
  assert (Hturn : rr_cur (snd (rr_run (take (Z.to_nat l) (drop m ts)) st1)) =
            [((c1 + 1) mod length (rr_ctx st1))%nat]).
  { apply (rr_turn _ _ _ l); [done..| |].
    - rewrite length_take, length_drop. lia.
    - by apply Forall_take, Forall_drop. }
  unfold st1 in *. clear st1. destruct (rr_run (take m ts) st) as [ss st2]. cbn [snd] in *.
  destruct (rr_run _ st2) as [ss' st3]. cbn [snd] in *. rewrite Hturn, Hn1. f_equal.
  unfold c1. rewrite Nat.Div0.add_mod_idemp_l. f_equal. lia.
Qed.

(** Every task gets the core within 20 ticks for each of the tasks. *)
Lemma rr_run_fair ts st c j :
  rr_ok st → rr_cur st = [c] → Forall (λ t, tk_core t = 0%nat) ts →
  (20 * length (rr_ctx st) ≤ length ts)%nat → (j < length (rr_ctx st))%nat →
  ∃ i s, (i < 20 * length (rr_ctx st))%nat ∧ fst (rr_run ts st) !! i = Some s ∧ sw_to s = j.
Proof.
  intros Hok Hc Hts Hlen Hj. pose proof (rr_range _ Hok) as Hr. rewrite Hc in Hr.
  apply Forall_cons in Hr as [Hcn _]. set (n := length (rr_ctx st)) in *.
  assert (∃ d, (1 ≤ d ≤ n)%nat ∧ ((c + d) mod n)%nat = j) as (d & Hd & Hdj).
  { destruct (cyclic_cover n c j Hcn Hj) as [->|(e & He & ->)]; [|exists e; split; [lia|done]].
    exists n. split; [lia|]. rewrite <- Nat.Div0.add_mod_idemp_r, Nat.Div0.mod_same, Nat.add_0_r.
    by apply Nat.mod_small. }
  destruct (rr_fair ts st c d Hok Hc Hts ltac:(lia)) as (m & Hm & Hcur). fold n in Hcur.
  rewrite Hdj in Hcur. destruct m as [|m]; [lia|].
  destruct (lookup_lt_is_Some_2 ts m) as [t Ht]; [lia|].
  assert (Htk := Ht). apply take_S_r in Htk. rewrite Htk, rr_run_snoc in Hcur. cbn [snd] in Hcur.
  pose proof (rr_run_ok (take m ts) st Hok) as Hok1. destruct (rr_run_len (take m ts) st) as [Hl1 _].
  pose proof (Forall_lookup_1 _ _ _ _ Hts Ht) as Hcore. cbn beta in Hcore.
  pose proof (rr_step_frames t (snd (rr_run (take m ts) st)) Hok1) as Hs.
  rewrite Hl1, Hc, Hcore in Hs. specialize (Hs ltac:(simpl; lia)).
  exists m, (fst (rr_step t (snd (rr_run (take m ts) st)))). split_and!; [lia| |].
  - replace (fst (rr_run ts st)) with (fst (rr_run ((take m ts ++ [t]) ++ drop (S m) ts) st))
      by (by rewrite <- Htk, take_drop).
    rewrite rr_run_app, rr_run_snoc.
    destruct (rr_run (drop (S m) ts) _) as [ss' st3]. cbn [fst].
    pose proof (rr_run_length (take m ts) st) as Hlm. rewrite length_take in Hlm.
    rewrite <- app_assoc. apply list_lookup_middle. lia.
  - destruct (rr_step t _) as [s st2]. destruct Hs as (_ & Hto & _). cbn [fst snd] in *.
    rewrite Hcur in Hto. cbn in Hto. congruence.
Qed.
End fair_runs.

(** * The scheduler *)

Section scheduler.
Context {D : Type} `{Device D} (SMP_NUM : Z) (switch_context : nat → nat → St (kernel D) unit).

(** C25: a run of timer interrupts, on any cores in any order, does what the
    round robin does: each tick shows the same tasks and frames, and the kernel
    ends in the state of the round robin, in which no two cores run the same
    task and every task has between 1 and 20 ticks left. *)
Theorem scheduler_refinement ts k st :
  runs SMP_NUM k st → Forall (tick_ok SMP_NUM k) ts →
  wp (tick_run SMP_NUM switch_context ts)
     (λ ss k', ss = fst (rr_run ts st) ∧ runs SMP_NUM k' (snd (rr_run ts st))) k.
Proof. intros Hk Hts. by apply tick_run_ok. Qed.

(** C26: contexts are preserved.  Whatever the cores do in between, the frame a
    core goes on with after a tick is the frame its task was last interrupted
    with, on whichever core that was, or the task's first frame if it never
    ran before. *)
Theorem context_preserved ts k st :
  runs SMP_NUM k st → Forall (tick_ok SMP_NUM k) ts →
  wp (tick_run SMP_NUM switch_context ts)
     (λ ss _, ∀ i s, ss !! i = Some s →
        ∃ x, g_cpu_dec k !! sw_to s = Some x ∧
          sw_out s = last_frame (sw_to s) (ctx x) (take (S i) ss)) k.
Proof.
  intros Hk Hts. eapply wp_mono; [by apply tick_run_ok|]. intros ss k' [-> _] i s Hs.
  destruct Hk as (Hk & _ & Hn). apply rr_run_out in Hs as (f & Hf & Hout);
    [|apply Hk|eapply Forall_impl; [exact Hts|]; intros t (? & _); lia].
  pose proof (sr_ctx _ _ Hk _ _ Hf) as Hctx. apply fmap_Some in Hctx as (x & Hx & ->). eauto.
Qed.

(** C27: the scheduler is fair: on one core, every task gets the processor
    within 20 timer ticks for each task there is. *)
Theorem scheduler_fair ts k st j :
  SMP_NUM = 1 → runs SMP_NUM k st → Forall (tick_ok SMP_NUM k) ts →
  20 * task_count k ≤ Z.of_nat (length ts) → Z.of_nat j < task_count k →
  wp (tick_run SMP_NUM switch_context ts)
     (λ ss _, ∃ i s, Z.of_nat i < 20 * task_count k ∧ ss !! i = Some s ∧ sw_to s = j) k.
Proof.
  intros H1 Hk Hts Hlen Hj. eapply wp_mono; [by apply tick_run_ok|]. intros ss k' [-> _].
  destruct Hk as (Hk & _ & Hn). rewrite (sr_count _ _ Hk) in *.
  destruct (rr_cur st) as [|c [|c2 cs]] eqn:Hc; simpl in Hn; [lia| |lia].
  destruct (rr_run_fair ts st c j) as (i & s & Hi & Hs & Hto);
    [apply Hk|done|eapply Forall_impl; [exact Hts|]; intros t (? & _); lia|lia|lia|].
  exists i, s. split; [lia|done].
Qed.
End scheduler.

(** * Creating tasks and starting the cores *)

Section create.
Context {D : Type} `{Device D}.

(** The arrays of the kernel have their full length. *)
Record arrays_ok (k : kernel D) : Prop := {
  len_tasks : length (task_list k) = 64%nat;
  len_cpus : length (g_cpu_dec k) = 64%nat;
  len_sysregs : length (cpu_sysregs k) = 64%nat;
  len_blocks : Forall (λ b, length b = SYSREG_WORDS) (cpu_sysregs k);
}.

(** The block of task [i] as its constructor leaves it. *)
Definition vm_sysregs (i : nat) (bs : list (list Z)) : list (list Z) :=
  alter (<[SPSR_EL1_FIELD := 0x30C50830]>) i bs.
Lemma vm_sysregs_blocks i bs :
  Forall (λ b, length b = SYSREG_WORDS) bs → Forall (λ b, length b = SYSREG_WORDS) (vm_sysregs i bs).
Proof. intros Hb. unfold vm_sysregs. apply Forall_alter; [done|]. intros b _ Hl. by rewrite length_insert. Qed.

Lemma new_task_ok i func sps t x k (Q : unit → kernel D → Prop) :
  task_list k !! i = Some t → g_cpu_dec k !! i = Some x →
  Q tt (set_cpus (<[i := set_ctx (set_spsr sps (set_elr func (ctx x))) x]> (g_cpu_dec k))
         (set_tasks (<[i := set_cpu_info (Some i) (set_state 1 (set_id (Z.of_nat i) t))]> (task_list k)) k)) →
  wp (new_task i func sps) Q k.
Proof.
  intros Ht Hx HQ. pose proof (lookup_lt_Some _ _ _ Ht) as Hti. pose proof (lookup_lt_Some _ _ _ Hx) as Hxi.
  unfold new_task. wp_step. eapply wp_update_task; [exact Ht|]. wp_step.
  eapply wp_update_task; [by apply list_lookup_insert_eq|]. cbn [task_list set_tasks].
  rewrite list_insert_insert_eq. wp_step.
  eapply wp_update_task; [by apply list_lookup_insert_eq|]. cbn [task_list set_tasks].
  rewrite list_insert_insert_eq. wp_step.
  eapply wp_cpu_info_of; [by apply list_lookup_insert_eq|done|]. wp_step.
  eapply wp_update_cpu; [exact Hx|]. wp_step.
  eapply wp_update_cpu; [by apply list_lookup_insert_eq|]. cbn [g_cpu_dec set_cpus set_tasks].
  rewrite list_insert_insert_eq. exact HQ.
Qed.

(** The round robin with one more task. *)
Definition rr_add (f : trap_frame) (st : rr) : rr :=
  {| rr_cur := rr_cur st; rr_ctx := rr_ctx st ++ [f]; rr_left := rr_left st ++ [SYS_TASK_TICK] |}.

Lemma sched_repr_add (k k' : kernel D) st t x :
  sched_repr k st → (length (rr_ctx st) < 64)%nat → arrays_ok k →
  t_id t = Z.of_nat (length (rr_ctx st)) → t_cpu_info t = Some (length (rr_ctx st)) →
  t_counter t = SYS_TASK_TICK → t_state t = WAITING →
  task_list k' = <[length (rr_ctx st) := t]> (task_list k) →
  g_cpu_dec k' = <[length (rr_ctx st) := x]> (g_cpu_dec k) →
  infos k' = infos k → task_count k' = task_count k + 1 →
  sched_repr k' (rr_add (ctx x) st).
Proof.
  intros [[Hl Hnd Hr Hticks] Hcount Hmax Htasks Hctxs Hinfos] Hn [Hlt Hlx _] Hid Hcpu Hcn Hst Et Ex Ei Ec.
  remember (length (rr_ctx st)) as n eqn:Hnq.
  constructor; cbn [rr_add rr_ctx rr_cur rr_left].
  - constructor; cbn [rr_add rr_ctx rr_cur rr_left]; [rewrite !length_app, Hl; simpl; congruence|done| |].
    + eapply Forall_impl; [exact Hr|]. intros j Hj. cbn beta in *. rewrite length_app. simpl. lia.
    + apply Forall_app. split; [done|]. apply Forall_singleton. by unfold SYS_TASK_TICK.
  - rewrite length_app. simpl. lia.
  - rewrite length_app. simpl. lia.
  - intros i Hi. rewrite length_app in Hi. simpl in Hi. rewrite Et. unfold task_of.
    cbn [rr_add rr_ctx rr_cur rr_left]. destruct (decide (i = n)) as [->|Hne].
    + rewrite list_lookup_insert_eq by lia. eexists. split; [done|]. rewrite Hid, Hcpu, Hcn, Hst.
      rewrite bool_decide_false; [split_and!; try done; apply list_lookup_middle; congruence|].
      intros Hin. rewrite Forall_forall in Hr. specialize (Hr n Hin). lia.
    + rewrite list_lookup_insert_ne by done. destruct (Htasks i ltac:(lia)) as (t' & Ht' & ? & ? & ? & ?).
      exists t'. split; [done|]. split_and!; try done. rewrite lookup_app_l by (lia). done.
  - intros i f Hi. rewrite Ex. destruct (decide (i = n)) as [->|Hne].
    + rewrite list_lookup_insert_eq by lia. rewrite list_lookup_middle in Hi by congruence. by simplify_eq/=.
    + rewrite list_lookup_insert_ne by done. apply Hctxs. rewrite lookup_app_l in Hi; [done|].
      apply lookup_lt_Some in Hi. rewrite length_app in Hi. simpl in Hi. lia.
  - intros core c. rewrite Ei. apply Hinfos.
Qed.

Lemma slots (k : kernel D) st :
  sched_repr k st → (length (rr_ctx st) < 64)%nat → arrays_ok k →
  ∃ t x, task_list k !! length (rr_ctx st) = Some t ∧ g_cpu_dec k !! length (rr_ctx st) = Some x.
Proof.
  intros Hk Hn [Hlt Hlx _].
  destruct (lookup_lt_is_Some_2 (task_list k) (length (rr_ctx st))) as [t Ht]; [lia|].
  destruct (lookup_lt_is_Some_2 (g_cpu_dec k) (length (rr_ctx st))) as [x Hx]; [lia|]. eauto.
Qed.

(** The frame a new task starts from. *)
Definition user_frame (func stack : Z) (f : trap_frame) : trap_frame :=
  set_usp stack (set_spsr SPSR_EL1_USER (set_elr func f)).
Definition vm_frame (func : Z) (f : trap_frame) : trap_frame :=
  set_reg 0 0x70000000 (set_spsr SPSR_EL2_VALUE_IRQ (set_elr func f)).

Lemma create_task_ok func stack (k : kernel D) st :
  sched_repr k st → (length (rr_ctx st) < 64)%nat → arrays_ok k →
  wp (create_task func stack)
     (λ r k', r = Some (length (rr_ctx st)) ∧ arrays_ok k' ∧
        infos k' = infos k ∧ print_lock k' = print_lock k ∧ sched_lock k' = sched_lock k ∧
        ∃ x, g_cpu_dec k !! length (rr_ctx st) = Some x ∧
          sched_repr k' (rr_add (user_frame func stack (ctx x)) st)) k.
Proof.
  intros Hk Hn Ha. destruct (slots k st Hk Hn Ha) as (t & x & Ht & Hx).
  pose proof (lookup_lt_Some _ _ _ Ht). pose proof (lookup_lt_Some _ _ _ Hx).
  unfold create_task. wp_step. rewrite (sr_count _ _ Hk), (proj2 (Z.leb_gt _ _)) by (unfold MAX_TASKS; lia).
  cbv zeta. rewrite Nat2Z.id. set (n := length (rr_ctx st)) in *. wp_step.
  eapply new_task_ok; [done..|]. wp_step.
  eapply wp_cpu_info_of; [by apply list_lookup_insert_eq|done|]. wp_step.
  eapply wp_update_cpu; [by apply list_lookup_insert_eq|]. cbn [g_cpu_dec set_cpus set_tasks].
  rewrite list_insert_insert_eq. wp_step.
  eapply wp_update_task; [by apply list_lookup_insert_eq|]. cbn [task_list set_cpus set_tasks].
  rewrite list_insert_insert_eq. wp_step. split_and!; [done| |done|done|done|].
  - destruct Ha. constructor; cbn; by rewrite ?length_insert.
  - exists x. split; [done|].
    change (user_frame func stack (ctx x)) with (ctx (set_ctx (user_frame func stack (ctx x)) x)).
    eapply sched_repr_add; try done. all: try done. cbn.
    rewrite (sr_count _ _ Hk). apply u32_small. lia.
Qed.

Lemma craete_vm_task_ok func (k : kernel D) st :
  sched_repr k st → (length (rr_ctx st) < 64)%nat → arrays_ok k →
  wp (craete_vm_task func)
     (λ r k', r = Some (length (rr_ctx st)) ∧ arrays_ok k' ∧
        cpu_sysregs k' = vm_sysregs (length (rr_ctx st)) (cpu_sysregs k) ∧
        sys_reg <$> g_cpu_dec k' !! length (rr_ctx st) = Some (Some (length (rr_ctx st))) ∧
        (infos k' = infos k ∧ print_lock k' = print_lock k ∧ sched_lock k' = sched_lock k ∧
         ∀ j, j ≠ length (rr_ctx st) → g_cpu_dec k' !! j = g_cpu_dec k !! j) ∧
        ∃ x, g_cpu_dec k !! length (rr_ctx st) = Some x ∧
          sched_repr k' (rr_add (vm_frame func (ctx x)) st)) k.
Proof.
  intros Hk Hn Ha. destruct (slots k st Hk Hn Ha) as (t & x & Ht & Hx).
  pose proof (lookup_lt_Some _ _ _ Ht). pose proof (lookup_lt_Some _ _ _ Hx).
  destruct (lookup_lt_is_Some_2 (cpu_sysregs k) (length (rr_ctx st))) as [sr Hsr].
  { rewrite (len_sysregs _ Ha). lia. }
  unfold craete_vm_task. wp_step. rewrite (sr_count _ _ Hk), (proj2 (Z.leb_gt _ _)) by (unfold MAX_TASKS; lia).
  cbv zeta. rewrite Nat2Z.id. set (n := length (rr_ctx st)) in *. wp_step.
  eapply new_task_ok; [done..|]. wp_step.
  eapply wp_cpu_info_of; [by apply list_lookup_insert_eq|done|]. wp_step.
  eapply wp_update_cpu; [by apply list_lookup_insert_eq|]. cbn [g_cpu_dec set_cpus set_tasks].
  rewrite list_insert_insert_eq. wp_step.
  eapply wp_update_cpu; [by apply list_lookup_insert_eq|]. cbn [g_cpu_dec set_cpus set_tasks].
  rewrite list_insert_insert_eq. wp_step.
  eapply wp_cpu_at; [by apply list_lookup_insert_eq|]. wp_step.
  eapply wp_deref_some; [done|]. wp_step. eapply wp_deref_some; [exact Hsr|]. wp_step.
  eapply wp_update_task; [by apply list_lookup_insert_eq|]. cbn [task_list set_cpus set_tasks set_sysregs].
  rewrite list_insert_insert_eq. wp_step.
  assert (<[n := <[SPSR_EL1_FIELD := 0x30C50830]> sr]> (cpu_sysregs k) = vm_sysregs n (cpu_sysregs k)) as Hvm.
  { symmetry. by apply list_alter_as_insert. }
  split_and!; [done| |exact Hvm| |done..| |].
  - destruct Ha. constructor; cbn; rewrite ?length_insert; [done..|]. rewrite Hvm. by apply vm_sysregs_blocks.
  - cbn. by rewrite list_lookup_insert_eq.
  - intros j Hj. cbn. by rewrite !list_lookup_insert_ne by done.
  - exists x. split; [done|].
    change (vm_frame func (ctx x)) with (ctx (set_sys_reg (Some n) (set_ctx (vm_frame func (ctx x)) x))).
    eapply sched_repr_add; try done. all: try done. cbn.
    rewrite (sr_count _ _ Hk). apply u32_small. lia.
Qed.

(** The kernel while its cores start: those of [S] run the task with their own
    number, the others have not started. *)
Definition with_cur (S : list nat) (st : rr) : rr :=
  {| rr_cur := S; rr_ctx := rr_ctx st; rr_left := rr_left st |}.
Record starting (k : kernel D) (S : list nat) (st : rr) : Prop := {
  sg_ok : rr_ok (with_cur S st);
  sg_count : task_count k = Z.of_nat (length (rr_ctx st));
  sg_max : (length (rr_ctx st) ≤ 64)%nat;
  sg_tasks : ∀ i, (i < length (rr_ctx st))%nat → ∃ t, task_list k !! i = Some t ∧ task_of (with_cur S st) i t;
  sg_ctx : ∀ i f, rr_ctx st !! i = Some f → ctx <$> g_cpu_dec k !! i = Some f;
  sg_infos : ∀ c, c ∈ S → current_thread <$> infos k !! c = Some (Some c);
}.

Lemma starting_none k st : sched_repr k st → rr_cur st = [] → starting k [] st.
Proof. destruct st. cbn. intros [] ->. constructor; try done. intros c Hc. by apply not_elem_of_nil in Hc. Qed.
Lemma starting_all k S m st :
  starting k S st → S ≡ₚ seq 0 m → sched_repr k (with_cur (seq 0 m) st).
Proof.
  intros [[Hl Hnd Hr Ht] Hc Hm Hts Hx Hi] HS. constructor; cbn [with_cur rr_ctx rr_cur rr_left]; try done.
  - constructor; try done; cbn [with_cur rr_ctx rr_cur rr_left] in *; [by apply NoDup_seq|].
    eapply Forall_Permutation; [|by symmetry|exact Hr]. done.
  - intros i Hin. destruct (Hts i Hin) as (t & Ht' & ? & ? & ? & Hst). exists t. split; [done|].
    split_and!; try done. rewrite Hst. cbn. erewrite bool_decide_ext; [done|]. by rewrite HS.
  - intros core c Hc'. apply lookup_seq in Hc' as [-> Hlt]. apply Hi. rewrite HS. apply elem_of_seq. lia.
Qed.

(** A core starts on the task with its own number. *)
Lemma schedule_init_local_ok core ti k S st :
  starting k S st → infos k !! core = Some ti → ti_cpu ti = Z.of_nat core →
  core ∉ S → (core < length (rr_ctx st))%nat → print_lock k = false →
  wp (schedule_init_local core)
     (λ _ k', print_lock k' = false ∧ sched_lock k' = sched_lock k ∧
        (∀ c t, infos k !! c = Some t → ∃ t', infos k' !! c = Some t' ∧ ti_cpu t' = ti_cpu t) ∧
        starting k' (core :: S) st) k.
Proof.
  intros Hk Hti Hcpu Hnot Hcore Hlock. pose proof (sg_max _ _ _ Hk) as Hmax.
  destruct (sg_tasks _ _ _ Hk core Hcore) as (t & Ht & Htk).
  pose proof (lookup_lt_Some _ _ _ Hti) as Hti'.
  unfold schedule_init_local. wp_step. eapply wp_done; [unfold spin_lock_print; by rewrite Hlock|]. wp_step.
  eapply wp_info_at; [exact Hti|]. rewrite Hcpu, Nat2Z.id. wp_step.
  eapply wp_task_at; [exact Ht|]. wp_step. eapply wp_update_info; [exact Hti|]. wp_step.
  unfold current. wp_step. eapply wp_info_at; [by apply list_lookup_insert_eq|]. wp_step.
  eapply wp_deref_some; [done|]. wp_step. eapply wp_task_at; [exact Ht|]. wp_step. apply wp_kprint. intros m. wp_step.
  eapply wp_update_task; [exact Ht|]. unfold spin_unlock_print. wp_step. split_and!; [done|done| |].
  - intros c t0 Hc. cbn. destruct (decide (c = core)) as [->|Hne].
    + rewrite list_lookup_insert_eq by done. eexists. split; [done|]. cbn. congruence.
    + rewrite list_lookup_insert_ne by done. eauto.
  - destruct Hk as [[Hl Hnd Hr Hticks] Hcount _ Htasks Hctxs Hinfos].
    constructor; try done.
    + constructor; cbn [with_cur rr_ctx rr_cur rr_left] in *; [done|by apply NoDup_cons|by apply Forall_cons|done].
    + intros i Hi. cbn. unfold task_of. cbn [with_cur rr_cur rr_left]. destruct (decide (i = core)) as [->|Hne].
      * rewrite list_lookup_insert_eq by (by eapply lookup_lt_Some). eexists. split; [done|].
        destruct Htk as (? & ? & ? & _). cbn. rewrite bool_decide_true by set_solver. done.
      * rewrite list_lookup_insert_ne by done. destruct (Htasks i Hi) as (t' & Ht' & ? & ? & ? & Hst).
        exists t'. split; [done|]. split_and!; try done. cbn. rewrite Hst.
        erewrite bool_decide_ext; [done|]. set_solver.
    + intros c Hc. cbn. destruct (decide (c = core)) as [->|Hne].
      * by rewrite list_lookup_insert_eq.
      * rewrite list_lookup_insert_ne by done. apply Hinfos. set_solver.
Qed.

(** ** The start of the kernel *)

Lemma clear_ids_ok fuel i k :
  0 ≤ i ≤ 64 → 64 - i < Z.of_nat fuel → arrays_ok k →
  wp (clear_ids fuel i) (λ _ k', arrays_ok k' ∧ infos k' = infos k ∧ task_count k' = task_count k ∧
    g_cpu_dec k' = g_cpu_dec k ∧ print_lock k' = print_lock k ∧ sched_lock k' = sched_lock k) k.
Proof.
  revert i k. induction fuel as [|fu IH]; intros i k Hi Hf Ha; [lia|]. cbn [clear_ids].
  change MAX_TASKS with 64. destruct (Z.ltb_spec i 64); [|by wp_step]. wp_step.
  destruct (lookup_lt_is_Some_2 (task_list k) (Z.to_nat i)) as [t Ht]; [rewrite (len_tasks _ Ha); lia|].
  eapply wp_update_task; [exact Ht|]. eapply wp_mono; [apply IH; [lia|lia|]|].
  - destruct Ha. constructor; cbn; by rewrite ?length_insert.
  - done.
Qed.

(** The calls of [main_entry] on core 0, and those of all the cores. *)
Fixpoint create_tasks (fs : list (Z * Z)) : St (kernel D) unit :=
  match fs with
  | [] => mret tt
  | (func, stack) :: fs => create_task func stack;; create_tasks fs
  end.
Fixpoint start_cores (cores : list nat) : St (kernel D) unit :=
  match cores with
  | [] => mret tt
  | c :: cs => schedule_init_local c;; start_cores cs
  end.

Lemma create_tasks_ok fs k st :
  sched_repr k st → (length (rr_ctx st) + length fs ≤ 64)%nat → arrays_ok k →
  wp (create_tasks fs)
     (λ _ k', infos k' = infos k ∧ print_lock k' = print_lock k ∧ sched_lock k' = sched_lock k ∧
        ∃ st', sched_repr k' st' ∧ rr_cur st' = rr_cur st ∧
          map (λ f, (elr f, usp f, spsr f)) (rr_ctx st') =
            map (λ f, (elr f, usp f, spsr f)) (rr_ctx st) ++ map (λ p, (p.1, p.2, SPSR_EL1_USER)) fs) k.
Proof.
  revert k st. induction fs as [|[func stack] fs IH]; intros k st Hk Hn Ha; cbn [create_tasks].
  - wp_step. split_and!; [done..|]. exists st. by rewrite app_nil_r.
  - simpl in Hn. wp_step. eapply wp_mono; [apply create_task_ok; [done|lia|done]|].
    intros r k1 (_ & Ha1 & Hi1 & Hp1 & Hs1 & x & Hx & Hk1).
    eapply wp_mono; [apply (IH k1 _ Hk1); [cbn; rewrite length_app; simpl; lia|done]|].
    intros _ k2 (Hi2 & Hp2 & Hs2 & st2 & Hk2 & Hc2 & Hm2). split_and!; [congruence..|].
    exists st2. split_and!; [done|by rewrite Hc2|]. rewrite Hm2. cbn. by rewrite map_app, <- app_assoc.
Qed.

Lemma start_cores_ok cores k S st :
  starting k S st → NoDup (cores ++ S) → Forall (λ c, (c < length (rr_ctx st))%nat) cores →
  (∀ c, c ∈ cores → ∃ t, infos k !! c = Some t ∧ ti_cpu t = Z.of_nat c) → print_lock k = false →
  wp (start_cores cores)
     (λ _ k', sched_lock k' = sched_lock k ∧ starting k' (rev cores ++ S) st) k.
Proof.
  revert k S. induction cores as [|c cs IH]; intros k S Hk Hnd Hr Hi Hp; cbn [start_cores].
  - by wp_step.
  - wp_step. destruct (Hi c) as (t & Ht & Htc); [set_solver|]. apply Forall_cons in Hr as [Hc Hr].
    apply NoDup_cons in Hnd as [Hnot Hnd].
    eapply wp_mono; [by apply (schedule_init_local_ok c t k S st); [..|set_solver| |]|].
    intros _ k1 (Hp1 & Hl1 & Hi1 & Hk1). eapply wp_mono; [apply (IH k1 (c :: S) Hk1); [|done| |done]|].
    + rewrite <- Permutation_middle. by apply NoDup_cons.
    + intros c' Hc'. destruct (Hi c') as (t' & Ht' & Htc'); [set_solver|].
      destruct (Hi1 _ _ Ht') as (t'' & ? & ?). exists t''. split; [done|congruence].
    + intros _ k2 (Hl2 & Hk2). split; [congruence|]. cbn [rev]. by rewrite <- app_assoc.
Qed.
End create.

Section start.
Context {D : Type} `{Device D} (SMP_NUM : Z) (switch_context : nat → nat → St (kernel D) unit).

(** C28: with 64 tasks both constructors return the null pointer and change
    nothing.  With fewer, [create_task] adds one task at the end of the round
    robin, waiting and with 20 ticks, which starts at its function with its stack
    at EL1 (EL0 for [SPSR] 0), and [craete_vm_task] one which starts with its
    first register pointing at the guest's device tree; no other task and no
    core is affected. *)
Theorem create_task_correct func stack (k : kernel D) st :
  sched_repr k st → arrays_ok k →
  if decide (length (rr_ctx st) = 64%nat) then
    create_task func stack k = Done (None, k) ∧ craete_vm_task func k = Done (None, k)
  else
    ∃ x, g_cpu_dec k !! length (rr_ctx st) = Some x ∧
      wp (create_task func stack)
         (λ r k', r = Some (length (rr_ctx st)) ∧ sched_repr k' (rr_add (user_frame func stack (ctx x)) st)) k ∧
      wp (craete_vm_task func)
         (λ r k', r = Some (length (rr_ctx st)) ∧ sched_repr k' (rr_add (vm_frame func (ctx x)) st) ∧
            cpu_sysregs k' = vm_sysregs (length (rr_ctx st)) (cpu_sysregs k)) k.
Proof.
  intros Hk Ha. pose proof (sr_max _ _ Hk) as Hmax. destruct (decide _) as [He|Hne].
  - unfold create_task, craete_vm_task, gets, mbind, St_bind.
    rewrite (sr_count _ _ Hk), He. done.
  - assert (length (rr_ctx st) < 64)%nat as Hlt by lia.
    destruct (slots k st Hk Hlt Ha) as (t & x & _ & Hx). exists x. split_and!; [done| |].
    + eapply wp_mono; [by apply create_task_ok|]. cbn. intros r k' (-> & _ & _ & _ & _ & x' & Hx' & Hk').
      simplify_eq. done.
    + eapply wp_mono; [by apply craete_vm_task_ok|]. cbn. intros r k' (-> & _ & Hsr & _ & _ & x' & Hx' & Hk').
      simplify_eq. done.
Qed.

(** The start of the kernel brings it into a state the timer interrupts can
    run from ([scheduler_refinement]): after [schedule_init], the creation of at
    least one task for each core, and [schedule_init_local] on the cores in any
    order, core [i] runs task [i] and the other tasks wait with the functions and
    the stacks they were given. *)
Lemma start_ok fs cores m (k : kernel D) :
  task_count k = 0 → arrays_ok k → cores ≡ₚ seq 0 m → SMP_NUM = Z.of_nat m →
  (m ≤ length fs ≤ 64)%nat →
  (∀ c, (c < m)%nat → ∃ t, infos k !! c = Some t ∧ ti_cpu t = Z.of_nat c) →
  wp (schedule_init;; create_tasks fs;; start_cores cores)
     (λ _ k', ∃ st, runs SMP_NUM k' st ∧ rr_cur st = seq 0 m ∧
        map (λ f, (elr f, usp f, spsr f)) (rr_ctx st) = map (λ p, (p.1, p.2, SPSR_EL1_USER)) fs) k.
Proof.
  intros Hcount Ha Hcores Hsmp Hlen Hi. unfold schedule_init. wp_step. wp_step.
  eapply wp_mono; [apply clear_ids_ok; [lia|lia|destruct Ha; by constructor]|].
  intros _ k1 (Ha1 & Hi1 & Hc1 & _ & Hp1 & Hs1). cbn [infos task_count print_lock sched_lock set_locks] in *.
  wp_step. eapply wp_mono.
  { apply (create_tasks_ok fs k1 {| rr_cur := []; rr_ctx := []; rr_left := [] |}); [|simpl; lia|done].
    constructor; cbn; try done; try lia. by constructor; try constructor. }
  cbn [rr_cur rr_ctx map app]. intros _ k2 (Hi2 & Hp2 & Hs2 & st & Hk2 & Hc2 & Hm2).
  assert (length (rr_ctx st) = length fs) as Hn.
  { rewrite <- (length_map (λ f, (elr f, usp f, spsr f)) (rr_ctx st)), Hm2. apply length_map. }
  assert (Hin : ∀ c, c ∈ cores → (c < m)%nat).
  { intros c Hc. rewrite Hcores in Hc. apply elem_of_seq in Hc. lia. }
  eapply wp_mono; [apply (start_cores_ok cores k2 [] st); [by apply starting_none| | | |congruence]|].
  - rewrite app_nil_r, Hcores. apply NoDup_seq.
  - apply Forall_forall. intros c Hc. specialize (Hin c Hc). lia.
  - intros c Hc. rewrite Hi2, Hi1. by apply Hi, Hin.
  - intros _ k3 (Hs3 & Hk3). rewrite app_nil_r in Hk3.
    exists (with_cur (seq 0 m) st). split_and!; [|done|done]. unfold runs. split_and!.
    + eapply starting_all; [exact Hk3|]. by rewrite <- Permutation_rev.
    + congruence.
    + cbn. rewrite length_seq. done.
Qed.

(** A task that gives up the processor by [schedule] loses count of its ticks:
    the counter [schedule] cleared wraps at the next tick, which returns without
    a look at the other tasks. *)
Lemma yield_wraps core c t sp (k : kernel D) :
  task_count k = SMP_NUM → current_thread <$> infos k !! core = Some (Some c) →
  task_list k !! c = Some t →
  wp (schedule SMP_NUM switch_context core;; timer_tick_schedule SMP_NUM switch_context core sp)
     (λ _ k', k' = set_tasks (<[c := set_counter (2 ^ 32 - 1) t]> (task_list k)) k) k.
Proof.
  intros Hn Hc Ht. apply fmap_Some in Hc as (ti & Hti & Hc). pose proof (lookup_lt_Some _ _ _ Ht) as Hlt.
  assert (Hcur : ∀ (Q : nat → kernel D → Prop) k, infos k !! core = Some ti → Q c k → wp (current core) Q k).
  { intros Q k0 H0 HQ. unfold current. wp_step. eapply wp_info_at; [exact H0|]. by eapply wp_deref_some. }
  unfold schedule, timer_tick_schedule. wp_step. apply Hcur; [done|]. wp_step.
  eapply wp_update_task; [exact Ht|]. unfold _schedule. wp_step. cbn [task_count set_tasks].
  rewrite (proj2 (Z.eqb_eq _ _)) by done. wp_step. apply Hcur; [done|]. wp_step.
  eapply wp_update_task; [by apply list_lookup_insert_eq|]. wp_step.
  eapply wp_task_at; [apply list_lookup_insert_eq; cbn; by rewrite length_insert|]. cbn. wp_step.
  by rewrite list_insert_insert_eq.
Qed.
End start.

(** ** Examples *)

#[local] Instance no_device : Device unit :=
  {| rd32 := λ _ d, (0, d); wr32 := λ _ _ d, d; wr8 := λ _ _ d, d; rd64 := λ _ d, (0, d); wr64 := λ _ _ d, d |}.
Definition zero_frame : trap_frame := {| r := replicate NUM_REGS 0; usp := 0; elr := 0; spsr := 0 |}.
(** The kernel before it starts, with one core and stack memory for a frame. *)
Definition kernel_zero : kernel unit := {|
  k_mach := {| dev := tt; log := []; irq_nr := 0 |};
  k_uart := {| rx := {| cells := []; read_idx := 0; write_idx := 0 |};
               tx := {| cells := []; read_idx := 0; write_idx := 0 |};
               early_lock := false; uart_op := None |};
  task_list := replicate 64 {| t_cpu_info := None; t_sp := 0; t_state := 0; t_counter := 0;
                               t_priority := 0; t_id := 0 |};
  g_cpu_dec := replicate 64 {| ctx := zero_frame; pctx := 0; sys_reg := None |};
  cpu_sysregs := replicate 64 (replicate 64 0); task_count := 0; sched_lock := false; print_lock := false;
  infos := [{| ti_cpu := 0; ti_flags := 0; ti_pgtable := 0; current_thread := None |}];
  frames := {[ 0x1000 := zero_frame ]}; g_handler_vec := []; vgics := [] |}.
Definition no_switch (i j : nat) : St (kernel unit) unit := mret tt.
Definition boot : St (kernel unit) unit :=
  schedule_init;; create_tasks [(0x80000000, 0x80004000); (0x90000000, 0x90004000)];; start_cores [0%nat].
(** The kernel after its start, and the round robin it runs. *)
Definition kernel_example : kernel unit := Eval vm_compute in
  match boot kernel_zero with Done (_, k) => k | _ => kernel_zero end.
Definition rr_example : rr :=
  {| rr_cur := [0%nat];
     rr_ctx := [user_frame 0x80000000 0x80004000 zero_frame; user_frame 0x90000000 0x90004000 zero_frame];
     rr_left := [20; 20] |}.
Definition tick_example : tick := {| tk_core := 0; tk_sp := 0x1000; tk_frame := set_elr 0x80000010 zero_frame |}.

Lemma kernel_zero_arrays : arrays_ok kernel_zero.
Proof. constructor; [done..|]. by apply Forall_replicate. Qed.
Lemma kernel_example_arrays : arrays_ok kernel_example.
Proof. constructor; [done..|]. by repeat constructor. Qed.
Lemma kernel_example_runs : runs 1 kernel_example rr_example.
Proof.
  split; [|done]. constructor; try done.
  - constructor; try done; [apply NoDup_singleton|apply Forall_singleton; cbn; lia|].
    unfold SYS_TASK_TICK. repeat constructor; lia.
  - cbn. lia.
  - intros [|[|i]] Hi; [eexists; split; [reflexivity|by repeat split]..|cbn in Hi; lia].
  - intros [|[|i]] f Hf; [by injection Hf as <-..|done].
  - intros [|core] c Hc; [by injection Hc as <-|done].
Qed.
Lemma tick_example_ok n : Forall (tick_ok 1 kernel_example) (replicate n tick_example).
Proof.
  apply Forall_replicate. split_and!; [cbn; lia|done|]. exists zero_frame. reflexivity.
Qed.

Lemma scheduler_refinement_witness :
  map sw_to (fst (rr_run (replicate 21 tick_example) rr_example)) = replicate 19 0%nat ++ [1%nat; 1%nat] ∧
  wp (tick_run 1 no_switch (replicate 21 tick_example))
     (λ ss k', ss = fst (rr_run (replicate 21 tick_example) rr_example) ∧
        runs 1 k' (snd (rr_run (replicate 21 tick_example) rr_example))) kernel_example.
Proof.
  split; [reflexivity|]. apply scheduler_refinement; [apply kernel_example_runs|apply tick_example_ok].
Defined.
Lemma context_preserved_witness :
  wp (tick_run 1 no_switch (replicate 21 tick_example))
     (λ ss _, ∀ i s, ss !! i = Some s →
        ∃ x, g_cpu_dec kernel_example !! sw_to s = Some x ∧
          sw_out s = last_frame (sw_to s) (ctx x) (take (S i) ss)) kernel_example.
Proof.
  apply (context_preserved 1 no_switch _ kernel_example rr_example);
    [apply kernel_example_runs|apply tick_example_ok].
Defined.
Lemma scheduler_fair_witness :
  wp (tick_run 1 no_switch (replicate 40 tick_example))
     (λ ss _, ∃ i s, Z.of_nat i < 20 * task_count kernel_example ∧ ss !! i = Some s ∧ sw_to s = 1%nat)
     kernel_example.
Proof.
  apply (scheduler_fair 1 no_switch _ kernel_example rr_example);
    [done|apply kernel_example_runs|apply tick_example_ok|cbn; lia|cbn; lia].
Defined.
Lemma create_task_correct_witness :
  ∃ x, g_cpu_dec kernel_example !! 2%nat = Some x ∧
    wp (create_task 0xA0000000 0xA0004000)
       (λ r k', r = Some 2%nat ∧
          sched_repr k' (rr_add (user_frame 0xA0000000 0xA0004000 (ctx x)) rr_example)) kernel_example ∧
    wp (craete_vm_task 0xA0000000)
       (λ r k', r = Some 2%nat ∧ sched_repr k' (rr_add (vm_frame 0xA0000000 (ctx x)) rr_example) ∧
          cpu_sysregs k' = vm_sysregs 2 (cpu_sysregs kernel_example)) kernel_example.
Proof.
  apply (create_task_correct 0xA0000000 0xA0004000 kernel_example rr_example);
    [apply kernel_example_runs|apply kernel_example_arrays].
Defined.
Lemma start_example :
  wp boot
     (λ _ k', ∃ st, runs 1 k' st ∧ rr_cur st = seq 0 1 ∧
        map (λ f, (elr f, usp f, spsr f)) (rr_ctx st) =
          [(0x80000000, 0x80004000, SPSR_EL1_USER); (0x90000000, 0x90004000, SPSR_EL1_USER)]) kernel_zero.
Proof.
  apply (start_ok 1 [(0x80000000, 0x80004000); (0x90000000, 0x90004000)] [0%nat] 1 kernel_zero);
    [done|apply kernel_zero_arrays|done|done|simpl; lia|].
  intros [|c] Hc; [eexists; split; [reflexivity|done]|lia].
Defined.
