(* ===== verification/Keeps.v ===== *)
(** What a function leaves alone: the parts of a state that every run of it keeps,
    for the functions of [schedule/task.c]. *)

From S2P Require Import Prelude Config Gic Frame Uart Vgic Kernel Sched.

(** * Frame lemmas *)

(** A run that is another run. *)
Lemma wp_same {S A} (m m' : St S A) Q s s' : m s = m' s' → wp m' Q s' → wp m Q s.
Proof. unfold wp. by intros ->. Qed.

Section keeps.
Context {S T : Type} (view : S → T).

Definition keeps {A} (m : St S A) : Prop := ∀ s a s', m s = Done (a, s') → view s' = view s.

Lemma keeps_ret {A} (a : A) : keeps (mret a).
Proof. intros s b s' [= _ <-]. done. Qed.
Lemma keeps_gets {A} (g : S → A) : keeps (gets g).
Proof. intros s b s' [= _ <-]. done. Qed.
Lemma keeps_get : keeps get.
Proof. intros s b s' [= _ <-]. done. Qed.
Lemma keeps_deref {A} (o : option A) : keeps (deref o).
Proof. intros s b s'. destruct o; [|done]. by intros [= _ <-]. Qed.
Lemma keeps_nofuel {A} : keeps (A := A) nofuel.
Proof. by intros s b s'. Qed.
Lemma keeps_bind {A B} (m : St S A) (f : A → St S B) : keeps m → (∀ a, keeps (f a)) → keeps (m ≫= f).
Proof.
  intros Hm Hf s b s'. unfold mbind, St_bind. destruct (m s) as [[a s1]| |] eqn:Ha; [|done..].
  intros Hb. rewrite (Hf _ _ _ _ Hb). by eapply Hm.
Qed.
Lemma keeps_modify (g : S → S) : (∀ s, view (g s) = view s) → keeps (modify g).
Proof. intros Hg s b s' [= _ <-]. apply Hg. Qed.
Lemma wp_keeps {A} (m : St S A) Q s :
  keeps m → wp m Q s → wp m (λ a s', Q a s' ∧ view s' = view s) s.
Proof. intros Hm. unfold wp. destruct (m s) as [[a s']| |] eqn:Ha; [|done..]. split; [done|]. by eapply Hm. Qed.
End keeps.
Create HintDb keeps.
Create HintDb blind.
#[export] Hint Resolve keeps_ret keeps_gets keeps_get keeps_deref keeps_nofuel : keeps.
(** A function made of accesses that keep the view. *)
Ltac keeps :=
  repeat match goal with
  | |- keeps _ (_ ≫= _) => apply keeps_bind; [|intros]
  | |- keeps _ (let _ := _ in _) => cbv zeta
  | |- keeps _ (if ?b then _ else _) => destruct b
  | |- keeps _ (modify _) => apply keeps_modify; intros; first [reflexivity | solve [eauto with blind]]
  | |- _ => solve [eauto with keeps]
  end.

(** * The scheduler *)

(** A view of the kernel that does not see what a tick of the timer changes, and one
    that does not see what the start of the scheduler changes either. *)
Class TickBlind {D T : Type} (view : kernel D → T) : Prop := {
  blind_tasks : ∀ ts k, view (set_tasks ts k) = view k;
  blind_infos : ∀ ti k, view (set_infos ti k) = view k;
  blind_locks : ∀ l p k, view (set_locks l p k) = view k;
  blind_frames : ∀ fs k, view (set_frames fs k) = view k;
  blind_print : ∀ m k, dev m = dev (k_mach k) → view (set_mach m k) = view k;
}.
(** One that does not see the devices either. *)
Class MachBlind {D T : Type} (view : kernel D → T) : Prop := {
  mach_tick_blind :: TickBlind view;
  blind_mach : ∀ m k, view (set_mach m k) = view k;
}.
Class StartBlind {D T : Type} (view : kernel D → T) : Prop := {
  start_tick_blind :: TickBlind view;
  blind_cpus : ∀ cs k, view (set_cpus cs k) = view k;
  blind_sysregs : ∀ bs k, view (set_sysregs bs k) = view k;
  blind_count : ∀ n k, view (set_task_count n k) = view k;
}.
#[export] Hint Resolve blind_tasks blind_infos blind_locks blind_frames
  blind_cpus blind_sysregs blind_count : blind.
#[export] Hint Extern 0 (TickBlind _) => typeclasses eauto : keeps blind.
#[export] Hint Extern 0 (StartBlind _) => typeclasses eauto : keeps blind.

(** The parts of the kernel the scheduler does not touch, and the system registers
    of the tasks. *)
Definition outside_sched {D} (k : kernel D) : uart * list (option handler) * list vgic :=
  (k_uart k, g_handler_vec k, vgics k).
Definition sysregs_view {D} (k : kernel D) : list (option nat) * list (list Z) :=
  (sys_reg <$> g_cpu_dec k, cpu_sysregs k).
#[export] Instance outside_sched_blind {D} : StartBlind (outside_sched (D := D)).
Proof. by repeat constructor. Qed.
#[export] Instance sysregs_view_blind {D} : MachBlind (sysregs_view (D := D)).
Proof. by repeat constructor. Qed.
(** The devices. *)
Definition dev_view {D} (k : kernel D) : D := dev (k_mach k).
#[export] Instance dev_view_blind {D} : StartBlind (dev_view (D := D)).
Proof. by repeat constructor. Qed.

Section tick.
Context {D T : Type} `{Device D} (view : kernel D → T) {Hblind : TickBlind view}.
#[local] Set Default Proof Using "Hblind".
Context (SMP_NUM : Z) (switch_context : nat → nat → St (kernel D) unit).

Lemma keeps_task_at i : keeps view (task_at i). Proof. unfold task_at. keeps. Qed.
Lemma keeps_info_at i : keeps view (info_at i). Proof. unfold info_at. keeps. Qed.
Lemma keeps_cpu_at i : keeps view (cpu_at i). Proof. unfold cpu_at. keeps. Qed.
Lemma keeps_frame_at i : keeps view (frame_at i). Proof. unfold frame_at. keeps. Qed.
#[local] Hint Resolve keeps_task_at keeps_info_at keeps_cpu_at keeps_frame_at : keeps.
Lemma keeps_current core : keeps view (current core). Proof. unfold current. keeps. Qed.
Lemma keeps_cpu_info_of i : keeps view (cpu_info_of i). Proof. unfold cpu_info_of. keeps. Qed.
Lemma keeps_update_task i g : keeps view (update_task i g). Proof. unfold update_task. keeps. Qed.
Lemma keeps_update_info i g : keeps view (update_info i g). Proof. unfold update_info. keeps. Qed.
Lemma keeps_store_frame sp f : keeps view (store_frame sp f). Proof. unfold store_frame. keeps. Qed.
Lemma keeps_kprint e : keeps view (kprint e).
Proof. intros s a s' [= _ <-]. by apply blind_print. Qed.
Lemma keeps_spin_lock : keeps view spin_lock_sched.
Proof. intros s a s'. unfold spin_lock_sched. destruct (sched_lock s); [done|]. intros [= _ <-]. apply blind_locks. Qed.
Lemma keeps_spin_unlock : keeps view spin_unlock_sched. Proof. unfold spin_unlock_sched. keeps. Qed.
Lemma keeps_spin_lock_print : keeps view spin_lock_print.
Proof. intros s a s'. unfold spin_lock_print. destruct (print_lock s); [done|]. intros [= _ <-]. apply blind_locks. Qed.
Lemma keeps_spin_unlock_print : keeps view spin_unlock_print. Proof. unfold spin_unlock_print. keeps. Qed.
#[local] Hint Resolve keeps_current keeps_cpu_info_of keeps_update_task keeps_update_info keeps_store_frame
  keeps_kprint keeps_spin_lock keeps_spin_unlock keeps_spin_lock_print keeps_spin_unlock_print : keeps.

Lemma keeps_schedule_loop fuel core curr i nx : keeps view (schedule_loop fuel core curr i nx).
Proof. revert i nx. induction fuel as [|fu IH]; intros i nx; cbn [schedule_loop]; keeps. Qed.
Lemma keeps_switch_context_el i j sp : keeps view (switch_context_el i j sp).
Proof. unfold switch_context_el. keeps. Qed.
#[local] Hint Resolve keeps_schedule_loop keeps_switch_context_el : keeps.
Lemma keeps_timer_tick core sp :
  sp ≠ NULL → keeps view (timer_tick_schedule SMP_NUM switch_context core sp).
Proof.
  intros Hsp. unfold timer_tick_schedule, _schedule. rewrite (proj2 (Z.eqb_neq sp NULL) Hsp). keeps.
Qed.

Lemma keeps_clear_ids fu i : keeps view (clear_ids fu i).
Proof. revert i. induction fu; intros i; cbn [clear_ids]; keeps. Qed.
Lemma keeps_schedule_init : keeps view schedule_init.
Proof. pose proof keeps_clear_ids. unfold schedule_init. keeps. Qed.
Lemma keeps_print_list : keeps view print_current_task_list.
Proof.
  assert (Hc : ∀ fu i, keeps view (print_task_loop fu i)).
  { induction fu; intros i; cbn [print_task_loop]; keeps. }
  unfold print_current_task_list. keeps.
Qed.
Lemma keeps_schedule_init_local core : keeps view (schedule_init_local core).
Proof. unfold schedule_init_local. keeps. Qed.
End tick.
#[export] Hint Resolve keeps_task_at keeps_info_at keeps_cpu_at keeps_frame_at keeps_current
  keeps_cpu_info_of keeps_update_task keeps_update_info keeps_store_frame keeps_kprint
  keeps_schedule_init keeps_print_list keeps_schedule_init_local : keeps.

Section start.
Context {D T : Type} `{Device D} (view : kernel D → T) {Hblind : StartBlind view}.
#[local] Set Default Proof Using "Hblind".

Lemma keeps_update_cpu i g : keeps view (update_cpu i g).
Proof. unfold update_cpu. keeps. Qed.
#[local] Hint Resolve keeps_update_cpu : keeps.
Lemma keeps_new_task i f s : keeps view (new_task i f s).
Proof. unfold new_task. keeps. Qed.
#[local] Hint Resolve keeps_new_task : keeps.
Lemma keeps_create_task f s : keeps view (create_task f s).
Proof. unfold create_task. keeps. Qed.
Lemma keeps_craete_vm_task f : keeps view (craete_vm_task f).
Proof. unfold craete_vm_task. keeps. Qed.
End start.
#[export] Hint Resolve keeps_update_cpu keeps_new_task keeps_create_task keeps_craete_vm_task : keeps.

(** The frame of a task is saved beside its system registers. *)
Lemma keeps_sysregs_update_cpu {D} `{Device D} i g :
  (∀ x, sys_reg (g x) = sys_reg x) → keeps (sysregs_view (D := D)) (update_cpu i g).
Proof.
  intros Hg k a k'. unfold update_cpu, cpu_at, mbind, St_bind, get, deref, modify. cbn.
  destruct (g_cpu_dec k !! i) as [x|] eqn:Hx; [|done]. cbn. intros [= _ <-].
  unfold sysregs_view. cbn. f_equal. rewrite list_fmap_insert, Hg. apply list_insert_id.
  by rewrite list_lookup_fmap, Hx.
Qed.
Lemma keeps_save_cpu_ctx {D} `{Device D} core sp : keeps (sysregs_view (D := D)) (save_cpu_ctx core sp).
Proof.
  unfold save_cpu_ctx. keeps; by apply keeps_sysregs_update_cpu.
Qed.
