(* ===== verification/Vcpu.v ===== *)
(** The system registers of a virtual CPU: [include/hyper/vcpu.h], the assembly of
    [hyper/hyper_ctx.S] that saves and restores them, and [vm_in] and [vm_out] of
    [schedule/task.c]. *)

From S2P Require Import Prelude Config Frame Uart Vgic Gic Kernel Sched Keeps.

(** * Definitions *)

(** The registers the assembly moves, by their names there. *)
Inductive sysreg :=
  | SCTLR_EL1 | TTBR0_EL1 | TTBR1_EL1 | TCR_EL1 | ESR_EL1 | FAR_EL1 | AFSR0_EL1 | AFSR1_EL1
  | MAIR_EL1 | AMAIR_EL1 | CONTEXTIDR_EL1 | CPACR_EL1 | ELR_EL1 | FPCR | FPSR | MIDR_EL1
  | MPIDR_EL1 | PAR_EL1 | SP_EL0 | SP_EL1 | SPSR_EL1 | TPIDR_EL0 | TPIDR_EL1 | TPIDRRO_EL0
  | VBAR_EL1 | VPIDR_EL2 | VMPIDR_EL2.
#[export] Instance sysreg_eq_dec : EqDecision sysreg.
Proof. solve_decision. Defined.

(** The live registers of the core. *)
Abbreviation live := (sysreg → Z).
Definition write_reg (x : sysreg) (v : Z) (l : live) : live := λ y, if decide (y = x) then v else l y.

(** The registers in the order [save_sysregs] stores them, from the first field of a
    block on, and the order [restore_sysregs] loads them in: the identification
    registers go to those a guest reads instead. *)
Definition saved_regs : list sysreg :=
  [SCTLR_EL1; TTBR0_EL1; TTBR1_EL1; TCR_EL1; ESR_EL1; FAR_EL1; AFSR0_EL1; AFSR1_EL1;
   MAIR_EL1; AMAIR_EL1; CONTEXTIDR_EL1; CPACR_EL1; ELR_EL1; FPCR; FPSR; MIDR_EL1;
   MPIDR_EL1; PAR_EL1; SP_EL0; SP_EL1; SPSR_EL1; TPIDR_EL0; TPIDR_EL1; TPIDRRO_EL0; VBAR_EL1].
Definition restored_regs : list sysreg :=
  [SCTLR_EL1; TTBR0_EL1; TTBR1_EL1; TCR_EL1; ESR_EL1; FAR_EL1; AFSR0_EL1; AFSR1_EL1;
   MAIR_EL1; AMAIR_EL1; CONTEXTIDR_EL1; CPACR_EL1; ELR_EL1; FPCR; FPSR; VPIDR_EL2;
   VMPIDR_EL2; PAR_EL1; SP_EL0; SP_EL1; SPSR_EL1; TPIDR_EL0; TPIDR_EL1; TPIDRRO_EL0; VBAR_EL1].

(** The stores into a block, and the loads from one; outside it the program is at
    fault. *)
Fixpoint store_regs (xs : list sysreg) (i : nat) (l : live) (b : list Z) : option (list Z) :=
  match xs with
  | [] => Some b
  | x :: xs => b !! i;; store_regs xs (S i) l (<[i := l x]> b)
  end.
Fixpoint load_regs (xs : list sysreg) (i : nat) (b : list Z) (l : live) : option live :=
  match xs with
  | [] => Some l
  | x :: xs => v ← b !! i; load_regs xs (S i) b (write_reg x v l)
  end.

Section vcpu.
Context {D : Type} `{Device D}.

Definition on_kernel {A} (m : St (kernel D) A) : St (kernel D * live) A :=
  on_part fst (λ k s, (k, snd s)) m.

(** [save_sysregs] and [restore_sysregs] of a pointer into [cpu_sysregs]. *)
Definition save_sysregs (j : nat) : St (kernel D * live) unit :=
  s ← get;
  b ← deref (cpu_sysregs (fst s) !! j);
  b ← deref (store_regs saved_regs 0 (snd s) b);
  on_kernel (modify (λ k, set_sysregs (<[j := b]> (cpu_sysregs k)) k)).
Definition restore_sysregs (j : nat) : St (kernel D * live) unit :=
  s ← get;
  b ← deref (cpu_sysregs (fst s) !! j);
  l ← deref (load_regs restored_regs 0 b (snd s));
  put (fst s, l).

(** [curr->cpu_info->sys_reg], which is null for a task that is not a virtual CPU. *)
Definition sys_reg_of (core : nat) : St (kernel D) nat :=
  curr ← current core;
  c ← cpu_info_of curr;
  x ← cpu_at c;
  deref (sys_reg x).
Definition vm_in (core : nat) : St (kernel D * live) unit := j ← on_kernel (sys_reg_of core); restore_sysregs j.
Definition vm_out (core : nat) : St (kernel D * live) unit := j ← on_kernel (sys_reg_of core); save_sysregs j.
End vcpu.

(** * The blocks *)

Lemma store_regs_ok xs i l b :
  (i + length xs ≤ length b)%nat →
  store_regs xs i l b = Some (take i b ++ map l xs ++ drop (i + length xs) b).
Proof.
  revert i b. induction xs as [|x xs IH]; intros i b Hb; cbn [store_regs length map app] in *.
  - by rewrite Nat.add_0_r, take_drop.
  - destruct (lookup_lt_is_Some_2 b i) as [v Hv]; [lia|]. rewrite Hv. cbn. rewrite IH by (rewrite length_insert; lia).
    f_equal. rewrite (take_S_r _ _ (l x)) by (apply list_lookup_insert_eq; lia).
    rewrite take_insert_ge, drop_insert_lt by lia. rewrite <- app_assoc. cbn. by rewrite Nat.add_succ_r.
Qed.
Lemma load_regs_ok xs i b l :
  NoDup xs → (i + length xs ≤ length b)%nat →
  ∃ l', load_regs xs i b l = Some l' ∧ map l' xs = take (length xs) (drop i b) ∧
    ∀ y, y ∉ xs → l' y = l y.
Proof.
  revert i l. induction xs as [|x xs IH]; intros i l Hx Hb; cbn [load_regs length] in *; [by exists l|].
  apply NoDup_cons in Hx as [Hx Hxs]. destruct (lookup_lt_is_Some_2 b i) as [v Hv]; [lia|]. rewrite Hv. cbn.
  destruct (IH (S i) (write_reg x v l) Hxs ltac:(lia)) as (l' & -> & Hl & Ho). exists l'. split_and!; [done| |].
  - rewrite (drop_S _ _ _ Hv). cbn. rewrite Hl, Ho by done. unfold write_reg. by rewrite decide_True.
  - intros y Hy. rewrite not_elem_of_cons in Hy. destruct Hy as [Hne Hy]. rewrite Ho by done.
    unfold write_reg. by rewrite decide_False.
Qed.
(** The words of a block the assembly uses. *)
Definition regs_of (b : list Z) : list Z := take (length saved_regs) b.
Lemma regs_of_stored l b : regs_of (map l saved_regs ++ b) = map l saved_regs.
Proof. unfold regs_of. by rewrite take_app_length' by (by rewrite length_map). Qed.
(** The constructor's word is that of [SPSR_EL1]. *)
Lemma spsr_field : saved_regs !! SPSR_EL1_FIELD = Some SPSR_EL1 ∧ restored_regs !! SPSR_EL1_FIELD = Some SPSR_EL1.
Proof. done. Qed.

(** * [vm_out] and [vm_in] *)

Section rules.
Context {D : Type} `{Device D}.

(** Each of the [length ws] tasks has a block of its own, which holds [ws]. *)
Record vcpus (v : list (option nat) * list (list Z)) (ws : list (list Z)) : Prop := {
  vc_own : ∀ i, (i < length ws)%nat → v.1 !! i = Some (Some i);
  vc_words : ∀ i w, ws !! i = Some w → ∃ b, v.2 !! i = Some b ∧ length b = SYSREG_WORDS ∧ regs_of b = w;
}.

Lemma sys_reg_of_ok core c ws st (k : kernel D) (Q : nat → kernel D → Prop) :
  sched_repr k st → rr_cur st !! core = Some c → vcpus (sysregs_view k) ws → (c < length ws)%nat →
  Q c k → wp (sys_reg_of core) Q k.
Proof.
  intros Hk Hc Hv Hlt HQ. destruct (current_range st core c (sr_ok _ _ Hk) Hc) as [Hcn _].
  destruct (sr_tasks _ _ Hk c Hcn) as (t & Ht & _ & Hi & _ & _).
  pose proof (vc_own _ _ Hv _ Hlt) as Ho. cbn [fst sysregs_view] in Ho. rewrite list_lookup_fmap in Ho.
  apply fmap_Some in Ho as (x & Hx & Hr). unfold sys_reg_of. wp_step. eapply wp_current; [exact Hk|exact Hc|]. wp_step.
  eapply wp_cpu_info_of; [exact Ht|exact Hi|]. wp_step. eapply wp_cpu_at; [exact Hx|].
  eapply wp_deref_some; [by symmetry|done].
Qed.

(** The registers of the core go to the block of its task, and come from it. *)
Lemma vm_out_ok core c ws st (k : kernel D) l (Q : unit → kernel D * live → Prop) :
  sched_repr k st → rr_cur st !! core = Some c → vcpus (sysregs_view k) ws → (c < length ws)%nat →
  (∀ bs, vcpus (sys_reg <$> g_cpu_dec k, bs) (<[c := map l saved_regs]> ws) → Q tt (set_sysregs bs k, l)) →
  wp (vm_out core) Q (k, l).
Proof.
  intros Hk Hc Hv Hlt HQ. destruct (lookup_lt_is_Some_2 ws c Hlt) as [w Hw].
  destruct (vc_words _ _ Hv _ _ Hw) as (b & Hb & Hlen & _). cbn [snd sysregs_view] in Hb.
  unfold vm_out, on_kernel. do 2 wp_step. eapply sys_reg_of_ok; [done..|]. unfold save_sysregs. wp_step.
  cbn [fst snd]. eapply wp_deref_some; [exact Hb|]. wp_step.
  eapply wp_deref_some; [apply store_regs_ok; rewrite Hlen; unfold SYSREG_WORDS; simpl; lia|].
  unfold on_kernel. do 2 wp_step. cbn [fst snd]. apply HQ. constructor.
  - intros i Hi. rewrite length_insert in Hi. by apply (vc_own _ _ Hv).
  - intros i w' Hi. cbn [snd]. destruct (decide (i = c)) as [->|Hne].
    + rewrite list_lookup_insert_eq in Hi by done. injection Hi as <-. eexists.
      rewrite list_lookup_insert_eq by (by eapply lookup_lt_Some). split_and!; [done| |apply regs_of_stored].
      rewrite !length_app, length_map, length_drop, Hlen. done.
    + rewrite list_lookup_insert_ne in Hi by done. rewrite list_lookup_insert_ne by done. by apply (vc_words _ _ Hv).
Qed.
Lemma vm_in_ok core c ws st (k : kernel D) l (Q : unit → kernel D * live → Prop) :
  sched_repr k st → rr_cur st !! core = Some c → vcpus (sysregs_view k) ws → (c < length ws)%nat →
  (∀ w l', ws !! c = Some w → map l' restored_regs = w → (∀ y, y ∉ restored_regs → l' y = l y) → Q tt (k, l')) →
  wp (vm_in core) Q (k, l).
Proof.
  intros Hk Hc Hv Hlt HQ. destruct (lookup_lt_is_Some_2 ws c Hlt) as [w Hw].
  destruct (vc_words _ _ Hv _ _ Hw) as (b & Hb & Hlen & Hwb). cbn [snd sysregs_view] in Hb.
  destruct (load_regs_ok restored_regs 0 b l) as (l' & Hl & Hm & Ho).
  { eapply bool_decide_unpack. vm_compute. exact I. }
  { rewrite Hlen. unfold SYSREG_WORDS. simpl. lia. }
  unfold vm_in, on_kernel. do 2 wp_step. eapply sys_reg_of_ok; [done..|]. unfold restore_sysregs. wp_step.
  cbn [fst snd]. eapply wp_deref_some; [exact Hb|]. wp_step. eapply wp_deref_some; [exact Hl|]. wp_step.
  cbn [fst]. apply (HQ w); [done| |done]. by rewrite Hm.
Qed.
End rules.
