(* ===== verification/Ept.v ===== *)
(** The second-stage page tables of the guest: [mem/ept.c], the mapping
    functions of [main_hyper.c], and the structures of [include/mem/page.h] and
    [include/mem/ept.h]. *)

From S2P Require Import Prelude Config Gic Frame Vgic.

Definition LPAE_SHIFT : Z := 9.
Definition LPAE_ENTRIES : Z := 1 << LPAE_SHIFT.
Definition LPAE_L1_SIZE : Z := 4.
Definition LPAE_L2_SIZE : Z := LPAE_L1_SIZE * LPAE_ENTRIES.
Definition LPAE_L3_SIZE : Z := LPAE_L2_SIZE * LPAE_ENTRIES.

(** ** The bit fields of [lpae_p2m_t] *)

(** Writing [w] bits of a word from the bit [lo] on. *)
Definition set_field (lo w v bits : Z) : Z :=
  (bits .& Z.lnot (Z.ones w << lo)) .| ((v .& Z.ones w) << lo).
Definition get_field (lo w bits : Z) : Z := (bits >> lo) .& Z.ones w.

Definition p2m_valid := set_field 0 1.
Definition p2m_table := set_field 1 1.
Definition p2m_mattr := set_field 2 4.
Definition p2m_read := set_field 6 1.
Definition p2m_write := set_field 7 1.
Definition p2m_sh := set_field 8 2.
Definition p2m_af := set_field 10 1.
Definition p2m_xn := set_field 54 1.

(** Memory words by their addresses, the roots of the tables, the register
    [VTTBR_EL2], [cacheline_bytes] of [mem/page.c], and the messages printed. *)
Record ept := {
  words : gmap Z Z;
  ept_L2_root : Z;
  ept_L3_root : Z;
  vttbr : Z;
  cacheline_bytes : Z;
  ept_log : list log_entry;
}.
Definition set_words (w : gmap Z Z) (e : ept) : ept :=
  {| words := w; ept_L2_root := ept_L2_root e; ept_L3_root := ept_L3_root e; vttbr := vttbr e;
     cacheline_bytes := cacheline_bytes e; ept_log := ept_log e |}.
Definition set_roots (l2 l3 : Z) (e : ept) : ept :=
  {| words := words e; ept_L2_root := l2; ept_L3_root := l3; vttbr := vttbr e;
     cacheline_bytes := cacheline_bytes e; ept_log := ept_log e |}.
Definition set_vttbr (v : Z) (e : ept) : ept :=
  {| words := words e; ept_L2_root := ept_L2_root e; ept_L3_root := ept_L3_root e; vttbr := v;
     cacheline_bytes := cacheline_bytes e; ept_log := ept_log e |}.

Definition ept_print (m : log_entry) (e : ept) : ept :=
  {| words := words e; ept_L2_root := ept_L2_root e; ept_L3_root := ept_L3_root e; vttbr := vttbr e;
     cacheline_bytes := cacheline_bytes e; ept_log := ept_log e ++ [m] |}.

Definition load64 (a : Z) : St ept Z := e ← get; deref (words e !! a).
Definition store64 (a v : Z) : St ept unit :=
  load64 a;; modify (λ e, set_words (<[a := u64 v]> (words e)) e).

Definition isInMemory (gpa : Z) : bool := (GUEST_RAM_START <=? gpa) && (gpa <? GUEST_RAM_END).

(** [clean_and_invalidate_dcache_va_range]: the caches are transparent, so that
    only the loop is left, which does not end when the step is 0. *)
Fixpoint clean_loop (fuel : nat) (p e : Z) : St ept unit :=
  match fuel with
  | O => nofuel
  | S k => if p <? e then step ← gets cacheline_bytes; clean_loop k (p + step) e else mret tt
  end.
Definition apply_ept (fuel : nat) (p : Z) : St ept unit := clean_loop fuel p (p + PAGE_SIZE).

(** The words the three levels are filled with. *)
Definition table_entry (next : Z) : Z := p2m_table 1 (p2m_valid 1 0) .| next.
Definition page_entry (gpa : Z) : Z :=
  let bits := p2m_xn 0 (p2m_sh 3 (p2m_mattr 0xF (p2m_write 1 (p2m_read 1 (p2m_af 1
                (p2m_table 1 (p2m_valid 1 0))))))) in
  let bits := if isInMemory gpa then p2m_mattr 0xF (p2m_sh 3 bits)
              else p2m_xn 1 (p2m_sh 0 (p2m_mattr 1 bits)) in
  bits .| gpa.

(** The three nested loops of [guest_ept_init]; each gives the next [gpa]. *)
Fixpoint l3_loop (fuel : nat) (ept_l3 index_l3 gpa : Z) : St ept Z :=
  match fuel with
  | O => nofuel
  | S k =>
      if index_l3 <? LPAE_ENTRIES then
        store64 (ept_l3 + 8 * index_l3) (page_entry gpa);;
        l3_loop k ept_l3 (index_l3 + 1) (gpa + 4 * 1024)
      else mret gpa
  end.
Fixpoint l2_loop (fuel fuel2 : nat) (index_l1 ept_l2 index_l2 gpa : Z) : St ept Z :=
  match fuel with
  | O => nofuel
  | S k =>
      if index_l2 <? LPAE_ENTRIES then
        root3 ← gets ept_L3_root;
        let ept_l3 := root3 + 8 * (LPAE_ENTRIES * LPAE_ENTRIES * index_l1 + LPAE_ENTRIES * index_l2) in
        store64 (ept_l2 + 8 * index_l2) (table_entry ept_l3);;
        gpa ← l3_loop 513 ept_l3 0 gpa;
        apply_ept fuel2 ept_l3;;
        l2_loop k fuel2 index_l1 ept_l2 (index_l2 + 1) gpa
      else mret gpa
  end.
Fixpoint l1_loop (fuel fuel2 : nat) (ept_L1 index_l1 gpa : Z) : St ept Z :=
  match fuel with
  | O => nofuel
  | S k =>
      if index_l1 <? LPAE_L1_SIZE then
        root2 ← gets ept_L2_root;
        let ept_l2 := root2 + 8 * (LPAE_ENTRIES * index_l1) in
        store64 (ept_L1 + 8 * index_l1) (table_entry ept_l2);;
        gpa ← l2_loop 513 fuel2 index_l1 ept_l2 0 gpa;
        apply_ept fuel2 ept_l2;;
        l1_loop k fuel2 ept_L1 (index_l1 + 1) gpa
      else mret gpa
  end.

(** The roots: the level 2 tables at the page boundary after the level 1 table
    and one page, the level 3 tables after them. *)
Definition L2_root_of (ept_L1 : Z) : Z := (ept_L1 + 8 * LPAE_L1_SIZE + (1 << 12)) .& Z.lnot 0xFFF.
Definition L3_root_of (ept_L1 : Z) : Z := L2_root_of ept_L1 + 8 * LPAE_L2_SIZE.

(** [ept_L1] is the address of the linker symbol; the fuel bounds the cache
    loops. *)
Definition guest_ept_init (fuel2 : nat) (ept_L1 : Z) : St ept unit :=
  modify (set_roots (L2_root_of ept_L1) (L3_root_of ept_L1));;
  modify (ept_print (Printf (ln "Initialize EPT...") []));;
  modify (ept_print (Printf (ln "EPT root address : 0x%x") [Num ept_L1]));;
  modify (ept_print (Printf (ln "ept_L2_root : 0x%x") [Num (L2_root_of ept_L1)]));;
  modify (ept_print (Printf (ln "ept_L3_root : 0x%x") [Num (L3_root_of ept_L1)]));;
  modify (ept_print (Printf (ln "LPAE_L1_SIZE : %d") [Num LPAE_L1_SIZE]));;
  modify (ept_print (Printf (ln "LPAE_L2_SIZE : %d") [Num LPAE_L2_SIZE]));;
  modify (ept_print (Printf (ln "LPAE_L3_SIZE : %d") [Num LPAE_L3_SIZE]));;
  l1_loop 5 fuel2 ept_L1 0 0;;
  apply_ept fuel2 ept_L1;;
  modify (set_vttbr ept_L1).

Definition get_ept_entry (gpa : Z) : St ept Z :=
  root3 ← gets ept_L3_root; mret (root3 + 8 * (gpa >> 12)).

(** [avr_entry->p2m.read = 0; avr_entry->p2m.write = 0; apply_ept(avr_entry);] *)
Definition trap_page (fuel2 : nat) (gpa : Z) : St ept unit :=
  a ← get_ept_entry gpa;
  v ← load64 a; store64 a (p2m_read 0 v);;
  v ← load64 a; store64 a (p2m_write 0 v);;
  apply_ept fuel2 a.
Fixpoint mmio_map_loop (fuel fuel2 : nat) (area i : Z) : St ept unit :=
  match fuel with
  | O => nofuel
  | S k => if i <? 16 then trap_page fuel2 (area + 0x1000 * i);; mmio_map_loop k fuel2 area (i + 1)
           else mret tt
  end.
Definition mmio_map_gicd (fuel2 : nat) : St ept unit := mmio_map_loop 17 fuel2 MMIO_AREA_GICD 0.
Definition mmio_map_gicc (fuel2 : nat) : St ept unit := mmio_map_loop 17 fuel2 MMIO_AREA_GICC 0.

(** ** The data abort handler *)

Section abort.
Context {D : Type} `{Device D}.

(** [handle_mmio]: the access the guest was trapped on, made for it on the
    device at [gpa]; the frame may change. *)
Definition handle_mmio (info : ept_violation_info) (el2_ctx : trap_frame) : St (mach D) trap_frame :=
  let reg_num := dabt_reg (hsr info) in
  if truthy (dabt_write (hsr info)) then
    if negb (reg_num =? 30) then
      v ← read_reg el2_ctx reg_num;
      write64 v (gpa info);; mret el2_ctx
    else mret el2_ctx
  else
    dat ← read64 (gpa info);
    if negb (reg_num =? 30) then
      read_reg el2_ctx reg_num;; mret (set_reg (Z.to_nat reg_num) dat el2_ctx)
    else mret el2_ctx.

Definition set_gpa (a : Z) (info : ept_violation_info) : ept_violation_info :=
  {| hsr := hsr info; reason := reason info; gva := gva info; gpa := a |}.

(** The entry that is read at first is not used. *)
Definition data_abort_handler (info : ept_violation_info) (el2_ctx : trap_frame) :
    St (ept * mach D) trap_frame :=
  a ← on_part fst (λ e s, (e, snd s)) (get_ept_entry (gpa info));
  on_part fst (λ e s, (e, snd s)) (load64 a);;
  if (GICD_BASE_ADDR <=? gpa info) && (gpa info <=? GICD_BASE_ADDR + 0x0010000) then
    on_part snd (λ m s, (fst s, m)) (intc_handler info el2_ctx);; mret el2_ctx
  else if (GICC_BASE_ADDR <=? gpa info) && (gpa info <=? GICC_BASE_ADDR + 0x0010000) then
    on_part snd (λ m s, (fst s, m)) (handle_mmio (set_gpa (gpa info + 0x30000) info) el2_ctx)
  else mret el2_ctx.
End abort.

(** * Descriptors *)

(** The words as sums: the address and the attributes do not overlap. *)
Definition attributes (gpa : Z) : Z := if isInMemory gpa then 0x7FF else 2 ^ 54 + 0x4C7.

Lemma lor_page k c : 0 ≤ c < 4096 → c .| (4096 * k) = 4096 * k + c.
Proof.
  intros Hc. rewrite Z.lor_comm. replace (4096 * k) with (k * 2 ^ 12) by lia.
  by rewrite lor_high_low by lia.
Qed.

Lemma table_entry_sum k : table_entry (4096 * k) = 4096 * k + 3.
Proof.
  unfold table_entry. change (p2m_table 1 (p2m_valid 1 0)) with 3. apply lor_page. lia.
Qed.

Lemma page_entry_sum k : 0 ≤ k < 2 ^ 36 → page_entry (4096 * k) = 4096 * k + attributes (4096 * k).
Proof.
  intros Hk. unfold page_entry, attributes. destruct (isInMemory (4096 * k)).
  - match goal with |- ?c .| _ = _ => change c with 0x7FF end. apply lor_page. lia.
  - match goal with |- ?c .| _ = _ => change c with (1 * 2 ^ 54 .| 0x4C7) end.
    rewrite <- Z.lor_assoc, lor_page by lia. rewrite lor_high_low by lia. lia.
Qed.

Lemma get_field_div lo w x : 0 ≤ lo → 0 ≤ w → get_field lo w x = x / 2 ^ lo mod 2 ^ w.
Proof. intros Hlo Hw. unfold get_field. by rewrite Z.land_ones, Z.shiftr_div_pow2. Qed.

Lemma page_entry_word k : 0 ≤ k < 2 ^ 36 → 0 ≤ page_entry (4096 * k) < 2 ^ 64.
Proof. intros Hk. rewrite page_entry_sum by done. unfold attributes. destruct (isInMemory _); lia. Qed.

(** * The table walk of the hardware

    A walk of the second stage for a 32-bit address from level 1, with 4 KB
    granules: three descriptors, each of which has to be a table or page one. *)

Definition descriptor (w : gmap Z Z) (a : Z) : option Z :=
  d ← w !! a; if d .& 3 =? 3 then Some d else None.
Definition next_table (d : Z) : Z := 4096 * get_field 12 36 d.
Definition stage2_walk (w : gmap Z Z) (root ipa : Z) : option Z :=
  d1 ← descriptor w (root + 8 * get_field 30 2 ipa);
  d2 ← descriptor w (next_table d1 + 8 * get_field 21 9 ipa);
  descriptor w (next_table d2 + 8 * get_field 12 9 ipa).

(** What the hardware makes of a page descriptor. *)
Record translation := {
  tr_pa : Z;
  tr_read : bool;
  tr_write : bool;
  tr_execute : bool;
  tr_accessed : bool;
  tr_mattr : Z;
}.
Definition decode (ipa d : Z) : translation := {|
  tr_pa := next_table d + ipa mod 4096;
  tr_read := get_field 6 1 d =? 1;
  tr_write := get_field 7 1 d =? 1;
  tr_execute := get_field 54 1 d =? 0;
  tr_accessed := get_field 10 1 d =? 1;
  tr_mattr := get_field 2 4 d;
|}.
Definition translate (w : gmap Z Z) (root ipa : Z) : option translation :=
  decode ipa <$> stage2_walk w root ipa.

(** What the guest should see: memory and devices where they are, memory
    executable and cached, devices neither. *)
Definition identity_map (ipa : Z) : translation :=
  if isInMemory ipa then
    {| tr_pa := ipa; tr_read := true; tr_write := true; tr_execute := true;
       tr_accessed := true; tr_mattr := 0xF |}
  else
    {| tr_pa := ipa; tr_read := true; tr_write := true; tr_execute := false;
       tr_accessed := true; tr_mattr := 1 |}.

Lemma isInMemory_page ipa : isInMemory (4096 * (ipa / 4096)) = isInMemory ipa.
Proof.
  unfold isInMemory, GUEST_RAM_END, GUEST_RAM_START.
  pose proof (Z.div_mod ipa 4096 ltac:(lia)). pose proof (Z.mod_pos_bound ipa 4096 ltac:(lia)).
  destruct (Z.leb_spec 0x40000000 (4096 * (ipa / 4096))), (Z.leb_spec 0x40000000 ipa),
    (Z.ltb_spec (4096 * (ipa / 4096)) (0x40000000 + 0x40000000)), (Z.ltb_spec ipa (0x40000000 + 0x40000000));
    done || lia.
Qed.

Lemma land_3 x : x .& 3 = x mod 4.
Proof. change 3 with (Z.ones 2). by rewrite Z.land_ones by lia. Qed.

Lemma decode_page_entry ipa :
  0 ≤ ipa < 2 ^ 32 → decode ipa (page_entry (4096 * (ipa / 4096))) = identity_map ipa.
Proof.
  intros Hi. pose proof (Z.div_mod ipa 4096 ltac:(lia)) as Hdm.
  assert (0 ≤ ipa / 4096 < 2 ^ 20) as Hk by (Z.div_mod_to_equations; lia).
  unfold decode, next_table. rewrite page_entry_sum by lia. unfold attributes, identity_map.
  rewrite isInMemory_page, !get_field_div by lia.
  cbn [Z.pow Z.pow_pos Pos.iter Z.mul Pos.mul]. set (k := ipa / 4096) in *.
  destruct (isInMemory ipa); f_equal;
    match goal with
    | |- 4096 * ?f + _ = _ => assert (f = k) as -> by (Z.div_mod_to_equations; lia); lia
    | |- (?f =? 1) = true => assert (f = 1) as -> by (Z.div_mod_to_equations; lia); done
    | |- (?f =? 0) = true => assert (f = 0) as -> by (Z.div_mod_to_equations; lia); done
    | |- (?f =? 0) = false => assert (f = 1) as -> by (Z.div_mod_to_equations; lia); done
    | |- _ = _ => Z.div_mod_to_equations; lia
    end.
Qed.

(** * Filling the tables *)

Definition word_at (w : gmap Z Z) (a : Z) : Prop := is_Some (w !! a).

Lemma wp_load64 a v (Q : Z → ept → Prop) e : words e !! a = Some v → Q v e → wp (load64 a) Q e.
Proof. intros Hv HQ. unfold load64. wp_step. apply wp_deref. eauto. Qed.
Lemma wp_store64 a v (Q : unit → ept → Prop) e :
  word_at (words e) a → Q tt (set_words (<[a := u64 v]> (words e)) e) → wp (store64 a v) Q e.
Proof. intros [x Hx] HQ. unfold store64. wp_step. eapply wp_load64; [done|]. by wp_step. Qed.

Lemma clean_loop_ok fuel p lim e :
  0 < cacheline_bytes e → lim - p < Z.of_nat fuel → (0 < fuel)%nat →
  wp (clean_loop fuel p lim) (λ _ e', e' = e) e.
Proof.
  intros Hc. revert p. induction fuel as [|k IH]; intros p Hf H0; [lia|]. cbn [clean_loop].
  destruct (Z.ltb_spec p lim); [|by wp_step]. wp_step. apply IH; lia.
Qed.
Lemma apply_ept_ok fuel p e :
  0 < cacheline_bytes e → (4096 < fuel)%nat → wp (apply_ept fuel p) (λ _ e', e' = e) e.
Proof. intros Hc Hf. apply clean_loop_ok; [done|unfold PAGE_SIZE; lia|lia]. Qed.

(** The words [n] at the multiples of 8 from [a] on are mapped. *)
Definition words_mapped (w : gmap Z Z) (a n : Z) : Prop := ∀ i, 0 ≤ i < n → word_at w (a + 8 * i).
(** No word outside the [n] words from [a] on differs. *)
Definition outside (a n i : Z) : Prop := i < a ∨ a + 8 * n ≤ i.

Lemma words_mapped_insert w b v a n : words_mapped w a n → words_mapped (<[b := v]> w) a n.
Proof.
  intros Hm i Hi. unfold word_at. destruct (decide (b = a + 8 * i)) as [->|];
    [by rewrite lookup_insert_eq|rewrite lookup_insert_ne by done; by apply Hm].
Qed.

(** What a step of the construction may do: the tables it is given stay mapped,
    the roots and the cache line stay. *)
Definition same_rest (e e' : ept) : Prop :=
  ept_L2_root e' = ept_L2_root e ∧ ept_L3_root e' = ept_L3_root e ∧
  vttbr e' = vttbr e ∧ cacheline_bytes e' = cacheline_bytes e ∧ dom (words e') = dom (words e).

Lemma same_rest_refl e : same_rest e e.
Proof. done. Qed.
Lemma same_rest_trans e1 e2 e3 : same_rest e1 e2 → same_rest e2 e3 → same_rest e1 e3.
Proof. unfold same_rest. intros. destruct_and!. split_and!; congruence. Qed.
Lemma same_rest_store e a v : word_at (words e) a → same_rest e (set_words (<[a := v]> (words e)) e).
Proof. intros Ha. unfold same_rest. cbn. split_and!; [done..|]. by apply dom_insert_same. Qed.
Lemma words_mapped_dom e e' a n : same_rest e e' → words_mapped (words e) a n → words_mapped (words e') a n.
Proof.
  intros (_ & _ & _ & _ & Hd) Hm i Hi. specialize (Hm i Hi). unfold word_at in *.
  rewrite <- elem_of_dom in *. by rewrite Hd.
Qed.

(** One level 3 table: the pages [512 * q] to [512 * q + 511]. *)
Lemma l3_loop_ok fuel t q i e :
  0 ≤ i ≤ 512 → 0 ≤ q < 2 ^ 20 → 512 - i < Z.of_nat fuel → words_mapped (words e) t 512 →
  wp (l3_loop fuel t i (4096 * (512 * q + i)))
     (λ r e', r = 4096 * (512 * (q + 1)) ∧ same_rest e e' ∧
        (∀ j, i ≤ j < 512 → words e' !! (t + 8 * j) = Some (page_entry (4096 * (512 * q + j)))) ∧
        (∀ a, outside (t + 8 * i) (512 - i) a → words e' !! a = words e !! a)) e.
Proof.
  revert i e. induction fuel as [|k IH]; intros i e Hi Hq Hf Hm; [lia|]. cbn [l3_loop].
  change LPAE_ENTRIES with 512. destruct (Z.ltb_spec i 512) as [Hlt|Hge].
  - wp_step. eapply wp_store64; [apply Hm; lia|].
    rewrite u64_small by (apply page_entry_word; lia).
    replace (4096 * (512 * q + i) + 4 * 1024) with (4096 * (512 * q + (i + 1))) by lia.
    eapply wp_mono; [apply IH; [lia|done|lia|by apply words_mapped_insert]|].
    intros r e' (-> & Hs & Hw & Ho). cbn [words set_words] in *. split_and!; [done| | |].
    + eapply same_rest_trans; [|exact Hs]. apply same_rest_store, Hm. lia.
    + intros j Hj. destruct (decide (j = i)) as [->|]; [|apply Hw; lia].
      rewrite Ho by (unfold outside; lia). apply lookup_insert_eq.
    + intros a Ha. unfold outside in *. rewrite Ho by lia. apply lookup_insert_ne. lia.
  - wp_step. assert (i = 512) as -> by lia. split_and!; [lia|done|intros; lia|done].
Qed.

(** The level 2 table [index_l1], from the entry [i] on, and the level 3 tables
    of its entries; [q] counts the level 3 tables. *)
Lemma l2_loop_ok fuel fuel2 l1 L2 L3 i e :
  0 ≤ i ≤ 512 → 0 ≤ l1 < 4 → 512 - i < Z.of_nat fuel → (4096 < fuel2)%nat → 0 < cacheline_bytes e →
  ept_L3_root e = 4096 * L3 → 0 ≤ L3 → 4096 * L3 + 2 ^ 24 ≤ 2 ^ 48 →
  L2 + 8 * 2048 ≤ 4096 * L3 →
  words_mapped (words e) L2 2048 → words_mapped (words e) (4096 * L3) (2 ^ 21) →
  wp (l2_loop fuel fuel2 l1 (L2 + 8 * (512 * l1)) i (4096 * (512 * (512 * l1 + i))))
     (λ r e', r = 4096 * (512 * (512 * (l1 + 1))) ∧ same_rest e e' ∧
        (∀ q, 512 * l1 + i ≤ q < 512 * (l1 + 1) →
           words e' !! (L2 + 8 * q) = Some (table_entry (4096 * (L3 + q)))) ∧
        (∀ p, 512 * (512 * l1 + i) ≤ p < 512 * (512 * (l1 + 1)) →
           words e' !! (4096 * L3 + 8 * p) = Some (page_entry (4096 * p))) ∧
        (∀ a, outside (L2 + 8 * (512 * l1 + i)) (512 - i) a →
           outside (4096 * (L3 + (512 * l1 + i))) (512 * (512 - i)) a → words e' !! a = words e !! a)) e.
Proof.
  intros Hi Hl Hf Hf2 Hc HL3 HL3p HL3m HL2. revert i e Hi Hf Hc HL3.
  induction fuel as [|k IH]; intros i e Hi Hf Hc HL3 Hm2 Hm3; [lia|]. cbn [l2_loop].
  change LPAE_ENTRIES with 512. destruct (Z.ltb_spec i 512) as [Hlt|Hge].
  2:{ wp_step. assert (i = 512) as -> by lia. split_and!; [lia|done|intros; lia|intros; lia|done]. }
  wp_step. cbv zeta. rewrite HL3. set (q := 512 * l1 + i).
  replace (4096 * L3 + 8 * (512 * 512 * l1 + 512 * i)) with (4096 * (L3 + q)) by lia.
  replace (L2 + 8 * (512 * l1) + 8 * i) with (L2 + 8 * q) by lia.
  assert (Hcell : word_at (words e) (L2 + 8 * q)) by (apply Hm2; lia).
  assert (Hent : u64 (table_entry (4096 * (L3 + q))) = table_entry (4096 * (L3 + q))).
  { rewrite table_entry_sum. apply u64_small. lia. }
  wp_step. eapply wp_store64; [done|]. rewrite Hent. wp_step.
  pose proof (same_rest_store e _ (table_entry (4096 * (L3 + q))) Hcell) as Hs1.
  set (e1 := set_words _ e) in *.
  replace (4096 * (512 * q)) with (4096 * (512 * q + 0)) by lia.
  eapply wp_mono; [apply l3_loop_ok; [lia|lia|lia|]|].
  { apply (words_mapped_dom e); [done|]. intros j Hj.
    replace (4096 * (L3 + q) + 8 * j) with (4096 * L3 + 8 * (512 * q + j)) by lia. apply Hm3. lia. }
  intros r e2 (-> & Hs2 & Hw2 & Ho2). pose proof (same_rest_trans _ _ _ Hs1 Hs2) as Hs12. wp_step.
  eapply wp_mono; [apply apply_ept_ok; [|done]|].
  { destruct Hs12 as (_ & _ & _ & -> & _). done. }
  intros _ ? ->. replace (4096 * (512 * (q + 1))) with (4096 * (512 * (512 * l1 + (i + 1)))) by lia.
  eapply wp_mono; [apply IH; [lia|lia| | | |]|].
  { by destruct Hs12 as (_ & _ & _ & -> & _). }
  { by destruct Hs12 as (_ & -> & _). }
  { by apply (words_mapped_dom e). }
  { by apply (words_mapped_dom e). }
  intros r e3 (-> & Hs3 & Hq3 & Hp3 & Ho3). unfold outside in *.
  split_and!; [done|by eapply same_rest_trans| | |].
  - intros q' Hq'. destruct (decide (q' = q)) as [->|]; [|apply Hq3; lia].
    rewrite Ho3, Ho2 by lia. apply lookup_insert_eq.
  - intros p Hp. destruct (decide (p < 512 * (q + 1))); [|apply Hp3; lia].
    rewrite Ho3 by lia.
    replace (4096 * L3 + 8 * p) with (4096 * (L3 + q) + 8 * (p - 512 * q)) by lia.
    rewrite Hw2 by lia. do 3 f_equal. lia.
  - intros a Ha1 Ha2. rewrite Ho3, Ho2 by lia. apply lookup_insert_ne. lia.
Qed.

(** The descriptors of the three levels, from the level 1 entry [i] on. *)
Definition level2_built (w : gmap Z Z) (L2 L3 i : Z) : Prop :=
  ∀ q, 512 * i ≤ q < 2048 → w !! (L2 + 8 * q) = Some (table_entry (4096 * (L3 + q))).
Definition level3_built (w : gmap Z Z) (L3 i : Z) : Prop :=
  ∀ p, 2 ^ 18 * i ≤ p < 2 ^ 20 → w !! (4096 * L3 + 8 * p) = Some (page_entry (4096 * p)).

(** Where the three levels lie: apart, and mapped. *)
Record layout (w : gmap Z Z) (L1 L2 L3 : Z) : Prop := {
  lo_12 : L1 + 32 ≤ 4096 * L2;
  lo_23 : 4096 * L2 + 8 * 2048 ≤ 4096 * L3;
  lo_max : 4096 * L3 + 2 ^ 24 ≤ 2 ^ 48;
  lo_0 : 0 ≤ L1;
  lo_m1 : words_mapped w L1 4;
  lo_m2 : words_mapped w (4096 * L2) 2048;
  lo_m3 : words_mapped w (4096 * L3) (2 ^ 21);
}.
Lemma layout_same e e' L1 L2 L3 : same_rest e e' → layout (words e) L1 L2 L3 → layout (words e') L1 L2 L3.
Proof. intros Hs []. constructor; try done; by eapply words_mapped_dom. Qed.

Lemma l1_loop_ok fuel fuel2 L1 L2 L3 i e :
  0 ≤ i ≤ 4 → 4 - i < Z.of_nat fuel → (4096 < fuel2)%nat → 0 < cacheline_bytes e →
  ept_L2_root e = 4096 * L2 → ept_L3_root e = 4096 * L3 → layout (words e) L1 L2 L3 →
  wp (l1_loop fuel fuel2 L1 i (4096 * (512 * (512 * i))))
     (λ _ e', same_rest e e' ∧
        (∀ j, i ≤ j < 4 → words e' !! (L1 + 8 * j) = Some (table_entry (4096 * (L2 + j)))) ∧
        level2_built (words e') (4096 * L2) L3 i ∧ level3_built (words e') L3 i ∧
        (∀ a, outside (L1 + 8 * i) (4 - i) a → outside (4096 * (L2 + i)) (512 * (4 - i)) a →
           outside (4096 * (L3 + 512 * i)) (2 ^ 18 * (4 - i)) a → words e' !! a = words e !! a)) e.
Proof.
  intros Hi Hf Hf2. revert i e Hi Hf.
  induction fuel as [|k IH]; intros i e Hi Hf Hc HL2 HL3 Hlo; [lia|]. cbn [l1_loop].
  change LPAE_L1_SIZE with 4. destruct (Z.ltb_spec i 4) as [Hlt|Hge].
  2:{ wp_step. assert (i = 4) as -> by lia. unfold level2_built, level3_built.
      split_and!; [done|intros; lia..|done]. }
  pose proof Hlo as [H12 H23 Hmax H0 Hm1 Hm2 Hm3].
  wp_step. cbv zeta. rewrite HL2. change LPAE_ENTRIES with 512.
  assert (Hcell : word_at (words e) (L1 + 8 * i)) by (apply Hm1; lia).
  wp_step. eapply wp_store64; [done|].
  replace (table_entry (4096 * L2 + 8 * (512 * i))) with (table_entry (4096 * (L2 + i))) by (f_equal; lia).
  rewrite (u64_small (table_entry _)) by (rewrite table_entry_sum; lia). wp_step.
  pose proof (same_rest_store e _ (table_entry (4096 * (L2 + i))) Hcell) as Hs1.
  set (e1 := set_words _ e) in *.
  replace (4096 * (512 * (512 * i))) with (4096 * (512 * (512 * i + 0))) by lia.
  eapply wp_mono; [apply l2_loop_ok; try done; try lia|].
  { by apply (words_mapped_dom e). }
  { by apply (words_mapped_dom e). }
  intros r e2 (-> & Hs2 & Hq2 & Hp2 & Ho2). pose proof (same_rest_trans _ _ _ Hs1 Hs2) as Hs12. wp_step.
  eapply wp_mono; [apply apply_ept_ok; [|done]|].
  { destruct Hs12 as (_ & _ & _ & -> & _). done. }
  intros _ ? ->.
  eapply wp_mono; [apply IH; [lia|lia| | | |]|].
  { by destruct Hs12 as (_ & _ & _ & -> & _). }
  { by destruct Hs12 as (-> & _). }
  { by destruct Hs12 as (_ & -> & _). }
  { by apply (layout_same e). }
  intros r e3 (Hs3 & Hj3 & Hq3 & Hp3 & Ho3). unfold outside, level2_built, level3_built in *.
  split_and!; [by eapply same_rest_trans| | | |].
  - intros j Hj. destruct (decide (j = i)) as [->|]; [|apply Hj3; lia].
    rewrite Ho3, Ho2 by lia. apply lookup_insert_eq.
  - intros q Hq. destruct (decide (q < 512 * (i + 1))); [|apply Hq3; lia].
    rewrite Ho3 by lia. apply Hq2. lia.
  - intros p Hp. destruct (decide (p < 2 ^ 18 * (i + 1))); [|apply Hp3; lia].
    rewrite Ho3 by lia. apply Hp2. lia.
  - intros a Ha1 Ha2 Ha3. rewrite Ho3, Ho2 by lia. apply lookup_insert_ne. lia.
Qed.

(** ** The tables and the walk *)

(** The guest's memory is described by the tables from [L1] on, but for the
    pages whose level 3 descriptor [f] changes. *)
Record tables (w : gmap Z Z) (L1 L2 L3 : Z) (leaf : Z → Z) : Prop := {
  ta_1 : ∀ j, 0 ≤ j < 4 → w !! (L1 + 8 * j) = Some (table_entry (4096 * (L2 + j)));
  ta_2 : ∀ q, 0 ≤ q < 2048 → w !! (4096 * L2 + 8 * q) = Some (table_entry (4096 * (L3 + q)));
  ta_3 : ∀ p, 0 ≤ p < 2 ^ 20 → w !! (4096 * L3 + 8 * p) = Some (leaf p);
}.

Lemma next_table_entry k : 0 ≤ k < 2 ^ 36 → next_table (table_entry (4096 * k)) = 4096 * k.
Proof.
  intros Hk. unfold next_table. rewrite table_entry_sum, get_field_div by lia.
  f_equal. cbn [Z.pow Z.pow_pos Pos.iter Z.mul Pos.mul]. Z.div_mod_to_equations; lia.
Qed.
Lemma descriptor_table w a k :
  w !! a = Some (table_entry (4096 * k)) → descriptor w a = Some (table_entry (4096 * k)).
Proof.
  intros Hw. unfold descriptor. rewrite Hw. cbn. rewrite table_entry_sum, land_3.
  rewrite (proj2 (Z.eqb_eq _ _)); [done|]. Z.div_mod_to_equations; lia.
Qed.

Lemma walk_tables w L1 L2 L3 leaf ipa :
  tables w L1 L2 L3 leaf → 0 ≤ L2 → L2 + 4 ≤ L3 → L3 + 2048 ≤ 2 ^ 36 → 0 ≤ ipa < 2 ^ 32 →
  leaf (ipa / 4096) mod 4 = 3 →
  stage2_walk w L1 ipa = Some (leaf (ipa / 4096)).
Proof.
  intros [H1 H2 H3] HL2 HL23 HL3 Hi Hleaf. unfold stage2_walk. rewrite !get_field_div by lia.
  change (2 ^ 30) with 1073741824. change (2 ^ 21) with 2097152. change (2 ^ 12) with 4096.
  change (2 ^ 9) with 512. change (2 ^ 2) with 4.
  rewrite (descriptor_table _ _ (L2 + ipa / 1073741824 mod 4)).
  2:{ apply H1. Z.div_mod_to_equations; lia. }
  cbn -[next_table descriptor]. rewrite next_table_entry by (Z.div_mod_to_equations; lia).
  assert (Hq : 0 ≤ ipa / 2097152 < 2048) by (Z.div_mod_to_equations; lia).
  rewrite (descriptor_table _ _ (L3 + ipa / 2097152)).
  2:{ rewrite <- H2 by done. f_equal. Z.div_mod_to_equations; lia. }
  cbn -[next_table descriptor]. rewrite next_table_entry by lia.
  assert (Hp : 0 ≤ ipa / 4096 < 2 ^ 20) by (Z.div_mod_to_equations; lia).
  unfold descriptor.
  replace (4096 * (L3 + ipa / 2097152) + 8 * ((ipa / 4096) mod 512)) with (4096 * L3 + 8 * (ipa / 4096))
    by (Z.div_mod_to_equations; lia).
  rewrite H3 by done. cbn. rewrite land_3. by rewrite Hleaf.
Qed.

Lemma page_entry_valid k : 0 ≤ k < 2 ^ 36 → page_entry (4096 * k) mod 4 = 3.
Proof.
  intros Hk. rewrite page_entry_sum by done. unfold attributes.
  destruct (isInMemory _); Z.div_mod_to_equations; lia.
Qed.

(** ** Bit fields *)

Lemma get_set_field lo w v bits :
  0 ≤ lo → 0 ≤ w → get_field lo w (set_field lo w v bits) = v .& Z.ones w.
Proof.
  intros Hlo Hw. unfold get_field, set_field. zbitwise. rewrite Z.add_simpl_r.
  destruct (decide (i < w)).
  - rewrite Z.ones_spec_low by lia. cbn. by rewrite andb_false_r, !andb_true_r.
  - rewrite Z.ones_spec_high by lia. by rewrite !andb_false_r.
Qed.
Lemma get_set_field_ne lo w lo' w' v bits :
  0 ≤ lo → 0 ≤ w → 0 ≤ lo' → 0 ≤ w' → lo + w ≤ lo' ∨ lo' + w' ≤ lo →
  get_field lo w (set_field lo' w' v bits) = get_field lo w bits.
Proof.
  intros Hlo Hw Hlo' Hw' Hd. unfold get_field, set_field. zbitwise.
  destruct (decide (i < w)); [|rewrite (Z.ones_spec_high w i) by lia; by rewrite !andb_false_r].
  rewrite (Z.ones_spec_low w i) by lia. rewrite !andb_true_r.
  assert (Z.testbit (Z.ones w') (i + lo - lo') = false) as ->.
  { destruct (decide (i + lo - lo' < 0)); [by apply Z.testbit_neg_r|]. apply Z.ones_spec_high. lia. }
  by rewrite andb_true_r, andb_false_r, orb_false_r.
Qed.
Lemma set_field_range lo w v bits n :
  0 ≤ lo → 0 ≤ w → lo + w ≤ n → 0 ≤ bits < 2 ^ n → 0 ≤ set_field lo w v bits < 2 ^ n.
Proof.
  intros Hlo Hw Hn Hb. assert (set_field lo w v bits = set_field lo w v bits mod 2 ^ n) as ->;
    [|apply Z.mod_pos_bound; lia].
  unfold set_field. zbitwise. destruct (decide (i < n)) as [Hlt|Hge].
  - rewrite (Z.mod_pow2_bits_low _ n i) by lia. autorewrite with zbits. done.
  - rewrite (Z.mod_pow2_bits_high _ n i) by lia. rewrite (testbit_small bits n) by lia.
    rewrite (Z.ones_spec_high w (i - lo)) by lia. by rewrite andb_false_r.
Qed.

(** A descriptor without the rights to read and write. *)
Definition no_access (d : Z) : Z := p2m_write 0 (p2m_read 0 d).
Definition trapped (t : translation) : translation := {|
  tr_pa := tr_pa t; tr_read := false; tr_write := false; tr_execute := tr_execute t;
  tr_accessed := tr_accessed t; tr_mattr := tr_mattr t |}.

Lemma no_access_field lo w d :
  0 ≤ lo → 0 ≤ w → lo + w ≤ 6 ∨ 8 ≤ lo → get_field lo w (no_access d) = get_field lo w d.
Proof.
  intros Hlo Hw Hd. unfold no_access, p2m_write, p2m_read. by rewrite !get_set_field_ne by lia.
Qed.
Lemma decode_no_access ipa d : decode ipa (no_access d) = trapped (decode ipa d).
Proof.
  unfold decode, trapped. cbn [tr_pa tr_execute tr_accessed tr_mattr]. unfold next_table.
  rewrite (no_access_field 12), (no_access_field 54), (no_access_field 10), (no_access_field 2) by lia.
  assert (get_field 6 1 (no_access d) = 0) as ->.
  { unfold no_access, p2m_write. rewrite get_set_field_ne by lia. unfold p2m_read.
    by rewrite get_set_field by lia. }
  assert (get_field 7 1 (no_access d) = 0) as ->; [|done].
  unfold no_access, p2m_write. by rewrite get_set_field by lia.
Qed.
Lemma no_access_valid d : no_access d mod 4 = d mod 4.
Proof.
  pose proof (no_access_field 0 2 d ltac:(lia) ltac:(lia) ltac:(lia)) as Hf.
  rewrite !get_field_div in Hf by lia. change (2 ^ 0) with 1 in Hf. by rewrite !Z.div_1_r in Hf.
Qed.
Lemma no_access_range d : 0 ≤ d < 2 ^ 64 → 0 ≤ no_access d < 2 ^ 64.
Proof. intros Hd. unfold no_access. do 2 (apply set_field_range; [lia..|]). done. Qed.

(** * The stages of the construction *)

(** The page numbers of the roots, and the memory the tables take. *)
Definition L2_page (a : Z) : Z := (a + 4128) / 4096.
Definition L3_page (a : Z) : Z := L2_page a + 4.
Definition ept_space (w : gmap Z Z) (a : Z) : Prop := layout w a (L2_page a) (L3_page a).
(** An address outside the three levels. *)
Definition outside_ept (a i : Z) : Prop :=
  outside a 4 i ∧ outside (4096 * L2_page a) (2048 + 2 ^ 20) i.

Lemma L2_root_page a : L2_root_of a = 4096 * L2_page a.
Proof.
  unfold L2_root_of, L2_page. change (1 << 12) with 4096. change 0xFFF with (Z.ones 12).
  rewrite <- Z.ldiff_land, Z.ldiff_ones_r, Z.shiftl_mul_pow2, Z.shiftr_div_pow2 by lia.
  change (2 ^ 12) with 4096. change LPAE_L1_SIZE with 4.
  replace (a + 8 * 4 + 4096) with (a + 4128) by lia. lia.
Qed.
Lemma L3_root_page a : L3_root_of a = 4096 * L3_page a.
Proof. unfold L3_root_of, L3_page. rewrite L2_root_page. change LPAE_L2_SIZE with 2048. lia. Qed.

(** The tables from [a] on are built, the leaves being [leaf], and the roots and
    the register point at them. *)
Record ept_built (e : ept) (a : Z) (leaf : Z → Z) : Prop := {
  eb_space : ept_space (words e) a;
  eb_tables : tables (words e) a (L2_page a) (L3_page a) leaf;
  eb_L3 : ept_L3_root e = 4096 * L3_page a;
  eb_vttbr : vttbr e = a;
  eb_line : 0 < cacheline_bytes e;
  eb_leaf : ∀ p, 0 ≤ p < 2 ^ 20 → 0 ≤ leaf p < 2 ^ 64 ∧ leaf p mod 4 = 3;
}.
(** The entries the handlers look up. *)
Lemma built_entry e a leaf ipa :
  ept_built e a leaf → 0 ≤ ipa < 2 ^ 32 → word_at (words e) (ept_L3_root e + 8 * (ipa >> 12)).
Proof.
  intros [_ Ht -> _ _ _] Hi. rewrite Z.shiftr_div_pow2 by lia. eexists. apply (ta_3 _ _ _ _ _ Ht).
  change (2 ^ 12) with 4096. change (2 ^ 20) with 1048576. change (2 ^ 32) with 4294967296 in Hi.
  Z.div_mod_to_equations; lia.
Qed.
#[export] Instance ept_built_proper e a :
  Proper (pointwise_relation Z eq ==> iff) (ept_built e a).
Proof.
  assert (Himp : ∀ f g, pointwise_relation Z eq f g → ept_built e a f → ept_built e a g).
  { intros f g Hfg [? [? ? H3] ? ? ? Hl]. constructor; try done; [constructor; try done|];
      intros p; rewrite <- Hfg; auto. }
  intros f g Hfg. split; apply Himp; [done|by symmetry].
Qed.

Lemma built_walk e a leaf ipa :
  ept_built e a leaf → 0 ≤ ipa < 2 ^ 32 →
  translate (words e) (vttbr e) ipa = Some (decode ipa (leaf (ipa / 4096))).
Proof.
  intros [[_ H23 Hmax H0 _ _ _] Ht _ -> _ Hl] Hi. unfold translate.
  assert (0 ≤ ipa / 4096 < 2 ^ 20) as Hp by (Z.div_mod_to_equations; lia).
  unfold L3_page in *.
  rewrite (walk_tables _ _ _ _ _ _ Ht); [done| |lia..|by apply Hl].
  unfold L2_page. Z.div_mod_to_equations; lia.
Qed.

Lemma set_words_same e w : same_rest e (set_words w e) → dom w = dom (words e).
Proof. by intros (_ & _ & _ & _ & ?). Qed.

Lemma guest_ept_init_ok fuel2 a e :
  ept_space (words e) a → (4096 < fuel2)%nat → 0 < cacheline_bytes e →
  wp (guest_ept_init fuel2 a)
     (λ _ e', ept_built e' a (λ p, page_entry (4096 * p)) ∧
        ∀ i, outside_ept a i → words e' !! i = words e !! i) e.
Proof.
  intros Hs Hf Hc. unfold guest_ept_init. do 8 wp_step.
  rewrite L2_root_page, L3_root_page.
  eapply wp_mono; [apply (l1_loop_ok _ _ _ (L2_page a) (L3_page a) 0); [lia|cbn; lia|done|done|done|done|done]|].
  intros _ e1 (Hsame & H1 & H2 & H3 & Ho). cbn [words set_roots ept_print] in *. wp_step.
  pose proof Hsame as (_ & _ & _ & Hline & _). cbn [cacheline_bytes set_roots ept_print] in Hline.
  eapply wp_mono; [apply apply_ept_ok; [congruence|done]|]. intros _ ? ->. wp_step. split.
  - constructor; cbn [words set_vttbr ept_L3_root vttbr cacheline_bytes].
    + apply (layout_same _ _ _ _ _ Hsame). done.
    + constructor; [done| |].
      * intros q Hq. apply H2. lia.
      * intros p Hp. apply H3. lia.
    + by destruct Hsame as (_ & -> & _).
    + done.
    + congruence.
    + intros p Hp. split; [apply page_entry_word|apply page_entry_valid]; lia.
  - intros i [Hi1 Hi2]. unfold outside, L3_page in *. apply Ho; unfold L3_page; lia.
Qed.

Lemma get_ept_entry_page e a leaf gpa (Q : Z → ept → Prop) :
  ept_built e a leaf → Q (4096 * L3_page a + 8 * (gpa / 4096)) e → wp (get_ept_entry gpa) Q e.
Proof.
  intros Hb HQ. unfold get_ept_entry. wp_step. rewrite (eb_L3 _ _ _ Hb), Z.shiftr_div_pow2 by lia.
  exact HQ.
Qed.

(** Storing a valid descriptor into a leaf. *)
Lemma built_store e a leaf p d :
  ept_built e a leaf → 0 ≤ p < 2 ^ 20 → 0 ≤ d < 2 ^ 64 → d mod 4 = 3 →
  ept_built (set_words (<[4096 * L3_page a + 8 * p := d]> (words e)) e) a
    (λ q, if q =? p then d else leaf q).
Proof.
  intros [Hs [H1 H2 H3] HL3 Hv Hc Hl] Hp Hd Hd4. pose proof Hs as [H12 H23 _ _ _ _ _].
  unfold L3_page in H23. constructor; try done.
  - apply (layout_same e); [|done]. apply same_rest_store. eexists. by apply H3.
  - constructor; cbn [words set_words].
    + intros j Hj. rewrite lookup_insert_ne by (unfold L3_page; lia). by apply H1.
    + intros q Hq. rewrite lookup_insert_ne by (unfold L3_page; lia). by apply H2.
    + intros q Hq. destruct (Z.eqb_spec q p) as [->|]; [apply lookup_insert_eq|].
      rewrite lookup_insert_ne by lia. by apply H3.
  - intros q Hq. destruct (q =? p); auto.
Qed.

Lemma trap_page_ok fuel2 e a leaf gpa :
  ept_built e a leaf → 0 ≤ gpa < 2 ^ 32 → (4096 < fuel2)%nat →
  wp (trap_page fuel2 gpa)
     (λ _ e', ept_built e' a (λ q, if q =? gpa / 4096 then no_access (leaf q) else leaf q)) e.
Proof.
  intros Hb Hg Hf. unfold trap_page. wp_step. eapply get_ept_entry_page; [done|]. wp_step.
  set (p := gpa / 4096). assert (Hp : 0 ≤ p < 2 ^ 20) by (subst p; Z.div_mod_to_equations; lia).
  destruct (eb_leaf _ _ _ Hb p Hp) as [Hr Hm].
  assert (Hw : words e !! (4096 * L3_page a + 8 * p) = Some (leaf p))
    by (by apply (ta_3 _ _ _ _ _ (eb_tables _ _ _ Hb))).
  eapply wp_load64; [exact Hw|]. wp_step. eapply wp_store64; [by eexists|]. wp_step.
  rewrite u64_small by (apply set_field_range; lia).
  eapply wp_load64; [cbn [words set_words]; apply lookup_insert_eq|]. wp_step.
  eapply wp_store64; [cbn [words set_words]; eexists; apply lookup_insert_eq|]. wp_step.
  rewrite u64_small by (apply no_access_range; lia). cbn [words set_words].
  rewrite insert_insert_eq.
  eapply wp_mono; [apply apply_ept_ok; [apply Hb|done]|]. intros _ ? ->.
  eapply ept_built_proper; [|apply (built_store e a leaf p (no_access (leaf p))); try done].
  - intros q. cbn beta. destruct (Z.eqb_spec q p) as [->|]; done.
  - by apply no_access_range.
  - by rewrite no_access_valid.
Qed.

(** The leaves after the pages of [area] have been trapped. *)
Definition trap_leaf (lo n : Z) (leaf : Z → Z) (q : Z) : Z :=
  if (lo <=? q) && (q <? lo + n) then no_access (leaf q) else leaf q.

Lemma mmio_map_loop_ok fuel fuel2 e a leaf area i :
  ept_built e a (trap_leaf (area / 4096) i leaf) → area mod 4096 = 0 → 0 ≤ area → area + 2 ^ 16 ≤ 2 ^ 32 →
  0 ≤ i ≤ 16 → 16 - i < Z.of_nat fuel → (4096 < fuel2)%nat →
  wp (mmio_map_loop fuel fuel2 area i) (λ _ e', ept_built e' a (trap_leaf (area / 4096) 16 leaf)) e.
Proof.
  intros Hb Hal Ha0 Ha1 Hi Hf Hf2. revert e i Hb Hi Hf.
  induction fuel as [|k IH]; intros e i Hb Hi Hf; [lia|]. cbn [mmio_map_loop].
  destruct (Z.ltb_spec i 16) as [Hlt|Hge].
  - wp_step. eapply wp_mono; [apply (trap_page_ok _ _ _ _ _ Hb); [lia|done]|]. intros ? e1 Hb1.
    apply IH; [|lia|lia]. eapply ept_built_proper; [|exact Hb1]. intros q. unfold trap_leaf.
    assert ((area + 0x1000 * i) / 4096 = area / 4096 + i) as -> by (Z.div_mod_to_equations; lia).
    destruct (Z.eqb_spec q (area / 4096 + i)) as [->|].
    + by rewrite (proj2 (Z.leb_le _ _)), (proj2 (Z.ltb_lt _ _)), (proj2 (Z.ltb_ge _ _)) by lia.
    + destruct (Z.leb_spec (area / 4096) q), (Z.ltb_spec q (area / 4096 + (i + 1))),
        (Z.ltb_spec q (area / 4096 + i)); done || lia.
  - wp_step. by assert (i = 16) as -> by lia.
Qed.

(** Trapping the 16 pages of an aligned area. *)
Lemma mmio_map_ok fuel2 e a leaf area :
  ept_built e a leaf → area mod 4096 = 0 → 0 ≤ area → area + 2 ^ 16 ≤ 2 ^ 32 → (4096 < fuel2)%nat →
  wp (mmio_map_loop 17 fuel2 area 0) (λ _ e', ept_built e' a (trap_leaf (area / 4096) 16 leaf)) e.
Proof.
  intros Hb ????. apply mmio_map_loop_ok; try done; try lia.
  eapply ept_built_proper; [|exact Hb]. intros q. unfold trap_leaf.
  destruct (Z.leb_spec (area / 4096) q), (Z.ltb_spec q (area / 4096 + 0)); done || lia.
Qed.

(** C22: [guest_ept_init] builds an identity map of the guest's 4 GB: walking the
    tables it leaves in [VTTBR_EL2], every address translates to itself with
    read and write rights; guest memory is executable and cached, device memory
    is neither.  It changes no word outside the three levels of tables. *)
Theorem guest_ept_init_correct fuel2 a e :
  ept_space (words e) a → (4096 < fuel2)%nat → 0 < cacheline_bytes e →
  wp (guest_ept_init fuel2 a)
     (λ _ e', (∀ ipa, 0 ≤ ipa < 2 ^ 32 →
          translate (words e') (vttbr e') ipa = Some (identity_map ipa)) ∧
        ∀ i, outside_ept a i → words e' !! i = words e !! i) e.
Proof.
  intros Hs Hf Hc. eapply wp_mono; [by apply guest_ept_init_ok|]. intros _ e' [Hb Ho].
  split; [|done]. intros ipa Hi. rewrite (built_walk _ _ _ _ Hb Hi). by rewrite decode_page_entry.
Qed.

(** After [mmio_map_gicd] and [mmio_map_gicc] exactly the accesses to the
    distributor and to the CPU interface (the 128 KB from [GICD_BASE_ADDR] on)
    trap: they have lost the rights to read and write, and every other address
    translates as before. *)
Lemma mmio_map_traps fuel2 a e :
  ept_space (words e) a → (4096 < fuel2)%nat → 0 < cacheline_bytes e →
  wp (guest_ept_init fuel2 a;; mmio_map_gicd fuel2;; mmio_map_gicc fuel2)
     (λ _ e', ∀ ipa, 0 ≤ ipa < 2 ^ 32 →
        translate (words e') (vttbr e') ipa =
          Some (if (GICD_BASE_ADDR <=? ipa) && (ipa <? GICC_BASE_ADDR + 0x10000)
                then trapped (identity_map ipa) else identity_map ipa)) e.
Proof.
  intros Hs Hf Hc. wp_step. eapply wp_mono; [by apply guest_ept_init_ok|]. intros _ e1 [Hb1 _].
  unfold mmio_map_gicd, mmio_map_gicc. wp_step.
  eapply wp_mono; [apply (mmio_map_ok _ _ _ _ _ Hb1); unfold MMIO_AREA_GICD; [done|lia|lia|exact Hf]|].
  intros ? e2 Hb2.
  eapply wp_mono; [apply (mmio_map_ok _ _ _ _ _ Hb2); unfold MMIO_AREA_GICC; [done|lia|lia|exact Hf]|].
  intros ? e3 Hb3 ipa Hi. rewrite (built_walk _ _ _ _ Hb3 Hi). f_equal. unfold trap_leaf.
  change (MMIO_AREA_GICC / 4096) with 32784. change (MMIO_AREA_GICD / 4096) with 32768.
  rewrite <- decode_page_entry by done. unfold GICD_BASE_ADDR, GICC_BASE_ADDR.
  assert (Hd : ipa = 4096 * (ipa / 4096) + ipa mod 4096 ∧ 0 ≤ ipa mod 4096 < 4096)
    by (Z.div_mod_to_equations; lia).
  set (p := ipa / 4096) in *.
  destruct (Z.leb_spec 0x8000000 ipa), (Z.ltb_spec ipa (0x8010000 + 0x10000)),
    (Z.leb_spec 32784 p), (Z.ltb_spec p (32784 + 16)), (Z.leb_spec 32768 p), (Z.ltb_spec p (32768 + 16));
    cbn [andb]; try lia; try done; apply decode_no_access.
Qed.

(** A memory of words, for the witnesses. *)
Definition zeroed (n : Z) : gmap Z Z := list_to_map ((λ i, (8 * i, 0)) <$> seqZ 0 n).
Definition ept_example : ept :=
  {| words := zeroed 2099712; ept_L2_root := 0; ept_L3_root := 0; vttbr := 0; cacheline_bytes := 64;
     ept_log := [] |}.
Lemma zeroed_mapped n k m : 0 ≤ k → k + m ≤ n → words_mapped (zeroed n) (8 * k) m.
Proof.
  intros Hk Hm i Hi. unfold word_at, zeroed. rewrite <- elem_of_dom, dom_list_to_map_L.
  rewrite <- list_fmap_compose, elem_of_list_to_set, list_elem_of_fmap. exists (k + i).
  rewrite elem_of_seqZ. cbn. lia.
Qed.
#[local] Opaque zeroed.
Lemma ept_example_space : ept_space (words ept_example) 0.
Proof.
  unfold ept_space, L3_page. change (L2_page 0) with 1. cbn [words ept_example]. constructor; try lia;
    [apply (zeroed_mapped _ 0)|apply (zeroed_mapped _ 512)|apply (zeroed_mapped _ 2560)]; lia.
Qed.

Lemma guest_ept_init_witness :
  wp (guest_ept_init 4097 0)
     (λ _ e', (∀ ipa, 0 ≤ ipa < 2 ^ 32 →
          translate (words e') (vttbr e') ipa = Some (identity_map ipa)) ∧
        ∀ i, outside_ept 0 i → words e' !! i = words ept_example !! i) ept_example.
Proof. apply guest_ept_init_correct; [apply ept_example_space|lia|cbn; lia]. Defined.
Lemma mmio_map_example :
  wp (guest_ept_init 4097 0;; mmio_map_gicd 4097;; mmio_map_gicc 4097)
     (λ _ e', ∀ ipa, 0 ≤ ipa < 2 ^ 32 →
        translate (words e') (vttbr e') ipa =
          Some (if (GICD_BASE_ADDR <=? ipa) && (ipa <? GICC_BASE_ADDR + 0x10000)
                then trapped (identity_map ipa) else identity_map ipa)) ept_example.
Proof. apply mmio_map_traps; [apply ept_example_space|lia|cbn; lia]. Defined.

(** * The data aborts of the guest *)

Section abort_correct.
Context {D : Type} `{Device D}.

(** What an access of the CPU interface does: it is made at the same offset of
    the virtual CPU interface, with all 8 bytes of the register, except that
    register 30 is neither read nor written. *)
Definition gicc_access (info : ept_violation_info) (f : trap_frame) (d : D) : trap_frame * D :=
  let a := gpa info + 0x30000 in
  let n := dabt_reg (hsr info) in
  if truthy (dabt_write (hsr info)) then
    (f, if n =? 30 then d else wr64 (u64 (default 0 (r f !! Z.to_nat n))) a d)
  else
    (if n =? 30 then f else set_reg (Z.to_nat n) (fst (rd64 a d)) f, snd (rd64 a d)).

Lemma wp_read64 a (Q : Z → mach D → Prop) s :
  Q (fst (rd64 a (dev s))) (Build_mach (snd (rd64 a (dev s))) (log s) (irq_nr s)) → wp (read64 a) Q s.
Proof. intros HQ. unfold wp, read64. by destruct (rd64 a (dev s)). Qed.
Lemma wp_write64 v a (Q : unit → mach D → Prop) s :
  Q tt (Build_mach (wr64 (u64 v) a (dev s)) (log s) (irq_nr s)) → wp (write64 v a) Q s.
Proof. done. Qed.

Lemma read_reg_ok f n (Q : Z → mach D → Prop) s :
  frame_ok f → 0 ≤ n < 31 → Q (default 0 (r f !! Z.to_nat n)) s → wp (read_reg f n) Q s.
Proof.
  intros Hf Hn HQ. unfold read_reg. apply wp_deref. destruct (r f !! Z.to_nat n) as [v|] eqn:Hv; [eauto|].
  exfalso. apply lookup_ge_None in Hv. unfold frame_ok, NUM_REGS in Hf. lia.
Qed.

Lemma handle_mmio_ok info f s :
  frame_ok f → dabt_reg (hsr info) < 31 →
  wp (handle_mmio (set_gpa (gpa info + 0x30000) info) f)
     (λ f' s', (f', dev s') = gicc_access info f (dev s)) s.
Proof.
  intros Hf Hr. pose proof (dabt_reg_range (hsr info)). unfold handle_mmio, gicc_access. cbn [hsr set_gpa gpa].
  destruct (truthy (dabt_write (hsr info))).
  - destruct (Z.eqb_spec (dabt_reg (hsr info)) 30); cbn [negb]; [by wp_step|].
    wp_step. apply read_reg_ok; [done|lia|]. wp_step. apply wp_write64. by wp_step.
  - wp_step. apply wp_read64. destruct (Z.eqb_spec (dabt_reg (hsr info)) 30); cbn [negb]; [by wp_step|].
    wp_step. apply read_reg_ok; [done|lia|]. by wp_step.
Qed.

Definition in_gicc (a : Z) : Prop := GICC_BASE_ADDR < a ≤ GICC_BASE_ADDR + 0x10000.

Lemma data_abort_handler_ok info f (s : ept * mach D) :
  word_at (words (fst s)) (ept_L3_root (fst s) + 8 * (gpa info >> 12)) → frame_ok f →
  (in_gicc (gpa info) → dabt_reg (hsr info) < 31) →
  gpa info < GICD_BASE_ADDR ∨ GICC_BASE_ADDR ≤ gpa info →
  wp (data_abort_handler info f)
     (λ f' s', fst s' = fst s ∧
        (in_gicc (gpa info) → (f', dev (snd s')) = gicc_access info f (dev (snd s))) ∧
        (¬ in_gicc (gpa info) → f' = f ∧ dev (snd s') = dev (snd s))) s.
Proof.
  intros [d Hd] Hf Hr Ho. destruct s as [e m]. cbn [fst snd] in *. unfold data_abort_handler. wp_step.
  unfold get_ept_entry. wp_step. eapply wp_load64; [exact Hd|].
  unfold in_gicc, GICC_BASE_ADDR, GICD_BASE_ADDR in *.
  destruct (decide (gpa info = 0x8010000)) as [He|He].
  - assert ((134217728 <=? gpa info) && (gpa info <=? 134217728 + 65536) = true) as -> by lia.
    wp_step. assert (Hi : wp (intc_handler info f) (λ _ m', dev m' = dev m) m).
    { unfold intc_handler. rewrite He. by destruct (truthy (dabt_write (hsr info))). }
    eapply wp_mono; [exact Hi|]. cbn beta. intros _ m' Hm. wp_step. cbn [fst snd].
    split_and!; [done|lia|done].
  - assert ((134217728 <=? gpa info) && (gpa info <=? 134217728 + 65536) = false) as -> by lia.
    destruct ((134283264 <=? gpa info) && (gpa info <=? 134283264 + 65536)) eqn:Hc; wp_step.
    + eapply wp_mono; [apply handle_mmio_ok; [done|apply Hr; lia]|]. intros f' m' Hm. cbn [fst snd].
      split_and!; [done|done|lia].
    + cbn [fst snd]. split_and!; [done|lia|done].
Qed.

(** Register 31 of the syndrome, the zero register, has no place in the frame. *)
Lemma data_abort_handler_r31 info f (s : ept * mach D) :
  word_at (words (fst s)) (ept_L3_root (fst s) + 8 * (gpa info >> 12)) → frame_ok f →
  in_gicc (gpa info) → dabt_reg (hsr info) = 31 → data_abort_handler info f s = Fault.
Proof.
  intros [d Hd] Hf Hg Hr. destruct s as [e m]. cbn [fst snd] in *. unfold frame_ok, NUM_REGS in Hf.
  assert (Hl : r f !! 31%nat = None) by (apply lookup_ge_None; lia).
  unfold in_gicc, GICC_BASE_ADDR in Hg.
  assert (Hfault : handle_mmio (set_gpa (gpa info + 0x30000) info) f m = Fault).
  { unfold handle_mmio, read_reg. cbn [hsr set_gpa gpa]. rewrite Hr. cbn [Z.eqb Pos.eqb negb].
    change (Z.to_nat 31) with 31%nat. rewrite Hl. cbn. destruct (truthy _); [done|].
    unfold mbind, St_bind, read64. by destruct (rd64 (gpa info + 0x30000) (dev m)). }
  unfold data_abort_handler, GICD_BASE_ADDR, GICC_BASE_ADDR, mbind, St_bind, on_part, get_ept_entry, load64, gets, get,
    mbind, St_bind, mret, St_ret. cbn [fst snd]. rewrite Hd. cbn [deref mret St_ret fst snd].
  assert ((134217728 <=? gpa info) && (gpa info <=? 134217728 + 65536) = false) as -> by lia.
  assert ((134283264 <=? gpa info) && (gpa info <=? 134283264 + 65536) = true) as -> by lia.
  cbn [andb snd]. by rewrite Hfault.
Qed.

(** An access to the distributor, its end included, goes to the emulation. *)
Lemma data_abort_gicd_ok info f (R : mach D → Prop) (s : ept * mach D) :
  word_at (words (fst s)) (ept_L3_root (fst s) + 8 * (gpa info >> 12)) →
  GICD_BASE_ADDR ≤ gpa info ≤ GICD_BASE_ADDR + 0x10000 →
  wp (intc_handler info f) (λ _ m', R m') (snd s) →
  wp (data_abort_handler info f) (λ f' s', f' = f ∧ fst s' = fst s ∧ R (snd s')) s.
Proof.
  intros [d Hd] Hg Hw. destruct s as [e m]. cbn [fst snd] in *. unfold data_abort_handler. wp_step.
  unfold get_ept_entry. wp_step. eapply wp_load64; [exact Hd|].
  assert ((GICD_BASE_ADDR <=? gpa info) && (gpa info <=? GICD_BASE_ADDR + 0x0010000) = true) as -> by lia.
  wp_step. eapply wp_mono; [exact Hw|]. intros ? m' Hm. by wp_step.
Qed.

(** C24: the data aborts beside the distributor.  An access to the CPU interface
    after its first byte is made on the virtual CPU interface instead
    ([gicc_access]): from the registers 0 to 29 all 8 bytes are stored, and into them
    they are loaded, whatever the size of the access; of register 30, which the code
    leaves out, a store is dropped and a load is made but its value dropped; for
    register 31, the zero register, the code accesses the array of the registers
    behind its end, which is a fault.  The first register of the CPU interface,
    [GICC_CTLR], is taken for one of the distributor, and the access to it is dropped
    whatever the register; nothing is done for any other address.  The tables never
    change. *)
Theorem data_abort_handler_correct info f (s : ept * mach D) :
  word_at (words (fst s)) (ept_L3_root (fst s) + 8 * (gpa info >> 12)) → frame_ok f →
  gpa info < GICD_BASE_ADDR ∨ GICC_BASE_ADDR ≤ gpa info →
  (dabt_reg (hsr info) < 31 ∨ ¬ in_gicc (gpa info) →
     wp (data_abort_handler info f)
        (λ f' s', fst s' = fst s ∧
           (in_gicc (gpa info) → (f', dev (snd s')) = gicc_access info f (dev (snd s))) ∧
           (¬ in_gicc (gpa info) → f' = f ∧ dev (snd s') = dev (snd s))) s) ∧
  (in_gicc (gpa info) → dabt_reg (hsr info) = 31 → data_abort_handler info f s = Fault).
Proof.
  intros Hw Hf Ho. split; [|by apply data_abort_handler_r31].
  intros Hr. apply data_abort_handler_ok; [done..|tauto|done].
Qed.
End abort_correct.

(** A read of the interrupt acknowledge register into [x3], or another one, on the
    example device. *)
Definition abort_info (n : Z) : ept_violation_info :=
  {| hsr := n << 16; reason := 1; gva := 0; gpa := GICC_IAR |}.
Definition abort_frame : trap_frame :=
  {| r := replicate NUM_REGS 0; usp := 0; elr := 0; spsr := 0 |}.
Definition abort_state : ept * mach gic_dev :=
  ({| words := {[ 8 * (GICC_IAR >> 12) := 3 ]}; ept_L2_root := 0; ept_L3_root := 0; vttbr := 0;
      cacheline_bytes := 64; ept_log := [] |},
   {| dev := {| g_en := λ _, false; g_pri := λ _, 0; g_lr := λ _, 0; g_iar := 30 |};
      log := []; irq_nr := 0 |}).
Lemma data_abort_handler_witness :
  in_gicc GICC_IAR ∧
  wp (data_abort_handler (abort_info 3) abort_frame)
     (λ f' s', (f', dev (snd s')) = gicc_access (abort_info 3) abort_frame (dev (snd abort_state))) abort_state ∧
  data_abort_handler (abort_info 31) abort_frame abort_state = Fault.
Proof.
  split_and!; [done| |].
  - eapply wp_mono; [apply (data_abort_handler_correct (abort_info 3)); [by eexists|done|by right|by left]|].
    intros f' s' (_ & Hg & _). by apply Hg.
  - apply (data_abort_handler_correct (abort_info 31)); [by eexists|done|by right|done|reflexivity].
Defined.

(** * [gva_to_ipa]

    The address translation of the hardware is a function: what [PAR_EL1] holds
    after the instruction [at s1e1r] on an address. *)

Definition PAR_F : Z := 1 << 0.
Definition PADDR_MASK : Z := (1 << 40) - 1.
Definition PAGE_MASK : Z := 1 << 12.
(** -1 is [None]. *)
Definition gva_to_ipa (ats1 : Z → Z) (va : Z) : option Z :=
  let par := ats1 va in
  if truthy (par .& PAR_F) then None
  else Some ((par .& PADDR_MASK .& PAGE_MASK) .| (va .& Z.lnot PAGE_MASK)).

(** The mask is a single bit: of the translated address only bit 12 is kept, all
    the others are those of the virtual address. *)
Lemma gva_to_ipa_bit12 ats1 va :
  Z.testbit (ats1 va) 0 = false →
  ∃ pa, gva_to_ipa ats1 va = Some pa ∧
    ∀ i, 0 ≤ i → Z.testbit pa i = Z.testbit (if i =? 12 then ats1 va else va) i.
Proof.
  intros Hf. unfold gva_to_ipa, PAR_F. rewrite land_bit_test, Hf by done. eexists. split; [done|].
  intros i Hi. unfold PAGE_MASK, PADDR_MASK. change ((1 << 40) - 1) with (Z.ones 40).
  rewrite Z.lor_spec, !Z.land_spec, Z.lnot_spec, testbit_1_shiftl by lia.
  destruct (Z.eqb_spec i 12) as [->|]; [by rewrite Z.ones_spec_low, !andb_true_r, andb_false_r, orb_false_r by lia|].
  by rewrite andb_false_r, andb_true_r.
Qed.
