(* ===== verification/Page.v ===== *)
(** The first-stage page tables: [mem/page.c], with the registers the assembly of
    [mem/mmu.S] sets for them. *)

From S2P Require Import Prelude Config ByteMem Word StringLib Ept.

(** * Definitions *)

(** [include/mem/mmu.h] and [include/sys/tcr.h]. *)
Definition MA_DEVICE_nGnRnE : Z := 0.
Definition MA_MEMORY : Z := 1.
Definition MA_MEMORY_NoCache : Z := 2.
Definition MAIR_VALUE : Z :=
  (0x00 << (8 * MA_DEVICE_nGnRnE)) .| (0xFF << (8 * MA_MEMORY)) .| (0x44 << (8 * MA_MEMORY_NoCache)).
Definition AF : Z := 1 << 10.
Definition AP_EL0 : Z := 1 << 6.
Definition PTE_SH : Z := 3 << 8.
Definition PTE_RW : Z := 0 << 7.
Definition MM_TYPE_BLOCK : Z := 1.
Definition PTE_NORMAL_MEMORY : Z := MM_TYPE_BLOCK .| (MA_MEMORY << 2) .| PTE_SH .| AF .| PTE_RW.
Definition PTE_DEVICE_MEMORY : Z := MM_TYPE_BLOCK .| (MA_DEVICE_nGnRnE << 2) .| PTE_SH .| AF .| PTE_RW.
Definition TCR_T0SZ (x : Z) : Z := x .& 0x3F.
Definition TCR_T1SZ (x : Z) : Z := (x .& 0x3F) << 16.
Definition TCR_TG0 (x : Z) : Z := (x .& 3) << 14.
Definition TCR_TG1 (x : Z) : Z := (x .& 3) << 30.
Definition TCR_EL1 : Z := TCR_T0SZ (64 - 48) .| TCR_T1SZ (64 - 48) .| TCR_TG0 0 .| TCR_TG1 2.
Definition TCR_EL2 : Z := TCR_T0SZ (64 - 48) .| TCR_TG0 0.

(** [include/sys/sys.h], and an instruction that clears bits. *)
Definition SCTLR_EL1_M : Z := 1 << 0.
Definition SCTLR_EL1_A : Z := 1 << 1.
Definition SCTLR_EL1_C : Z := 1 << 2.
Definition SCTLR_EL1_SA : Z := 1 << 3.
Definition SCTLR_EL1_SA0 : Z := 1 << 4.
Definition SCTLR_EL1_nAA : Z := 1 << 6.
Definition SCTLR_EL1_I : Z := 1 << 12.
Definition bic (x m : Z) : Z := x .& Z.lnot m.
(** The macro [enable_mmu] of [mem/mmu.S]: the new value of the register. *)
Definition enable_mmu_bits (tmp : Z) : Z :=
  bic (bic (bic (tmp .| SCTLR_EL1_M) SCTLR_EL1_A) SCTLR_EL1_SA0) SCTLR_EL1_SA
    .| SCTLR_EL1_nAA .| SCTLR_EL1_C .| SCTLR_EL1_I.
Definition CTR_EL0_CWG_MASK : Z := 0xFF.

(** The memory of the tables, [cacheline_bytes], and the registers of a level. *)
Record paging := {
  pg_mem : mem;
  pg_line : Z;
  ctr_el0 : Z;
  ttbr0 : Z;
  ttbr1 : Z;
  tcr : Z;
  mair : Z;
  sctlr : Z;
}.
Definition set_pg_mem (m : mem) (s : paging) : paging :=
  {| pg_mem := m; pg_line := pg_line s; ctr_el0 := ctr_el0 s; ttbr0 := ttbr0 s; ttbr1 := ttbr1 s;
     tcr := tcr s; mair := mair s; sctlr := sctlr s |}.
Definition set_pg_line (v : Z) (s : paging) : paging :=
  {| pg_mem := pg_mem s; pg_line := v; ctr_el0 := ctr_el0 s; ttbr0 := ttbr0 s; ttbr1 := ttbr1 s;
     tcr := tcr s; mair := mair s; sctlr := sctlr s |}.
Definition set_regs (t0 t1 tc ma sc : Z) (s : paging) : paging :=
  {| pg_mem := pg_mem s; pg_line := pg_line s; ctr_el0 := ctr_el0 s; ttbr0 := t0; ttbr1 := t1;
     tcr := tc; mair := ma; sctlr := sc |}.
Definition on_pg_mem {A} (m : St mem A) : St paging A := on_part pg_mem set_pg_mem m.

Definition get_cache_line_size : St paging Z := s ← get; mret (u32 ((ctr_el0 s >> 0) .& CTR_EL0_CWG_MASK)).
Definition setup_cache : St paging unit := v ← get_cache_line_size; modify (set_pg_line v).

Section page.
(** Where the tables are; the value of [PXN], a shift of an [int] by 53, which the
    language leaves undefined; the fuel of [memset]. *)
Context (pt0 pt1 high_pt0 high_pt1 : Z) (PXN : Z) (fuel : nat).

Definition store_entry (table i v : Z) : St paging unit := on_pg_mem (store_le 8 (table + 8 * i) v).

Definition init_page_table : St paging unit :=
  setup_cache;;
  on_pg_mem (memset fuel pt0 0 (8 * 512));;
  on_pg_mem (memset fuel pt1 0 (8 * 512));;
  on_pg_mem (memset fuel high_pt0 0 (8 * 512));;
  on_pg_mem (memset fuel high_pt1 0 (8 * 512));;
  store_entry pt0 0 (u64 (pt1 + 3));;
  store_entry pt1 0 (0x00000000 .| PTE_DEVICE_MEMORY);;
  store_entry pt1 1 (0x40000000 .| PTE_NORMAL_MEMORY);;
  store_entry pt1 2 (0x80000000 .| PTE_NORMAL_MEMORY .| AP_EL0 .| u64 PXN);;
  store_entry pt1 3 (0xc0000000 .| PTE_NORMAL_MEMORY .| AP_EL0 .| u64 PXN);;
  store_entry high_pt0 0 (u64 (high_pt1 + 3));;
  store_entry high_pt1 0 (0x00000000 .| PTE_DEVICE_MEMORY);;
  store_entry high_pt1 1 (0x40000000 .| PTE_NORMAL_MEMORY);;
  store_entry high_pt1 2 (0x80000000 .| PTE_NORMAL_MEMORY);;
  store_entry high_pt1 3 (0xc0000000 .| PTE_NORMAL_MEMORY).

(** [init_mmu] and [init_mmu_el2] of [mem/mmu.S]: the registers they write, without
    the barriers; the second has only one table. *)
Definition init_mmu (x0 x1 : Z) : St paging unit :=
  modify (λ s, set_regs x0 x1 TCR_EL1 MAIR_VALUE (sctlr s .| 1 << 0) s).
Definition init_mmu_el2 (x0 : Z) : St paging unit :=
  modify (λ s, set_regs x0 (ttbr1 s) TCR_EL2 MAIR_VALUE (enable_mmu_bits (sctlr s)) s).
Definition enable_mmu : St paging unit := init_mmu pt0 high_pt0.
Definition enable_mmu_el2 : St paging unit := init_mmu_el2 pt0.
End page.

(** * The hardware

    A walk of 4 KB tables ([shift] is the number of address bits below the level):
    the last descriptor and the size of what it maps. *)
Definition word64 (m : mem) (a : Z) : option Z := read_le 8 m a.
Fixpoint s1_walk (levels : nat) (m : mem) (table va shift : Z) : option (Z * Z) :=
  match levels with
  | O => None
  | S k =>
      d ← word64 m (table + 8 * get_field shift 9 va);
      if d .& 3 =? 3 then
        if shift =? 12 then Some (d, 12) else s1_walk k m (next_table d) va (shift - 9)
      else if (d .& 3 =? 1) && ((shift =? 30) || (shift =? 21)) then Some (d, shift)
      else None
  end.

(** What an access finds: the address, whether EL0 has access, whether writing is
    forbidden, and the memory type. *)
Record s1_translation := { s1_pa : Z; s1_el0 : bool; s1_read_only : bool; s1_type : Z }.
Definition s1_decode (s : paging) (va d shift : Z) : s1_translation := {|
  s1_pa := get_field shift (48 - shift) d * 2 ^ shift + va mod 2 ^ shift;
  s1_el0 := get_field 6 1 d =? 1;
  s1_read_only := get_field 7 1 d =? 1;
  s1_type := get_field (8 * get_field 2 3 d) 8 (mair s) |}.

(** The two halves of the address space: the number of bits of each comes from
    [TCR], and a level 0 table is walked when it is 48.  An entry whose access flag
    is 0 faults. *)
Definition s1_translate (s : paging) (va : Z) : option s1_translation :=
  if negb (Z.testbit (sctlr s) 0) then None else
  let low := 64 - get_field 0 6 (tcr s) in
  let high := 64 - get_field 16 6 (tcr s) in
  root ← (if (va <? 2 ^ low) && (get_field 14 2 (tcr s) =? 0) && (low =? 48) then Some (ttbr0 s)
          else if (2 ^ 64 - 2 ^ high <=? va) && (get_field 30 2 (tcr s) =? 2) && (high =? 48) then Some (ttbr1 s)
          else None);
  '(d, shift) ← s1_walk 4 (pg_mem s) root va 39;
  if get_field 10 1 d =? 1 then Some (s1_decode s va d shift) else None.

(** What the kernel means by it: the first 4 GB where they are, and again at the top
    of the address space; the first of the four is devices, the others cached
    memory; EL0 reaches the last two, through the low half. *)
Definition page_map (va : Z) : option s1_translation :=
  let at_pa (pa : Z) (el0 : bool) :=
    if (0 <=? pa) && (pa <? 2 ^ 32) then
      Some {| s1_pa := pa; s1_el0 := el0 && (2 ^ 31 <=? pa); s1_read_only := false;
              s1_type := if pa <? 2 ^ 30 then 0x00 else 0xFF |}
    else None in
  if va <? 2 ^ 48 then at_pa va true else at_pa (va - (2 ^ 64 - 2 ^ 48)) false.

(** * The tables *)

(** Four pages of memory, apart. *)
Record page_space (m : mem) (pts : list Z) : Prop := {
  ps_mapped : Forall (λ p, mapped m p 4096) pts;
  ps_aligned : Forall (λ p, 0 ≤ p < 2 ^ 48 ∧ p mod 4096 = 0) pts;
  ps_apart : NoDup pts;
}.

(** The entries of a table: [f i] at index [i]. *)
Definition table_is (m : mem) (p : Z) (f : Z → Z) : Prop := ∀ i, 0 ≤ i < 512 → word64 m (p + 8 * i) = Some (f i).
(** A table whose first entries are [l] and whose others are 0. *)
Definition entries (l : list Z) (i : Z) : Z := default 0 (l !! Z.to_nat i).

Lemma mult_4096 p : p mod 4096 = 0 → p = 4096 * (p / 4096).
Proof. Z.div_mod_to_equations; lia. Qed.
Lemma pages_apart p q : p mod 4096 = 0 → q mod 4096 = 0 → p ≠ q → p + 4096 ≤ q ∨ q + 4096 ≤ p.
Proof. intros Hp Hq Hne. Z.div_mod_to_equations; lia. Qed.

(** Steps in one page, seen from that page and from another. *)
Lemma table_other m p q f a bs :
  p mod 4096 = 0 → q mod 4096 = 0 → p ≠ q → q ≤ a → a + Z.of_nat (length bs) ≤ q + 4096 →
  table_is m p f → table_is (write_bytes m a bs) p f.
Proof.
  intros Hp Hq Hne Ha1 Ha2 Ht i Hi. unfold word64. destruct (pages_apart p q Hp Hq Hne);
    (rewrite read_le_apart by lia; by apply Ht).
Qed.
Lemma table_zero m p : table_is (write_bytes m p (replicate 4096 0)) p (entries []).
Proof. intros i Hi. apply read_le_zero; lia. Qed.
Lemma table_store m p l v :
  (length l < 512)%nat → 0 ≤ v < 2 ^ 64 → table_is m p (entries l) →
  table_is (write_bytes m (p + 8 * Z.of_nat (length l)) (le_bytes 8 v)) p (entries (l ++ [v])).
Proof.
  intros Hl Hv Ht i Hi. unfold word64, entries. destruct (decide (i = Z.of_nat (length l))) as [->|Hne].
  - rewrite read_le_same, Nat2Z.id, list_lookup_middle by done. cbn [default]. f_equal.
    apply Z.mod_small. exact Hv.
  - rewrite read_le_apart by (rewrite length_le_bytes; lia). fold (word64 m (p + 8 * i)). rewrite Ht by done.
    unfold entries. f_equal. destruct (decide (i < Z.of_nat (length l))).
    + by rewrite lookup_app_l by lia.
    + rewrite !lookup_ge_None_2; [done|rewrite length_app; simpl; lia|lia].
Qed.

Section build.
Context (fuel : nat) (pts : list Z) (s0 : paging).

(** The tables written so far, with their first entries; the other pages of [pts]
    are still to come; nothing else has changed. *)
Record building (T : gmap Z (list Z)) (s : paging) : Prop := {
  bu_space : page_space (pg_mem s) pts;
  bu_pages : ∀ p l, T !! p = Some l → p ∈ pts ∧ table_is (pg_mem s) p (entries l);
  bu_rest : ∀ a, Forall (λ p, a < p ∨ p + 4096 ≤ a) pts → pg_mem s !! a = pg_mem s0 !! a;
  bu_regs : s = set_pg_mem (pg_mem s) s0;
}.

Lemma building_write T s q a bs l :
  building T s → q ∈ pts → q ≤ a → a + Z.of_nat (length bs) ≤ q + 4096 →
  table_is (write_bytes (pg_mem s) a bs) q (entries l) →
  building (<[q := l]> T) (set_pg_mem (write_bytes (pg_mem s) a bs) s).
Proof using Type.
  intros [[Hm Ha Hd] Hp Hr Hs] Hq Ha1 Ha2 Ht. constructor; cbn [pg_mem set_pg_mem].
  - constructor; [|done..]. eapply Forall_impl; [exact Hm|]. intros p. apply mapped_write_bytes.
  - intros p l' Hl. destruct (decide (p = q)) as [->|Hne].
    + rewrite lookup_insert_eq in Hl. by injection Hl as <-.
    + rewrite lookup_insert_ne in Hl by done. destruct (Hp _ _ Hl) as [Hin Hpl]. split; [done|].
      rewrite Forall_forall in Ha. destruct (Ha p Hin) as [_ Hpa], (Ha q Hq) as [_ Hqa].
      by eapply (table_other _ p q).
  - intros b Hb. rewrite <- Hr by done. apply lookup_write_bytes_ne. rewrite Forall_forall in Hb.
    specialize (Hb q Hq). lia.
  - rewrite Hs. done.
Qed.

Lemma wp_clear T s q Q :
  building T s → q ∈ pts → (4096 < fuel)%nat → (∀ s', building (<[q := []]> T) s' → Q q s') →
  wp (on_pg_mem (memset fuel q 0 (8 * 512))) Q s.
Proof using Type.
  intros Hb Hq Hf HQ. unfold on_pg_mem. wp_step. change (8 * 512) with (Z.of_nat 4096).
  assert (Hmq : mapped (pg_mem s) q 4096).
  { pose proof (ps_mapped _ _ (bu_space _ _ Hb)) as Hm. rewrite Forall_forall in Hm. by apply Hm. }
  eapply wp_mono; [apply memset_ok; [exact Hmq|exact Hf|done]|].
  intros ? m' [-> ->]. change (u8 0) with 0. apply HQ. apply (building_write T s q q (replicate 4096 0)); [done|done|lia| |].
  - rewrite length_replicate. lia.
  - apply table_zero.
Qed.
Lemma wp_store_entry T s q i v l Q :
  building T s → T !! q = Some l → i = Z.of_nat (length l) → (length l < 512)%nat → 0 ≤ v < 2 ^ 64 →
  (∀ s', building (<[q := l ++ [v]]> T) s' → Q tt s') →
  wp (store_entry q i v) Q s.
Proof using Type.
  intros Hb Hl -> Hlen Hv HQ. destruct (bu_pages _ _ Hb _ _ Hl) as [Hq Ht].
  unfold store_entry, on_pg_mem. wp_step. apply store_le_ok.
  - pose proof (ps_mapped _ _ (bu_space _ _ Hb)) as Hm. rewrite Forall_forall in Hm. specialize (Hm q Hq).
    intros j Hj. rewrite <- Z.add_assoc. apply Hm. lia.
  - apply HQ. eapply building_write; [done|done|lia|rewrite length_le_bytes; lia|]. by apply table_store.
Qed.
End build.

Section tables.
Context (pt0 pt1 high_pt0 high_pt1 PXN : Z) (fuel : nat).
Abbreviation pages := [pt0; pt1; high_pt0; high_pt1].

Definition low_blocks : list Z :=
  [0x00000000 .| PTE_DEVICE_MEMORY; 0x40000000 .| PTE_NORMAL_MEMORY;
   0x80000000 .| PTE_NORMAL_MEMORY .| AP_EL0 .| u64 PXN; 0xc0000000 .| PTE_NORMAL_MEMORY .| AP_EL0 .| u64 PXN].
Definition high_blocks : list Z :=
  [0x00000000 .| PTE_DEVICE_MEMORY; 0x40000000 .| PTE_NORMAL_MEMORY;
   0x80000000 .| PTE_NORMAL_MEMORY; 0xc0000000 .| PTE_NORMAL_MEMORY].

Lemma lor_word a b : 0 ≤ a < 2 ^ 64 → 0 ≤ b < 2 ^ 64 → 0 ≤ a .| b < 2 ^ 64.
Proof using Type.
  intros Ha Hb. assert (a .| b = (a .| b) mod 2 ^ 64) as ->; [|apply Z.mod_pos_bound; lia].
  zbitwise. destruct (decide (i < 64)); [by rewrite Z.mod_pow2_bits_low, Z.lor_spec by lia|].
  rewrite Z.mod_pow2_bits_high by lia. by rewrite !(testbit_small _ 64) by lia.
Qed.

Lemma init_page_table_ok s :
  page_space (pg_mem s) pages → (4096 < fuel)%nat →
  wp (init_page_table pt0 pt1 high_pt0 high_pt1 PXN fuel)
     (λ _ s', ∃ m, s' = set_pg_mem m (set_pg_line (ctr_el0 s .& 0xFF) s) ∧
        table_is m pt0 (entries [pt1 + 3]) ∧ table_is m pt1 (entries low_blocks) ∧
        table_is m high_pt0 (entries [high_pt1 + 3]) ∧ table_is m high_pt1 (entries high_blocks) ∧
        ∀ a, Forall (λ p, a < p ∨ p + 4096 ≤ a) pages → m !! a = pg_mem s !! a) s.
Proof using Type.
  intros Hsp Hf. pose proof (ps_aligned _ _ Hsp) as Hal. pose proof (ps_apart _ _ Hsp) as Hnd.
  assert (Hn : pt0 ≠ pt1 ∧ pt0 ≠ high_pt0 ∧ pt0 ≠ high_pt1 ∧ pt1 ≠ high_pt0 ∧ pt1 ≠ high_pt1 ∧ high_pt0 ≠ high_pt1).
  { rewrite !NoDup_cons in Hnd. set_solver. }
  destruct Hn as (N1 & N2 & N3 & N4 & N5 & N6).
  repeat match goal with H : Forall _ (_ :: _) |- _ => apply Forall_cons in H as [[? ?] ?] end.
  assert (Hpxn : 0 ≤ u64 PXN < 2 ^ 64) by (apply Z.mod_pos_bound; lia).
  unfold init_page_table, setup_cache, get_cache_line_size. do 2 wp_step. rewrite Z.shiftr_0_r, u32_small by (unfold CTR_EL0_CWG_MASK; change 0xFF with (Z.ones 8); rewrite Z.land_ones by lia; pose proof (Z.mod_pos_bound (ctr_el0 s) (2 ^ 8)); lia).
  set (s1 := set_pg_line _ s). assert (B : building pages s1 ∅ s1) by (constructor; [done|done|done|done]).
  repeat (eapply wp_clear; [exact B|set_solver|done|]; clear B; intros ? B; wp_step).
  rewrite !u64_small by lia.
  repeat (eapply wp_store_entry;
    [exact B|rewrite ?lookup_insert_ne by congruence; apply lookup_insert_eq|done|simpl; lia| |];
    [first [lia | by split | by repeat apply lor_word]|]; clear B; intros ? B; cbn [app] in B; try wp_step).
  exists (pg_mem s'12). split_and!; [apply (bu_regs _ _ _ _ B)|..|apply (bu_rest _ _ _ _ B)];
    eapply proj2; apply (bu_pages _ _ _ _ B);
    rewrite ?lookup_insert_ne by congruence; apply lookup_insert_eq.
Qed.
End tables.

(** * Walking them *)

Lemma get_field_low lo w k c :
  0 ≤ lo → 0 ≤ w → lo + w ≤ 12 → get_field lo w (4096 * k + c) = get_field lo w c.
Proof.
  intros Hlo Hw H. rewrite !get_field_div by done.
  assert (4096 * k = 2 ^ (12 - lo - w) * k * 2 ^ w * 2 ^ lo) as ->.
  { replace 4096 with (2 ^ (12 - lo - w) * 2 ^ w * 2 ^ lo); [ring|]. rewrite <- !Z.pow_add_r by lia. by replace (12 - lo - w + w + lo) with 12 by lia. }
  rewrite Z.div_add_l by (apply Z.pow_nonzero; lia). rewrite Z.add_comm, Z.mod_add; [done|apply Z.pow_nonzero; lia].
Qed.
Lemma kind_field d : d .& 3 = get_field 0 2 d.
Proof. unfold get_field. by rewrite Z.shiftr_0_r. Qed.

(** A descriptor of 1 GB: the low bits [c], and bits above the address. *)
Definition block (i c x : Z) : Z := 2 ^ 30 * i + c + 2 ^ 48 * x.
Lemma block_low lo w i c x : 0 ≤ lo → 0 ≤ w → lo + w ≤ 12 → get_field lo w (block i c x) = get_field lo w c.
Proof.
  intros ???. unfold block. replace (2 ^ 30 * i + c + 2 ^ 48 * x) with (4096 * (2 ^ 18 * i + 2 ^ 36 * x) + c) by lia.
  by apply get_field_low.
Qed.
Lemma block_decode s va i c x :
  0 ≤ i < 4 → 0 ≤ c < 4096 →
  s1_decode s va (block i c x) 30 =
    {| s1_pa := 2 ^ 30 * i + va mod 2 ^ 30; s1_el0 := get_field 6 1 c =? 1; s1_read_only := get_field 7 1 c =? 1;
       s1_type := get_field (8 * get_field 2 3 c) 8 (mair s) |}.
Proof.
  intros Hi Hc. unfold s1_decode. rewrite (block_low 6 1), (block_low 7 1), (block_low 2 3) by lia. f_equal.
  unfold block. rewrite get_field_div by lia.
  change (48 - 30) with 18. change (2 ^ 30) with 1073741824. change (2 ^ 18) with 262144. change (2 ^ 48) with 281474976710656.
  Z.div_mod_to_equations; lia.
Qed.

(** Two levels: one descriptor in the first table, four blocks in the second. *)
Definition two_levels (m : mem) (root : Z) (blocks : list Z) : Prop :=
  ∃ k, 0 ≤ k < 2 ^ 36 ∧ table_is m root (entries [4096 * k + 3]) ∧ table_is m (4096 * k) (entries blocks).

Section step.
Context (n : nat) (m : mem) (table va shift : Z).
Lemma walk_table k :
  0 ≤ k < 2 ^ 36 → shift ≠ 12 → word64 m (table + 8 * get_field shift 9 va) = Some (4096 * k + 3) →
  s1_walk (S n) m table va shift = s1_walk n m (4096 * k) va (shift - 9).
Proof using Type.
  intros Hk Hs Hw. cbn [s1_walk]. rewrite Hw. cbn [mbind option_bind].
  rewrite kind_field, get_field_low by lia. change (get_field 0 2 3 =? 3) with true. cbn iota.
  destruct (Z.eqb_spec shift 12); [done|]. f_equal. unfold next_table. rewrite get_field_div by lia.
  change (2 ^ 36) with 68719476736 in *. change (2 ^ 12) with 4096. Z.div_mod_to_equations; lia.
Qed.
Lemma walk_block d :
  shift = 30 → d .& 3 = 1 → word64 m (table + 8 * get_field shift 9 va) = Some d →
  s1_walk (S n) m table va shift = Some (d, shift).
Proof using Type. intros -> Hd Hw. cbn [s1_walk]. rewrite Hw. cbn [mbind option_bind]. by rewrite Hd. Qed.
Lemma walk_invalid :
  word64 m (table + 8 * get_field shift 9 va) = Some 0 → s1_walk (S n) m table va shift = None.
Proof using Type. intros Hw. cbn [s1_walk]. by rewrite Hw. Qed.
End step.

Lemma two_levels_walk m root blocks va :
  two_levels m root blocks → length blocks = 4%nat → (∀ d, d ∈ blocks → d .& 3 = 1) →
  s1_walk 4 m root va 39 =
    if get_field 30 18 va <? 4 then (λ d, (d, 30)) <$> blocks !! Z.to_nat (get_field 30 18 va) else None.
Proof.
  intros (k & Hk & H0 & H1) Hlen Hd.
  assert (Hva : get_field 30 18 va = get_field 39 9 va * 512 + get_field 30 9 va ∧ 0 ≤ get_field 39 9 va < 512 ∧
    0 ≤ get_field 30 9 va < 512).
  { rewrite !get_field_div by lia. change (2 ^ 30) with 1073741824. change (2 ^ 39) with 549755813888.
    change (2 ^ 18) with 262144. change (2 ^ 9) with 512. Z.div_mod_to_equations; lia. }
  destruct Hva as (-> & Hi0 & Hi1). set (i0 := get_field 39 9 va) in *. set (i1 := get_field 30 9 va) in *.
  destruct (decide (i0 = 0)) as [Hz|Hne].
  - rewrite (walk_table _ _ _ _ _ k) by (try done; fold i0; rewrite H0, Hz by done; done).
    rewrite Hz, Z.mul_0_l, Z.add_0_l. change (39 - 9) with 30. specialize (H1 i1 Hi1). unfold entries in H1.
    destruct (Z.ltb_spec i1 4) as [Hlt|Hge].
    + destruct (lookup_lt_is_Some_2 blocks (Z.to_nat i1)) as [d Hb]; [lia|]. rewrite Hb in *. cbn in H1.
      rewrite (walk_block _ _ _ _ _ d); [done|done| |done]. apply Hd. by eapply list_elem_of_lookup_2.
    + rewrite lookup_ge_None_2 in H1 by lia. by rewrite walk_invalid.
  - rewrite walk_invalid.
    + destruct (Z.ltb_spec (i0 * 512 + i1) 4); [lia|done].
    + fold i0. rewrite H0 by done. unfold entries. by rewrite lookup_ge_None_2 by (cbn; lia).
Qed.

(** What the walk of either half gives, by the address bits it uses. *)
Definition window (el0 : bool) (v : Z) : option s1_translation :=
  if v <? 2 ^ 32 then
    Some {| s1_pa := v; s1_el0 := el0 && (2 ^ 31 <=? v); s1_read_only := false; s1_type := if v <? 2 ^ 30 then 0x00 else 0xFF |}
  else None.
Definition low_list (x : Z) : list Z := [block 0 0x701 0; block 1 0x705 0; block 2 0x745 x; block 3 0x745 x].
Definition high_list : list Z := [block 0 0x701 0; block 1 0x705 0; block 2 0x705 0; block 3 0x705 0].

Ltac at_index :=
  match goal with |- context [?l !! Z.to_nat ?i] =>
    let r := eval cbv [Z.to_nat Pos.to_nat Pos.iter_op Nat.add lookup list_lookup] in (l !! Z.to_nat i) in
    change (l !! Z.to_nat i) with r
  end; cbn [fmap option_fmap option_map mbind option_bind].
Lemma window_walk (s : paging) root (el0 : bool) x va v blocks :
  blocks = (if el0 then low_list x else high_list) → two_levels (pg_mem s) root blocks → mair s = MAIR_VALUE →
  0 ≤ v < 2 ^ 48 → va mod 2 ^ 48 = v →
  ('(d, shift) ← s1_walk 4 (pg_mem s) root va 39;
   if get_field 10 1 d =? 1 then Some (s1_decode s va d shift) else None) = window el0 v.
Proof.
  intros Hbl Ht Hm Hv Hva. rewrite (two_levels_walk _ _ blocks) by
    (try done; subst blocks; destruct el0; try done; intros d Hd;
     repeat (apply elem_of_cons in Hd as [->|Hd]; [rewrite kind_field, block_low by lia; done|]); by apply not_elem_of_nil in Hd).
  assert (Hi : get_field 30 18 va = v / 2 ^ 30 ∧ va mod 2 ^ 30 = v mod 2 ^ 30).
  { rewrite get_field_div by lia. change (2 ^ 30) with 1073741824. change (2 ^ 18) with 262144.
    change (2 ^ 48) with 281474976710656 in *. Z.div_mod_to_equations; lia. }
  destruct Hi as [-> Hr]. unfold window. change (2 ^ 30) with 1073741824 in *. change (2 ^ 31) with 2147483648.
  change (2 ^ 32) with 4294967296.
  assert (Hq : v = 1073741824 * (v / 1073741824) + v mod 1073741824) by (apply Z.div_mod; lia).
  assert (Hb : 0 ≤ v mod 1073741824 < 1073741824) by (apply Z.mod_pos_bound; lia).
  destruct (Z.ltb_spec (v / 1073741824) 4) as [Hlt|Hge].
  2:{ destruct (Z.ltb_spec v 4294967296); [lia|done]. }
  destruct (Z.ltb_spec v 4294967296); [|lia].
  assert (Hk : 0 ≤ v / 1073741824) by (apply Z.div_pos; lia).
  assert (v / 1073741824 = 0 ∨ v / 1073741824 = 1 ∨ v / 1073741824 = 2 ∨ v / 1073741824 = 3) as Hc by lia.
  destruct Hc as [Hc|[Hc|[Hc|Hc]]]; rewrite Hc in *; subst blocks; destruct el0; unfold low_list, high_list; at_index;
    rewrite block_low by lia;
    (match goal with |- context [get_field 10 1 ?c] => change (get_field 10 1 c) with 1 end); cbn [Z.eqb Pos.eqb];
    rewrite block_decode, Hm by lia; change (2 ^ 30) with 1073741824; rewrite Hr; f_equal; f_equal; try lia;
    destruct (Z.ltb_spec v 1073741824), (Z.leb_spec 2147483648 v); try lia; done.
Qed.

Section translate.
Context (s : paging) (pt0 high_pt0 x : Z).
Context (Hlow : two_levels (pg_mem s) pt0 (low_list x)) (Hhigh : two_levels (pg_mem s) high_pt0 high_list).

Lemma page_map_low va : 0 ≤ va < 2 ^ 48 → page_map va = window true va.
Proof using Type.
  intros Hva. unfold page_map, window. destruct (Z.ltb_spec va (2 ^ 48)), (Z.leb_spec 0 va); try lia. done.
Qed.
Lemma page_map_high va : 2 ^ 64 - 2 ^ 48 ≤ va < 2 ^ 64 → page_map va = window false (va - (2 ^ 64 - 2 ^ 48)).
Proof using Type.
  intros Hva. unfold page_map, window.
  destruct (Z.ltb_spec va (2 ^ 48)), (Z.leb_spec 0 (va - (2 ^ 64 - 2 ^ 48))); try lia. done.
Qed.

Lemma translate_el1 sc va :
  Z.testbit sc 0 = true → 0 ≤ va < 2 ^ 64 →
  s1_translate (set_regs pt0 high_pt0 TCR_EL1 MAIR_VALUE sc s) va = page_map va.
Proof using Hlow Hhigh.
  intros Hsc Hva. unfold s1_translate. cbn [sctlr set_regs tcr ttbr0 ttbr1 pg_mem]. rewrite Hsc. cbn [negb].
  change (get_field 0 6 TCR_EL1) with 16. change (get_field 16 6 TCR_EL1) with 16.
  change (get_field 14 2 TCR_EL1) with 0. change (get_field 30 2 TCR_EL1) with 2.
  change (64 - 16) with 48. cbn [Z.eqb Pos.eqb]. rewrite !andb_true_r.
  destruct (Z.ltb_spec va (2 ^ 48)) as [Hl|Hl]; cbn [mbind option_bind].
  - rewrite page_map_low by lia.
    apply (window_walk (set_regs pt0 high_pt0 TCR_EL1 MAIR_VALUE sc s) pt0 true x va va (low_list x));
      [done|exact Hlow|done|lia|]. apply Z.mod_small; lia.
  - destruct (Z.leb_spec (2 ^ 64 - 2 ^ 48) va) as [Hh|Hh]; cbn [mbind option_bind].
    + rewrite page_map_high by lia.
      apply (window_walk (set_regs pt0 high_pt0 TCR_EL1 MAIR_VALUE sc s) high_pt0 false x va _ high_list);
        [done|exact Hhigh|done|lia|]. symmetry. apply (Z.mod_unique _ _ (2 ^ 16 - 1)); lia.
    + unfold page_map. destruct (Z.ltb_spec va (2 ^ 48)), (Z.leb_spec 0 (va - (2 ^ 64 - 2 ^ 48))); try lia. done.
Qed.

(** At EL2 there is one half only. *)
Lemma translate_el2 t1 sc va :
  Z.testbit sc 0 = true → 0 ≤ va < 2 ^ 64 →
  s1_translate (set_regs pt0 t1 TCR_EL2 MAIR_VALUE sc s) va = if va <? 2 ^ 48 then page_map va else None.
Proof using Hlow.
  clear Hhigh. intros Hsc Hva. unfold s1_translate. cbn [sctlr set_regs tcr ttbr0 ttbr1 pg_mem]. rewrite Hsc. cbn [negb].
  change (get_field 0 6 TCR_EL2) with 16. change (get_field 16 6 TCR_EL2) with 0.
  change (get_field 14 2 TCR_EL2) with 0. change (get_field 30 2 TCR_EL2) with 0.
  change (64 - 16) with 48. cbn [Z.eqb Pos.eqb]. rewrite !andb_true_r.
  destruct (Z.ltb_spec va (2 ^ 48)) as [Hl|Hl]; cbn [mbind option_bind].
  - rewrite page_map_low by lia.
    apply (window_walk (set_regs pt0 t1 TCR_EL2 MAIR_VALUE sc s) pt0 true x va va (low_list x));
      [done|exact Hlow|done|lia|]. apply Z.mod_small; lia.
  - by rewrite !andb_false_r.
Qed.
End translate.

(** The bits of [PXN] are above those of the address. *)
Lemma low_blocks_list PXN : u64 PXN mod 2 ^ 48 = 0 → low_blocks PXN = low_list (u64 PXN / 2 ^ 48).
Proof.
  intros Hp. unfold low_blocks, low_list. assert (Hx : u64 PXN = 2 ^ 48 * (u64 PXN / 2 ^ 48)).
  { apply Z.div_exact; [done|exact Hp]. }
  assert (Hlor : ∀ c, 0 ≤ c < 2 ^ 48 → c .| u64 PXN = c + 2 ^ 48 * (u64 PXN / 2 ^ 48)).
  { intros c Hc. rewrite Hx at 1. rewrite Z.lor_comm, Z.mul_comm, lor_high_low by lia. lia. }
  rewrite !Hlor by (vm_compute; split; congruence). done.
Qed.

Lemma enable_mmu_bits_spec t i : 0 ≤ i →
  Z.testbit (enable_mmu_bits t) i =
    if (i =? 0) || (i =? 2) || (i =? 6) || (i =? 12) then true
    else if (i =? 1) || (i =? 3) || (i =? 4) then false else Z.testbit t i.
Proof.
  intros Hi. unfold enable_mmu_bits, bic, SCTLR_EL1_M, SCTLR_EL1_A, SCTLR_EL1_C, SCTLR_EL1_SA, SCTLR_EL1_SA0, SCTLR_EL1_nAA, SCTLR_EL1_I.
  rewrite !Z.lor_spec, !Z.land_spec, !Z.lnot_spec, Z.lor_spec, !testbit_1_shiftl by lia.
  repeat match goal with |- context [i =? ?k] => destruct (Z.eqb_spec i k) as [->|]; [by destruct (Z.testbit t _)|] end.
  cbn. by rewrite ?andb_true_r, ?orb_false_r.
Qed.

Lemma tables_two_levels m root next blocks :
  0 ≤ next < 2 ^ 48 → next mod 4096 = 0 → table_is m root (entries [next + 3]) → table_is m next (entries blocks) →
  two_levels m root blocks.
Proof.
  intros Hn Ha Hr Hb. exists (next / 4096). rewrite <- mult_4096 by done. split; [|done].
  change (2 ^ 48) with 281474976710656 in *. change (2 ^ 36) with 68719476736. Z.div_mod_to_equations; lia.
Qed.

Section correct.
Context (pt0 pt1 high_pt0 high_pt1 PXN : Z) (fuel : nat).
Abbreviation pages := [pt0; pt1; high_pt0; high_pt1].

(** The tables [init_page_table] leaves, for both halves. *)
Definition built (m : mem) : Prop :=
  two_levels m pt0 (low_list (u64 PXN / 2 ^ 48)) ∧ two_levels m high_pt0 high_list.

Lemma init_page_table_built s :
  page_space (pg_mem s) pages → u64 PXN mod 2 ^ 48 = 0 → (4096 < fuel)%nat →
  wp (init_page_table pt0 pt1 high_pt0 high_pt1 PXN fuel) (λ _ s1,
    pg_line s1 = ctr_el0 s mod 256 ∧ s1 = set_pg_mem (pg_mem s1) (set_pg_line (pg_line s1) s) ∧
    (∀ a, Forall (λ p, a < p ∨ p + 4096 ≤ a) pages → pg_mem s1 !! a = pg_mem s !! a) ∧ built (pg_mem s1)) s.
Proof using Type.
  intros Hsp Hp Hf. eapply wp_mono; [by apply init_page_table_ok|].
  intros _ s1 (m & -> & T0 & T1 & T2 & T3 & Hrest). rewrite low_blocks_list in T1 by done.
  pose proof (ps_aligned _ _ Hsp) as Hal.
  repeat match goal with H : Forall _ (_ :: _) |- _ => apply Forall_cons in H as [[? ?] ?] end.
  split_and!; [exact (Z.land_ones (ctr_el0 s) 8 ltac:(lia))|done|exact Hrest|].
  split; [by apply (tables_two_levels m pt0 pt1)|by apply (tables_two_levels m high_pt0 high_pt1)].
Qed.

(** The hardware walks them on any core whose registers name them. *)
Lemma enable_mmu_ok s :
  built (pg_mem s) →
  wp (enable_mmu pt0 high_pt0) (λ _ s', pg_mem s' = pg_mem s ∧
    ∀ va, 0 ≤ va < 2 ^ 64 → s1_translate s' va = page_map va) s.
Proof using Type.
  intros [L U]. unfold enable_mmu, init_mmu. wp_step. split; [done|]. intros va Hva.
  eapply translate_el1; [exact L|exact U| |done]. rewrite Z.lor_spec. apply orb_true_r.
Qed.
Lemma enable_mmu_el2_ok s :
  built (pg_mem s) →
  wp (enable_mmu_el2 pt0) (λ _ s', pg_mem s' = pg_mem s ∧
    (∀ va, 0 ≤ va < 2 ^ 64 → s1_translate s' va = if va <? 2 ^ 48 then page_map va else None) ∧
    ∀ i, 0 ≤ i → Z.testbit (sctlr s') i =
      if (i =? 0) || (i =? 2) || (i =? 6) || (i =? 12) then true
      else if (i =? 1) || (i =? 3) || (i =? 4) then false else Z.testbit (sctlr s) i) s.
Proof using Type.
  intros [L _]. unfold enable_mmu_el2, init_mmu_el2. wp_step. split_and!; [done| |].
  - intros va Hva. eapply translate_el2; [exact L| |done]. by rewrite enable_mmu_bits_spec.
  - intros i Hi. by apply enable_mmu_bits_spec.
Qed.
(** [init_page_table] on one core, followed by either of them. *)
Lemma init_page_table_correct s :
  page_space (pg_mem s) pages → u64 PXN mod 2 ^ 48 = 0 → (4096 < fuel)%nat →
  wp (init_page_table pt0 pt1 high_pt0 high_pt1 PXN fuel) (λ _ s1,
    pg_line s1 = ctr_el0 s mod 256 ∧ s1 = set_pg_mem (pg_mem s1) (set_pg_line (pg_line s1) s) ∧
    (∀ a, Forall (λ p, a < p ∨ p + 4096 ≤ a) pages → pg_mem s1 !! a = pg_mem s !! a) ∧
    wp (enable_mmu pt0 high_pt0) (λ _ s', pg_mem s' = pg_mem s1 ∧
      ∀ va, 0 ≤ va < 2 ^ 64 → s1_translate s' va = page_map va) s1 ∧
    wp (enable_mmu_el2 pt0) (λ _ s', pg_mem s' = pg_mem s1 ∧
      (∀ va, 0 ≤ va < 2 ^ 64 → s1_translate s' va = if va <? 2 ^ 48 then page_map va else None) ∧
      ∀ i, 0 ≤ i → Z.testbit (sctlr s') i =
        if (i =? 0) || (i =? 2) || (i =? 6) || (i =? 12) then true
        else if (i =? 1) || (i =? 3) || (i =? 4) then false else Z.testbit (sctlr s) i) s1) s.
Proof using Type.
  intros Hsp Hp Hf. eapply wp_mono; [by apply init_page_table_built|].
  intros _ s1 (Hl & Hs1 & Hr & Hb). split_and!; [done|done|done|by apply enable_mmu_ok|].
  replace (sctlr s) with (sctlr s1) by by rewrite Hs1. by apply enable_mmu_el2_ok.
Qed.
End correct.

(** Four pages of a memory of garbage. *)
Definition some_pages : mem := write_bytes ∅ 0x40090000 (replicate (Z.to_nat 16384) 0xA5).
Lemma some_pages_space :
  page_space some_pages [0x40090000; 0x40091000; 0x40092000; 0x40093000].
Proof.
  constructor.
  - apply Forall_forall. intros p Hp i Hi. exists 0xA5. unfold some_pages.
    assert (0x40090000 ≤ p ≤ 0x40093000) by (repeat (apply elem_of_cons in Hp as [->|Hp]; [lia|]); by apply not_elem_of_nil in Hp).
    replace (p + i) with (0x40090000 + Z.of_nat (Z.to_nat (p + i - 0x40090000))) by lia.
    apply lookup_write_bytes, lookup_replicate. split; [done|lia].
  - repeat constructor; lia.
  - eapply (bool_decide_unpack (NoDup _)). vm_compute. exact I.
Qed.
Definition reset_paging : paging :=
  {| pg_mem := some_pages; pg_line := 0; ctr_el0 := 0x84448004; ttbr0 := 0; ttbr1 := 0; tcr := 0; mair := 0; sctlr := 0x30C50838 |}.
