(* ===== verification/Reset.v ===== *)
(** The first instructions of a core: [boot/boot.S], from reset to the C functions of
    [main.c] and [main_hyper.c], with the tables of [Page] they put in force. *)

From S2P Require Import Prelude ByteMem Word Ept Page.

(** * Definitions *)

(** [include/sys/sys.h]. *)
Definition HCR_TACR : Z := 1 << 21.
Definition HCR_TSC : Z := 1 << 19.
Definition HCR_TWE : Z := 1 << 14.
Definition HCR_E2H : Z := 0 << 34.
Definition HCR_RW : Z := 1 << 31.
Definition HCR_TGE : Z := 0 << 27.
Definition HCR_AMO : Z := 1 << 5.
Definition HCR_IMO : Z := 1 << 4.
Definition HCR_FMO : Z := 1 << 3.
Definition HCR_SWIO : Z := 1 << 1.
Definition HCR_VM : Z := 1 << 0.
Definition HCR_VALUE_ROUTE : Z :=
  HCR_TACR .| HCR_TSC .| HCR_TWE .|
  HCR_E2H .| HCR_RW .| HCR_TGE .| HCR_AMO .| HCR_IMO .| HCR_FMO .| HCR_SWIO .| HCR_VM.
Definition HCR_VALUE : Z := HCR_VALUE_ROUTE.
Definition SPSR_MASK_ALL : Z := 7 << 6.
Definition SPSR_INIT : Z := SPSR_MASK_ALL.
Definition SCTLR_EE : Z := 0 << 25.
Definition SCTLR_I_CACHE_DISABLED : Z := 0 << 12.
Definition SCTLR_D_CACHE_DISABLED : Z := 0 << 2.
Definition SCTLR_MMU_DISABLED : Z := 0 << 0.
Definition SCTLR_VALUE_MMU_DISABLED : Z :=
  SCTLR_EE .| SCTLR_I_CACHE_DISABLED .| SCTLR_D_CACHE_DISABLED .| SCTLR_MMU_DISABLED.

(** A core before C code owns it: its level, how far it runs from the addresses its
    image is linked at, its stack pointer and the one of EL1, the masks of [PSTATE] at
    the bits they have in [SPSR], the registers the code writes, and the translation
    registers of the level the kernel is to run at, with the memory of the tables. *)
Record core := {
  bc_el : Z;
  bc_slide : Z;
  bc_sp : Z;
  bc_sp_el1 : Z;
  bc_daif : Z;
  bc_scr_el3 : Z;
  bc_hcr_el2 : Z;
  bc_vbar : Z → Z;
  bc_spsr : Z → Z;
  bc_elr_el3 : Z;
  bc_pg : paging;
}.
(** The register of a level, of those that each level has. *)
Definition bank (el v : Z) (regs : Z → Z) (l : Z) : Z := if l =? el then v else regs l.
Definition set_bc_sp (v : Z) (c : core) : core :=
  {| bc_el := bc_el c; bc_slide := bc_slide c; bc_sp := v; bc_sp_el1 := bc_sp_el1 c; bc_daif := bc_daif c;
     bc_scr_el3 := bc_scr_el3 c; bc_hcr_el2 := bc_hcr_el2 c; bc_vbar := bc_vbar c; bc_spsr := bc_spsr c;
     bc_elr_el3 := bc_elr_el3 c; bc_pg := bc_pg c |}.
Definition set_bc_daif (v : Z) (c : core) : core :=
  {| bc_el := bc_el c; bc_slide := bc_slide c; bc_sp := bc_sp c; bc_sp_el1 := bc_sp_el1 c; bc_daif := v;
     bc_scr_el3 := bc_scr_el3 c; bc_hcr_el2 := bc_hcr_el2 c; bc_vbar := bc_vbar c; bc_spsr := bc_spsr c;
     bc_elr_el3 := bc_elr_el3 c; bc_pg := bc_pg c |}.
Definition set_bc_vbar (el v : Z) (c : core) : core :=
  {| bc_el := bc_el c; bc_slide := bc_slide c; bc_sp := bc_sp c; bc_sp_el1 := bc_sp_el1 c; bc_daif := bc_daif c;
     bc_scr_el3 := bc_scr_el3 c; bc_hcr_el2 := bc_hcr_el2 c; bc_vbar := bank el v (bc_vbar c); bc_spsr := bc_spsr c;
     bc_elr_el3 := bc_elr_el3 c; bc_pg := bc_pg c |}.
Definition set_bc_spsr (el v : Z) (c : core) : core :=
  {| bc_el := bc_el c; bc_slide := bc_slide c; bc_sp := bc_sp c; bc_sp_el1 := bc_sp_el1 c; bc_daif := bc_daif c;
     bc_scr_el3 := bc_scr_el3 c; bc_hcr_el2 := bc_hcr_el2 c; bc_vbar := bc_vbar c; bc_spsr := bank el v (bc_spsr c);
     bc_elr_el3 := bc_elr_el3 c; bc_pg := bc_pg c |}.
(** [SCR_EL3], [HCR_EL2], [ELR_EL3] and [SP_EL1]. *)
Definition set_bc_regs (scr hcr elr3 sp1 : Z) (c : core) : core :=
  {| bc_el := bc_el c; bc_slide := bc_slide c; bc_sp := bc_sp c; bc_sp_el1 := sp1; bc_daif := bc_daif c;
     bc_scr_el3 := scr; bc_hcr_el2 := hcr; bc_vbar := bc_vbar c; bc_spsr := bc_spsr c;
     bc_elr_el3 := elr3; bc_pg := bc_pg c |}.
Definition set_bc_pg (pg : paging) (c : core) : core :=
  {| bc_el := bc_el c; bc_slide := bc_slide c; bc_sp := bc_sp c; bc_sp_el1 := bc_sp_el1 c; bc_daif := bc_daif c;
     bc_scr_el3 := bc_scr_el3 c; bc_hcr_el2 := bc_hcr_el2 c; bc_vbar := bc_vbar c; bc_spsr := bc_spsr c;
     bc_elr_el3 := bc_elr_el3 c; bc_pg := pg |}.

(** The C function a core ends in. *)
Inductive c_main := Kernel_main | Second_kernel_main | Hyper_main.

Section reset.
(** The addresses the image is linked at; the bits of a physical address; the value of
    [PXN] and the fuel of [memset], as in [Page]. *)
Context (_stack_top_el3 _stack_top primary exception_vector_base exception_vector_base_el2 exception_vector_base_el3 : Z).
Context (pt0 pt1 high_pt0 high_pt1 : Z) (pa_bits : Z) (PXN : Z) (fuel : nat).

(** What an access finds: EL3 does not translate, and without translation an address
    is one of memory or the access faults. *)
Definition access (c : core) (va : Z) : option Z :=
  if negb (bc_el c =? 3) && Z.testbit (sctlr (bc_pg c)) 0 then s1_pa <$> s1_translate (bc_pg c) va
  else if (0 <=? va) && (va <? 2 ^ pa_bits) then Some va else None.

Definition on_paging {A} (m : St paging A) : St core A := on_part bc_pg set_bc_pg m.
(** [bl] to a C function: it keeps its return address below the stack pointer, and
    finds it there at the end. *)
Definition bl (f : St paging unit) : St core unit :=
  c ← get;
  a ← deref (access c (bc_sp c - 16));
  on_paging f;;
  c' ← get;
  b ← deref (access c' (bc_sp c' - 16));
  if a =? b then mret tt else fault.
(** [adrp] and [add]: where a label is from where the core runs. *)
Definition adrp (label : Z) : St core Z := c ← get; mret (label + bc_slide c).

Definition c_init_page_table : St core unit :=
  p0 ← adrp pt0; p1 ← adrp pt1; h0 ← adrp high_pt0; h1 ← adrp high_pt1;
  bl (init_page_table p0 p1 h0 h1 PXN fuel).
Definition c_enable_mmu : St core unit := p0 ← adrp pt0; h0 ← adrp high_pt0; bl (enable_mmu p0 h0).
Definition c_enable_mmu_el2 : St core unit := p0 ← adrp pt0; bl (enable_mmu_el2 p0).

(** [msr daifset, #2]. *)
Definition daifset (imm : Z) : St core unit := modify (λ c, set_bc_daif (bc_daif c .| (imm << 6)) c).
(** [bl kernel_main] and the like, which does not return. *)
Definition bl_main (m : c_main) : St core c_main := c ← get; _ ← deref (access c (bc_sp c - 16)); mret m.

Definition primary_entry : St core c_main :=
  modify (set_bc_sp (_stack_top .& 0xFFFFFFFF));;
  daifset 2;;
  c_init_page_table;;
  c_enable_mmu;;
  modify (set_bc_sp _stack_top);;
  modify (set_bc_vbar 1 exception_vector_base);;
  bl_main Kernel_main.

Definition second_entry (x0 : Z) : St core c_main :=
  modify (set_bc_sp x0);;
  daifset 2;;
  c_enable_mmu;;
  modify (set_bc_vbar 1 exception_vector_base);;
  bl_main Second_kernel_main.

Definition from_el2 : St core c_main :=
  modify (λ c, let s := bc_pg c in
    set_bc_pg (set_regs (ttbr0 s) (ttbr1 s) (tcr s) (mair s) SCTLR_VALUE_MMU_DISABLED s) c);;
  modify (λ c, set_bc_regs (bc_scr_el3 c) HCR_VALUE (bc_elr_el3 c) (bc_sp_el1 c) c);;
  modify (set_bc_spsr 2 SPSR_INIT);;
  daifset 2;;
  v ← adrp exception_vector_base_el2;
  modify (set_bc_vbar 2 v);;
  modify (set_bc_sp _stack_top);;
  c_init_page_table;;
  c_enable_mmu_el2;;
  modify (set_bc_sp _stack_top);;
  bl_main Hyper_main.

(** [eret] from EL3 to the level, the stack pointer and the masks of [SPSR_EL3]; the
    instruction at the address must be found there. *)
Definition eret_el3 (target : Z) : St core unit :=
  modify (λ c, {| bc_el := (bc_spsr c 3 >> 2) .& 3; bc_slide := bc_elr_el3 c - target; bc_sp := bc_sp_el1 c;
    bc_sp_el1 := bc_sp_el1 c; bc_daif := bc_spsr c 3 .& (0xF << 6); bc_scr_el3 := bc_scr_el3 c;
    bc_hcr_el2 := bc_hcr_el2 c; bc_vbar := bc_vbar c; bc_spsr := bc_spsr c; bc_elr_el3 := bc_elr_el3 c;
    bc_pg := bc_pg c |});;
  c ← get;
  _ ← deref (access c (bc_elr_el3 c));
  mret tt.
Definition from_el3_to_el1 : St core c_main :=
  modify (λ c, set_bc_regs (bic (bc_scr_el3 c .| (1 << 10)) (1 << 7)) (bc_hcr_el2 c) (bc_elr_el3 c) (bc_sp_el1 c) c);;
  modify (λ c, set_bc_regs (bc_scr_el3 c) (bc_hcr_el2 c .| (1 << 29)) (bc_elr_el3 c) (bc_sp_el1 c) c);;
  v ← adrp exception_vector_base_el3;
  modify (set_bc_vbar 3 v);;
  modify (set_bc_spsr 3 ((5 << 0) .| (15 << 6)));;
  modify (λ c, set_bc_regs (bc_scr_el3 c) (bc_hcr_el2 c) primary (bc_sp_el1 c) c);;
  modify (λ c, set_bc_regs (bc_scr_el3 c) (bc_hcr_el2 c) (bc_elr_el3 c) _stack_top c);;
  eret_el3 primary;;
  primary_entry.

Definition _start : St core c_main :=
  modify (set_bc_sp (_stack_top_el3 .& 0xFFFFFFFF));;
  c ← get;
  let x0 := (bc_el c << 2) >> 2 in
  if x0 =? 3 then from_el3_to_el1 else if x0 =? 2 then from_el2 else primary_entry.
End reset.

(** * Accesses *)

(** The gigabyte of memory the image is loaded in. *)
Definition in_ram (a : Z) : Prop := 2 ^ 30 ≤ a < 2 ^ 31.

(** How the image is linked: where it is loaded ([link_hyper.lds]), or at the same
    place in the upper half of the address space ([link.lds]). *)
Record linked (offset _stack_top primary pa_bits : Z) : Prop := {
  lk_offset : offset = 0 ∨ offset = 2 ^ 64 - 2 ^ 48;
  lk_stack : in_ram (_stack_top - offset - 16) ∧ in_ram (_stack_top - offset);
  lk_primary : in_ram (primary - offset);
  lk_bits : 31 ≤ pa_bits ≤ 48;
}.

Lemma translate_on s va t : s1_translate s va = Some t → Z.testbit (sctlr s) 0 = true.
Proof. unfold s1_translate. by destruct (Z.testbit (sctlr s) 0). Qed.
Lemma page_map_ram a : in_ram a → s1_pa <$> page_map a = Some a.
Proof.
  unfold in_ram. intros Ha. unfold page_map. rewrite (proj2 (Z.ltb_lt a (2 ^ 48))) by lia.
  rewrite (proj2 (Z.leb_le 0 a)), (proj2 (Z.ltb_lt a (2 ^ 32))) by lia. done.
Qed.
Lemma page_map_linked a : in_ram a → s1_pa <$> page_map (a + (2 ^ 64 - 2 ^ 48)) = Some a.
Proof.
  unfold in_ram. intros Ha. unfold page_map. rewrite (proj2 (Z.ltb_ge (a + (2 ^ 64 - 2 ^ 48)) (2 ^ 48))) by lia.
  replace (a + (2 ^ 64 - 2 ^ 48) - (2 ^ 64 - 2 ^ 48)) with a by lia.
  rewrite (proj2 (Z.leb_le 0 a)), (proj2 (Z.ltb_lt a (2 ^ 32))) by lia. done.
Qed.

(** What C code starts with: interrupts masked, the mapping in force, and the image
    found where the core runs and where it is linked. *)
Record handed_over (offset pa_bits : Z) (map : Z → option s1_translation) (c : core) : Prop := {
  ho_irq : Z.testbit (bc_daif c) 7 = true;
  ho_map : ∀ va, 0 ≤ va < 2 ^ 64 → s1_translate (bc_pg c) va = map va;
  ho_ram : ∀ a, in_ram a → access pa_bits c a = Some a;
  ho_linked : ∀ a, in_ram a → access pa_bits c (a + offset) = Some a;
}.

Section rules.
Context (offset _stack_top primary pa_bits : Z) (Hlk : linked offset _stack_top primary pa_bits).

Lemma access_off c a : Z.testbit (sctlr (bc_pg c)) 0 = false → in_ram a → access pa_bits c a = Some a.
Proof using Hlk.
  intros Hs Ha. unfold access. rewrite Hs, andb_false_r. destruct (lk_bits _ _ _ _ Hlk) as [Hb _]. unfold in_ram in Ha.
  pose proof (Z.pow_le_mono_r 2 31 pa_bits). 
  rewrite (proj2 (Z.leb_le 0 a)), (proj2 (Z.ltb_lt a (2 ^ pa_bits))) by lia. done.
Qed.
Lemma access_off_high c a :
  Z.testbit (sctlr (bc_pg c)) 0 = false → offset ≠ 0 → in_ram (a - offset) → access pa_bits c a = None.
Proof using Hlk.
  intros Hs Ho Ha. unfold access. rewrite Hs, andb_false_r. destruct (lk_bits _ _ _ _ Hlk) as [_ Hb]. unfold in_ram in Ha.
  destruct (lk_offset _ _ _ _ Hlk) as [|E]; [done|]. pose proof (Z.pow_le_mono_r 2 pa_bits 48).
  rewrite (proj2 (Z.ltb_ge a (2 ^ pa_bits))) by lia. by rewrite andb_false_r.
Qed.
Lemma access_on c a t :
  bc_el c ≠ 3 → s1_translate (bc_pg c) a = Some t → access pa_bits c a = Some (s1_pa t).
Proof using Type.
  intros He Ht. unfold access. rewrite (proj2 (Z.eqb_neq _ _) He), (translate_on _ _ _ Ht), Ht. done.
Qed.
Lemma access_map map c a p :
  bc_el c ≠ 3 → s1_translate (bc_pg c) a = map a → s1_pa <$> map a = Some p → access pa_bits c a = Some p.
Proof using Type.
  intros He Ht Hm. destruct (map a) as [t|]; [|done]. injection Hm as <-. by apply access_on.
Qed.

Lemma hand_over map c :
  bc_el c ≠ 3 → Z.testbit (bc_daif c) 7 = true →
  (∀ va, 0 ≤ va < 2 ^ 64 → s1_translate (bc_pg c) va = map va) →
  (∀ a, in_ram a → s1_pa <$> map a = Some a) → (∀ a, in_ram a → s1_pa <$> map (a + offset) = Some a) →
  handed_over offset pa_bits map c.
Proof using Hlk.
  intros He Hi Hm Hr Hl. constructor; [done|done| |]; intros a Ha; (eapply access_map; [done|apply Hm|auto]);
    unfold in_ram in Ha; destruct (lk_offset _ _ _ _ Hlk); lia.
Qed.

(** A call on a stack that is in memory before and after. *)
Lemma wp_bl f (Q : unit → core → Prop) c a :
  access pa_bits c (bc_sp c - 16) = Some a →
  wp f (λ _ s, access pa_bits (set_bc_pg s c) (bc_sp c - 16) = Some a ∧ Q tt (set_bc_pg s c)) (bc_pg c) →
  wp (bl pa_bits f) Q c.
Proof using Type.
  intros Ha Hf. unfold bl, on_paging. do 2 wp_step. apply wp_deref. eexists. split; [exact Ha|]. do 2 wp_step.
  eapply wp_mono; [exact Hf|]. intros [] s [Hb HQ]. do 2 wp_step. apply wp_deref. eexists. split; [exact Hb|]. by rewrite Z.eqb_refl.
Qed.
Lemma bl_fault f c : access pa_bits c (bc_sp c - 16) = None → bl pa_bits f c = Fault.
Proof using Type. intros Ha. unfold bl, mbind, St_bind, get. by rewrite Ha. Qed.
Lemma bl_main_ok m (Q : c_main → core → Prop) c a :
  access pa_bits c (bc_sp c - 16) = Some a → Q m c → wp (bl_main pa_bits m) Q c.
Proof using Type. intros Ha HQ. unfold bl_main. do 2 wp_step. apply wp_deref. eexists. split; [exact Ha|]. exact HQ. Qed.

Lemma stack_low : _stack_top .& 0xFFFFFFFF = _stack_top - offset.
Proof using Hlk.
  change 0xFFFFFFFF with (Z.ones 32). rewrite Z.land_ones by lia. destruct (lk_stack _ _ _ _ Hlk) as [_ Hs]. unfold in_ram in Hs.
  destruct (lk_offset _ _ _ _ Hlk) as [->|E]; [rewrite Z.sub_0_r; apply Z.mod_small; lia|].
  symmetry. apply (Z.mod_unique _ _ (2 ^ 32 - 2 ^ 16)); lia.
Qed.
End rules.

(** The mapping of EL2, which has one half. *)
Definition el2_map (va : Z) : option s1_translation := if va <? 2 ^ 48 then page_map va else None.
Lemma el2_map_ram a : in_ram a → s1_pa <$> el2_map a = Some a.
Proof.
  unfold in_ram. intros Ha. unfold el2_map. rewrite (proj2 (Z.ltb_lt a (2 ^ 48))) by lia. by apply page_map_ram.
Qed.
Lemma HCR_VALUE_spec i : 0 ≤ i → Z.testbit HCR_VALUE i = bool_decide (i ∈ [0; 1; 3; 4; 5; 14; 19; 21; 31]).
Proof.
  intros Hi. destruct (decide (i < 32)) as [Hl|Hl].
  - assert (Hall : Forall (λ j, Z.testbit HCR_VALUE j = bool_decide (j ∈ [0; 1; 3; 4; 5; 14; 19; 21; 31])) (seqZ 0 32))
      by (apply (bool_decide_unpack _); vm_compute; exact I).
    rewrite Forall_forall in Hall. apply Hall, elem_of_seqZ. lia.
  - rewrite (testbit_small _ 32) by (try lia; by vm_compute). symmetry. apply bool_decide_eq_false.
    rewrite !elem_of_cons. intros H. repeat (destruct H as [->|H]; [lia|]). by apply elem_of_nil in H.
Qed.

(** * The paths *)

Section correct.
Context (_stack_top_el3 _stack_top primary exception_vector_base exception_vector_base_el2 exception_vector_base_el3 : Z).
Context (pt0 pt1 high_pt0 high_pt1 : Z) (pa_bits : Z) (PXN : Z) (fuel : nat) (offset : Z).
Context (Hlk : linked offset _stack_top primary pa_bits) (Hpxn : u64 PXN mod 2 ^ 48 = 0) (Hfuel : (4096 < fuel)%nat).
Abbreviation pages := [pt0 - offset; pt1 - offset; high_pt0 - offset; high_pt1 - offset].
Abbreviation tables := (built (pt0 - offset) (high_pt0 - offset) PXN).
(** A core that runs where the image is loaded, without translation. *)
Definition unmapped (c : core) : Prop := bc_slide c = - offset ∧ Z.testbit (sctlr (bc_pg c)) 0 = false.
(** Nothing but the tables and [cacheline_bytes] is written. *)
Definition tables_only (c c' : core) : Prop :=
  ∀ a, Forall (λ p, a < p ∨ p + 4096 ≤ a) pages → pg_mem (bc_pg c') !! a = pg_mem (bc_pg c) !! a.

Lemma wp_tables Q c :
  unmapped c → in_ram (bc_sp c - 16) → page_space (pg_mem (bc_pg c)) pages →
  (∀ s, let c' := set_bc_pg s c in tables (pg_mem s) → sctlr s = sctlr (bc_pg c) → tables_only c c' → Q tt c') →
  wp (c_init_page_table pt0 pt1 high_pt0 high_pt1 pa_bits PXN fuel) Q c.
Proof using Hlk Hpxn Hfuel.
  intros [Hsl Hoff] Hsp Hps HQ. unfold c_init_page_table, adrp. do 8 wp_step.
  rewrite Hsl, !Z.add_opp_r. eapply wp_bl; [by eapply access_off|].
  eapply wp_mono; [by apply init_page_table_built|]. intros [] s (_ & Hs & Hr & Hb).
  assert (E : sctlr s = sctlr (bc_pg c)) by by rewrite Hs.
  split; [eapply access_off; [done| |done]; cbn [bc_pg set_bc_pg]; by rewrite E|]. by apply HQ.
Qed.
Lemma wp_mapped Q c :
  unmapped c → bc_el c ≠ 3 → in_ram (bc_sp c - 16) → tables (pg_mem (bc_pg c)) →
  (∀ s, let c' := set_bc_pg s c in pg_mem s = pg_mem (bc_pg c) →
     (∀ va, 0 ≤ va < 2 ^ 64 → s1_translate s va = page_map va) → Q tt c') →
  wp (c_enable_mmu pt0 high_pt0 pa_bits) Q c.
Proof using Hlk.
  clear Hfuel Hpxn. intros [Hsl Hoff] He Hsp Ht HQ. unfold c_enable_mmu, adrp. do 4 wp_step.
  rewrite Hsl, !Z.add_opp_r. eapply wp_bl; [by eapply access_off|].
  eapply wp_mono; [by eapply enable_mmu_ok|]. intros [] s (Hm & Hmap).
  split; [|by apply HQ]. eapply (access_map pa_bits page_map); [done|apply Hmap; unfold in_ram in Hsp; lia|by apply page_map_ram].
Qed.

Lemma map_linked a : in_ram a → s1_pa <$> page_map (a + offset) = Some a.
Proof using Hlk.
  intros Ha. destruct (lk_offset _ _ _ _ Hlk) as [->| ->]; [|by apply page_map_linked].
  rewrite Z.add_0_r. by apply page_map_ram.
Qed.
Lemma masked_irq x : Z.testbit (x .| (2 << 6)) 7 = true.
Proof using Type. rewrite Z.lor_spec. apply orb_true_r. Qed.

(** [primary_entry], at EL1. *)
Lemma primary_entry_ok c :
  unmapped c → bc_el c = 1 → page_space (pg_mem (bc_pg c)) pages →
  wp (primary_entry _stack_top exception_vector_base pt0 pt1 high_pt0 high_pt1 pa_bits PXN fuel)
     (λ m c', m = Kernel_main ∧ bc_el c' = 1 ∧ bc_sp c' = _stack_top ∧ bc_vbar c' 1 = exception_vector_base ∧
              bc_daif c' = bc_daif c .| (2 << 6) ∧ bc_scr_el3 c' = bc_scr_el3 c ∧ tables (pg_mem (bc_pg c')) ∧ tables_only c c' ∧
              handed_over offset pa_bits page_map c') c.
Proof using Hlk Hpxn Hfuel.
  intros Hu He Hps. destruct (lk_stack _ _ _ _ Hlk) as [Hst _].
  unfold primary_entry, daifset. do 4 wp_step. erewrite stack_low by exact Hlk.
  apply wp_tables; [exact Hu|cbn; exact Hst|exact Hps|]. intros s c1 Ht Hsc Ho. wp_step.
  apply wp_mapped; [split; [apply Hu|cbn; rewrite Hsc; apply Hu]|cbn; lia|cbn; exact Hst|exact Ht|].
  intros s2 c2 Hm Hmap. do 3 wp_step.
  set (c3 := set_bc_vbar 1 exception_vector_base (set_bc_sp _stack_top c2)).
  assert (Hh : handed_over offset pa_bits page_map c3).
  { eapply hand_over; [exact Hlk|cbn; lia|apply masked_irq|exact Hmap|exact page_map_ram|exact map_linked]. }
  eapply (bl_main_ok _ _ _ _ (_stack_top - offset - 16)).
  { replace (bc_sp c3 - 16) with (_stack_top - offset - 16 + offset) by (cbn; lia). by apply (ho_linked _ _ _ _ Hh). }
  split_and!; try done; [cbn; by rewrite Hm|].
  intros a Ha. cbn. rewrite Hm. by apply Ho.
Qed.

(** [second_entry], on a core that finds the tables of the first. *)
Lemma second_entry_ok c x0 :
  unmapped c → bc_el c = 1 → in_ram (x0 - 16) → tables (pg_mem (bc_pg c)) →
  wp (second_entry exception_vector_base pt0 high_pt0 pa_bits x0)
     (λ m c', m = Second_kernel_main ∧ bc_el c' = 1 ∧ bc_sp c' = x0 ∧ bc_vbar c' 1 = exception_vector_base ∧
              pg_mem (bc_pg c') = pg_mem (bc_pg c) ∧ handed_over offset pa_bits page_map c') c.
Proof using Hlk.
  clear Hfuel Hpxn. intros Hu He Hx Ht. unfold second_entry, daifset. do 4 wp_step.
  apply wp_mapped; [exact Hu|cbn; lia|exact Hx|exact Ht|]. intros s c2 Hm Hmap. do 2 wp_step.
  set (c3 := set_bc_vbar 1 exception_vector_base c2).
  assert (Hh : handed_over offset pa_bits page_map c3).
  { eapply hand_over; [exact Hlk|cbn; lia|apply masked_irq|exact Hmap|exact page_map_ram|exact map_linked]. }
  eapply (bl_main_ok _ _ _ _ (x0 - 16)); [by apply (ho_ram _ _ _ _ Hh)|]. done.
Qed.

(** [from_el2], for the image of the hypervisor. *)
Abbreviation start := (_start _stack_top_el3 _stack_top primary exception_vector_base exception_vector_base_el2
  exception_vector_base_el3 pt0 pt1 high_pt0 high_pt1 pa_bits PXN fuel).
Lemma from_el2_ok c :
  offset = 0 → unmapped c → bc_el c = 2 → page_space (pg_mem (bc_pg c)) pages →
  wp (from_el2 _stack_top exception_vector_base_el2 pt0 pt1 high_pt0 high_pt1 pa_bits PXN fuel)
     (λ m c', m = Hyper_main ∧ bc_el c' = 2 ∧ bc_sp c' = _stack_top ∧ bc_vbar c' 2 = exception_vector_base_el2 ∧
              bc_hcr_el2 c' = HCR_VALUE ∧ (∀ i, 0 ≤ i → Z.testbit (sctlr (bc_pg c')) i = (i =? 0) || (i =? 2) || (i =? 6) || (i =? 12)) ∧
              tables_only c c' ∧ handed_over offset pa_bits el2_map c') c.
Proof using Hlk Hpxn Hfuel.
  intros Ho [Hsl Hoff] He Hps. destruct (lk_stack _ _ _ _ Hlk) as [Hst _].
  unfold from_el2, daifset, adrp. do 10 wp_step. set (c0 := set_bc_sp _stack_top _).
  apply wp_tables; [split; [exact Hsl|reflexivity]|rewrite Ho, Z.sub_0_r in Hst; exact Hst|exact Hps|]. intros s c1 Ht Hsc Hto.
  wp_step. unfold c_enable_mmu_el2, adrp. do 2 wp_step. cbn [bc_slide set_bc_pg c1 c0 set_bc_sp set_bc_vbar set_bc_daif set_bc_spsr set_bc_regs].
  rewrite Hsl, Z.add_opp_r. rewrite Ho, Z.sub_0_r in Hst.
  eapply wp_bl; [eapply access_off; [exact Hlk|cbn [bc_pg c1 set_bc_pg]; by rewrite Hsc|exact Hst]|].
  eapply wp_mono; [by eapply enable_mmu_el2_ok|]. intros [] s2 (Hm & Hmap & Hbits).
  split; [eapply (access_map pa_bits el2_map); [cbn; lia|apply Hmap; cbn; unfold in_ram in Hst; lia|by apply el2_map_ram]|].
  wp_step. set (c3 := set_bc_sp _stack_top _).
  assert (Hh : handed_over offset pa_bits el2_map c3).
  { eapply hand_over; [exact Hlk|cbn; lia|apply masked_irq|exact Hmap|exact el2_map_ram|].
    intros a Ha. rewrite Ho, Z.add_0_r. by apply el2_map_ram. }
  eapply (bl_main_ok _ _ _ _ (_stack_top - 16)); [by apply (ho_ram _ _ _ _ Hh)|].
  split; [reflexivity|]. split; [exact He|]. split; [reflexivity|]. split_and!; [|reflexivity|..|exact Hh].
  - cbn [bc_vbar c3 c1 c0 set_bc_sp set_bc_pg set_bc_vbar bank Z.eqb Pos.eqb]. cbn. rewrite Hsl. lia.
  - intros i Hi. cbn [bc_pg c3 set_bc_sp set_bc_pg]. rewrite Hbits by done. cbn [bc_pg c1 set_bc_pg]. rewrite Hsc. cbn [sctlr bc_pg c0 set_bc_sp set_bc_vbar set_bc_daif set_bc_spsr set_bc_regs set_bc_pg set_regs].
    change SCTLR_VALUE_MMU_DISABLED with 0. rewrite Z.bits_0.
    by repeat match goal with |- context [i =? ?k] => destruct (i =? k) end.
  - intros a Ha. cbn. rewrite Hm. by apply Hto.
Qed.
Lemma from_el2_faults c :
  offset ≠ 0 → unmapped c →
  from_el2 _stack_top exception_vector_base_el2 pt0 pt1 high_pt0 high_pt1 pa_bits PXN fuel c = Fault.
Proof using Hlk.
  clear Hfuel Hpxn. intros Ho [Hsl Hoff]. destruct (lk_stack _ _ _ _ Hlk) as [Hst _].
  unfold from_el2, c_init_page_table, daifset, adrp, modify, get, mbind, St_bind, mret, St_ret.
  erewrite bl_fault; [done|]. eapply access_off_high; [exact Hlk|done|done|]. cbn.
  by replace (_stack_top - 16 - offset) with (_stack_top - offset - 16) by lia.
Qed.

(** [from_el3_to_el1]. *)
Definition at_el1 (c : core) : core := {|
  bc_el := 1; bc_slide := primary - primary; bc_sp := _stack_top; bc_sp_el1 := _stack_top; bc_daif := 0xF << 6;
  bc_scr_el3 := bic (bc_scr_el3 c .| (1 << 10)) (1 << 7); bc_hcr_el2 := bc_hcr_el2 c .| (1 << 29);
  bc_vbar := bank 3 (exception_vector_base_el3 + bc_slide c) (bc_vbar c);
  bc_spsr := bank 3 ((5 << 0) .| (15 << 6)) (bc_spsr c); bc_elr_el3 := primary; bc_pg := bc_pg c |}.
Lemma from_el3_eq c :
  from_el3_to_el1 _stack_top primary exception_vector_base exception_vector_base_el3 pt0 pt1 high_pt0 high_pt1 pa_bits PXN fuel c =
  match access pa_bits (at_el1 c) primary with
  | Some _ => primary_entry _stack_top exception_vector_base pt0 pt1 high_pt0 high_pt1 pa_bits PXN fuel (at_el1 c)
  | None => Fault
  end.
Proof using Type.
  unfold from_el3_to_el1, eret_el3, adrp, modify, get, mbind, St_bind, mret, St_ret, deref.
  cbn [set_bc_regs set_bc_vbar set_bc_spsr bc_el bc_slide bc_sp bc_sp_el1 bc_daif bc_scr_el3 bc_hcr_el2 bc_vbar bc_spsr bc_elr_el3 bc_pg].
  change ((bank 3 ((5 << 0) .| (15 << 6)) (bc_spsr c) 3 >> 2) .& 3) with 1.
  change (bank 3 ((5 << 0) .| (15 << 6)) (bc_spsr c) 3 .& (0xF << 6)) with (0xF << 6).
  fold (at_el1 c). by destruct (access pa_bits (at_el1 c) primary).
Qed.
Lemma from_el3_ok c Q :
  offset = 0 → unmapped c →
  wp (primary_entry _stack_top exception_vector_base pt0 pt1 high_pt0 high_pt1 pa_bits PXN fuel) Q (at_el1 c) →
  wp (from_el3_to_el1 _stack_top primary exception_vector_base exception_vector_base_el3 pt0 pt1 high_pt0 high_pt1 pa_bits PXN fuel) Q c.
Proof using Hlk.
  clear Hfuel Hpxn. intros Ho [Hsl Hoff] HQ. unfold wp. rewrite from_el3_eq. erewrite access_off; [exact HQ|exact Hlk|exact Hoff|].
  pose proof (lk_primary _ _ _ _ Hlk) as Hp. by rewrite Ho, Z.sub_0_r in Hp.
Qed.
Lemma from_el3_faults c :
  offset ≠ 0 → unmapped c →
  from_el3_to_el1 _stack_top primary exception_vector_base exception_vector_base_el3 pt0 pt1 high_pt0 high_pt1 pa_bits PXN fuel c = Fault.
Proof using Hlk.
  clear Hfuel Hpxn. intros Ho [Hsl Hoff]. rewrite from_el3_eq.
  erewrite access_off_high; [done|exact Hlk|done|done|]. apply (lk_primary _ _ _ _ Hlk).
Qed.

(** C16: from reset to C.  At EL1, and at EL3 for the image linked where it is loaded,
    [_start] runs to [kernel_main] at EL1 with the interrupts masked, the vectors and
    the stack set and the mapping of the kernel in force: the first 4 GB where they are
    and again at the top of the address space, devices first, EL0 on the upper two in
    the low half only, and a fault everywhere else; the tables are all of memory it
    writes, and a core that is then started at [second_entry] gets to
    [second_kernel_main] with the same mapping.  At EL2 that image runs to [hyper_main]
    with that mapping less the high half, the caches on, the alignment checks off and
    every other control bit 0, and with the second stage and the routing of the
    interrupts on.  From EL3 bit 10 of [SCR_EL3] is set and bit 7 cleared, and the
    bit that allows [hvc], which the comment means, stays as it was.  The image linked
    in the upper half faults at EL2 and EL3, where it uses its addresses before they
    are mapped. *)
Theorem reset_correct c :
  unmapped c → page_space (pg_mem (bc_pg c)) pages → 1 ≤ bc_el c ≤ 3 →
  (bc_el c ≠ 1 → offset ≠ 0 → start c = Fault) ∧
  (bc_el c = 2 → offset = 0 → wp start (λ m c',
     m = Hyper_main ∧ bc_el c' = 2 ∧ bc_sp c' = _stack_top ∧ bc_vbar c' 2 = exception_vector_base_el2 ∧
     (∀ i, 0 ≤ i → Z.testbit (bc_hcr_el2 c') i = bool_decide (i ∈ [0; 1; 3; 4; 5; 14; 19; 21; 31])) ∧
     (∀ i, 0 ≤ i → Z.testbit (sctlr (bc_pg c')) i = (i =? 0) || (i =? 2) || (i =? 6) || (i =? 12)) ∧
     tables_only c c' ∧ handed_over offset pa_bits el2_map c') c) ∧
  (bc_el c = 1 ∨ bc_el c = 3 ∧ offset = 0 → wp start (λ m c',
     m = Kernel_main ∧ bc_el c' = 1 ∧ bc_sp c' = _stack_top ∧ bc_vbar c' 1 = exception_vector_base ∧
     (bc_el c = 3 → ∀ i, 0 ≤ i → Z.testbit (bc_scr_el3 c') i =
        if i =? 10 then true else if i =? 7 then false else Z.testbit (bc_scr_el3 c) i) ∧
     tables_only c c' ∧ handed_over offset pa_bits page_map c' ∧
     ∀ c2 x0, unmapped c2 → bc_el c2 = 1 → in_ram (x0 - 16) → pg_mem (bc_pg c2) = pg_mem (bc_pg c') →
       wp (second_entry exception_vector_base pt0 high_pt0 pa_bits x0) (λ m c2',
         m = Second_kernel_main ∧ bc_el c2' = 1 ∧ bc_sp c2' = x0 ∧ bc_vbar c2' 1 = exception_vector_base ∧
         pg_mem (bc_pg c2') = pg_mem (bc_pg c2) ∧ handed_over offset pa_bits page_map c2') c2) c).
Proof using Hlk Hpxn Hfuel.
  intros Hu Hps Hel. set (c0 := set_bc_sp (_stack_top_el3 .& 0xFFFFFFFF) c).
  assert (Hu0 : unmapped c0) by exact Hu.
  assert (Hx0 : (bc_el c << 2) >> 2 = bc_el c).
  { rewrite Z.shiftr_shiftl_l by lia. apply Z.shiftl_0_r. }
  assert (Hsecond : ∀ c' c2 x0, tables (pg_mem (bc_pg c')) → unmapped c2 → bc_el c2 = 1 → in_ram (x0 - 16) →
    pg_mem (bc_pg c2) = pg_mem (bc_pg c') → wp (second_entry exception_vector_base pt0 high_pt0 pa_bits x0) (λ m c2',
         m = Second_kernel_main ∧ bc_el c2' = 1 ∧ bc_sp c2' = x0 ∧ bc_vbar c2' 1 = exception_vector_base ∧
         pg_mem (bc_pg c2') = pg_mem (bc_pg c2) ∧ handed_over offset pa_bits page_map c2') c2).
  { intros c' c2 x0 Ht Hu2 He2 Hx Hm. apply second_entry_ok; [done|done|done|by rewrite Hm]. }
  split_and!.
  - intros Hne Ho. unfold _start, modify, get, mbind, St_bind. fold c0. cbn [bc_el c0 set_bc_sp]. rewrite Hx0.
    destruct (Z.eqb_spec (bc_el c) 3); [by apply from_el3_faults|]. destruct (Z.eqb_spec (bc_el c) 2); [by apply from_el2_faults|lia].
  - intros He Ho. unfold _start. do 3 wp_step. cbn [bc_el set_bc_sp]. rewrite Hx0, He. cbn [Z.eqb Pos.eqb].
    eapply wp_mono; [by apply (from_el2_ok c0)|]. intros m c' (H1 & H2 & H3 & H4 & H5 & H6 & H7 & H8).
    split_and!; try done. rewrite H5. apply HCR_VALUE_spec.
  - intros [He|[He Ho]]; unfold _start; do 3 wp_step; cbn [bc_el set_bc_sp]; rewrite Hx0, He; cbn [Z.eqb Pos.eqb].
    + eapply wp_mono; [by apply (primary_entry_ok c0)|]. intros m c' (H1 & H2 & H3 & H4 & _ & _ & Ht & Ho & Hh).
      split_and!; try done; try lia. intros c2 x0. by apply Hsecond.
    + apply (from_el3_ok c0); [done|done|].
      eapply wp_mono; [apply (primary_entry_ok (at_el1 c0)); [split; [cbn; lia|apply Hu]|done|exact Hps]|].
      intros m c'' (H1 & H2 & H3 & H4 & _ & H6 & Ht & Hto & Hh). split_and!; try done.
      * intros _ i Hi. rewrite H6. cbn [bc_scr_el3 at_el1]. unfold bic. rewrite Z.land_spec, Z.lor_spec, Z.lnot_spec by done. cbn [c0 bc_scr_el3 set_bc_sp].
        destruct (Z.eqb_spec i 10) as [->|]; [by rewrite orb_true_r|]. destruct (Z.eqb_spec i 7) as [->|]; [by rewrite andb_false_r|].
        change (1 << 10) with (2 ^ 10). change (1 << 7) with (2 ^ 7). rewrite !Z.pow2_bits_false by lia. by rewrite orb_false_r, andb_true_r.
      * intros c2 x0. by apply Hsecond.
Qed.
End correct.

(** * Example *)

(** The board at reset, at a level, with the image where [offset] links it. *)
Definition reset_paging : paging :=
  {| pg_mem := some_pages; pg_line := 0; ctr_el0 := 0x84448004; ttbr0 := 0; ttbr1 := 0; tcr := 0; mair := 0; sctlr := 0x30C50838 |}.
Definition reset_core (el offset : Z) : core := {|
  bc_el := el; bc_slide := - offset; bc_sp := 0; bc_sp_el1 := 0; bc_daif := 0; bc_scr_el3 := 0; bc_hcr_el2 := 0;
  bc_vbar := λ _, 0; bc_spsr := λ _, 0; bc_elr_el3 := 0; bc_pg := reset_paging |}.
Definition start_example (offset : Z) : St core c_main :=
  _start (offset + 0x400a4000) (offset + 0x400a8000) (offset + 0x40080048) (offset + 0x40084000) (offset + 0x40084800)
    (offset + 0x40085000) (offset + 0x40090000) (offset + 0x40091000) (offset + 0x40092000) (offset + 0x40093000)
    44 (1 << 53) (Z.to_nat 5000).
Lemma linked_example offset :
  offset = 0 ∨ offset = 2 ^ 64 - 2 ^ 48 → linked offset (offset + 0x400a8000) (offset + 0x40080048) 44.
Proof. intros Ho. constructor; [done|..]; unfold in_ram; lia. Qed.

Lemma pages_example offset :
  page_space some_pages [offset + 0x40090000 - offset; offset + 0x40091000 - offset; offset + 0x40092000 - offset; offset + 0x40093000 - offset].
Proof. rewrite !Z.add_simpl_l. exact some_pages_space. Qed.
Lemma pxn_example : u64 (1 << 53) mod 2 ^ 48 = 0.
Proof. reflexivity. Qed.
Lemma unmapped_example el offset : unmapped offset (reset_core el offset).
Proof. by split. Qed.

(** At EL1 the image of the kernel starts; at EL3 it faults, and the image of the
    hypervisor starts at EL2. *)
Lemma reset_correct_witness :
  wp (start_example (2 ^ 64 - 2 ^ 48)) (λ m c', m = Kernel_main ∧ bc_sp c' = 0xffff0000400a8000 ∧
     access 44 c' 0xffff000040080000 = Some 0x40080000) (reset_core 1 (2 ^ 64 - 2 ^ 48)) ∧
  start_example (2 ^ 64 - 2 ^ 48) (reset_core 3 (2 ^ 64 - 2 ^ 48)) = Fault ∧
  wp (start_example 0) (λ m c', m = Hyper_main ∧ access 44 c' 0x400a7ff0 = Some 0x400a7ff0) (reset_core 2 0).
Proof.
  assert (Hf : (4096 < Z.to_nat 5000)%nat) by lia.
  pose proof (λ o Ho el, reset_correct (o + 0x400a4000) (o + 0x400a8000) (o + 0x40080048) (o + 0x40084000) (o + 0x40084800)
    (o + 0x40085000) (o + 0x40090000) (o + 0x40091000) (o + 0x40092000) (o + 0x40093000) 44 (1 << 53) (Z.to_nat 5000) o
    (linked_example o Ho) pxn_example Hf (reset_core el o) (unmapped_example el o) (pages_example o)) as H.
  split_and!.
  - destruct (H (2 ^ 64 - 2 ^ 48) (or_intror eq_refl) 1) as (_ & _ & H1); [cbn; lia|].
    eapply wp_mono; [exact (H1 (or_introl eq_refl))|]. intros m c' (Hm & _ & Hsp & _ & _ & _ & Hh & _).
    split_and!; [exact Hm|exact Hsp|]. apply (ho_linked _ _ _ _ Hh 0x40080000). unfold in_ram. lia.
  - destruct (H (2 ^ 64 - 2 ^ 48) (or_intror eq_refl) 3) as (H1 & _); [cbn; lia|]. by apply H1.
  - destruct (H 0 (or_introl eq_refl) 2) as (_ & H1 & _); [cbn; lia|].
    eapply wp_mono; [exact (H1 eq_refl eq_refl)|]. intros m c' (Hm & _ & _ & _ & _ & _ & _ & Hh).
    split; [exact Hm|]. apply (ho_ram _ _ _ _ Hh). unfold in_ram. lia.
Defined.
