(* ===== verification/Trap.v ===== *)
(** The exceptions: [exception/exception.c], [exception/exception_el2.c],
    [exception/exception_el3.c], [syscall/syscall.c], [timer/timer.c], and the
    functions of [io/io.c] and [hyper/vm.c] that install handlers. *)

From S2P Require Import Prelude Config Gic Frame Uart Vgic Kernel Sched Keeps Ept.

(** * The machine

    The system registers the code reads and writes, beside the kernel and the
    memory of the page tables. *)

Record sysregs := {
  esr_el1 : Z;
  esr_el2 : Z;
  esr_el3 : Z;
  far_el2 : Z;
  hpfar_el2 : Z;
  cntfrq_el0 : Z;
  cntp_tval_el0 : Z;
  cntp_ctl_el0 : Z;
}.
Definition set_timer (tval ctl : Z) (s : sysregs) : sysregs :=
  {| esr_el1 := esr_el1 s; esr_el2 := esr_el2 s; esr_el3 := esr_el3 s; far_el2 := far_el2 s;
     hpfar_el2 := hpfar_el2 s; cntfrq_el0 := cntfrq_el0 s; cntp_tval_el0 := tval; cntp_ctl_el0 := ctl |}.

Record machine (D : Type) := { m_kernel : kernel D; m_ept : ept; m_regs : sysregs }.
Arguments m_kernel {D} m. Arguments m_ept {D} m. Arguments m_regs {D} m.
Arguments Build_machine {D} m_kernel m_ept m_regs.

Definition TIMER_VECTOR : Z := 30.
Definition NR_SYSCALL : Z := 256.
Definition SYS_putc : Z := 0.
Definition SYS_getc : Z := 1.
Definition SYS_debug : Z := 255.

Inductive syscall := Putc | Getc | Debug.
(** [syscall_table], an array of [NR_SYSCALL] pointers: a number outside it is
    [None], a null pointer is [Some None]. *)
Definition syscall_table (n : Z) : option (option syscall) :=
  if (0 <=? n) && (n <? NR_SYSCALL) then
    Some (if n =? SYS_putc then Some Putc
          else if n =? SYS_getc then Some Getc
          else if n =? SYS_debug then Some Debug else None)
  else None.

(** The bits of [ESR_ELx], read as an [int]. *)
Definition exception_class (esr : Z) : Z := (s32 esr >> 26) .& 0x3f.

Section trap.
Context {D : Type} `{Device D}.
(** The number of cores and the context switch of the assembly code, as for the
    scheduler, and the fuel of the loops that wait for the serial port. *)
Context (SMP_NUM : Z) (switch_context : nat → nat → St (kernel D) unit) (fuel : nat).

Definition in_kernel {A} (m : St (kernel D) A) : St (machine D) A :=
  on_part m_kernel (λ k s, Build_machine k (m_ept s) (m_regs s)) m.
Definition on_mach {A} (m : St (mach D) A) : St (machine D) A := in_kernel (kmach m).
Definition mprint (e : log_entry) : St (machine D) unit := on_mach (print e).
Definition write_cntp_tval_el0 (v : Z) : St (machine D) unit :=
  modify (λ s, Build_machine (m_kernel s) (m_ept s) (set_timer v (cntp_ctl_el0 (m_regs s)) (m_regs s))).
Definition write_cntp_ctl_el0 (v : Z) : St (machine D) unit :=
  modify (λ s, Build_machine (m_kernel s) (m_ept s) (set_timer (cntp_tval_el0 (m_regs s)) v (m_regs s))).

(** [while (1);]: the end of an exception that is not handled. *)
Definition hang : St (machine D) unit := nofuel.

(** ** Interrupts *)

Definition irq_install (vector : Z) (h : handler) : St (kernel D) unit :=
  k ← get;
  if (0 <=? vector) && (vector <? Z.of_nat (length (g_handler_vec k))) then
    modify (λ k, set_handlers (<[Z.to_nat vector := Some h]> (g_handler_vec k)) k)
  else fault.

Definition handle_timer_interrupt (core : nat) (sp : Z) : St (machine D) unit :=
  write_cntp_tval_el0 100000;;
  in_kernel (timer_tick_schedule SMP_NUM switch_context core sp);;
  on_mach (gic_set_ipriority 6 0xf0000000);;
  on_mach (gic_set_ipriority 8 0x0000f000).

Definition run_handler (h : handler) (core : nat) (sp : Z) : St (machine D) unit :=
  match h with
  | HTimer => handle_timer_interrupt core sp
  | HUart => in_kernel (kcon (uart_interrupt_handler fuel))
  | HVTimer => on_mach v_timer_handler
  | HFakeConsole => on_mach fake_console
  end.

(** [g_handler_vec[vector](sp)]; an entry outside the array or a null one faults. *)
Definition call_handler (vector : Z) (core : nat) (sp : Z) : St (machine D) unit :=
  k ← gets m_kernel;
  h ← deref (g_handler_vec k !! Z.to_nat vector);
  h ← deref h;
  run_handler h core sp.

(** [x1_value] and [sp_el0_value], which nothing uses. *)
Definition read_x1 (sp : Z) : St (machine D) unit :=
  f ← in_kernel (frame_at sp); deref (r f !! 1%nat);; mret tt.

Definition handle_irq_exception (core : nat) (sp : Z) : St (machine D) unit :=
  read_x1 sp;;
  in_kernel (save_cpu_ctx core sp);;
  iar ← on_mach gic_read_iar;
  let vector := gic_iar_irqnr iar in
  on_mach (gic_write_eoir iar);;
  call_handler vector core sp.

Definition handle_irq_exception_el2 (core : nat) (sp : Z) : St (machine D) unit :=
  read_x1 sp;;
  iar ← on_mach gic_read_iar;
  let vector := gic_iar_irqnr iar in
  on_mach (gic_write_eoir iar);;
  on_mach (gic_write_dir iar);;
  in_kernel (save_cpu_ctx core sp);;
  call_handler vector core sp.

Definition current_spxel_irq (core : nat) (sp : Z) : St (machine D) unit :=
  mprint (Printf (ln "irq stay in same el") []);; handle_irq_exception_el2 core sp.

(** The exceptions that are not there only read a register. *)
Definition read_x2 (sp : Z) : St (machine D) unit :=
  f ← in_kernel (frame_at sp); deref (r f !! 2%nat);; mret tt.
Definition invalid_exception (sp kind source : Z) : St (machine D) unit := read_x2 sp.
Definition handle_irq_exception_el3 (sp : Z) : St (machine D) unit := read_x1 sp.
Definition invalid_exception_el3 (sp kind source : Z) : St (machine D) unit := read_x2 sp.

(** ** System calls *)

(** A system call is given the frame; [args[i]] is its register [i]. *)
Definition argument (sp : Z) (i : nat) : St (machine D) Z :=
  f ← in_kernel (frame_at sp); deref (r f !! i).
Definition sys_debug (args : Z) : St (machine D) Z :=
  a ← argument args 0; b ← argument args 1;
  mprint (Printf (ln "[syscall] sys_debug: %c, %c") [Num a; Num b]);; mret 0.
Definition sys_putc (args : Z) : St (machine D) Z :=
  a ← argument args 0; in_kernel (kcon (putc fuel (u8 a)));; mret 0.
Definition sys_getc (args : Z) : St (machine D) Z := in_kernel (kcon (getc fuel)).
Definition run_syscall (s : syscall) (args : Z) : St (machine D) Z :=
  match s with Putc => sys_putc args | Getc => sys_getc args | Debug => sys_debug args end.

(** ** Synchronous exceptions *)

(** The registers of the frame, and the other fields. *)
Fixpoint print_registers (n : nat) (f : trap_frame) (i : Z) : St (machine D) unit :=
  match n with
  | O => mret tt
  | S n =>
      v ← deref (r f !! Z.to_nat i);
      mprint (Printf (ln "General-purpose register: %d, value: %x") [Num i; Num v]);;
      print_registers n f (i + 1)
  end.
Definition print_frame (sp : Z) : St (machine D) unit :=
  f ← in_kernel (frame_at sp);
  print_registers 31 f 0;;
  mprint (Printf (ln "usp: %x, elr: %x, spsr: %x") [Num (usp f); Num (elr f); Num (spsr f)]).

Definition handle_sync_exception (core : nat) (sp : Z) : St (machine D) unit :=
  s ← gets m_regs;
  let el1_esr := s32 (esr_el1 s) in
  let ec := exception_class (esr_el1 s) in
  in_kernel (save_cpu_ctx core sp);;
  if ec =? 0x15 then
    n ← argument sp 8;
    func ← deref (syscall_table n);
    func ← deref func;
    ret ← run_syscall func sp;
    f ← in_kernel (frame_at sp);
    in_kernel (store_frame sp (set_reg 0 (u64 ret) f))
  else if ec =? 0x17 then mprint (Printf (ln "This is smc call handler") [])
  else
    mprint (Printf (ln "el1 esr: %x") [Num el1_esr]);;
    mprint (Printf (ln "ec: %x") [Num ec]);;
    mprint (Printf (ln "This is handle_sync_exception: ") []);;
    print_frame sp;;
    hang.

(** [context->elr += info->hsr.len ? 4 : 2;] *)
Definition advance_pc (info : ept_violation_info) (sp : Z) : St (machine D) unit :=
  f ← in_kernel (frame_at sp);
  in_kernel (store_frame sp (set_elr (u64 (elr f + if truthy (hsr_len (hsr info)) then 4 else 2)) f)).

(** An [ept_violation_info_t] of which only [hsr] is set. *)
Definition hsr_info (bits : Z) : ept_violation_info := {| hsr := bits; reason := 0; gva := 0; gpa := 0 |}.

Definition handle_sync_exception_el2 (core : nat) (sp : Z) : St (machine D) unit :=
  s ← gets m_regs;
  let ec := exception_class (esr_el2 s) in
  let hsr := u32 (s32 (esr_el2 s)) in
  in_kernel (save_cpu_ctx core sp);;
  if ec =? 0x1 then
    mprint (Info (ln "            This is wfi trap handler"));; advance_pc (hsr_info hsr) sp
  else if ec =? 0x16 then mprint (Info (ln "            This is hvc call handler"))
  else if ec =? 0x17 then
    mprint (Info (ln "            This is smc call handler"));; advance_pc (hsr_info hsr) sp
  else if ec =? 0x24 then
    let info := {| hsr := hsr; reason := 0; gva := far_el2 s;
                   gpa := (far_el2 s .& 0xfff) .| u64 (hpfar_el2 s << 8) |} in
    f ← in_kernel (frame_at sp);
    f ← on_part (λ m, (m_ept m, k_mach (m_kernel m)))
          (λ p m, Build_machine (set_mach (snd p) (m_kernel m)) (fst p) (m_regs m))
          (data_abort_handler info f);
    in_kernel (store_frame sp f);;
    advance_pc info sp
  else
    (if ec =? 0x18 then mprint (Info (ln "            This is sys instr handler")) else mret tt);;
    print_frame sp;;
    hang.

Definition invalid_exception_el2 (sp kind source : Z) : St (machine D) unit :=
  read_x2 sp;;
  mprint (Printf (ln "invalid_exception_el2") []);;
  s ← gets m_regs;
  mprint (Printf (ln "        el2 esr: %x") [Num (s32 (esr_el2 s))]);;
  mprint (Printf (ln "        ec: %x") [Num (exception_class (esr_el2 s))]);;
  print_frame sp;;
  hang.

Definition handle_sync_exception_el3 (sp : Z) : St (machine D) unit :=
  s ← gets m_regs;
  mprint (Printf (ln "        el1 esr: %x") [Num (s32 (esr_el3 s))]);;
  mprint (Printf (ln "        ec: %x") [Num (exception_class (esr_el3 s))]);;
  if exception_class (esr_el3 s) =? 0x17 then
    mprint (Printf (ln "            This is smc call handler") [])
  else
    print_frame sp;; hang.

(** ** The functions that install handlers *)

(** The messages and settings [timer_init] and [timer_init_second] share. *)
Definition timer_start : St (machine D) unit :=
  s ← gets m_regs;
  mprint (Printf (ln "timer frq: %d") [Num (cntfrq_el0 s)]);;
  write_cntp_tval_el0 100000;;
  write_cntp_ctl_el0 1.
Definition timer_enable : St (machine D) unit :=
  on_mach (gic_enable_int TIMER_VECTOR 0);;
  e ← on_mach (gic_get_enable TIMER_VECTOR);
  if truthy e then mprint (Printf (ln "timer enabled successfully ...") []) else mret tt.
Definition timer_init_second : St (machine D) unit := timer_start;; timer_enable.
Definition timer_init : St (machine D) unit :=
  timer_start;; in_kernel (irq_install TIMER_VECTOR HTimer);; timer_enable.

Definition io_init : St (machine D) unit :=
  in_kernel (irq_install 33 HUart);;
  on_mach (gic_enable_int 33 0);;
  e ← on_mach (gic_get_enable 33);
  (if truthy e then mprint (Printf (ln "uart enabled successfully ...") []) else mret tt);;
  in_kernel (kcon uart_advance_init);;
  in_kernel (kcon (on_uart (modify (set_uart_op AdvanceOps)))).

(** [virtual_gic_register_int(get_vgic(id), p, v)]. *)
Definition get_vgic (id : Z) : St (kernel D) vgic :=
  k ← get; deref (vgics k !! Z.to_nat id).
Definition register_int (id p v : Z) : St (kernel D) unit :=
  g ← get_vgic id;
  g ← kmach (virtual_gic_register_int g p v);
  modify (λ k, set_vgics (<[Z.to_nat id := g]> (vgics k)) k).
Definition vm_init : St (kernel D) unit :=
  register_int 0 HV_TIMER_VECTOR HV_TIMER_VECTOR;;
  register_int 0 PL011_INT PL011_INT;;
  irq_install HV_TIMER_VECTOR HVTimer;;
  irq_install PL011_INT HFakeConsole.
End trap.

(** * Interrupts *)

Section trap_rules.
Context {D : Type} `{Device D}.

Lemma wp_in_kernel {A} (m : St (kernel D) A) Q s :
  wp (in_kernel m) Q s ↔ wp m (λ a k, Q a (Build_machine k (m_ept s) (m_regs s))) (m_kernel s).
Proof. unfold in_kernel. by rewrite wp_on_part. Qed.
Lemma wp_on_mach {A} (m : St (mach D) A) Q s :
  wp (on_mach m) Q s ↔
  wp m (λ a m', Q a (Build_machine (set_mach m' (m_kernel s)) (m_ept s) (m_regs s))) (k_mach (m_kernel s)).
Proof. unfold on_mach. rewrite wp_in_kernel. unfold kmach. by rewrite wp_on_part. Qed.
End trap_rules.
#[export] Hint Rewrite @wp_in_kernel @wp_on_mach : wp.

(** Run a function whose steps succeed: rewrite with the facts on the memory it
    reads. *)
Ltac run_step :=
  unfold mbind, St_bind, mret, St_ret, get, gets, modify, on_part, deref; cbn beta iota;
  match goal with
  | Hx : ?o = Some _ |- context [match ?o with _ => _ end] => rewrite Hx
  end.

Section dispatch.
Context {D : Type} `{Device D} (SMP_NUM : Z) (switch_context : nat → nat → St (kernel D) unit) (fuel : nat).

(** The core runs a task whose processor structure is [i], holding [x]. *)
Definition running (k : kernel D) (core i : nat) (x : cpu) : Prop :=
  ∃ ti c t, infos k !! core = Some ti ∧ current_thread ti = Some c ∧ task_list k !! c = Some t ∧
    t_cpu_info t = Some i ∧ g_cpu_dec k !! i = Some x.
(** The kernel after it saved the frame [f], which lies at [sp]. *)
Definition save_frame (i : nat) (x : cpu) (sp : Z) (f : trap_frame) (k : kernel D) : kernel D :=
  set_cpus (<[i := set_pctx sp (set_ctx f x)]> (g_cpu_dec k)) k.

Lemma save_cpu_ctx_eq core i x sp f (k : kernel D) :
  running k core i x → frames k !! sp = Some f →
  save_cpu_ctx core sp k = Done (tt, save_frame i x sp f k).
Proof.
  intros (ti & c & t & Hti & Hc & Ht & Hi & Hx) Hf.
  unfold save_cpu_ctx, current, info_at, cpu_info_of, task_at, frame_at, update_cpu, cpu_at.
  repeat run_step. cbn. rewrite list_lookup_insert_eq by (by eapply lookup_lt_Some). cbn.
  unfold set_cpus. cbn. by rewrite list_insert_insert_eq.
Qed.

Definition with_kernel (k : kernel D) (s : machine D) : machine D :=
  Build_machine k (m_ept s) (m_regs s).
(** The device after the interrupt [v] was acknowledged, with the device [d]
    left by the read, and ended. *)
Definition after_irq (el2 : bool) (v : Z) (d : D) (k : kernel D) : kernel D :=
  let d := wr32 (u32 v) GICC_EOIR d in
  let d := if el2 then wr32 (u32 v) GICC_DIR d else d in
  set_mach {| dev := d; log := log (k_mach k); irq_nr := irq_nr (k_mach k) |} k.
(** The device after an interrupt of the timer: acknowledged and ended, with the two
    priorities its handler sets. *)
Definition after_tick (el2 : bool) (d : D) : D :=
  let '(v, d) := rd32 GICC_IAR d in
  let d := wr32 (u32 v) GICC_EOIR d in
  let d := if el2 then wr32 (u32 v) GICC_DIR d else d in
  wr32 (u32 0x0000f000) (GICD_IPRIORITYR 8) (wr32 (u32 0xf0000000) (GICD_IPRIORITYR 6) d).

Definition irq_entry (el2 : bool) : nat → Z → St (machine D) unit :=
  if el2 then handle_irq_exception_el2 SMP_NUM switch_context fuel
  else handle_irq_exception SMP_NUM switch_context fuel.

Lemma irq_dispatch_eq el2 core sp i x f v d s :
  running (m_kernel s) core i x → frames (m_kernel s) !! sp = Some f → frame_ok f →
  rd32 GICC_IAR (dev (k_mach (m_kernel s))) = (v, d) →
  irq_entry el2 core sp s =
    match g_handler_vec (m_kernel s) !! Z.to_nat (gic_iar_irqnr v) with
    | Some (Some h) => run_handler SMP_NUM switch_context fuel h core sp
                         (with_kernel (after_irq el2 v d (save_frame i x sp f (m_kernel s))) s)
    | _ => Fault
    end.
Proof.
  intros Hrun Hf Hok Hv. destruct s as [k e rg]. cbn [m_kernel] in *.
  destruct (lookup_lt_is_Some_2 (r f) 1) as [x1 Hx1]; [unfold frame_ok, NUM_REGS in Hok; lia|].
  assert (Hread : read_x1 sp {| m_kernel := k; m_ept := e; m_regs := rg |} =
            Done (tt, {| m_kernel := k; m_ept := e; m_regs := rg |})).
  { unfold read_x1, in_kernel, frame_at, on_part, mbind, St_bind, get, deref. cbn [m_kernel m_ept m_regs].
    rewrite Hf. cbn. by rewrite Hx1. }
  unfold irq_entry. destruct el2.
  - unfold handle_irq_exception_el2. unfold mbind at 1, St_bind at 1. rewrite Hread.
    unfold on_mach, in_kernel, kmach, gic_read_iar, gic_write_eoir, gic_write_dir, read32, write32, on_part,
      mbind, St_bind. cbn [m_kernel m_ept m_regs]. rewrite Hv.
    cbn [k_mach set_mach m_kernel m_ept m_regs dev log irq_nr].
    rewrite (save_cpu_ctx_eq core i x sp f); [|exact Hrun|exact Hf].
    unfold call_handler, gets, mbind, St_bind. cbn [m_kernel m_ept m_regs].
    change (g_handler_vec (save_frame _ _ _ _ _)) with (g_handler_vec k).
    destruct (g_handler_vec k !! _) as [[h|]|]; reflexivity.
  - unfold handle_irq_exception. unfold mbind at 1, St_bind at 1. rewrite Hread.
    unfold on_mach, in_kernel, kmach, gic_read_iar, gic_write_eoir, read32, write32, on_part, mbind, St_bind.
    cbn [m_kernel m_ept m_regs].
    rewrite (save_cpu_ctx_eq core i x sp f); [|exact Hrun|exact Hf]. cbn [m_kernel m_ept m_regs].
    change (k_mach (save_frame _ _ _ _ _)) with (k_mach k). rewrite Hv.
    cbn [k_mach set_mach m_kernel m_ept m_regs dev log irq_nr].
    unfold call_handler, gets, mbind, St_bind. cbn [m_kernel m_ept m_regs].
    change (g_handler_vec (set_mach _ (set_mach _ (save_frame _ _ _ _ _)))) with (g_handler_vec k).
    destruct (g_handler_vec k !! _) as [[h|]|]; reflexivity.
Qed.
End dispatch.

(** ** The timer interrupt *)

Section timer.
Context {D : Type} `{Device D} (SMP_NUM : Z) (switch_context : nat → nat → St (kernel D) unit) (fuel : nat).
Context (el2 : bool).

(** An interrupt of the timer is raised and acknowledged. *)
Definition timer_pending (d : D) : Prop := gic_iar_irqnr (fst (rd32 GICC_IAR d)) = TIMER_VECTOR.

(** The machine the interrupts of a run find: the scheduler's state, the timer's
    handler in its place. *)
Definition machine_runs (s : machine D) (st : rr) : Prop :=
  runs SMP_NUM (m_kernel s) st ∧ g_handler_vec (m_kernel s) !! 30%nat = Some (Some HTimer).

Lemma repr_running (k : kernel D) st core c :
  sched_repr k st → rr_cur st !! core = Some c → ∃ x, running k core c x.
Proof.
  intros Hk Hc. destruct (current_range st core c (sr_ok _ _ Hk) Hc) as [Hcn _].
  destruct (sr_tasks _ _ Hk c Hcn) as (t & Ht & _ & Hi & _ & _).
  pose proof (sr_infos _ _ Hk _ _ Hc) as Hti. apply fmap_Some in Hti as (ti & Hti & Hcur).
  destruct (lookup_lt_is_Some_2 (rr_ctx st) c Hcn) as [f0 Hf0].
  pose proof (sr_ctx _ _ Hk _ _ Hf0) as Hctx. apply fmap_Some in Hctx as (x & Hx & _).
  exists x, ti, c, t. done.
Qed.

Lemma timer_interrupt_ok core sp f s st :
  machine_runs s st → Z.of_nat core < SMP_NUM → sp ≠ NULL → frames (m_kernel s) !! sp = Some f →
  frame_ok f → timer_pending (dev (k_mach (m_kernel s))) →
  wp (irq_entry SMP_NUM switch_context fuel el2 core sp)
     (λ _ s', machine_runs s' (snd (rr_tick core f st)) ∧
        frames (m_kernel s') = <[sp := fst (rr_tick core f st)]> (frames (m_kernel s)) ∧
        cntp_tval_el0 (m_regs s') = 100000 ∧
        outside_sched (m_kernel s') = outside_sched (m_kernel s) ∧
        dev_view (m_kernel s') = after_tick el2 (dev_view (m_kernel s))) s.
Proof.
  intros ((Hk & Hl & Hn) & Hvec) Hcore Hsp Hf Hok Hpend.
  destruct (lookup_lt_is_Some_2 (rr_cur st) core) as [c Hc]; [lia|].
  destruct (repr_running _ _ _ _ Hk Hc) as [x Hrun].
  destruct (rd32 GICC_IAR (dev (k_mach (m_kernel s)))) as [v d] eqn:Hrd.
  unfold timer_pending in Hpend. rewrite Hrd in Hpend. cbn [fst] in Hpend.
  pose proof (save_cpu_ctx_ok core c sp f _ _ Hk Hc Hf) as Hsave.
  unfold wp in Hsave. rewrite (save_cpu_ctx_eq core c x sp f _ Hrun Hf) in Hsave.
  destruct Hsave as (_ & _ & Hk1). set (k1 := save_frame c x sp f (m_kernel s)) in *.
  pose proof (irq_dispatch_eq SMP_NUM switch_context fuel el2 core sp c x f v d s Hrun Hf Hok Hrd) as Hd.
  rewrite Hpend in Hd. change (Z.to_nat TIMER_VECTOR) with 30%nat in Hd. rewrite Hvec in Hd. fold k1 in Hd.
  apply (wp_same _ _ _ _ _ Hd).
  set (k2 := after_irq el2 v d k1). assert (Hk2 : sched_repr k2 _) by exact (sched_repr_mach _ _ _ Hk1).
  set (st1 := {| rr_cur := rr_cur st; rr_ctx := <[c := f]> (rr_ctx st); rr_left := rr_left st |}) in *.
  destruct (current_range st core c (sr_ok _ _ Hk) Hc) as [Hcn _].
  assert (rr_tick core f st1 = rr_tick core f st) as Heq.
  { unfold rr_tick, st1. cbn [rr_cur rr_ctx rr_left]. rewrite Hc, list_insert_insert_eq, length_insert. done. }
  unfold run_handler, handle_timer_interrupt, write_cntp_tval_el0. do 3 wp_step.
  eapply wp_mono.
  { apply (wp_keeps dev_view); [by apply keeps_timer_tick|].
    apply (wp_keeps outside_sched); [by apply keeps_timer_tick|].
    apply (timer_tick_schedule_ok SMP_NUM switch_context core c sp f k2 st1 Hk2); try done.
    cbn [rr_ctx st1]. by apply list_lookup_insert_eq. }
  rewrite Heq. intros _ k3 [[(Hk3 & Hl3 & Hf3) Hkeep] Hdev]. unfold gic_set_ipriority. do 2 wp_step.
  apply wp_write32. do 2 wp_step. apply wp_write32. cbn [m_kernel m_regs cntp_tval_el0 set_timer].
  destruct (rr_tick_len core f st) as [Hlen _]. split_and!; [|exact Hf3|done|exact Hkeep|].
  2: { unfold dev_view in *. cbn. cbn in Hdev. rewrite Hdev. unfold after_tick. by rewrite Hrd. }
  split; [|injection Hkeep as _ Hv _; cbn; by rewrite Hv].
  split_and!; [by do 2 apply sched_repr_mach|done|lia].
Qed.

(** A run of interrupts: the assembly code puts the registers of the task on the
    stack, enters the handler, and restores what it finds there. *)
Definition irq_step (t : tick) : St (machine D) switch :=
  in_kernel (store_frame (tk_sp t) (tk_frame t));;
  c ← in_kernel (current (tk_core t));
  irq_entry SMP_NUM switch_context fuel el2 (tk_core t) (tk_sp t);;
  c' ← in_kernel (current (tk_core t));
  f ← in_kernel (frame_at (tk_sp t));
  mret {| sw_from := c; sw_in := tk_frame t; sw_to := c'; sw_out := f |}.
Fixpoint irq_run (ts : list tick) : St (machine D) (list switch) :=
  match ts with
  | [] => mret []
  | t :: ts => s ← irq_step t; ss ← irq_run ts; mret (s :: ss)
  end.

Lemma irq_step_ok t s st :
  machine_runs s st → tick_ok SMP_NUM (m_kernel s) t → frame_ok (tk_frame t) →
  (∀ d : D, timer_pending d) →
  wp (irq_step t)
     (λ x s', x = fst (rr_step t st) ∧ machine_runs s' (snd (rr_step t st)) ∧
        dom (frames (m_kernel s')) = dom (frames (m_kernel s)) ∧ cntp_tval_el0 (m_regs s') = 100000) s.
Proof.
  intros ((Hk & Hl & Hn) & Hvec) (Hcore & Hsp & [f0 Hf0]) Hok Hpend.
  destruct t as [core sp f]. cbn [tk_core tk_sp tk_frame] in *.
  destruct (lookup_lt_is_Some_2 (rr_cur st) core) as [c Hc]; [lia|].
  unfold irq_step, rr_step. cbn [tk_core tk_sp tk_frame]. do 2 wp_step.
  eapply wp_store_frame; [exact Hf0|]. do 2 wp_step.
  eapply wp_current; [apply sched_repr_frames; exact Hk|exact Hc|]. do 2 wp_step.
  eapply wp_mono.
  { apply (timer_interrupt_ok core sp f _ st); [|done|done| |done|apply Hpend].
    - split; [split_and!; [by apply sched_repr_frames|done|done]|done].
    - cbn [m_kernel frames set_frames]. apply lookup_insert_eq. }
  cbn [m_kernel frames set_frames]. intros _ s2 (((Hk2 & Hl2 & Hn2) & Hvec2) & Hf2 & Ht2 & _). do 2 wp_step.
  destruct (rr_tick_len core f st) as [Hlen _].
  destruct (rr_tick core f st) as [fo st'] eqn:Ht. cbn [fst snd] in *.
  destruct (lookup_lt_is_Some_2 (rr_cur st') core) as [c' Hc']; [lia|].
  eapply wp_current; [exact Hk2|exact Hc'|]. do 2 wp_step.
  eapply wp_frame_at; [cbn [m_kernel]; rewrite Hf2; apply lookup_insert_eq|]. wp_step.
  cbn [m_kernel m_regs]. split_and!.
  - by rewrite Hc, Hc'.
  - done.
  - rewrite Hf2, !dom_insert_L. apply (elem_of_dom_2 (M:=gmap Z)) in Hf0. set_solver.
  - done.
Qed.

Lemma irq_run_ok ts s st :
  machine_runs s st → Forall (λ t, tick_ok SMP_NUM (m_kernel s) t ∧ frame_ok (tk_frame t)) ts →
  (∀ d : D, timer_pending d) →
  wp (irq_run ts) (λ ss s', ss = fst (rr_run ts st) ∧ machine_runs s' (snd (rr_run ts st)) ∧
    cntp_tval_el0 (m_regs s') = if ts is [] then cntp_tval_el0 (m_regs s) else 100000) s.
Proof.
  intros Hs Hts Hpend. revert s st Hs Hts. induction ts as [|t ts IH]; intros s st Hs Hts; [by wp_step|].
  apply Forall_cons in Hts as [[Ht Hok] Hts]. cbn [irq_run rr_run]. wp_step.
  eapply wp_mono; [by apply irq_step_ok|]. intros x s1 (-> & Hs1 & Hd & Ht1). wp_step.
  destruct (rr_step t st) as [y st1]. cbn [fst snd] in *.
  eapply wp_mono; [apply (IH s1 st1); [done|]|].
  { eapply Forall_impl; [exact Hts|]. intros t' ((? & ? & Hf) & ?). split; [|done]. split_and!; [done|done|].
    rewrite <- (elem_of_dom (D:=gset Z)) in *. by rewrite Hd. }
  intros ss s2 (-> & Hs2 & Ht2). wp_step. destruct (rr_run ts st1). split_and!; [done..|].
  rewrite Ht2. by destruct ts.
Qed.
End timer.

(** ** The theorems on interrupts *)

Section interrupts.
Context {D : Type} `{Device D} (SMP_NUM : Z) (switch_context : nat → nat → St (kernel D) unit) (fuel : nat).

(** C30: an interrupt, at EL1 or at EL2, saves the frame of the core's task in
    its processor structure, acknowledges the interrupt and ends it (at EL2 also
    deactivates it) before its handler runs, and then runs the handler installed
    for its number; a number without a handler, or of 512 or more, such as that
    of a spurious interrupt (1023), is a fault. *)
Theorem irq_dispatch_correct el2 core sp i x f v d (s : machine D) :
  running (m_kernel s) core i x → frames (m_kernel s) !! sp = Some f → frame_ok f →
  rd32 GICC_IAR (dev (k_mach (m_kernel s))) = (v, d) →
  irq_entry SMP_NUM switch_context fuel el2 core sp s =
    match g_handler_vec (m_kernel s) !! Z.to_nat (gic_iar_irqnr v) with
    | Some (Some h) => run_handler SMP_NUM switch_context fuel h core sp
                         (with_kernel (after_irq el2 v d (save_frame i x sp f (m_kernel s))) s)
    | _ => Fault
    end.
Proof. apply irq_dispatch_eq. Qed.

(** The timer's interrupts are the ticks of the round robin: a run of them,
    at EL1 or at EL2, on any cores in any order, whose frames may be anything,
    goes on with the tasks and the frames of the round robin, returns from every
    interrupt, and rearms the timer each time. *)
Lemma timer_irq_refinement el2 ts (s : machine D) st :
  machine_runs SMP_NUM s st → Forall (λ t, tick_ok SMP_NUM (m_kernel s) t ∧ frame_ok (tk_frame t)) ts →
  (∀ d : D, timer_pending d) →
  wp (irq_run SMP_NUM switch_context fuel el2 ts)
     (λ ss s', ss = fst (rr_run ts st) ∧ machine_runs SMP_NUM s' (snd (rr_run ts st)) ∧
        cntp_tval_el0 (m_regs s') = if ts is [] then cntp_tval_el0 (m_regs s) else 100000) s.
Proof. apply irq_run_ok. Qed.
End interrupts.

(** * Synchronous exceptions *)

Section sync.
Context {D : Type} `{Device D} (fuel : nat).

Lemma wp_argument sp i v f (Q : Z → machine D → Prop) s :
  frames (m_kernel s) !! sp = Some f → r f !! i = Some v → Q v s → wp (argument sp i) Q s.
Proof.
  intros Hf Hv HQ. unfold argument. do 2 wp_step. eapply wp_frame_at; [exact Hf|].
  eapply wp_deref_some; [exact Hv|]. by destruct s.
Qed.

Lemma wp_save core i x sp f (Q : unit → machine D → Prop) s :
  running (m_kernel s) core i x → frames (m_kernel s) !! sp = Some f →
  Q tt (with_kernel (save_frame i x sp f (m_kernel s)) s) → wp (in_kernel (save_cpu_ctx core sp)) Q s.
Proof.
  intros Hr Hf HQ. wp_step. eapply wp_done; [by apply save_cpu_ctx_eq|]. exact HQ.
Qed.

Lemma frame_reg f i : frame_ok f → (i < 31)%nat → ∃ v, r f !! i = Some v.
Proof. intros Hf Hi. apply lookup_lt_is_Some_2. unfold frame_ok, NUM_REGS in Hf. lia. Qed.

(** The machine at the start of a system call: the task's frame lies at [sp]. *)
Record svc_entry (s : machine D) (core : nat) (sp : Z) (i : nat) (x : cpu) (f : trap_frame) (n : Z) : Prop := {
  sv_running : running (m_kernel s) core i x;
  sv_frame : frames (m_kernel s) !! sp = Some f;
  sv_ok : frame_ok f;
  sv_class : exception_class (esr_el1 (m_regs s)) = 0x15;
  sv_number : r f !! 8%nat = Some n;
}.

(** A system call returned [v] in [x0]: the task's other registers are as they
    were, and its frame at the entry is saved. *)
Definition svc_returns (s s' : machine D) (sp : Z) (i : nat) (x : cpu) (f : trap_frame) (v : Z) : Prop :=
  frames (m_kernel s') = <[sp := set_reg 0 v f]> (frames (m_kernel s)) ∧
  g_cpu_dec (m_kernel s') = <[i := set_pctx sp (set_ctx f x)]> (g_cpu_dec (m_kernel s)) ∧
  task_list (m_kernel s') = task_list (m_kernel s) ∧ infos (m_kernel s') = infos (m_kernel s).

Lemma wait_flag_ok mask fr d (Q : unit → con → Prop) (c : con) :
  (0 < fuel)%nat → rd32 UART0_FR (dev (fst c)) = (fr, d) → fr .& mask = 0 →
  Q tt (Build_mach d (log (fst c)) (irq_nr (fst c)), snd c) → wp (wait_flag fuel mask) Q c.
Proof.
  intros Hf Hr Hm HQ. destruct fuel as [|k]; [lia|]. cbn [wait_flag]. wp_step.
  unfold mmio_read, Uart.on_mach. wp_step. apply wp_read32. rewrite Hr. cbn [fst snd]. rewrite Hm.
  cbn. exact HQ.
Qed.

Lemma early_putc_ok c fr d (Q : unit → con → Prop) (s : con) :
  (0 < fuel)%nat → uart_op (snd s) = Some EarlyOps → early_lock (snd s) = false →
  rd32 UART0_FR (dev (fst s)) = (fr, d) → fr .& (1 << 5) = 0 →
  Q tt (Build_mach (wr32 (u32 (u8 c)) UART0_DR d) (log (fst s)) (irq_nr (fst s)),
        set_early_lock false (set_early_lock true (snd s))) →
  wp (putc fuel c) Q s.
Proof.
  intros Hf Ho Hl Hr Hm HQ. unfold putc, on_uart. do 2 wp_step. rewrite Ho. cbn beta iota.
  unfold uart_early_putc, on_uart, mmio_write, Uart.on_mach. wp_step.
  eapply wait_flag_ok; [exact Hf|cbn; exact Hr|exact Hm|]. cbn [fst snd]. do 2 wp_step.
  eapply wp_done; [unfold take_early_lock; cbn; by rewrite Hl|]. do 2 wp_step. apply wp_write32. do 2 wp_step.
  cbn [fst snd dev log irq_nr]. exact HQ.
Qed.

Lemma early_getc_ok fr d v d' (Q : Z → con → Prop) (s : con) :
  (0 < fuel)%nat → uart_op (snd s) = Some EarlyOps →
  rd32 UART0_FR (dev (fst s)) = (fr, d) → fr .& (1 << 4) = 0 → rd32 UART0_DR d = (v, d') →
  Q (u8 v) (Build_mach d' (log (fst s)) (irq_nr (fst s)), snd s) → wp (getc fuel) Q s.
Proof.
  intros Hf Ho Hr Hm Hd HQ. unfold getc, on_uart. do 2 wp_step. rewrite Ho. cbn beta iota.
  unfold uart_early_getc. wp_step.
  eapply wait_flag_ok; [exact Hf|cbn; exact Hr|exact Hm|]. cbn [fst snd].
  unfold mmio_read, Uart.on_mach. do 2 wp_step. apply wp_read32. cbn [dev log irq_nr fst snd]. rewrite Hd. wp_step.
  cbn [fst snd]. exact HQ.
Qed.

Lemma svc_run_ok core sp i x f n func (Q : unit → machine D → Prop) s :
  svc_entry s core sp i x f n → syscall_table n = Some (Some func) →
  wp (run_syscall fuel func sp)
     (λ ret s', frames (m_kernel s') !! sp = Some f ∧
        Q tt (with_kernel (set_frames (<[sp := set_reg 0 (u64 ret) f]> (frames (m_kernel s'))) (m_kernel s')) s'))
     (with_kernel (save_frame i x sp f (m_kernel s)) s) →
  wp (handle_sync_exception fuel core sp) Q s.
Proof.
  intros [Hrun Hf Hok Hec Hn] Hfunc Hw. unfold handle_sync_exception. do 2 wp_step. rewrite Hec.
  change (0x15 =? 0x15) with true. cbn beta iota. eapply wp_done; [by apply save_cpu_ctx_eq|]. wp_step.
  eapply wp_argument; [exact Hf|exact Hn|]. wp_step. rewrite Hfunc. eapply wp_deref_some; [done|]. wp_step.
  eapply wp_deref_some; [done|]. wp_step. eapply wp_mono; [exact Hw|]. intros ret s2 [Hf2 HQ]. do 2 wp_step.
  eapply wp_frame_at; [exact Hf2|]. do 2 wp_step. eapply wp_store_frame; [exact Hf2|]. exact HQ.
Qed.

(** A system call without an entry follows a null pointer, or one from outside the
    table. *)
Lemma svc_fault core sp i x f n (s : machine D) :
  svc_entry s core sp i x f n → n ∉ [SYS_putc; SYS_getc; SYS_debug] → handle_sync_exception fuel core sp s = Fault.
Proof.
  intros [Hrun Hf Hok Hec Hn] Hnot. unfold handle_sync_exception. unfold gets, mbind, St_bind. rewrite Hec.
  change (0x15 =? 0x15) with true. cbn beta iota.
  unfold in_kernel at 1, on_part at 1. rewrite (save_cpu_ctx_eq core i x sp f) by done.
  change (Build_machine _ _ _) with (with_kernel (save_frame i x sp f (m_kernel s)) s).
  set (s1 := with_kernel _ s). assert (Harg : argument sp 8 s1 = Done (n, s1)).
  { pose proof (wp_argument sp 8 n f (λ a s', a = n ∧ s' = s1) s1 Hf Hn ltac:(done)) as Hw.
    apply wp_inv in Hw as (? & ? & ? & -> & ->). done. }
  rewrite Harg. unfold syscall_table.
  destruct ((0 <=? n) && (n <? NR_SYSCALL)); [|done]. cbn.
  rewrite !not_elem_of_cons in Hnot. destruct Hnot as (H1 & H2 & H3 & _).
  by rewrite (proj2 (Z.eqb_neq _ _) H1), (proj2 (Z.eqb_neq _ _) H2), (proj2 (Z.eqb_neq _ _) H3).
Qed.

Lemma u8_small_words v : u64 (u8 v) = u8 v ∧ u32 (u8 v) = u8 v ∧ u8 (u8 v) = u8 v.
Proof.
  pose proof (Z.mod_pos_bound v (2 ^ 8) ltac:(lia)). unfold u8 in *.
  split_and!; [apply u64_small|apply u32_small|apply Z.mod_small]; lia.
Qed.

(** The system calls.  Number 255 prints its first two arguments and
    returns 0; number 0 writes the low byte of its argument to the serial port and
    returns 0, number 1 returns the byte read there (with the early driver, the
    port being ready); each gives its result in [x0] and changes no other
    register of the task.  Every other number is a fault: the table is not
    checked for null pointers, nor the number against its length. *)
Lemma svc_correct core sp i x f n (s : machine D) :
  (0 < fuel)%nat → svc_entry s core sp i x f n →
  (n = SYS_debug →
     wp (handle_sync_exception fuel core sp)
        (λ _ s', svc_returns s s' sp i x f 0 ∧ ∃ a b, r f !! 0%nat = Some a ∧ r f !! 1%nat = Some b ∧
           log (k_mach (m_kernel s')) = log (k_mach (m_kernel s)) ++
             [Printf (ln "[syscall] sys_debug: %c, %c") [Num a; Num b]]) s) ∧
  (∀ fr d, uart_op (k_uart (m_kernel s)) = Some EarlyOps →
     rd32 UART0_FR (dev (k_mach (m_kernel s))) = (fr, d) →
     (n = SYS_putc → early_lock (k_uart (m_kernel s)) = false → fr .& (1 << 5) = 0 →
        wp (handle_sync_exception fuel core sp)
           (λ _ s', svc_returns s s' sp i x f 0 ∧ ∃ a, r f !! 0%nat = Some a ∧
              dev (k_mach (m_kernel s')) = wr32 (u8 a) UART0_DR d) s) ∧
     (n = SYS_getc → fr .& (1 << 4) = 0 →
        wp (handle_sync_exception fuel core sp)
           (λ _ s', svc_returns s s' sp i x f (u8 (fst (rd32 UART0_DR d))) ∧
              dev (k_mach (m_kernel s')) = snd (rd32 UART0_DR d)) s)) ∧
  (n ∉ [SYS_putc; SYS_getc; SYS_debug] → handle_sync_exception fuel core sp s = Fault).
Proof.
  intros Hfuel Hs. pose proof Hs as [Hrun Hf Hok Hec Hn].
  destruct (frame_reg f 0 Hok ltac:(lia)) as [a Ha]. destruct (frame_reg f 1 Hok ltac:(lia)) as [b Hb].
  split_and!.
  - intros ->. eapply svc_run_ok; [exact Hs|reflexivity|]. unfold run_syscall, sys_debug. wp_step.
    eapply wp_argument; [exact Hf|exact Ha|]. wp_step. eapply wp_argument; [exact Hf|exact Hb|].
    unfold mprint. do 2 wp_step. apply wp_print. wp_step. split; [exact Hf|]. split; [done|]. by exists a, b.
  - intros fr d Hop Hfr. split.
    + intros -> Hlock Hm. eapply svc_run_ok; [exact Hs|reflexivity|]. unfold run_syscall, sys_putc. wp_step.
      eapply wp_argument; [exact Hf|exact Ha|]. unfold kcon. do 2 wp_step.
      eapply early_putc_ok; [done|exact Hop|exact Hlock|exact Hfr|exact Hm|]. wp_step.
      split; [exact Hf|]. split; [done|]. exists a. split; [done|]. cbn.
      destruct (u8_small_words a) as (_ & H32 & H8). by rewrite H8, H32.
    + intros -> Hm. eapply svc_run_ok; [exact Hs|reflexivity|]. unfold run_syscall, sys_getc, kcon. do 2 wp_step.
      eapply early_getc_ok; [done|exact Hop|exact Hfr|exact Hm|apply surjective_pairing|].
      split; [exact Hf|]. split; [|done]. unfold svc_returns. cbn.
      by rewrite (proj1 (u8_small_words (fst (rd32 UART0_DR d)))).
  - intros Hnot. by eapply svc_fault.
Qed.
End sync.

Section sync_el2.
Context {D : Type} `{Device D}.

(** A trapped instruction of the guest: its frame lies at [sp]. *)
Record el2_entry (s : machine D) (core : nat) (sp : Z) (i : nat) (x : cpu) (f : trap_frame) : Prop := {
  ee_running : running (m_kernel s) core i x;
  ee_frame : frames (m_kernel s) !! sp = Some f;
  ee_ok : frame_ok f;
}.
Definition el2_class (s : machine D) : Z := exception_class (esr_el2 (m_regs s)).
(** The syndrome, and the abort it describes. *)
Definition el2_hsr (s : machine D) : Z := u32 (s32 (esr_el2 (m_regs s))).
Definition el2_abort (s : machine D) : ept_violation_info :=
  {| hsr := el2_hsr s; reason := 0; gva := far_el2 (m_regs s);
     gpa := (far_el2 (m_regs s) .& 0xfff) .| u64 (hpfar_el2 (m_regs s) << 8) |}.
(** The frame [f], which goes on after the trapped instruction. *)
Definition skip (s : machine D) (f : trap_frame) : trap_frame :=
  set_elr (u64 (elr f + if truthy (hsr_len (el2_hsr s)) then 4 else 2)) f.
(** The exception returned to the frame [f'] with the frame [f] saved, and has
    changed nothing else but the devices. *)
Definition el2_returns (s s' : machine D) (sp : Z) (i : nat) (x : cpu) (f f' : trap_frame) : Prop :=
  ∃ m, s' = with_kernel (set_mach m (set_frames (<[sp := f']> (frames (m_kernel s)))
                                       (save_frame i x sp f (m_kernel s)))) s.

Lemma advance_pc_ok info sp f (Q : unit → machine D → Prop) s :
  frames (m_kernel s) !! sp = Some f →
  Q tt (with_kernel (set_frames (<[sp := set_elr (u64 (elr f + if truthy (hsr_len (hsr info)) then 4 else 2)) f]>
                                   (frames (m_kernel s))) (m_kernel s)) s) →
  wp (advance_pc info sp) Q s.
Proof.
  intros Hf HQ. unfold advance_pc. do 2 wp_step. eapply wp_frame_at; [exact Hf|]. do 2 wp_step.
  eapply wp_store_frame; [exact Hf|]. exact HQ.
Qed.

(** A data abort, for what the handler makes of it. *)
Lemma el2_abort_ok core sp i x f (R : trap_frame → mach D → Prop) s :
  el2_entry s core sp i x f → el2_class s = 0x24 →
  wp (data_abort_handler (el2_abort s) f) (λ f' p, fst p = m_ept s ∧ R f' (snd p)) (m_ept s, k_mach (m_kernel s)) →
  wp (handle_sync_exception_el2 core sp)
     (λ _ s', ∃ f', R f' (k_mach (m_kernel s')) ∧ el2_returns s s' sp i x f (skip s f')) s.
Proof.
  intros [Hrun Hf Hok] Hec Hw. unfold handle_sync_exception_el2. do 2 wp_step.
  unfold el2_class in Hec. rewrite Hec. cbn [Z.eqb Pos.eqb].
  eapply wp_done; [by apply save_cpu_ctx_eq|]. do 2 wp_step. eapply wp_frame_at; [exact Hf|]. do 2 wp_step.
  eapply wp_mono; [exact Hw|]. intros f' [e m] [He HR]. cbn [fst snd] in He, HR. subst e. do 2 wp_step.
  eapply wp_store_frame; [exact Hf|]. wp_step. eapply advance_pc_ok; [cbn; apply lookup_insert_eq|].
  exists f'. split; [exact HR|]. exists m. cbn. by rewrite insert_insert_eq.
Qed.

(** One that the handler faults on. *)
Lemma el2_abort_faults core sp i x f (s : machine D) :
  el2_entry s core sp i x f → el2_class s = 0x24 →
  data_abort_handler (el2_abort s) f (m_ept s, k_mach (m_kernel s)) = Fault →
  handle_sync_exception_el2 core sp s = Fault.
Proof.
  intros [Hrun Hf Hok] Hec Hfault. unfold handle_sync_exception_el2, el2_class in *. unfold gets, mbind at 1, St_bind at 1.
  rewrite Hec. cbn [Z.eqb Pos.eqb]. cbn beta zeta. unfold mbind at 1, St_bind at 1, in_kernel at 1, on_part at 1.
  rewrite (save_cpu_ctx_eq core i x sp f) by done.
  unfold mbind at 1, St_bind at 1, in_kernel at 1, on_part at 1, frame_at, mbind at 1, St_bind at 1, get.
  change (frames (m_kernel _)) with (frames (m_kernel s)). rewrite Hf. cbn [deref mret St_ret].
  unfold mbind at 1, St_bind at 1, on_part at 1.
  change (data_abort_handler _ f _) with (data_abort_handler (el2_abort s) f (m_ept s, k_mach (m_kernel s))).
  by rewrite Hfault.
Qed.

Lemma sync_el2_ok core sp i x f (s : machine D) :
  el2_entry s core sp i x f →
  (el2_class s = 0x1 ∨ el2_class s = 0x17 →
     wp (handle_sync_exception_el2 core sp) (λ _ s', el2_returns s s' sp i x f (skip s f)) s) ∧
  (el2_class s = 0x16 →
     wp (handle_sync_exception_el2 core sp) (λ _ s', el2_returns s s' sp i x f f) s) ∧
  (el2_class s = 0x24 → dabt_reg (el2_hsr s) < 31 →
     word_at (words (m_ept s)) (ept_L3_root (m_ept s) + 8 * (gpa (el2_abort s) >> 12)) →
     (in_gicc (gpa (el2_abort s)) →
        wp (handle_sync_exception_el2 core sp)
           (λ _ s', ∃ f', (f', dev (k_mach (m_kernel s'))) =
                gicc_access (el2_abort s) f (dev (k_mach (m_kernel s))) ∧
              el2_returns s s' sp i x f (skip s f')) s) ∧
     (∀ R, GICD_BASE_ADDR ≤ gpa (el2_abort s) ≤ GICD_BASE_ADDR + 0x10000 →
        wp (intc_handler (el2_abort s) f) (λ _ m', R m') (k_mach (m_kernel s)) →
        wp (handle_sync_exception_el2 core sp)
           (λ _ s', R (k_mach (m_kernel s')) ∧ el2_returns s s' sp i x f (skip s f)) s) ∧
     (gpa (el2_abort s) < GICD_BASE_ADDR ∨ GICC_BASE_ADDR + 0x10000 < gpa (el2_abort s) →
        wp (handle_sync_exception_el2 core sp)
           (λ _ s', dev (k_mach (m_kernel s')) = dev (k_mach (m_kernel s)) ∧
              el2_returns s s' sp i x f (skip s f)) s)).
Proof.
  intros He. pose proof He as [Hrun Hf Hok]. split_and!.
  - intros Hec. unfold handle_sync_exception_el2. do 2 wp_step. unfold el2_class in Hec.
    destruct Hec as [Hec|Hec]; rewrite Hec; cbn [Z.eqb Pos.eqb];
      (eapply wp_done; [by apply save_cpu_ctx_eq|]); unfold mprint; do 2 wp_step; apply wp_print; wp_step;
      (eapply advance_pc_ok; [exact Hf|]); by eexists.
  - intros Hec. unfold handle_sync_exception_el2. do 2 wp_step. unfold el2_class in Hec. rewrite Hec.
    cbn [Z.eqb Pos.eqb]. eapply wp_done; [by apply save_cpu_ctx_eq|]. unfold mprint. do 2 wp_step.
    apply wp_print. eexists. rewrite insert_id by exact Hf. reflexivity.
  - intros Hec Hreg Hword. split_and!.
    + intros Hg. eapply wp_mono; [apply (el2_abort_ok core sp i x f
        (λ f' m, (f', dev m) = gicc_access (el2_abort s) f (dev (k_mach (m_kernel s)))) s He Hec)|done].
      eapply wp_mono; [apply data_abort_handler_ok; [exact Hword|exact Hok|intros _; exact Hreg|]|].
      { unfold in_gicc in Hg. lia. }
      intros f' p (He' & Hin & _). split; [exact He'|by apply Hin].
    + intros R Hg Hw. eapply wp_mono; [apply (el2_abort_ok core sp i x f (λ f' m, f' = f ∧ R m) s He Hec)|].
      { eapply wp_mono; [by apply (data_abort_gicd_ok _ _ R)|]. by intros f' p (? & ? & ?). }
      intros _ s' (f' & [-> HR] & Hret). done.
    + intros Hg. eapply wp_mono; [apply (el2_abort_ok core sp i x f
        (λ f' m, f' = f ∧ dev m = dev (k_mach (m_kernel s))) s He Hec)|].
      { eapply wp_mono; [apply data_abort_handler_ok; [exact Hword|exact Hok|intros _; exact Hreg|]|].
        - unfold GICC_BASE_ADDR in *. lia.
        - intros f' p (He' & _ & Hout). split; [exact He'|]. apply Hout. unfold in_gicc, GICC_BASE_ADDR, GICD_BASE_ADDR in *. lia. }
      intros _ s' (f' & [-> Hd] & Hret). done.
Qed.

(** C33: the exceptions a guest causes.  A trapped [wfi] or [smc] is skipped, by
    the length of the instruction, and has no other effect on the guest; an [hvc]
    leaves its frame as it is.  A data abort by one of the 31 registers of the frame
    is handled at the address the hardware reports and its instruction skipped: an
    access to the CPU interface is made on the virtual one ([gicc_access]), one to the
    distributor is emulated as [intc_handler] does, one elsewhere is dropped.  The
    frame at the entry is saved each time. *)
Theorem sync_el2_correct core sp i x f (s : machine D) :
  el2_entry s core sp i x f →
  (el2_class s = 0x1 ∨ el2_class s = 0x17 →
     wp (handle_sync_exception_el2 core sp) (λ _ s', el2_returns s s' sp i x f (skip s f)) s) ∧
  (el2_class s = 0x16 →
     wp (handle_sync_exception_el2 core sp) (λ _ s', el2_returns s s' sp i x f f) s) ∧
  (el2_class s = 0x24 → dabt_reg (el2_hsr s) < 31 →
     word_at (words (m_ept s)) (ept_L3_root (m_ept s) + 8 * (gpa (el2_abort s) >> 12)) →
     (in_gicc (gpa (el2_abort s)) →
        wp (handle_sync_exception_el2 core sp)
           (λ _ s', ∃ f', (f', dev (k_mach (m_kernel s'))) =
                gicc_access (el2_abort s) f (dev (k_mach (m_kernel s))) ∧
              el2_returns s s' sp i x f (skip s f')) s) ∧
     (∀ R, GICD_BASE_ADDR ≤ gpa (el2_abort s) ≤ GICD_BASE_ADDR + 0x10000 →
        wp (intc_handler (el2_abort s) f) (λ _ m', R m') (k_mach (m_kernel s)) →
        wp (handle_sync_exception_el2 core sp)
           (λ _ s', R (k_mach (m_kernel s')) ∧ el2_returns s s' sp i x f (skip s f)) s) ∧
     (gpa (el2_abort s) < GICD_BASE_ADDR ∨ GICC_BASE_ADDR + 0x10000 < gpa (el2_abort s) →
        wp (handle_sync_exception_el2 core sp)
           (λ _ s', dev (k_mach (m_kernel s')) = dev (k_mach (m_kernel s)) ∧
              el2_returns s s' sp i x f (skip s f)) s)).
Proof. apply sync_el2_ok. Qed.
End sync_el2.

(** * Exceptions that are not handled *)

Section hang.
Context {D : Type} `{Device D} (fuel : nat).

Lemma print_registers_ok n f i (s : machine D) Q :
  frame_ok f → (Z.to_nat i + n ≤ 31)%nat → 0 ≤ i →
  (∀ m, Q tt (with_kernel (set_mach m (m_kernel s)) s)) → Q tt s → wp (print_registers n f i) Q s.
Proof.
  intros Hf. revert i s. induction n as [|n IH]; intros i s Hn Hi HQ H0; cbn [print_registers]; [by wp_step|].
  destruct (frame_reg f (Z.to_nat i) Hf ltac:(lia)) as [v Hv]. wp_step.
  eapply wp_deref_some; [exact Hv|]. unfold mprint. do 2 wp_step. apply wp_print.
  apply IH; [lia|lia| |]; intros; apply HQ.
Qed.

(** After the messages, nothing. *)
Lemma print_hang sp f (s : machine D) :
  frames (m_kernel s) !! sp = Some f → frame_ok f → (print_frame sp;; hang) s = NoFuel.
Proof.
  intros Hf Hok. unfold print_frame.
  assert (Hw : wp (f ← in_kernel (frame_at sp); print_registers 31 f 0;;
    mprint (Printf (ln "usp: %x, elr: %x, spsr: %x") [Num (usp f); Num (elr f); Num (spsr f)])) (λ _ _, True) s).
  { do 2 wp_step. eapply wp_frame_at; [exact Hf|]. wp_step.
    apply print_registers_ok; [done|lia|lia| |]; intros; unfold mprint; wp_step; by apply wp_print. }
  apply wp_inv in Hw as (u & s' & Hs & _). unfold mbind at 1, St_bind at 1. by rewrite Hs.
Qed.
Lemma mprint_done e (s : machine D) : ∃ m, mprint e s = Done (tt, with_kernel (set_mach m (m_kernel s)) s).
Proof. eexists. reflexivity. Qed.
(** A message before does not matter. *)
Lemma mprint_hang e (m : St (machine D) unit) s :
  (∀ mc, m (with_kernel (set_mach mc (m_kernel s)) s) = NoFuel) → (mprint e;; m) s = NoFuel.
Proof. intros Hm. unfold mbind, St_bind. destruct (mprint_done e s) as [mc ->]. apply Hm. Qed.

(** An exception of a class the kernel does not know never returns to the
    interrupted code: after its messages the core loops, for any fuel, in the
    handlers of all three levels, and so does an exception that should not occur
    at EL2. *)
Lemma unhandled_exceptions_hang core sp i x f (s : machine D) :
  el2_entry s core sp i x f →
  (exception_class (esr_el1 (m_regs s)) ∉ [0x15; 0x17] → handle_sync_exception fuel core sp s = NoFuel) ∧
  (el2_class s ∉ [0x1; 0x16; 0x17; 0x24] → handle_sync_exception_el2 core sp s = NoFuel) ∧
  (exception_class (esr_el3 (m_regs s)) ≠ 0x17 → handle_sync_exception_el3 sp s = NoFuel) ∧
  (∀ kind source, invalid_exception_el2 sp kind source s = NoFuel).
Proof.
  intros [Hrun Hf Hok]. split_and!.
  - intros Hec. rewrite !not_elem_of_cons in Hec. destruct Hec as (H1 & H2 & _).
    unfold handle_sync_exception. unfold gets, mbind at 1, St_bind at 1.
    rewrite (proj2 (Z.eqb_neq _ _) H1), (proj2 (Z.eqb_neq _ _) H2). cbn beta zeta.
    unfold mbind at 1, St_bind at 1, in_kernel at 1, on_part at 1.
    rewrite (save_cpu_ctx_eq core i x sp f) by done. do 3 (apply mprint_hang; intros).
    by apply (print_hang sp f).
  - intros Hec. rewrite !not_elem_of_cons in Hec. destruct Hec as (H1 & H2 & H3 & H4 & _).
    unfold handle_sync_exception_el2, el2_class in *. unfold gets, mbind at 1, St_bind at 1.
    rewrite (proj2 (Z.eqb_neq _ _) H1), (proj2 (Z.eqb_neq _ _) H2), (proj2 (Z.eqb_neq _ _) H3),
      (proj2 (Z.eqb_neq _ _) H4). cbn beta zeta.
    unfold mbind at 1, St_bind at 1, in_kernel at 1, on_part at 1.
    rewrite (save_cpu_ctx_eq core i x sp f) by done. destruct (_ =? 0x18).
    + apply mprint_hang. intros. by apply (print_hang sp f).
    + apply (print_hang sp f); done.
  - intros Hec. unfold handle_sync_exception_el3. unfold gets, mbind at 1, St_bind at 1.
    rewrite (proj2 (Z.eqb_neq _ _) Hec). do 2 (apply mprint_hang; intros). by apply (print_hang sp f).
  - intros kind source. unfold invalid_exception_el2. destruct (frame_reg f 2 Hok ltac:(lia)) as [v Hv].
    assert (Hr : wp (read_x2 sp) (λ _ s', s' = s) s).
    { unfold read_x2. do 2 wp_step. eapply wp_frame_at; [exact Hf|]. wp_step. eapply wp_deref_some; [exact Hv|].
      wp_step. by destruct s. }
    apply wp_inv in Hr as ([] & s' & Hr & ->). unfold mbind at 1, St_bind at 1. rewrite Hr.
    apply mprint_hang. intros. unfold gets, mbind at 1, St_bind at 1. do 2 (apply mprint_hang; intros).
    by apply (print_hang sp f).
Qed.
End hang.

(** * Examples *)

(** A device whose pending interrupt is that of the timer, the serial port
    being idle. *)
#[local] Instance timer_device : Device unit :=
  {| rd32 := λ a d, (if a =? GICC_IAR then 30 else 0, d); wr32 := λ _ _ d, d; wr8 := λ _ _ d, d;
     rd64 := λ _ d, (7, d); wr64 := λ _ _ d, d |}.
(** The kernel of the scheduler's example with the timer's handler installed, and
    a frame whose [x8] is [n]; the syndromes are [esr]. *)
Definition machine_example (n esr : Z) : machine unit := {|
  m_kernel := set_uart {| rx := rx (k_uart kernel_example); tx := tx (k_uart kernel_example);
                          early_lock := false; uart_op := Some EarlyOps |}
    (set_frames {[ 0x1000 := set_reg 8 n zero_frame ]}
      (set_handlers (<[30%nat := Some HTimer]> (replicate 512 None)) kernel_example));
  m_ept := {| words := {[ 8 * (GICC_IAR >> 12) := 3 ]}; ept_L2_root := 0; ept_L3_root := 0; vttbr := 0;
              cacheline_bytes := 64; ept_log := [] |};
  m_regs := {| esr_el1 := esr; esr_el2 := esr; esr_el3 := esr; far_el2 := 0xc; hpfar_el2 := GICC_IAR >> 8;
               cntfrq_el0 := 62500000; cntp_tval_el0 := 0; cntp_ctl_el0 := 0 |} |}.
Definition cpu_example : cpu := default (Build_cpu zero_frame 0 None) (g_cpu_dec kernel_example !! 0%nat).

Lemma example_running n esr : running (m_kernel (machine_example n esr)) 0 0 cpu_example.
Proof. do 3 eexists. repeat split. Qed.
Lemma example_entry n esr : el2_entry (machine_example n esr) 0 0x1000 0 cpu_example (set_reg 8 n zero_frame).
Proof. constructor; [apply example_running|reflexivity|reflexivity]. Qed.
Lemma example_svc n : svc_entry (machine_example n (0x15 << 26)) 0 0x1000 0 cpu_example (set_reg 8 n zero_frame) n.
Proof. constructor; [apply example_running|reflexivity..]. Qed.
Lemma example_machine_runs : machine_runs 1 (machine_example 0 0) rr_example.
Proof.
  split; [|reflexivity]. destruct kernel_example_runs as ([] & Hl & Hn). split_and!; [|exact Hl|exact Hn].
  by constructor.
Qed.

Lemma irq_dispatch_correct_witness :
  irq_entry 1 no_switch 1 false 0 0x1000 (machine_example 0 0) =
  run_handler 1 no_switch 1 HTimer 0 0x1000
    (with_kernel (after_irq false 30 tt (save_frame 0 cpu_example 0x1000 (set_reg 8 0 zero_frame)
                                           (m_kernel (machine_example 0 0)))) (machine_example 0 0)).
Proof.
  rewrite (irq_dispatch_correct 1 no_switch 1 false 0 0x1000 0 cpu_example (set_reg 8 0 zero_frame) 30 tt
    (machine_example 0 0) (example_running 0 0)) by (vm_compute; reflexivity).
  assert (g_handler_vec (m_kernel (machine_example 0 0)) !! Z.to_nat (gic_iar_irqnr 30) = Some (Some HTimer))
    as -> by reflexivity.
  reflexivity.
Defined.
Lemma timer_irq_refinement_example :
  wp (irq_run 1 no_switch 1 true (replicate 21 tick_example))
     (λ ss s', ss = fst (rr_run (replicate 21 tick_example) rr_example) ∧
        machine_runs 1 s' (snd (rr_run (replicate 21 tick_example) rr_example)) ∧
        cntp_tval_el0 (m_regs s') = 100000) (machine_example 0 0).
Proof.
  apply (timer_irq_refinement 1 no_switch 1 true (replicate 21 tick_example)); [apply example_machine_runs| |done].
  apply Forall_replicate. split; [|done]. split_and!; [done|done|by eexists].
Defined.
Lemma svc_correct_example :
  wp (handle_sync_exception 1 0 0x1000)
     (λ _ s', svc_returns (machine_example 0 (0x15 << 26)) s' 0x1000 0 cpu_example (set_reg 8 0 zero_frame) 0 ∧
        ∃ a, r (set_reg 8 0 zero_frame) !! 0%nat = Some a ∧ dev (k_mach (m_kernel s')) = tt)
     (machine_example 0 (0x15 << 26)) ∧
  handle_sync_exception 1 0 0x1000 (machine_example 2 (0x15 << 26)) = Fault.
Proof.
  split.
  - destruct (svc_correct 1 0 0x1000 0 cpu_example _ 0 (machine_example 0 (0x15 << 26)) ltac:(lia) (example_svc 0))
      as (_ & Hrw & _).
    destruct (Hrw 0 tt) as [Hput _]; [reflexivity|vm_compute; reflexivity|].
    apply Hput; [reflexivity..|vm_compute; reflexivity].
  - apply (svc_correct 1 0 0x1000 0 cpu_example _ 2 (machine_example 2 (0x15 << 26)) ltac:(lia) (example_svc 2)).
    rewrite !not_elem_of_cons. split_and!; [done..|apply not_elem_of_nil].
Defined.
(** A load of the interrupt acknowledge register into [x3]. *)
Definition load_syndrome : Z := (0x24 << 26) .| (3 << 16).
Lemma sync_el2_correct_witness :
  gpa (el2_abort (machine_example 0 load_syndrome)) = GICC_IAR ∧
  wp (handle_sync_exception_el2 0 0x1000)
     (λ _ s', ∃ f', (f', dev (k_mach (m_kernel s'))) =
          gicc_access (el2_abort (machine_example 0 load_syndrome)) (set_reg 8 0 zero_frame)
            (dev (k_mach (m_kernel (machine_example 0 load_syndrome)))) ∧
        el2_returns (machine_example 0 load_syndrome) s' 0x1000 0 cpu_example (set_reg 8 0 zero_frame)
          (skip (machine_example 0 load_syndrome) f')) (machine_example 0 load_syndrome).
Proof.
  split; [reflexivity|].
  destruct (sync_el2_correct 0 0x1000 0 cpu_example _ (machine_example 0 load_syndrome) (example_entry _ _))
    as (_ & _ & Habort).
  destruct Habort as [Hgicc _]; [reflexivity|reflexivity|eexists; vm_compute; reflexivity|].
  apply Hgicc. done.
Defined.
Lemma unhandled_exceptions_example :
  handle_sync_exception 1 0 0x1000 (machine_example 0 (0x20 << 26)) = NoFuel ∧
  handle_sync_exception_el2 0 0x1000 (machine_example 0 (0x18 << 26)) = NoFuel.
Proof.
  destruct (unhandled_exceptions_hang 1 0 0x1000 0 cpu_example _ (machine_example 0 (0x20 << 26)) (example_entry _ _))
    as (H1 & _).
  destruct (unhandled_exceptions_hang 1 0 0x1000 0 cpu_example _ (machine_example 0 (0x18 << 26)) (example_entry _ _))
    as (_ & H2 & _).
  split; [apply H1|apply H2]; eapply bool_decide_unpack; vm_compute; exact I.
Defined.
