(* ===== verification/Quiet.v ===== *)
(** Operations that return from every state and leave the scheduler alone: what the
    drivers do while the system starts, and the frame lemmas for the functions of
    [schedule/task.c] that start it. *)

From S2P Require Import Prelude Config Gic Frame Uart Vgic Kernel Sched Keeps Ept Trap.

(** * Operations that leave the scheduler alone *)

(** What the start-up code must not disturb. *)
Definition sched_view {D} (k : kernel D) :=
  (task_list k, g_cpu_dec k, cpu_sysregs k, task_count k, sched_lock k, print_lock k, infos k).

Section quiet.
Context {S T : Type} (view : S → T).

(** [m] returns from every state and keeps the view. *)
Definition quiet {A} (m : St S A) : Prop := ∀ s, ∃ a s', m s = Done (a, s') ∧ view s' = view s.

Lemma quiet_ret {A} (a : A) : quiet (mret a).
Proof. intros s. by do 2 eexists. Qed.
Lemma quiet_gets {A} (g : S → A) : quiet (gets g).
Proof. intros s. by do 2 eexists. Qed.
Lemma quiet_modify (g : S → S) : (∀ s, view (g s) = view s) → quiet (modify g).
Proof. intros Hg s. do 2 eexists. split; [done|apply Hg]. Qed.
Lemma quiet_bind {A B} (m : St S A) (f : A → St S B) : quiet m → (∀ a, quiet (f a)) → quiet (m ≫= f).
Proof.
  intros Hm Hf s. destruct (Hm s) as (a & s1 & E1 & V1). destruct (Hf a s1) as (b & s2 & E2 & V2).
  exists b, s2. unfold mbind, St_bind. rewrite E1. split; [done|congruence].
Qed.
Lemma quiet_on_part {U A} (part : S → U) (set : U → S → S) (m : St U A) :
  (∀ u, ∃ a u', m u = Done (a, u')) → (∀ u s, view (set u s) = view s) → quiet (on_part part set m).
Proof.
  intros Hm Hset s. destruct (Hm (part s)) as (a & u & E). exists a, (set u s). unfold on_part. by rewrite E.
Qed.
Lemma wp_quiet {A} (m : St S A) Q s :
  quiet m → (∀ a s', view s' = view s → Q a s') → wp m Q s.
Proof. intros Hm HQ. destruct (Hm s) as (a & s' & E & V). unfold wp. rewrite E. by apply HQ. Qed.
End quiet.

(** An operation that returns from every state. *)
Abbreviation total := (quiet (λ _, tt)).
Lemma total_done {S A} (m : St S A) : total m → ∀ s, ∃ a s', m s = Done (a, s').
Proof. intros Hm s. destruct (Hm s) as (a & s' & E & _). eauto. Qed.
Lemma quiet_total {S T A} (view : S → T) (m : St S A) : quiet view m → total m.
Proof. intros Hm s. destruct (Hm s) as (a & s' & E & _). eauto. Qed.

Create HintDb quiet.
#[export] Hint Resolve quiet_ret quiet_gets : quiet.
Ltac quiet :=
  repeat match goal with
  | |- quiet _ (_ ≫= _) => apply quiet_bind; [|intros]
  | |- quiet _ (let _ := _ in _) => cbv zeta
  | |- quiet _ (if ?b then _ else _) => destruct b
  | |- quiet _ (modify _) => apply quiet_modify; intros; reflexivity
  | |- _ => solve [eauto with quiet]
  end.

Section quiet_drivers.
Context {D : Type} `{Device D}.

Lemma total_read32 a : total (read32 (D := D) a).
Proof. intros s. unfold read32. destruct (rd32 a (dev s)). by do 2 eexists. Qed.
Lemma total_write32 v a : total (write32 (D := D) v a).
Proof. intros s. by do 2 eexists. Qed.
Lemma total_write8 v a : total (write8 (D := D) v a).
Proof. intros s. by do 2 eexists. Qed.
Lemma total_print e : total (print (D := D) e).
Proof. intros s. by do 2 eexists. Qed.
Lemma total_set_irq_nr n : total (set_irq_nr (D := D) n).
Proof. intros s. by do 2 eexists. Qed.
Hint Resolve total_read32 total_write32 total_write8 total_print total_set_irq_nr : quiet.

Lemma total_gicc_init : total (gicc_init (D := D)).
Proof. unfold gicc_init. quiet. Qed.
Lemma total_gic_test_init : total (gic_test_init (D := D)).
Proof. unfold gic_test_init, cpu_num. quiet. Qed.
Hint Resolve total_gicc_init total_gic_test_init : quiet.
Lemma total_gic_init : total (gic_init (D := D)).
Proof. unfold gic_init, read_irq_nr. quiet. Qed.
Lemma total_gic_enable_int v p : total (gic_enable_int (D := D) v p).
Proof. unfold gic_enable_int. quiet. Qed.
Lemma total_gic_get_enable v : total (gic_get_enable (D := D) v).
Proof. unfold gic_get_enable. quiet. Qed.
Hint Resolve total_gic_init total_gic_enable_int total_gic_get_enable : quiet.
Lemma total_enable_private fu i : 32 - i < Z.of_nat fu → 0 ≤ i ≤ 32 → total (enable_private (D := D) fu i).
Proof.
  revert i. induction fu as [|fu IH]; intros i Hf Hi; [lia|]. cbn [enable_private].
  change GIC_NR_PRIVATE_IRQS with 32. destruct (Z.ltb_spec i 32); quiet. apply IH; lia.
Qed.
Lemma total_gic_virtual_init : total (gic_virtual_init (D := D)).
Proof.
  pose proof (total_enable_private 33 0 ltac:(lia) ltac:(lia)). unfold gic_virtual_init, read_irq_nr. quiet.
Qed.

Lemma total_vgic_inject_loop fu e m p i :
  GICH_LR_NUM - i < Z.of_nat fu → 0 ≤ i ≤ GICH_LR_NUM → total (vgic_inject_loop (D := D) fu e m p i).
Proof.
  revert m p i. induction fu as [|fu IH]; intros m p i Hf Hi.
  { exfalso. lia. }
  cbn [vgic_inject_loop]. destruct (Z.ltb_spec i GICH_LR_NUM); [|quiet]. unfold gic_write_lr, gic_read_lr. quiet; apply IH; lia.
Qed.
Lemma total_vgic_inject v : total (vgic_inject (D := D) v).
Proof.
  unfold vgic_inject, gic_set_ipriority, gic_elsr0, gic_apr. quiet.
  apply total_vgic_inject_loop; unfold GICH_LR_NUM; lia.
Qed.
Lemma total_HIGHEST_BIT_POSITION {S} x : total (HIGHEST_BIT_POSITION (S := S) x).
Proof.
  intros s. pose proof (Z.mod_pos_bound x (2 ^ 64) ltac:(lia)).
  destruct (wp_inv _ _ _ (highest_bit_loop_ok 64 (u64 x) 0 s ltac:(unfold u64; simpl Z.of_nat; lia) ltac:(lia)
    ltac:(simpl; lia) ltac:(lia))) as (h & s' & E & _). eauto.
Qed.
(** An access by a register the frame has. *)
Lemma total_intc_handler info f v :
  r f !! Z.to_nat (dabt_reg (hsr info)) = Some v → total (intc_handler (D := D) info f).
Proof.
  intros Hv. assert (Hr : total (read_reg (D := D) f (dabt_reg (hsr info)))).
  { unfold read_reg. rewrite Hv. intros s. by do 2 eexists. }
  pose proof (@total_HIGHEST_BIT_POSITION (mach D)).
  assert (He : ∀ i t, total (emulate_isenabler (D := D) info f i t)) by (intros; unfold emulate_isenabler; quiet).
  unfold intc_handler. quiet.
Qed.
Lemma total_mmio_write a v : total (mmio_write (D := D) a v).
Proof. apply quiet_on_part; [|done]. apply total_done, total_write32. Qed.
Lemma total_on_uart {A} (m : St uart A) : total m → total (on_uart (D := D) m).
Proof. intros Hm. apply quiet_on_part; [|done]. by apply total_done. Qed.
Hint Resolve total_mmio_write total_on_uart : quiet.
Lemma total_io_early_init : total (io_early_init (D := D)).
Proof.
  unfold io_early_init, uart_early_init. quiet; apply total_on_uart; quiet.
Qed.

(** What they keep of the machine: the scheduler, the handlers, the virtual
    interrupt controllers and the page tables. *)
Definition task_view (s : machine D) :=
  (sched_view (m_kernel s), g_handler_vec (m_kernel s), (vgics (m_kernel s), m_ept s)).

Lemma task_view_inv (s s' : machine D) :
  task_view s' = task_view s →
  sched_view (m_kernel s') = sched_view (m_kernel s) ∧
  g_handler_vec (m_kernel s') = g_handler_vec (m_kernel s).
Proof. intros E. apply (f_equal fst) in E. split; [exact (f_equal fst E)|exact (f_equal snd E)]. Qed.
Lemma task_view_rest (s s' : machine D) :
  task_view s' = task_view s → vgics (m_kernel s') = vgics (m_kernel s) ∧ m_ept s' = m_ept s.
Proof. intros E. apply (f_equal snd) in E. split; [exact (f_equal fst E)|exact (f_equal snd E)]. Qed.
Lemma sched_view_inv (k k' : kernel D) :
  sched_view k' = sched_view k →
  task_count k' = task_count k ∧ g_cpu_dec k' = g_cpu_dec k ∧ sched_lock k' = sched_lock k.
Proof. unfold sched_view. by intros [= _ -> _ -> -> _ _]. Qed.
Lemma sched_view_infos (k k' : kernel D) : sched_view k' = sched_view k → infos k' = infos k.
Proof. intros E. exact (f_equal snd E). Qed.

Lemma quiet_on_mach {A} (m : St (mach D) A) : total m → quiet task_view (Trap.on_mach m).
Proof.
  intros Hm s. unfold Trap.on_mach, in_kernel, kmach, on_part.
  destruct (Hm (k_mach (m_kernel s))) as (a & m' & E & _). rewrite E. by do 2 eexists.
Qed.
Lemma quiet_kcon {A} (m : St con A) : total m → quiet task_view (in_kernel (kcon m)).
Proof.
  intros Hm s. unfold in_kernel, kcon, on_part. destruct (Hm (k_mach (m_kernel s), k_uart (m_kernel s))) as (a & c & E & _).
  rewrite E. by do 2 eexists.
Qed.
Lemma quiet_mprint e : quiet task_view (mprint (D := D) e).
Proof. apply quiet_on_mach, total_print. Qed.
Hint Resolve quiet_on_mach quiet_mprint : quiet.

Lemma quiet_timer_start : quiet task_view (timer_start (D := D)).
Proof. unfold timer_start, write_cntp_tval_el0, write_cntp_ctl_el0. quiet. Qed.
Lemma quiet_timer_enable : quiet task_view (timer_enable (D := D)).
Proof. unfold timer_enable. quiet. Qed.
Hint Resolve quiet_timer_start quiet_timer_enable : quiet.
Lemma quiet_timer_init_second : quiet task_view (timer_init_second (D := D)).
Proof. unfold timer_init_second. quiet. Qed.
End quiet_drivers.
#[export] Hint Resolve total_print total_write32 total_gicc_init total_gic_test_init total_gic_init
  total_gic_virtual_init total_io_early_init quiet_on_mach quiet_mprint quiet_kcon quiet_timer_init_second : quiet.

(** [timer_init] installs its handler and keeps the rest. *)
Lemma timer_init_ok {D} `{Device D} Q (s : machine D) :
  (30 < length (g_handler_vec (m_kernel s)))%nat →
  (∀ s', sched_view (m_kernel s') = sched_view (m_kernel s) →
     vgics (m_kernel s') = vgics (m_kernel s) → m_ept s' = m_ept s →
     g_handler_vec (m_kernel s') = <[30%nat := Some HTimer]> (g_handler_vec (m_kernel s)) → Q tt s') →
  wp timer_init Q s.
Proof.
  intros Hl HQ. unfold timer_init. wp_step.
  apply (wp_quiet task_view); [apply quiet_timer_start|]. intros [] s1 V1.
  destruct (task_view_inv _ _ V1) as [E1 H1]. destruct (task_view_rest _ _ V1) as [G1 P1].
  unfold in_kernel, irq_install. do 2 wp_step. rewrite H1. change (0 <=? TIMER_VECTOR) with true.
  rewrite (proj2 (Z.ltb_lt _ _)) by (unfold TIMER_VECTOR; lia). cbn [andb]. wp_step.
  apply (wp_quiet task_view); [apply quiet_timer_enable|]. intros [] s2 V2.
  destruct (task_view_inv _ _ V2) as [E2 H2]. destruct (task_view_rest _ _ V2) as [G2 P2].
  apply HQ; [by rewrite E2|by rewrite G2|by rewrite P2|]. rewrite H2. cbn. by rewrite H1.
Qed.

(** * The functions of the scheduler *)

Section setup.
Context {D : Type} `{Device D}.

Lemma sched_repr_view (k k' : kernel D) st :
  sched_view k' = sched_view k → sched_repr k st → sched_repr k' st.
Proof.
  unfold sched_view. intros [= Ht Hc Hs Hn _ _ Hi] [].
  constructor; try done; intros; rewrite ?Ht, ?Hc, ?Hn, ?Hi; eauto.
Qed.
Lemma starting_view (k k' : kernel D) S st :
  sched_view k' = sched_view k → starting k S st → starting k' S st.
Proof.
  unfold sched_view. intros [= Ht Hc Hs Hn _ _ Hi] [].
  constructor; try done; intros; rewrite ?Ht, ?Hc, ?Hn, ?Hi; eauto.
Qed.
Lemma arrays_ok_view (k k' : kernel D) : sched_view k' = sched_view k → arrays_ok k → arrays_ok k'.
Proof. unfold sched_view. intros [= Ht Hc Hs _ _ _ _] []. constructor; congruence. Qed.

Lemma print_task_loop_ok fuel i (k : kernel D) st :
  sched_repr k st → 0 ≤ i ≤ task_count k → task_count k - i < Z.of_nat fuel →
  wp (print_task_loop fuel i) (λ _ k', ∃ m, k' = set_mach m k) k.
Proof.
  revert i k. induction fuel as [|fu IH]; intros i k Hk Hi Hf; [pose proof (sr_count _ _ Hk); lia|].
  cbn [print_task_loop]. wp_step. destruct (Z.ltb_spec i (task_count k)) as [Hlt|]; [|wp_step; exists (k_mach k); by destruct k].
  pose proof (sr_count _ _ Hk) as Hc.
  destruct (sr_tasks _ _ Hk (Z.to_nat i)) as (t & Ht & Hid & Hcpu & _); [lia|].
  destruct (lookup_lt_is_Some_2 (rr_ctx st) (Z.to_nat i)) as [f Hfx]; [lia|].
  pose proof (sr_ctx _ _ Hk _ _ Hfx) as Hx. apply fmap_Some in Hx as (x & Hx & _). wp_step.
  eapply wp_task_at; [exact Ht|]. wp_step. eapply wp_cpu_info_of; [exact Ht|exact Hcpu|]. wp_step.
  eapply wp_cpu_at; [exact Hx|]. wp_step. apply wp_kprint. intros m. wp_step.
  eapply wp_mono; [apply IH; [by apply sched_repr_mach|cbn; lia..]|].
  intros _ k' (m' & ->). by exists m'.
Qed.

Lemma print_current_task_list_ok (k : kernel D) st :
  sched_repr k st → wp print_current_task_list (λ _ k', ∃ m, k' = set_mach m k) k.
Proof.
  intros Hk. unfold print_current_task_list. wp_step.
  eapply wp_mono; [apply (print_task_loop_ok _ _ _ _ Hk); rewrite (sr_count _ _ Hk); pose proof (sr_max _ _ Hk); lia|].
  intros _ k' (m & ->). apply wp_kprint. intros m'. by exists m'.
Qed.

End setup.
