(* ===== verification/Image.v ===== *)
(** The copies of images at start-up: the functions [copy_*] of [main.c] and
    [main_hyper.c], which differ in their texts and addresses. *)

From S2P Require Import Prelude Config Gic ByteMem Word StringLib Kernel Keeps Trap Quiet.

(** The machine and the memory the images are in. *)
Abbreviation loader D := (machine D * mem)%type.

Section copy.
Context {D : Type} `{Device D} (fuel : nat).

Definition on_machine {A} (m : St (machine D) A) : St (loader D) A :=
  on_part fst (λ s l, (s, snd l)) m.
Definition on_mem {A} (m : St mem A) : St (loader D) A := on_part snd (λ m l, (fst l, m)) m.
Definition lprint (e : log_entry) : St (loader D) unit := on_machine (mprint e).

(** [((unsigned long * )a)[i]] *)
Definition word_index (a i : Z) : St mem Z := load_le 8 (a + 8 * i).

(** [name] is the word that is different in the messages; [from] and [bin_end] are
    symbols of the linker. *)
Definition copy_image (name : string) (from to bin_end : Z) : St (loader D) unit :=
  let size := u64 (bin_end - from) in
  v0 ← on_mem (word_index from 0);
  v1 ← on_mem (word_index from 1);
  lprint (Printf (String.append "Copy " (String.append name
            (ln " from %x to %x (%d bytes): 0x%x / 0x%x")))
            [Num from; Num to; Num size; Num v0; Num v1]);;
  on_mem (memcpy fuel to from size);;
  v0 ← on_mem (word_index to 0);
  v1 ← on_mem (word_index to 1);
  lprint (Printf (ln "Copy end : 0x%x / 0x%x") [Num v0; Num v1]).
End copy.

(** The image [img] between two symbols, and the memory it is copied to. *)
Record image (m : mem) (start bin_end dst : Z) (img : list Z) : Prop := {
  im_bytes : bytes m start img;
  im_byte : Forall byte img;
  im_end : bin_end = start + Z.of_nat (length img);
  im_len : Z.of_nat (length img) < 2 ^ 64;
  im_first : mapped m start 16;
  im_dst : mapped m dst (Z.of_nat (length img));
  im_dst16 : mapped m dst 16;
}.

(** A copy elsewhere leaves an image alone. *)
Lemma image_write m start bin_end dst img a bs :
  image m start bin_end dst img →
  a + Z.of_nat (length bs) ≤ start ∨ start + Z.of_nat (length img) ≤ a →
  image (write_bytes m a bs) start bin_end dst img.
Proof.
  intros [] Ha. constructor; try done; try by apply mapped_write_bytes.
  eapply bytes_ext; [|done]. intros i Hi. apply lookup_write_bytes_ne. lia.
Qed.
Lemma bytes_write_apart m a bs b cs :
  bytes m b cs → a + Z.of_nat (length bs) ≤ b ∨ b + Z.of_nat (length cs) ≤ a → bytes (write_bytes m a bs) b cs.
Proof. intros Hb Ha. eapply bytes_ext; [|done]. intros i Hi. apply lookup_write_bytes_ne. lia. Qed.

Section copy_ok.
Context {D : Type} `{Device D} (fuel : nat).

Lemma wp_lprint e Q (l : loader D) :
  (∀ s', task_view s' = task_view (fst l) → Q tt (s', snd l)) → wp (lprint e) Q l.
Proof.
  intros HQ. unfold lprint, on_machine. wp_step. apply (wp_quiet task_view); [apply quiet_mprint|].
  intros [] s' Hs. by apply HQ.
Qed.
Lemma wp_word_index a i Q (l : loader D) :
  mapped (snd l) (a + 8 * i) 8 → (∀ v, Q v l) → wp (on_mem (word_index a i)) Q l.
Proof.
  intros Hm HQ. destruct (load_le_ok 8 (a + 8 * i) (snd l) Hm) as [v Hv].
  eapply (wp_done _ v l); [|apply HQ]. unfold on_mem, on_part, word_index. rewrite Hv. by destruct l.
Qed.

(** The image is where it should be; nothing else in memory has changed. *)
Lemma copy_image_ok name from to bin_end img (l : loader D) :
  image (snd l) from bin_end to img →
  to + Z.of_nat (length img) ≤ from ∨ from + Z.of_nat (length img) ≤ to → (length img < fuel)%nat →
  wp (copy_image fuel name from to bin_end)
     (λ _ l', task_view (fst l') = task_view (fst l) ∧ snd l' = write_bytes (snd l) to img) l.
Proof.
  intros Hi Hto Hf. pose proof Hi as [Hb Hbv -> Hlen Hfirst Hdst Hd16].
  unfold copy_image. cbv zeta. rewrite Z.add_simpl_l, u64_small by lia. wp_step.
  apply wp_word_index; [rewrite Z.mul_0_r, Z.add_0_r; by eapply mapped_le|]. intros v0. wp_step.
  apply wp_word_index; [eapply mapped_le; [apply mapped_tail; [exact Hfirst|lia]|lia]|]. intros v1. wp_step.
  apply wp_lprint. intros s1 Hs1. wp_step.
  unfold on_mem at 1, memcpy. wp_step. eapply wp_mono.
  { apply (memcpy_loop_ok fuel _ to from img 0); cbn [snd]; rewrite ?Z.add_0_r; done || lia. }
  cbn beta. intros _ m' ->. rewrite Z.add_0_r. wp_step. cbn [fst snd].
  set (m' := write_bytes _ _ _). assert (Hm : mapped m' to 16) by (by apply mapped_write_bytes).
  apply wp_word_index; [rewrite Z.mul_0_r, Z.add_0_r; by eapply mapped_le|]. intros w0. wp_step.
  apply wp_word_index; [eapply mapped_le; [apply mapped_tail; [exact Hm|lia]|lia]|]. intros w1. wp_step.
  apply wp_lprint. intros s2 Hs2. cbn [fst snd] in *. split; [congruence|done].
Qed.
End copy_ok.
