(* ===== verification/Boot.v ===== *)
(** The start of the kernel on its cores: [main.c] and [smp.c]. *)

From S2P Require Import Prelude Config Gic ByteMem Frame Uart Vgic Kernel Sched Keeps Ept Trap Quiet Image.

(** [include/psci.h], [include/thread.h], and the addresses of [main.c]. *)
Definition PSCI_0_2_FN64_CPU_ON : Z := 0x84000000 + 0x40000000 + 3.
Definition THREAD_SIZE : Z := 1 << 14.
Definition APP1_START : Z := 0x80000000.
Definition APP2_START : Z := 0x90000000.
Definition APP1_STACK : Z := 0x80004000.
Definition APP2_STACK : Z := 0x90004000.

Definition set_ti_cpu (v : Z) (t : thread_info) : thread_info :=
  {| ti_cpu := v; ti_flags := ti_flags t; ti_pgtable := ti_pgtable t; current_thread := current_thread t |}.
Definition set_ti_flags (v : Z) (t : thread_info) : thread_info :=
  {| ti_cpu := ti_cpu t; ti_flags := v; ti_pgtable := ti_pgtable t; current_thread := current_thread t |}.
Definition zero_info : thread_info :=
  {| ti_cpu := 0; ti_flags := 0; ti_pgtable := 0; current_thread := None |}.

(** [thread_info_sp]: the block at the bottom of the stack [sp] is in. *)
Definition thread_info_sp (sp : Z) : Z := sp .& Z.lnot (THREAD_SIZE - 1).

(** * The cores

    Where a core is: the calls of [kernel_main], [start_secondary_cpus] (its loop
    at [i]), [second_kernel_main] and [main_entry], cut where another core can see
    a difference. *)
Inductive pc :=
  | Off                (* not powered on *)
  | Primary            (* kernel_main *)
  | StartCpu (i : Z)   (* the test of the loop over the other cores *)
  | StartInfo (i : Z)  (* after the call to the firmware and the delay *)
  | Secondary          (* second_kernel_main *)
  | Entry              (* main_entry *)
  | Lock               (* spin_lock(&lock) *)
  | Load               (* inited_cpu_num++: its load *)
  | Store (v : Z)      (* and its store *)
  | Unlock             (* spin_unlock(&lock) *)
  | Wait               (* while (inited_cpu_num != SMP_NUM) wfi(); *)
  | Local              (* schedule_init_local *)
  | Enable             (* enable_interrupts *)
  | Idle.              (* while (1); with interrupts enabled *)
#[export] Instance pc_eq_dec : EqDecision pc.
Proof. solve_decision. Defined.

(** The machine with the memory the images are in, the variables of [main.c], and
    for each core its place and the top of its stack. *)
Record boot (D : Type) := {
  b_machine : machine D;
  b_mem : mem;
  b_lock : Z;
  inited_cpu_num : Z;
  b_pcs : list pc;
  b_stacks : list Z;
}.
Arguments b_machine {D} b. Arguments b_mem {D} b. Arguments b_lock {D} b.
Arguments inited_cpu_num {D} b. Arguments b_pcs {D} b. Arguments b_stacks {D} b.

Section boot.
Context {D : Type} `{Device D}.

Definition set_machine (m : machine D) (b : boot D) : boot D :=
  {| b_machine := m; b_mem := b_mem b; b_lock := b_lock b; inited_cpu_num := inited_cpu_num b;
     b_pcs := b_pcs b; b_stacks := b_stacks b |}.
Definition set_mem (m : mem) (b : boot D) : boot D :=
  {| b_machine := b_machine b; b_mem := m; b_lock := b_lock b; inited_cpu_num := inited_cpu_num b;
     b_pcs := b_pcs b; b_stacks := b_stacks b |}.
Definition set_barrier (l n : Z) (b : boot D) : boot D :=
  {| b_machine := b_machine b; b_mem := b_mem b; b_lock := l; inited_cpu_num := n;
     b_pcs := b_pcs b; b_stacks := b_stacks b |}.
Definition set_cores (ps : list pc) (sps : list Z) (b : boot D) : boot D :=
  {| b_machine := b_machine b; b_mem := b_mem b; b_lock := b_lock b; inited_cpu_num := inited_cpu_num b;
     b_pcs := ps; b_stacks := sps |}.

Definition in_machine {A} (m : St (machine D) A) : St (boot D) A := on_part b_machine set_machine m.
Definition in_loader {A} (m : St (loader D) A) : St (boot D) A :=
  on_part (λ b, (b_machine b, b_mem b)) (λ l b, set_mem (snd l) (set_machine (fst l) b)) m.
Definition bprint (e : log_entry) : St (boot D) unit := in_machine (mprint e).
Definition pc_at (core : nat) : St (boot D) pc := b ← get; deref (b_pcs b !! core).
Definition goto (core : nat) (p : pc) : St (boot D) unit :=
  modify (λ b, set_cores (<[core := p]> (b_pcs b)) (b_stacks b) b).

(** The number of cores; the symbols of the linker: the applications' images, the
    stacks, the entry of the other cores; the firmware's answer to a call (the
    register [x0]); how deep the stack of a core is in [schedule_init_local]; the
    fuel of [memcpy]. *)
Context (SMP_NUM : Z).
Context (app1_bin_start app1_bin_end app2_bin_start app2_bin_end : Z).
Context (stack_top stack_top_second second_entry : Z).
Context (psci : Z → Z → Z → Z → Z) (depth : nat → Z) (fuel : nat).

(** The blocks [struct thread_info] are at the bottom of the stacks; [infos] lists
    them by core. *)
Definition info_addr (core : nat) : Z :=
  if core is O then stack_top - STACK_SIZE else stack_top_second - STACK_SIZE * Z.of_nat core.
Definition info_of (a : Z) : option nat :=
  fst <$> list_find (λ c, info_addr c = a) (seq 0 (Z.to_nat SMP_NUM)).

(** ** [smp.c] *)

(** [memset], then the two fields. *)
Definition thread_info_init (ti flags id : Z) : St (boot D) unit :=
  c ← deref (info_of ti);
  in_machine (in_kernel (
    update_info c (λ _, zero_info);;
    update_info c (set_ti_cpu id);;
    update_info c (set_ti_flags flags))).

(** [PSCI_CPU_ON]: a core that is off starts at [second_entry], which takes its
    argument as the stack. *)
Definition cpu_on (core entry context_id : Z) : St (boot D) unit :=
  b ← get;
  match b_pcs b !! Z.to_nat core with
  | Some Off =>
      if entry =? second_entry then
        put (set_cores (<[Z.to_nat core := Secondary]> (b_pcs b))
               (<[Z.to_nat core := context_id]> (b_stacks b)) b)
      else fault
  | _ => mret tt
  end.
Definition hvc_call (function_id arg0 arg1 arg2 : Z) : St (boot D) Z :=
  let x0 := psci function_id arg0 arg1 arg2 in
  (if (function_id =? PSCI_0_2_FN64_CPU_ON) && (x0 =? 0) then cpu_on arg0 arg1 arg2 else mret tt);;
  mret (u32 (s32 x0)).

(** [start_secondary_cpus] before its loop, and the two parts of its body, with
    the delay between them. *)
Definition start_begin : St (boot D) unit :=
  thread_info_init (stack_top - STACK_SIZE) 0 0;;
  bprint (Printf (ln "core 0 thread info addr: %x") [Num (stack_top - STACK_SIZE)]).
Definition start_call (i : Z) : St (boot D) unit :=
  bprint (Printf (ln "") []);;
  v ← hvc_call PSCI_0_2_FN64_CPU_ON i second_entry (stack_top_second - STACK_SIZE * (i - 1));
  if truthy (s32 v) then bprint (Printf (ln "smc_call failed!") []) else mret tt.
Definition start_info (i : Z) : St (boot D) unit :=
  thread_info_init (stack_top_second - STACK_SIZE * i) 0 i;;
  bprint (Printf (ln "core %d thread info addr: %x") [Num i; Num (stack_top_second - STACK_SIZE * i)]).

(** ** [main.c] *)

(** [copy_app1] and [copy_app2] ([Image]). *)
Definition copy_app (from to bin_end : Z) : St (boot D) unit :=
  in_loader (copy_image fuel "app image" from to bin_end).

(** [kernel_main] before the call of [start_secondary_cpus]; the store is to the
    priorities of the distributor. *)
Definition kernel_main_begin : St (boot D) unit :=
  bprint (Info (ln "starting primary core 0 ..."));;
  in_machine (in_kernel (kcon io_early_init));;
  in_machine (on_mach gic_init);;
  in_machine (on_mach (write32 1 0x8000404));;
  in_machine timer_init;;
  bprint (Info (ln (ln "core 0 starting is done.")));;
  modify (λ b, set_barrier 0 (inited_cpu_num b) b).

(** [second_kernel_main] before the call of [main_entry]. *)
Definition second_kernel_begin (core : nat) : St (boot D) unit :=
  bprint (Info "starting core");;
  bprint (Printf " %d " [Num (Z.of_nat core)]);;
  bprint (Info (ln "..."));;
  in_machine (on_mach gicc_init);;
  in_machine (on_mach gic_test_init);;
  in_machine timer_init_second;;
  bprint (Info "core");;
  bprint (Printf " %d " [Num (Z.of_nat core)]);;
  bprint (Info (ln (ln "starting is done."))).

(** [main_entry] before its lock. *)
Definition main_entry_begin (core : nat) : St (boot D) unit :=
  bprint (Printf (ln "main entry: get_current_cpu_id: %d") [Num (Z.of_nat core)]);;
  if Z.of_nat core =? 0 then
    copy_app app1_bin_start APP1_START app1_bin_end;;
    copy_app app2_bin_start APP2_START app2_bin_end;;
    in_machine (in_kernel (
      schedule_init;;
      create_task APP1_START APP1_STACK;;
      create_task APP2_START APP2_STACK;;
      print_current_task_list))
  else mret tt.

(** The core that is in the stack it runs on. *)
Definition core_on_stack (core : nat) : St (boot D) nat :=
  b ← get;
  sp ← deref (b_stacks b !! core);
  deref (info_of (thread_info_sp (sp - depth core))).

(** One step of a core.  A core that waits stays where it is. *)
Definition boot_step (core : nat) : St (boot D) unit :=
  p ← pc_at core;
  match p with
  | Off | Idle => mret tt
  | Primary => kernel_main_begin;; start_begin;; goto core (StartCpu 1)
  | StartCpu i => if i <? SMP_NUM then start_call i;; goto core (StartInfo i) else goto core Entry
  | StartInfo i => start_info i;; goto core (StartCpu (s32 (i + 1)))
  | Secondary => second_kernel_begin core;; goto core Entry
  | Entry => main_entry_begin core;; goto core Lock
  | Lock =>
      b ← get;
      if b_lock b =? 0 then put (set_barrier 1 (inited_cpu_num b) b);; goto core Load else mret tt
  | Load => b ← get; goto core (Store (inited_cpu_num b))
  | Store v => modify (λ b, set_barrier (b_lock b) (s32 (v + 1)) b);; goto core Unlock
  | Unlock => modify (λ b, set_barrier 0 (inited_cpu_num b) b);; goto core Wait
  | Wait =>
      b ← get;
      if negb (inited_cpu_num b =? SMP_NUM) then mret tt else goto core Local
  | Local =>
      c ← core_on_stack core;
      in_machine (in_kernel (schedule_init_local c));; goto core Enable
  | Enable => goto core Idle
  end.

(** The steps of the cores in the order of a schedule. *)
Fixpoint boot_run (cores : list nat) : St (boot D) unit :=
  match cores with
  | [] => mret tt
  | c :: cs => boot_step c;; boot_run cs
  end.
End boot.

(** * Addresses *)

(** The stacks of [boot/boot.S]: 16 KB each, aligned, one for core 0 and four for
    the others; a core in [schedule_init_local] is within its own. *)
Record stacks_ok (n : nat) (stack_top stack_top_second : Z) (depth : nat → Z) : Prop := {
  so_cores : (1 ≤ n ≤ 5)%nat;
  so_top : stack_top mod THREAD_SIZE = 0;
  so_second : stack_top_second mod THREAD_SIZE = 0;
  so_apart : stack_top + 4 * STACK_SIZE ≤ stack_top_second;
  so_depth : ∀ c, 0 < depth c ≤ STACK_SIZE;
}.
(** The top of the stack of a core. *)
Definition stack_of (stack_top stack_top_second : Z) (core : nat) : Z :=
  if core is O then stack_top else stack_top_second - STACK_SIZE * (Z.of_nat core - 1).

Section stacks.
Context (n : nat) (stack_top stack_top_second : Z) (depth : nat → Z).
Context (Hso : stacks_ok n stack_top stack_top_second depth).

Lemma thread_info_sp_aligned a d :
  a mod THREAD_SIZE = 0 → 0 < d ≤ STACK_SIZE → thread_info_sp (a - d) = a - STACK_SIZE.
Proof using Type.
  unfold thread_info_sp, STACK_SIZE, THREAD_SIZE. change (1 << 14) with 16384.
  change (16384 - 1) with (Z.ones 14). intros Ha Hd.
  rewrite <- Z.ldiff_land, Z.ldiff_ones_r, Z.shiftl_mul_pow2, Z.shiftr_div_pow2 by lia.
  change (2 ^ 14) with 16384. Z.div_mod_to_equations; lia.
Qed.

Lemma info_addr_stack c : info_addr stack_top stack_top_second c = stack_of stack_top stack_top_second c - STACK_SIZE.
Proof using Type. destruct c; unfold info_addr, stack_of; lia. Qed.
Lemma stack_aligned c : stack_of stack_top stack_top_second c mod THREAD_SIZE = 0.
Proof using Hso.
  destruct Hso. unfold stack_of, STACK_SIZE, THREAD_SIZE in *. change (1 << 14) with 16384 in *.
  destruct c; [done|]. Z.div_mod_to_equations; lia.
Qed.
Lemma info_addr_inj c c' :
  (c < n)%nat → (c' < n)%nat → info_addr stack_top stack_top_second c = info_addr stack_top stack_top_second c' → c = c'.
Proof using Hso.
  destruct Hso. unfold info_addr, STACK_SIZE in *. change (1 << 14) with 16384 in *. destruct c, c'; lia.
Qed.
Lemma info_of_addr c :
  (c < n)%nat → info_of (Z.of_nat n) stack_top stack_top_second (info_addr stack_top stack_top_second c) = Some c.
Proof using Hso.
  intros Hc. unfold info_of. rewrite Nat2Z.id. apply fmap_Some. exists (c, c). split; [|done].
  apply list_find_Some. split_and!; [by rewrite lookup_seq|done|].
  intros j y [-> Hj]%lookup_seq Hlt Heq. apply info_addr_inj in Heq; lia.
Qed.
(** The code finds the block of its own core wherever in its stack it is. *)
Lemma info_of_stack c :
  (c < n)%nat → info_of (Z.of_nat n) stack_top stack_top_second
    (thread_info_sp (stack_of stack_top stack_top_second c - depth c)) = Some c.
Proof using Hso.
  intros Hc. rewrite thread_info_sp_aligned; [|apply stack_aligned|apply Hso].
  rewrite <- info_addr_stack. by apply info_of_addr.
Qed.
End stacks.

(** * The images *)

(** The applications lie above the two areas they are copied to, which they fit. *)
Record app_image (m : mem) (start bin_end dst : Z) (img : list Z) : Prop := {
  ai_image : image m start bin_end dst img;
  ai_len : Z.of_nat (length img) ≤ 0x10000000;
  ai_start : 0xA0000000 ≤ start;
}.
Lemma app_image_write m start bin_end dst img a bs :
  app_image m start bin_end dst img → a + Z.of_nat (length bs) ≤ 0xA0000000 →
  app_image (write_bytes m a bs) start bin_end dst img.
Proof. intros [] Ha. constructor; [|done..]. apply image_write; [done|lia]. Qed.

Section steps.
Context {D : Type} `{Device D}.

Lemma wp_in_machine_quiet {A} (m : St (machine D) A) Q b :
  quiet task_view m →
  (∀ a s', task_view s' = task_view (b_machine b) → Q a (set_machine s' b)) → wp (in_machine m) Q b.
Proof. intros Hm HQ. unfold in_machine. wp_step. by eapply wp_quiet. Qed.
Lemma wp_bprint e Q (b : boot D) :
  (∀ s', task_view s' = task_view (b_machine b) → Q tt (set_machine s' b)) → wp (bprint e) Q b.
Proof. intros HQ. apply wp_in_machine_quiet; [apply quiet_mprint|]. intros [] s' Hs. by apply HQ. Qed.

Lemma copy_app_ok fuel from to bin_end img (b : boot D) :
  app_image (b_mem b) from bin_end to img → to + Z.of_nat (length img) ≤ from → (length img < fuel)%nat →
  wp (copy_app fuel from to bin_end)
     (λ _ b', ∃ s', task_view s' = task_view (b_machine b) ∧
        b' = set_mem (write_bytes (b_mem b) to img) (set_machine s' b)) b.
Proof.
  intros [Hi _ _] Hto Hf. unfold copy_app, in_loader. wp_step.
  eapply wp_mono; [apply copy_image_ok; [exact Hi|by left|done]|].
  cbn [fst snd]. intros _ [s' m'] [Hs Hm]. cbn [fst snd] in *. subst m'. by exists s'.
Qed.
End steps.

(** * The tasks of core 0 *)

Section setup.
Context {D : Type} `{Device D}.

(** The tasks of the applications, as the round robin lists them. *)
Definition app_tasks : list (Z * Z * Z) :=
  [(APP1_START, APP1_STACK, SPSR_EL1_USER); (APP2_START, APP2_STACK, SPSR_EL1_USER)].
Definition frame_start (f : trap_frame) : Z * Z * Z := (elr f, usp f, spsr f).

Definition start_tasks : St (kernel D) unit :=
  schedule_init;; create_task APP1_START APP1_STACK;; create_task APP2_START APP2_STACK;;
  print_current_task_list.

Lemma start_tasks_sched (k : kernel D) :
  task_count k = 0 → arrays_ok k →
  wp start_tasks
     (λ _ k', ∃ st, sched_repr k' st ∧ rr_cur st = [] ∧ map frame_start (rr_ctx st) = app_tasks ∧
        infos k' = infos k ∧ print_lock k' = false ∧ sched_lock k' = false) k.
Proof.
  intros Hn Ha. unfold start_tasks, schedule_init. do 2 wp_step.
  eapply wp_mono; [apply clear_ids_ok; [lia|lia|destruct Ha; by constructor]|].
  intros _ k1 (Ha1 & Hi1 & Hc1 & _ & Hp1 & Hs1). cbn [infos task_count print_lock sched_lock set_locks] in *.
  wp_step. set (st0 := {| rr_cur := []; rr_ctx := []; rr_left := [] |}).
  assert (Hk1 : sched_repr k1 st0) by (constructor; cbn; try done; try lia; by constructor; try constructor).
  eapply wp_mono; [apply (create_task_ok _ _ _ _ Hk1); [cbn; lia|done]|].
  intros r1 k2 (_ & Ha2 & Hi2 & Hp2 & Hs2 & x & _ & Hk2). wp_step.
  eapply wp_mono; [apply (create_task_ok _ _ _ _ Hk2); [cbn; lia|done]|].
  intros r2 k3 (_ & Ha3 & Hi3 & Hp3 & Hs3 & y & _ & Hk3).
  eapply wp_mono; [by eapply print_current_task_list_ok|].
  intros _ k4 (m & ->). cbn [infos print_lock sched_lock set_mach].
  eexists. split_and!; [apply sched_repr_mach; exact Hk3|done|done|congruence..].
Qed.
Lemma keeps_start_tasks : keeps (outside_sched (D := D)) start_tasks.
Proof. unfold start_tasks. keeps. Qed.
Lemma start_tasks_ok (k : kernel D) :
  task_count k = 0 → arrays_ok k →
  wp start_tasks
     (λ _ k', (∃ st, sched_repr k' st ∧ rr_cur st = [] ∧ map frame_start (rr_ctx st) = app_tasks ∧
        infos k' = infos k ∧ print_lock k' = false ∧ sched_lock k' = false) ∧
        g_handler_vec k' = g_handler_vec k) k.
Proof.
  intros Hn Ha.
  eapply wp_mono; [exact (wp_keeps _ _ _ _ keeps_start_tasks (start_tasks_sched k Hn Ha))|].
  cbn beta. intros _ k' [Hk [= _ Hh _]]. done.
Qed.
End setup.

(** * The barrier *)

(** A core that holds the lock; one that has incremented the counter; one that has
    seen it full; one that has started its task; core 0 once the tasks exist. *)
Definition holds (p : pc) : bool := match p with Load | Store _ | Unlock => true | _ => false end.
Definition passed (p : pc) : bool := match p with Unlock | Wait | Local | Enable | Idle => true | _ => false end.
Definition opened (p : pc) : bool := match p with Local | Enable | Idle => true | _ => false end.
Definition started (p : pc) : bool := match p with Enable | Idle => true | _ => false end.
Definition entered (p : pc) : bool :=
  match p with Lock | Load | Store _ | Unlock | Wait | Local | Enable | Idle => true | _ => false end.

(** The sum of a weight over the cores. *)
Definition total_of (w : pc → Z) (ps : list pc) : Z := foldr (λ p t, w p + t) 0 ps.
Definition count_of (f : pc → bool) : list pc → Z := total_of (λ p, of_bool (f p)).

Lemma total_insert w ps i p q :
  ps !! i = Some p → total_of w (<[i := q]> ps) = total_of w ps - w p + w q.
Proof.
  revert i. induction ps as [|x ps IH]; intros [|i] Hi; try done; simplify_eq/=; [lia|].
  rewrite (IH _ Hi). lia.
Qed.
Lemma total_nonneg w ps : (∀ p, 0 ≤ w p) → 0 ≤ total_of w ps.
Proof. intros Hw. induction ps as [|x ps IH]; simpl; [lia|]. specialize (Hw x). lia. Qed.
Lemma total_ge w ps i p : (∀ p, 0 ≤ w p) → ps !! i = Some p → w p ≤ total_of w ps.
Proof.
  intros Hw. revert i. induction ps as [|x ps IH]; intros [|i] Hi; try done; simplify_eq/=.
  - pose proof (total_nonneg w ps Hw). lia.
  - specialize (IH _ Hi). specialize (Hw x). lia.
Qed.
Lemma total_two w ps i j p q :
  (∀ p, 0 ≤ w p) → i ≠ j → ps !! i = Some p → ps !! j = Some q → w p + w q ≤ total_of w ps.
Proof.
  intros Hw Hij Hi Hj. revert i j Hij Hi Hj.
  induction ps as [|x ps IH]; intros [|i] [|j] Hij Hi Hj; try done; simplify_eq/=.
  - pose proof (total_ge w ps j q Hw Hj). lia.
  - pose proof (total_ge w ps i p Hw Hi). lia.
  - assert (i ≠ j) as Hne by congruence. specialize (IH i j Hne Hi Hj). specialize (Hw x). lia.
Qed.
Lemma count_full f ps i p :
  ps !! i = Some p → count_of f ps = Z.of_nat (length ps) → f p = true.
Proof.
  unfold count_of. revert i. induction ps as [|x ps IH]; intros i Hi; [done|].
  assert (Hle : ∀ qs, total_of (λ p, of_bool (f p)) qs ≤ Z.of_nat (length qs)).
  { induction qs as [|y qs IHq]; simpl; [lia|]. destruct (f y); simpl; lia. }
  specialize (Hle ps). destruct i as [|i]; simplify_eq/=.
  - destruct (f p); simpl in *; [done|lia].
  - intros Hc. apply (IH i Hi). destruct (f x); simpl in *; lia.
Qed.
Lemma count_none f ps : (∀ i p, ps !! i = Some p → f p = false) → count_of f ps = 0.
Proof.
  unfold count_of. induction ps as [|x ps IH]; intros Hf; [done|]. simpl.
  rewrite (Hf 0%nat x eq_refl), IH; [done|]. intros i. apply (Hf (S i)).
Qed.
Lemma count_all f ps : (∀ i p, ps !! i = Some p → f p = true) → count_of f ps = Z.of_nat (length ps).
Proof.
  unfold count_of. induction ps as [|x ps IH]; intros Hf; [done|]. simpl.
  rewrite (Hf 0%nat x eq_refl), IH; [simpl; lia|]. intros i. apply (Hf (S i)).
Qed.
Lemma count_le f ps : count_of f ps ≤ Z.of_nat (length ps).
Proof. unfold count_of. induction ps as [|x ps IH]; simpl; [lia|]. destruct (f x); simpl; lia. Qed.
Lemma of_bool_nonneg b : 0 ≤ of_bool b.
Proof. by destruct b. Qed.

(** What the lock and the counter say about the cores. *)
Record barrier_ok (n : nat) (l c : Z) (ps : list pc) : Prop := {
  ba_len : length ps = n;
  ba_lock : l = count_of holds ps;
  ba_excl : count_of holds ps ≤ 1;
  ba_count : c = count_of passed ps;
  ba_store : ∀ i v, ps !! i = Some (Store v) → v = c;
  ba_open : ∀ i p, ps !! i = Some p → opened p = true → c = Z.of_nat n;
}.

Section barrier.
Context (n : nat) (l c : Z) (ps : list pc) (i : nat).
Context (Hb : barrier_ok n l c ps).

Lemma count_insert f p q :
  ps !! i = Some p → count_of f (<[i := q]> ps) = count_of f ps - of_bool (f p) + of_bool (f q).
Proof using Type. apply (total_insert (λ p, of_bool (f p))). Qed.
Lemma insert_cases p q j r :
  ps !! i = Some p → <[i := q]> ps !! j = Some r → (j = i ∧ r = q) ∨ (j ≠ i ∧ ps !! j = Some r).
Proof using Type.
  intros Hp. destruct (decide (j = i)) as [->|]; [|rewrite list_lookup_insert_ne by done; auto].
  rewrite list_lookup_insert_eq by (by eapply lookup_lt_Some). intros [= <-]. auto.
Qed.

(** A step that neither the lock nor the counter is about. *)
Lemma barrier_same p q :
  ps !! i = Some p → holds q = holds p → passed q = passed p → (∀ v, q = Store v → v = c) →
  (opened q = true → c = Z.of_nat n) →
  barrier_ok n l c (<[i := q]> ps).
Proof using Hb.
  intros Hp Eh Ep Hs Ho. destruct Hb. constructor.
  - by rewrite length_insert.
  - rewrite (count_insert _ _ _ Hp), Eh. lia.
  - rewrite (count_insert _ _ _ Hp), Eh. lia.
  - rewrite (count_insert _ _ _ Hp), Ep. lia.
  - intros j v Hj. destruct (insert_cases _ _ _ _ Hp Hj) as [[-> Hq]|[_ Hj']]; eauto.
  - intros j r Hj. destruct (insert_cases _ _ _ _ Hp Hj) as [[-> ->]|[_ Hj']]; eauto.
Qed.
Lemma barrier_take :
  ps !! i = Some Lock → l = 0 → barrier_ok n 1 c (<[i := Load]> ps).
Proof using Hb.
  intros Hp Hl. destruct Hb. constructor.
  - by rewrite length_insert.
  - rewrite (count_insert _ _ _ Hp). simpl. lia.
  - rewrite (count_insert _ _ _ Hp). simpl. lia.
  - rewrite (count_insert _ _ _ Hp). simpl. lia.
  - intros j v Hj. destruct (insert_cases _ _ _ _ Hp Hj) as [[_ [=]]|[_ Hj']]; eauto.
  - intros j r Hj. destruct (insert_cases _ _ _ _ Hp Hj) as [[_ ->]|[_ Hj']]; [done|eauto].
Qed.
(** No other core is between its load and its store, and none has seen the counter
    full while one has still to add to it. *)
Lemma barrier_add v :
  ps !! i = Some (Store v) → v = c ∧ c < Z.of_nat n ∧ barrier_ok n l (c + 1) (<[i := Unlock]> ps).
Proof using Hb.
  intros Hp. destruct Hb as [Hlen Hl Hx Hc Hs Ho]. split_and!; [by eapply Hs| |].
  - pose proof (count_le passed ps). destruct (decide (c = Z.of_nat n)) as [Heq|]; [|lia].
    pose proof (count_full passed ps i _ Hp) as Hf. simpl in Hf. rewrite Hlen, <- Hc in Hf. by apply Hf in Heq.
  - constructor.
    + by rewrite length_insert.
    + rewrite (count_insert _ _ _ Hp). simpl. lia.
    + rewrite (count_insert _ _ _ Hp). simpl. lia.
    + rewrite (count_insert _ _ _ Hp). simpl. lia.
    + intros j w Hj. destruct (insert_cases _ _ _ _ Hp Hj) as [[_ [=]]|[Hne Hj']].
      pose proof (total_two (λ p, of_bool (holds p)) ps i j _ _ (λ p, of_bool_nonneg _) (not_eq_sym Hne) Hp Hj') as H2.
      unfold count_of in Hx. simpl in H2. lia.
    + intros j r Hj Hr. destruct (insert_cases _ _ _ _ Hp Hj) as [[_ ->]|[_ Hj']]; [done|].
      pose proof (count_full passed ps i _ Hp) as Hf. rewrite Hlen, <- Hc in Hf. simpl in Hf.
      pose proof (Ho j r Hj' Hr) as Hcn. by apply Hf in Hcn.
Qed.
Lemma barrier_release :
  ps !! i = Some Unlock → barrier_ok n 0 c (<[i := Wait]> ps).
Proof using Hb.
  intros Hp. destruct Hb.
  pose proof (total_ge (λ p, of_bool (holds p)) ps i _ (λ p, of_bool_nonneg _) Hp) as H1. simpl in H1.
  unfold count_of in *. constructor; unfold count_of.
  - by rewrite length_insert.
  - rewrite (total_insert _ _ _ _ _ Hp). simpl. lia.
  - rewrite (total_insert _ _ _ _ _ Hp). simpl. lia.
  - rewrite (total_insert _ _ _ _ _ Hp). simpl. lia.
  - intros j v Hj. destruct (insert_cases _ _ _ _ Hp Hj) as [[_ [=]]|[_ Hj']]; eauto.
  - intros j r Hj. destruct (insert_cases _ _ _ _ Hp Hj) as [[_ ->]|[_ Hj']]; [done|eauto].
Qed.
End barrier.
