(* ===== verification/Start.v ===== *)
(** The cores start together: what every interleaving of the steps of [Boot] keeps,
    and what it comes to. *)

From S2P Require Import Prelude Config Gic ByteMem StringLib Frame Uart Kernel Sched Keeps Trap Quiet Image Boot.

(** * The invariant *)

(** How many cores core 0 has asked the firmware for, and how many blocks
    [struct thread_info] it has written. *)
Definition asked (n : nat) (p : pc) : Z :=
  match p with Primary => 1 | StartCpu i => i | StartInfo i => i + 1 | _ => Z.of_nat n end.
Definition informed (n : nat) (p : pc) : Z :=
  match p with Primary => 0 | StartCpu i => i | StartInfo i => i | _ => Z.of_nat n end.
Definition first_pc (n : nat) (p : pc) : Prop :=
  match p with
  | Off | Secondary => False
  | StartCpu i => 1 ≤ i ≤ Z.of_nat n
  | StartInfo i => 1 ≤ i < Z.of_nat n
  | _ => True
  end.
Definition other_pc (p : pc) : Prop :=
  match p with Primary | StartCpu _ | StartInfo _ => False | _ => True end.
#[export] Instance other_pc_dec p : Decision (other_pc p).
Proof. unfold other_pc. destruct p; apply _. Defined.

Definition has_info (infos : list thread_info) (c : nat) : Prop :=
  ∃ t, infos !! c = Some t ∧ ti_cpu t = Z.of_nat c.

Section start.
Context {D : Type} `{Device D}.
Context (n : nat) (img1 img2 : list Z).
Context (app1_bin_start app1_bin_end app2_bin_start app2_bin_end : Z).
Context (stack_top stack_top_second second_entry : Z).
Context (psci : Z → Z → Z → Z → Z) (depth : nat → Z) (fuel : nat).

Abbreviation stack := (stack_of stack_top stack_top_second).

(** The firmware starts core [c]. *)
Definition answers (c : nat) : Prop :=
  psci PSCI_0_2_FN64_CPU_ON (Z.of_nat c) second_entry (stack c) = 0.

(** The cores: [p] is where core 0 is. *)
Record cores_ok (p : pc) (ps : list pc) (sps : list Z) (infos : list thread_info) : Prop := {
  co_first : ps !! 0%nat = Some p;
  co_pc : first_pc n p;
  co_other : ∀ i q, i ≠ 0%nat → ps !! i = Some q → other_pc q;
  co_sps : length sps = n;
  co_on : ∀ i q, ps !! i = Some q → q ≠ Off →
    Z.of_nat i < asked n p ∧ (i = 0%nat ∨ answers i) ∧ sps !! i = Some (stack i);
  co_off : ∀ i, ps !! i = Some Off → Z.of_nat i < asked n p → ¬ answers i;
  co_infos : ∀ c, (c < n)%nat → is_Some (infos !! c);
  co_info : ∀ c, Z.of_nat c < informed n p → has_info infos c;
}.

(** Before core 0 is in [main_entry]: no tasks, the images where the linker put
    them. *)
Record kernel_off (k : kernel D) (m : mem) : Prop := {
  ko_count : task_count k = 0;
  ko_arrays : arrays_ok k;
  ko_app1 : app_image m app1_bin_start app1_bin_end APP1_START img1;
  ko_app2 : app_image m app2_bin_start app2_bin_end APP2_START img2;
}.
(** After: the applications are in place with a task each, and the cores that are
    through [schedule_init_local] run theirs. *)
Record kernel_on (k : kernel D) (m : mem) (ps : list pc) (S : list nat) (st : rr) : Prop := {
  kn_starting : starting k S st;
  kn_tasks : map frame_start (rr_ctx st) = app_tasks;
  kn_cores : ∀ i, i ∈ S ↔ ∃ q, ps !! i = Some q ∧ started q = true;
  kn_print : print_lock k = false;
  kn_sched : sched_lock k = false;
  kn_app1 : bytes m APP1_START img1;
  kn_app2 : bytes m APP2_START img2;
}.
Definition kernel_ok (p : pc) (k : kernel D) (m : mem) (ps : list pc) : Prop :=
  if entered p then ∃ S st, kernel_on k m ps S st else kernel_off k m.

Definition handlers_ok (p : pc) (hs : list (option handler)) : Prop :=
  if p is Primary then (30 < length hs)%nat else hs !! 30%nat = Some (Some HTimer).

Record boot_inv (p : pc) (b : boot D) : Prop := {
  bi_barrier : barrier_ok n (b_lock b) (inited_cpu_num b) (b_pcs b);
  bi_cores : cores_ok p (b_pcs b) (b_stacks b) (infos (m_kernel (b_machine b)));
  bi_kernel : kernel_ok p (m_kernel (b_machine b)) (b_mem b) (b_pcs b);
  bi_handlers : handlers_ok p (g_handler_vec (m_kernel (b_machine b)));
}.

(** ** Steps that move one core *)

(** Where core 0 is after core [i] has moved to [q]. *)
Definition first_after (i : nat) (q p : pc) : pc := if i is O then q else p.

Lemma cores_move p ps sps infos i q q' :
  cores_ok p ps sps infos → ps !! i = Some q → q ≠ Off → q' ≠ Off →
  (i = 0%nat → first_pc n q' ∧ asked n q' = asked n q ∧ informed n q' = informed n q) →
  (i ≠ 0%nat → other_pc q') →
  cores_ok (first_after i q' p) (<[i := q']> ps) sps infos.
Proof using Type.
  intros Hc Hi Hq Hq' H0 Hne. pose proof Hc as [H1 H2 H3 H4 H5 H6 H7 H8].
  assert (Hp : i = 0%nat → q = p) by (intros ->; congruence).
  assert (Ha : asked n (first_after i q' p) = asked n p ∧ informed n (first_after i q' p) = informed n p).
  { destruct i; [|done]. cbn. destruct H0 as (_ & -> & ->); [done|]. by rewrite Hp. }
  destruct Ha as [Ha Hf]. constructor; rewrite ?Ha, ?Hf; try done.
  - destruct i; cbn; [|by rewrite list_lookup_insert_ne].
    apply list_lookup_insert_eq. by eapply lookup_lt_Some.
  - destruct i; [by apply H0|done].
  - intros j r Hj Hr. destruct (insert_cases _ _ _ _ _ _ Hi Hr) as [[-> ->]|[_ Hr']]; eauto.
  - intros j r Hr Hro. destruct (insert_cases _ _ _ _ _ _ Hi Hr) as [[-> ->]|[_ Hr']]; eauto.
  - intros j Hr. destruct (insert_cases _ _ _ _ _ _ Hi Hr) as [[_ Heq]|[_ Hr']]; [by symmetry in Heq|eauto].
Qed.

Lemma kernel_on_move k m ps S st i q q' :
  kernel_on k m ps S st → ps !! i = Some q → started q' = started q →
  kernel_on k m (<[i := q']> ps) S st.
Proof using Type.
  intros [H1 H2 H3 H4 H5 H6 H7] Hi Hs. constructor; try done. intros j. rewrite H3. split.
  - intros (r & Hr & Hrs). destruct (decide (j = i)) as [->|Hne].
    + exists q'. rewrite list_lookup_insert_eq by (by eapply lookup_lt_Some). split; congruence.
    + exists r. by rewrite list_lookup_insert_ne.
  - intros (r & Hr & Hrs). destruct (insert_cases _ _ _ _ _ _ Hi Hr) as [[-> ->]|[_ Hr']]; [|eauto].
    exists q. split; congruence.
Qed.
Lemma kernel_on_view k k' m ps S st :
  sched_view k' = sched_view k → kernel_on k m ps S st → kernel_on k' m ps S st.
Proof using Type.
  intros Hv [H1 H2 H3 H4 H5 H6 H7]. pose proof Hv as Hv'. unfold sched_view in Hv'.
  injection Hv' as _ _ _ _ Hs Hp _. constructor; try done; [by eapply starting_view|congruence..].
Qed.
Lemma kernel_ok_view p k k' m ps :
  sched_view k' = sched_view k → kernel_ok p k m ps → kernel_ok p k' m ps.
Proof using Type.
  unfold kernel_ok. intros Hv. destruct (entered p).
  - intros (S & st & Hk). exists S, st. by eapply kernel_on_view.
  - intros []. pose proof Hv as Hv'. unfold sched_view in Hv'. injection Hv' as _ _ _ Hn _ _ _.
    constructor; try done; [congruence|by eapply arrays_ok_view].
Qed.
Lemma kernel_move p k m ps i q q' :
  kernel_ok p k m ps → ps !! 0%nat = Some p → ps !! i = Some q → started q' = started q →
  (i = 0%nat → entered q' = entered q) → kernel_ok (first_after i q' p) k m (<[i := q']> ps).
Proof using Type.
  intros Hk H0 Hi Hs He. unfold kernel_ok in *.
  assert (entered (first_after i q' p) = entered p) as ->.
  { destruct i; [|done]. cbn. rewrite He by done. congruence. }
  destruct (entered p); [|done]. destruct Hk as (S & st & Hk). exists S, st. by eapply kernel_on_move.
Qed.
Lemma handlers_move p i q q' hs :
  handlers_ok p hs → (i = 0%nat → q = p) → q ≠ Primary → q' ≠ Primary → handlers_ok (first_after i q' p) hs.
Proof using Type.
  intros Hh Hp Hq Hq'. destruct i; [|done]. cbn. specialize (Hp eq_refl) as ->.
  unfold handlers_ok in *. destruct p, q'; done.
Qed.
End start.
Arguments bi_barrier {D n _ _ _ _ _ _ _ _ _ _ p b} _.
Arguments bi_cores {D n _ _ _ _ _ _ _ _ _ _ p b} _.
Arguments bi_kernel {D n _ _ _ _ _ _ _ _ _ _ p b} _.
Arguments bi_handlers {D n _ _ _ _ _ _ _ _ _ _ p b} _.
Arguments co_first {n _ _ _ _ p ps sps infos} _.
Arguments co_pc {n _ _ _ _ p ps sps infos} _.
Arguments co_other {n _ _ _ _ p ps sps infos} _.
Arguments co_sps {n _ _ _ _ p ps sps infos} _.
Arguments co_on {n _ _ _ _ p ps sps infos} _.
Arguments co_off {n _ _ _ _ p ps sps infos} _.
Arguments co_infos {n _ _ _ _ p ps sps infos} _.
Arguments co_info {n _ _ _ _ p ps sps infos} _.
Arguments ba_len {n l c ps} _.
Arguments ba_lock {n l c ps} _.
Arguments ba_count {n l c ps} _.
Arguments ba_open {n l c ps} _.

(** * The steps *)

(** A core that cannot move: it is off, done, or waits. *)
Definition stuck {D} (n : nat) (b : boot D) (i : nat) : Prop :=
  match b_pcs b !! i with
  | Some Lock => b_lock b ≠ 0
  | Some Wait => inited_cpu_num b ≠ Z.of_nat n
  | Some Off | Some Idle => True
  | _ => False
  end.
(** The steps a core has before it, in a bound that every step lowers. *)
Definition remaining (n : nat) (p : pc) : Z :=
  match p with
  | Primary => 8 + 2 * Z.of_nat n
  | StartCpu i => 9 + 2 * (Z.of_nat n - i)
  | StartInfo i => 8 + 2 * (Z.of_nat n - i)
  | Off => 10 | Secondary => 9 | Entry => 8 | Lock => 7 | Load => 6 | Store _ => 5
  | Unlock => 4 | Wait => 3 | Local => 2 | Enable => 1 | Idle => 0
  end.
Definition left_of {D} (n : nat) (b : boot D) : Z := total_of (remaining n) (b_pcs b).

Section rules.
Context {D : Type} `{Device D}.

Lemma wp_pc_at i p Q (b : boot D) : b_pcs b !! i = Some p → Q p b → wp (pc_at i) Q b.
Proof. intros Hp HQ. unfold pc_at. wp_step. by eapply wp_deref_some. Qed.
Lemma wp_goto i p Q (b : boot D) :
  Q tt (set_cores (<[i := p]> (b_pcs b)) (b_stacks b) b) → wp (goto i p) Q b.
Proof. done. Qed.

(** The block of a core. *)
Definition fresh_info (flags id : Z) : thread_info :=
  {| ti_cpu := id; ti_flags := flags; ti_pgtable := 0; current_thread := None |}.
Lemma wp_thread_info_init n st1 st2 depth c a flags id Q (b : boot D) :
  stacks_ok n st1 st2 depth → (c < n)%nat → a = info_addr st1 st2 c →
  is_Some (infos (m_kernel (b_machine b)) !! c) →
  Q tt (set_machine (with_kernel
          (set_infos (<[c := fresh_info flags id]> (infos (m_kernel (b_machine b)))) (m_kernel (b_machine b)))
          (b_machine b)) b) →
  wp (thread_info_init (Z.of_nat n) st1 st2 a flags id) Q b.
Proof.
  intros Hso Hc -> [t Ht] HQ. pose proof (lookup_lt_Some _ _ _ Ht) as Hlt. unfold thread_info_init. wp_step.
  eapply wp_deref_some; [by apply (info_of_addr n _ _ _ Hso)|]. unfold in_machine, in_kernel. wp_step.
  eapply wp_update_info; [exact Ht|]. wp_step.
  eapply wp_update_info; [by apply list_lookup_insert_eq|]. cbn [infos set_infos].
  rewrite list_insert_insert_eq. wp_step.
  eapply wp_update_info; [by apply list_lookup_insert_eq|]. cbn [infos set_infos].
  rewrite list_insert_insert_eq. exact HQ.
Qed.

Lemma wp_timer_init Q (b : boot D) :
  (30 < length (g_handler_vec (m_kernel (b_machine b))))%nat →
  (∀ s', sched_view (m_kernel s') = sched_view (m_kernel (b_machine b)) →
     g_handler_vec (m_kernel s') = <[30%nat := Some HTimer]> (g_handler_vec (m_kernel (b_machine b))) →
     Q tt (set_machine s' b)) →
  wp (in_machine timer_init) Q b.
Proof. intros Hl HQ. unfold in_machine. wp_step. apply timer_init_ok; auto. Qed.
End rules.

Section steps.
Context {D : Type} `{Device D}.
Context (n : nat) (img1 img2 : list Z).
Context (app1_bin_start app1_bin_end app2_bin_start app2_bin_end : Z).
Context (stack_top stack_top_second second_entry : Z).
Context (psci : Z → Z → Z → Z → Z) (depth : nat → Z) (fuel : nat).
Context (Hso : stacks_ok n stack_top stack_top_second depth).

Abbreviation stack := (stack_of stack_top stack_top_second).
Abbreviation step := (boot_step (Z.of_nat n) app1_bin_start app1_bin_end app2_bin_start app2_bin_end
  stack_top stack_top_second second_entry psci depth fuel).
Abbreviation inv := (boot_inv n img1 img2 app1_bin_start app1_bin_end app2_bin_start app2_bin_end
  stack_top stack_top_second second_entry psci).

(** What a step that moves comes to. *)
Definition moved (b b' : boot D) : Prop := (∃ p, inv p b') ∧ left_of n b' < left_of n b.

(** A step of one core to [q'], whatever it does to the lock, the counter and the
    machine, as long as tasks and handlers stay. *)
Lemma boot_move p b i q q' l c s' :
  inv p b → b_pcs b !! i = Some q → q ≠ Off → q' ≠ Off → q ≠ Primary → q' ≠ Primary →
  task_view s' = task_view (b_machine b) → started q' = started q →
  (i = 0%nat → first_pc n q' ∧ asked n q' = asked n q ∧ informed n q' = informed n q ∧ entered q' = entered q) →
  (i ≠ 0%nat → other_pc q') → remaining n q' < remaining n q →
  barrier_ok n l c (<[i := q']> (b_pcs b)) →
  moved b (set_cores (<[i := q']> (b_pcs b)) (b_stacks b) (set_barrier l c (set_machine s' b))).
Proof using Type.
  intros [Hb Hc Hk Hh] Hi Hq Hq' Hqp Hqp' Hs Hst H0 Hne Hlt Hb'.
  apply task_view_inv in Hs as [Hs Hhs]. pose proof (co_first Hc) as Hfirst.
  pose proof (sched_view_infos _ _ Hs) as Hinfos.
  split.
  - exists (first_after i q' p). constructor; cbn [b_lock inited_cpu_num b_pcs b_stacks b_machine b_mem
      set_cores set_barrier set_machine]; [done| | |].
    + rewrite Hinfos. eapply cores_move; try done. intros Hz. by destruct (H0 Hz) as (? & ? & ? & _).
    + eapply kernel_move; [by eapply kernel_ok_view|done|done|done|]. intros Hz. by destruct (H0 Hz) as (_ & _ & _ & ?).
    + rewrite Hhs. eapply (handlers_move _ i q); [done| |done|done]. intros ->. congruence.
  - unfold left_of. cbn [b_pcs set_cores]. rewrite (total_insert _ _ _ _ _ Hi). lia.
Qed.

(** ** The steps of [main_entry] *)

Ltac at_pc Hi := unfold boot_step; wp_step; eapply wp_pc_at; [exact Hi|]; cbn beta iota.
(** The side conditions of [boot_move] on the two places. *)
Ltac places := first [done | by intros _ | (intros _; split_and!; done) | (cbn; lia)].

Lemma step_lock p b i :
  inv p b → b_pcs b !! i = Some Lock → b_lock b = 0 → wp (step i) (λ _ b', moved b b') b.
Proof using Type.
  intros Hb Hi Hl. at_pc Hi. wp_step. rewrite Hl, Z.eqb_refl. wp_step. apply wp_goto.
  refine (boot_move p b i Lock Load 1 _ (b_machine b) Hb Hi _ _ _ _ _ _ _ _ _ _); try places.
  eapply barrier_take; [apply Hb|done|done].
Qed.
Lemma step_load p b i :
  inv p b → b_pcs b !! i = Some Load → wp (step i) (λ _ b', moved b b') b.
Proof using Type.
  intros Hb Hi. at_pc Hi. wp_step. apply wp_goto.
  refine (boot_move p b i Load (Store (inited_cpu_num b)) (b_lock b) _ (b_machine b) Hb Hi _ _ _ _ _ _ _ _ _ _); try places.
  eapply barrier_same; [apply Hb|done..| |done]. by intros v [= <-].
Qed.
Lemma step_store p b i v :
  inv p b → b_pcs b !! i = Some (Store v) → wp (step i) (λ _ b', moved b b') b.
Proof using Hso.
  intros Hb Hi. at_pc Hi. wp_step. apply wp_goto.
  destruct (barrier_add _ _ _ _ _ (bi_barrier Hb) _ Hi) as (-> & Hc & Hb').
  assert (s32 (inited_cpu_num b + 1) = inited_cpu_num b + 1) as ->.
  { pose proof (ba_count (bi_barrier Hb)) as Hn.
    pose proof (total_nonneg (λ p, of_bool (passed p)) (b_pcs b) (λ p, of_bool_nonneg _)) as H0.
    destruct Hso. unfold count_of in Hn. apply s32_small. lia. }
  refine (boot_move p b i (Store _) Unlock (b_lock b) _ (b_machine b) Hb Hi _ _ _ _ _ _ _ _ _ Hb'); places.
Qed.
Lemma step_unlock p b i :
  inv p b → b_pcs b !! i = Some Unlock → wp (step i) (λ _ b', moved b b') b.
Proof using Type.
  intros Hb Hi. at_pc Hi. wp_step. apply wp_goto.
  refine (boot_move p b i Unlock Wait 0 _ (b_machine b) Hb Hi _ _ _ _ _ _ _ _ _ _); try places.
  eapply barrier_release; [apply Hb|done].
Qed.
Lemma step_wait p b i :
  inv p b → b_pcs b !! i = Some Wait → inited_cpu_num b = Z.of_nat n → wp (step i) (λ _ b', moved b b') b.
Proof using Type.
  intros Hb Hi Hn. at_pc Hi. wp_step. rewrite Hn, Z.eqb_refl. cbn [negb]. apply wp_goto.
  refine (boot_move p b i Wait Local (b_lock b) _ (b_machine b) Hb Hi _ _ _ _ _ _ _ _ _ _); try places.
  eapply barrier_same; [apply Hb|done..].
Qed.
Lemma step_enable p b i :
  inv p b → b_pcs b !! i = Some Enable → wp (step i) (λ _ b', moved b b') b.
Proof using Type.
  intros Hb Hi. at_pc Hi. apply wp_goto.
  refine (boot_move p b i Enable Idle (b_lock b) _ (b_machine b) Hb Hi _ _ _ _ _ _ _ _ _ _); try places.
  pose proof (bi_barrier Hb) as Hba.
  eapply barrier_same; [exact Hba|done..|]. intros _. by eapply (ba_open Hba i).
Qed.
Lemma step_secondary p b i :
  inv p b → b_pcs b !! i = Some Secondary → i ≠ 0%nat → wp (step i) (λ _ b', moved b b') b.
Proof using Type.
  intros Hb Hi Hne. at_pc Hi. unfold second_kernel_begin. wp_step.
  do 3 (apply wp_bprint; intros ?s ?V; wp_step).
  do 3 (apply wp_in_machine_quiet; [eauto with quiet|]; intros [] ?s ?V; wp_step).
  do 3 (apply wp_bprint; intros ?s ?V; wp_step). apply wp_goto. cbn [b_machine set_machine] in *.
  refine (boot_move p b i Secondary Entry (b_lock b) _ _ Hb Hi _ _ _ _ (_ : task_view s7 = _) _ _ _ _ _);
    try places; [congruence|].
  eapply barrier_same; [apply Hb|done..].
Qed.
Lemma step_entry p b i :
  inv p b → b_pcs b !! i = Some Entry → i ≠ 0%nat → wp (step i) (λ _ b', moved b b') b.
Proof using Type.
  intros Hb Hi Hne. at_pc Hi. unfold main_entry_begin. wp_step. apply wp_bprint. intros s V. wp_step.
  rewrite (proj2 (Z.eqb_neq (Z.of_nat i) 0)) by lia. wp_step. apply wp_goto.
  refine (boot_move p b i Entry Lock (b_lock b) _ _ Hb Hi _ _ _ _ V _ _ _ _ _); try places.
  eapply barrier_same; [apply Hb|done..].
Qed.

(** ** The steps of core 0 before it *)

Lemma first_core p (b : boot D) i q :
  inv p b → b_pcs b !! i = Some q → ¬ other_pc q → i = 0%nat ∧ q = p.
Proof using Type.
  intros Hb Hi Hq. destruct (decide (i = 0%nat)) as [->|Hne].
  - pose proof (co_first (bi_cores Hb)). split; congruence.
  - by pose proof (co_other (bi_cores Hb) i q Hne Hi).
Qed.

Lemma step_start_done p b i j :
  inv p b → b_pcs b !! i = Some (StartCpu j) → Z.of_nat n ≤ j → wp (step i) (λ _ b', moved b b') b.
Proof using Type.
  intros Hb Hi Hj. destruct (first_core _ _ _ _ Hb Hi) as [-> <-]; [by intros []|].
  pose proof (co_pc (bi_cores Hb)) as Hp. cbn in Hp. assert (j = Z.of_nat n) as -> by lia.
  at_pc Hi. rewrite Z.ltb_irrefl. apply wp_goto.
  refine (boot_move _ b 0 _ Entry (b_lock b) _ (b_machine b) Hb Hi _ _ _ _ _ _ _ _ _ _); try places.
  eapply barrier_same; [apply Hb|done..].
Qed.

(** The block of a core written, everything else as it was. *)
Definition with_info (c : nat) (flags id : Z) (s : machine D) : machine D :=
  with_kernel (set_infos (<[c := fresh_info flags id]> (infos (m_kernel s))) (m_kernel s)) s.

Lemma infos_insert (fs : list thread_info) c t :
  is_Some (fs !! c) → ti_cpu t = Z.of_nat c →
  (∀ j, is_Some (fs !! j) → is_Some (<[c := t]> fs !! j)) ∧
  has_info (<[c := t]> fs) c ∧ (∀ j, has_info fs j → has_info (<[c := t]> fs) j).
Proof using Type.
  intros [t0 Hc] Ht. pose proof (lookup_lt_Some _ _ _ Hc) as Hlt.
  assert (Hh : has_info (<[c := t]> fs) c) by (exists t; by rewrite list_lookup_insert_eq).
  split_and!; [|done|].
  - intros j Hj. apply lookup_lt_is_Some. rewrite length_insert. by apply lookup_lt_is_Some.
  - intros j (t' & Ht' & Hj). destruct (decide (j = c)) as [->|Hne]; [done|].
    exists t'. by rewrite list_lookup_insert_ne.
Qed.

(** Core 0 writes a block: that of core [c]. *)
Lemma cores_info p q ps sps fs c t :
  cores_ok n stack_top stack_top_second second_entry psci p ps sps fs →
  (c < n)%nat → ti_cpu t = Z.of_nat c → first_pc n q → q ≠ Off → asked n q = asked n p →
  informed n p = Z.of_nat c → informed n q = Z.of_nat c + 1 →
  cores_ok n stack_top stack_top_second second_entry psci q (<[0%nat := q]> ps) sps (<[c := t]> fs).
Proof using Type.
  intros [H1 H2 H3 H4 H5 H6 H7 H8] Hc Ht Hq Hqo Ha Hi Hi'.
  destruct (infos_insert fs c t (H7 c Hc) Ht) as (K1 & K2 & K3).
  constructor; rewrite ?Ha; try done.
  - apply list_lookup_insert_eq. by eapply lookup_lt_Some.
  - intros i r Hne. rewrite list_lookup_insert_ne by done. by apply H3.
  - intros i r Hr Hro. destruct (insert_cases _ _ _ _ _ _ H1 Hr) as [[-> ->]|[_ Hr']]; [|eauto].
    apply (H5 0%nat p H1). by intros ->.
  - intros i Hr. destruct (insert_cases _ _ _ _ _ _ H1 Hr) as [[_ Heq]|[_ Hr']]; [by symmetry in Heq|eauto].
  - intros j Hj. apply K1. by apply H7.
  - intros j Hj. rewrite Hi' in Hj. destruct (decide (j = c)) as [->|]; [done|]. apply K3, H8. lia.
Qed.

Lemma kernel_off_info (k : kernel D) m fs :
  kernel_off img1 img2 app1_bin_start app1_bin_end app2_bin_start app2_bin_end k m →
  kernel_off img1 img2 app1_bin_start app1_bin_end app2_bin_start app2_bin_end (set_infos fs k) m.
Proof using Type. intros [? [] ? ?]. by constructor. Qed.
Lemma kernel_off_view (k k' : kernel D) m :
  sched_view k' = sched_view k →
  kernel_off img1 img2 app1_bin_start app1_bin_end app2_bin_start app2_bin_end k m →
  kernel_off img1 img2 app1_bin_start app1_bin_end app2_bin_start app2_bin_end k' m.
Proof using Type. apply (kernel_ok_view img1 img2 _ _ _ _ Primary _ _ _ []). Qed.

Lemma step_info b i j p :
  inv p b → b_pcs b !! i = Some (StartInfo j) → wp (step i) (λ _ b', moved b b') b.
Proof using Hso.
  intros Hb Hi. destruct (first_core _ _ _ _ Hb Hi) as [-> <-]; [by intros []|].
  pose proof (bi_cores Hb) as Hc. pose proof (co_pc Hc) as Hp. cbn in Hp.
  assert (Hj : j = Z.of_nat (Z.to_nat j)) by lia. set (c := Z.to_nat j) in *.
  at_pc Hi. unfold start_info. wp_step.
  apply (wp_thread_info_init n _ _ depth c); [done|lia| |apply (co_infos Hc); lia|].
  { unfold info_addr. destruct c; [lia|]. by rewrite Hj. }
  wp_step. apply wp_bprint. intros s [V1 V2]%task_view_inv. wp_step. apply wp_goto.
  pose proof (sched_view_infos _ _ V1) as Vi.
  destruct Hso as [Hn _ _ _ _]. rewrite (s32_small (j + 1)) by lia.
  split.
  - exists (StartCpu (j + 1)). constructor; cbn [b_lock inited_cpu_num b_pcs b_stacks b_machine b_mem
      set_cores set_machine] in *.
    + eapply barrier_same; [apply Hb|done..].
    + rewrite Vi. eapply cores_info; [exact Hc|lia|done|cbn; lia|done|cbn; lia|cbn; lia|cbn; lia].
    + eapply kernel_off_view; [exact V1|]. apply kernel_off_info. exact (bi_kernel Hb).
    + unfold handlers_ok. rewrite V2. exact (bi_handlers Hb).
  - unfold left_of. cbn [b_pcs set_cores set_machine]. rewrite (total_insert _ _ _ _ _ Hi). cbn. lia.
Qed.

Lemma wp_hvc (i : Z) Q (b : boot D) :
  let x0 := psci PSCI_0_2_FN64_CPU_ON i second_entry (stack_top_second - STACK_SIZE * (i - 1)) in
  (x0 ≠ 0 → ∀ v, Q v b) →
  (x0 = 0 → b_pcs b !! Z.to_nat i = Some Off ∧
     ∀ v, Q v (set_cores (<[Z.to_nat i := Secondary]> (b_pcs b))
        (<[Z.to_nat i := stack_top_second - STACK_SIZE * (i - 1)]> (b_stacks b)) b)) →
  wp (hvc_call second_entry psci PSCI_0_2_FN64_CPU_ON i second_entry (stack_top_second - STACK_SIZE * (i - 1))) Q b.
Proof using Type.
  intros x0 Hno Hyes. unfold hvc_call. fold x0. cbv zeta. rewrite Z.eqb_refl. cbn [andb]. wp_step.
  destruct (Z.eqb_spec x0 0) as [Hx|Hx]; [|wp_step; by apply Hno].
  destruct (Hyes Hx) as [Hoff HQ]. unfold cpu_on. wp_step. rewrite Hoff, Z.eqb_refl. wp_step. apply HQ.
Qed.

(** Core 0 has asked for core [c], which has started if the firmware says so. *)
Lemma cores_call c ps sps fs (yes : bool) :
  cores_ok n stack_top stack_top_second second_entry psci (StartCpu (Z.of_nat c)) ps sps fs →
  (0 < c < n)%nat → (if yes then answers stack_top stack_top_second second_entry psci c
                     else ¬ answers stack_top stack_top_second second_entry psci c) →
  cores_ok n stack_top stack_top_second second_entry psci (StartInfo (Z.of_nat c))
    (<[0%nat := StartInfo (Z.of_nat c)]> (if yes then <[c := Secondary]> ps else ps))
    (if yes then <[c := stack c]> sps else sps) fs.
Proof using Type.
  intros [H1 H2 H3 H4 H5 H6 H7 H8] Hc Hyes. cbn [asked informed first_pc] in *.
  assert (Hps : ∀ j, (j ≠ c)%nat → (if yes then <[c := Secondary]> ps else ps) !! j = ps !! j).
  { intros j Hj. destruct yes; [by rewrite list_lookup_insert_ne|done]. }
  assert (Hsps : ∀ j, (j ≠ c)%nat → (if yes then <[c := stack c]> sps else sps) !! j = sps !! j).
  { intros j Hj. destruct yes; [by rewrite list_lookup_insert_ne|done]. }
  assert (Hcase : ∀ j r, <[0%nat := StartInfo (Z.of_nat c)]> (if yes then <[c := Secondary]> ps else ps) !! j = Some r →
    (j = 0%nat ∧ r = StartInfo (Z.of_nat c)) ∨ (j = c ∧ r = Secondary ∧ yes = true) ∨
    (j ≠ 0%nat ∧ (j ≠ c ∨ yes = false) ∧ ps !! j = Some r)).
  { intros j r Hr. assert (Hp0 := H1). rewrite <- (Hps 0%nat) in Hp0 by lia.
    destruct (insert_cases _ _ _ _ _ _ Hp0 Hr) as [[-> ->]|[Hj Hr']]; [by left|right].
    destruct yes; [|right; auto]. destruct (decide (j = c)) as [->|Hne].
    - left. pose proof (lookup_lt_Some _ _ _ Hr') as Hlt. rewrite length_insert in Hlt.
      rewrite list_lookup_insert_eq in Hr' by done. by injection Hr' as <-.
    - right. rewrite list_lookup_insert_ne in Hr' by done. auto. }
  constructor; cbn [asked informed first_pc]; try done; try lia.
  - apply list_lookup_insert_eq. rewrite <- (Hps 0%nat) in H1 by lia. by eapply lookup_lt_Some.
  - intros j r Hj Hr. destruct (Hcase _ _ Hr) as [[-> _]|[(-> & -> & _)|(_ & _ & Hr')]]; [done|done|eauto].
  - destruct yes; [by rewrite length_insert|done].
  - intros j r Hr Hro. destruct (Hcase _ _ Hr) as [[-> ->]|[(-> & -> & ->)|(Hj & Hjc & Hr')]].
    + destruct (H5 _ _ H1) as (_ & _ & Hs); [done|]. rewrite (Hsps 0%nat) by lia. split_and!; [lia|by left|done].
    + split_and!; [lia|by right|]. apply list_lookup_insert_eq. lia.
    + destruct (H5 j r Hr' Hro) as (Hlt & Ha & Hs). rewrite (Hsps j) by lia. split_and!; [lia|done|done].
  - intros j Hr Hlt. destruct (Hcase _ _ Hr) as [[_ Hx]|[(_ & Hx & _)|(Hj & Hjc & Hr')]]; [discriminate Hx..|].
    destruct (decide (j = c)) as [->|Hne]; [|apply H6; [done|lia]]. by destruct Hjc as [?| ->].
Qed.

Lemma step_call b i j p :
  inv p b → b_pcs b !! i = Some (StartCpu j) → j < Z.of_nat n → wp (step i) (λ _ b', moved b b') b.
Proof using Type.
  intros Hb Hi Hjn. destruct (first_core _ _ _ _ Hb Hi) as [-> <-]; [by intros []|].
  pose proof (bi_cores Hb) as Hc. pose proof (co_pc Hc) as Hp. cbn in Hp.
  assert (Hj : j = Z.of_nat (Z.to_nat j)) by lia. set (c := Z.to_nat j) in *. rewrite Hj in *.
  assert (Hst : stack_top_second - STACK_SIZE * (Z.of_nat c - 1) = stack c) by (by destruct c; [lia|]).
  at_pc Hi. rewrite (proj2 (Z.ltb_lt _ _)) by lia. unfold start_call. wp_step.
  apply wp_bprint. intros s V. wp_step.
  (* what either answer comes to *)
  assert (Hgo : ∀ (yes : bool) s', task_view s' = task_view (b_machine b) →
    (if yes then b_pcs b !! c = Some Off ∧ answers stack_top stack_top_second second_entry psci c
     else ¬ answers stack_top stack_top_second second_entry psci c) →
    moved b (set_cores (<[0%nat := StartInfo (Z.of_nat c)]> (if yes then <[c := Secondary]> (b_pcs b) else b_pcs b))
               (if yes then <[c := stack c]> (b_stacks b) else b_stacks b) (set_machine s' b))).
  { intros yes s' [V1 V2]%task_view_inv Hyes. pose proof (sched_view_infos _ _ V1) as Vi.
    assert (H0 : (if yes then <[c := Secondary]> (b_pcs b) else b_pcs b) !! 0%nat = Some (StartCpu (Z.of_nat c)))
      by (destruct yes; [by rewrite list_lookup_insert_ne by lia|done]).
    split.
    - exists (StartInfo (Z.of_nat c)). constructor; cbn [b_lock inited_cpu_num b_pcs b_stacks b_machine b_mem
        set_cores set_machine] in *.
      + eapply barrier_same; [|exact H0|done..]. destruct yes; [|apply Hb].
        eapply barrier_same; [apply Hb|apply Hyes|done..].
      + rewrite Vi. apply cores_call; [done|lia|by destruct yes; [apply Hyes|]].
      + eapply kernel_off_view; [exact V1|]. exact (bi_kernel Hb).
      + unfold handlers_ok. rewrite V2. exact (bi_handlers Hb).
    - unfold left_of. cbn [b_pcs set_cores set_machine]. rewrite (total_insert _ _ _ _ _ H0). cbn [remaining].
      destruct yes; [|lia]. rewrite (total_insert _ _ _ _ _ (proj1 Hyes)). cbn [remaining]. lia. }
  apply wp_hvc; rewrite Hst.
  - intros Hx v. wp_step. destruct (truthy _).
    + apply wp_bprint. intros s' V'. wp_step. apply wp_goto. apply (Hgo false); [exact (eq_trans V' V)|done].
    + wp_step. apply wp_goto. by apply (Hgo false).
  - intros Hx. rewrite Nat2Z.id. cbn [b_pcs b_stacks set_machine].
    assert (Hoff : b_pcs b !! c = Some Off).
    { destruct (lookup_lt_is_Some_2 (b_pcs b) c) as [r Hr]; [rewrite (ba_len (bi_barrier Hb)); lia|].
      destruct (decide (r = Off)) as [->|Hro]; [done|].
      destruct (co_on Hc c r Hr Hro) as (Hlt & _). cbn in Hlt. lia. }
    split; [done|]. intros v. wp_step. destruct (truthy _).
    + apply wp_bprint. intros s' V'. wp_step. apply wp_goto. apply (Hgo true); [exact (eq_trans V' V)|done].
    + wp_step. apply wp_goto. by apply (Hgo true).
Qed.

Lemma step_primary p b i :
  inv p b → b_pcs b !! i = Some Primary → wp (step i) (λ _ b', moved b b') b.
Proof using Hso.
  intros Hb Hi. destruct (first_core _ _ _ _ Hb Hi) as [-> <-]; [by intros []|].
  pose proof (bi_cores Hb) as Hc. pose proof (so_cores _ _ _ _ Hso) as Hn.
  at_pc Hi. unfold kernel_main_begin. wp_step. apply wp_bprint. intros s1 V1. wp_step.
  apply wp_in_machine_quiet; [eauto with quiet|]. intros [] s2 V2. wp_step.
  do 2 (apply wp_in_machine_quiet; [eauto with quiet|]; intros [] ?s ?V; wp_step).
  cbn [b_machine set_machine] in *. rewrite V2, V1 in V. rewrite V in V0. clear V1 V2 V. apply task_view_inv in V0 as [Vs Vh].
  apply wp_timer_init; [cbn [b_machine set_machine]; rewrite Vh; apply (bi_handlers Hb)|].
  cbn [b_machine set_machine]. intros s3 Vs3 Vh3. rewrite Vs in Vs3. rewrite Vh in Vh3. wp_step.
  apply wp_bprint. cbn [b_machine set_machine]. intros s4 [Vs4 Vh4]%task_view_inv.
  rewrite Vs3 in Vs4. rewrite Vh3 in Vh4. clear Vs Vh Vs3 Vh3. wp_step.
  unfold start_begin. wp_step. pose proof (sched_view_infos _ _ Vs4) as Vi.
  apply (wp_thread_info_init n _ _ depth 0); [done|lia|done|cbn [b_machine set_barrier set_machine]; rewrite Vi; apply (co_infos Hc); lia|].
  wp_step. apply wp_bprint. cbn [b_machine set_barrier set_machine].
  intros s5 [Vs5 Vh5]%task_view_inv. wp_step. apply wp_goto.
  pose proof (sched_view_infos _ _ Vs5) as Vi5. cbn [m_kernel with_kernel infos set_infos] in Vi5. split.
  - exists (StartCpu 1). constructor; cbn [b_lock inited_cpu_num b_pcs b_stacks b_machine b_mem
      set_cores set_machine set_barrier] in *.
    + eapply barrier_same; [|exact Hi|done..]. pose proof (bi_barrier Hb) as [? Hl ? ? ? ?]. constructor; try done.
      symmetry. apply count_none. intros j r Hr. destruct (decide (r = Off)) as [->|Hro]; [done|].
      destruct (co_on Hc j r Hr Hro) as (Hlt & _). cbn in Hlt. assert (j = 0%nat) as -> by lia.
      by simplify_eq.
    + rewrite Vi5, Vi. eapply cores_info; [exact Hc|lia|done|cbn; lia|done|done|done|done].
    + eapply kernel_off_view; [exact Vs5|]. apply kernel_off_info. eapply kernel_off_view; [exact Vs4|].
      exact (bi_kernel Hb).
    + unfold handlers_ok. rewrite Vh5. cbn [m_kernel with_kernel g_handler_vec set_infos]. rewrite Vh4.
      apply list_lookup_insert_eq. apply (bi_handlers Hb).
  - unfold left_of. cbn [b_pcs set_cores set_machine set_barrier]. rewrite (total_insert _ _ _ _ _ Hi). cbn. lia.
Qed.

Context (Himg1 : (length img1 < fuel)%nat) (Himg2 : (length img2 < fuel)%nat).

(** No core is past the barrier while core 0 has not reached it. *)
Lemma none_opened p (b : boot D) :
  inv p b → passed p = false → ∀ i q, b_pcs b !! i = Some q → opened q = false.
Proof using Type.
  intros Hb Hp i q Hi. destruct (opened q) eqn:Ho; [|done].
  pose proof (bi_barrier Hb) as Hba. pose proof (ba_open Hba i q Hi Ho) as Hc.
  pose proof (count_full passed _ _ _ (co_first (bi_cores Hb))) as Hf.
  rewrite (ba_len Hba), <- (ba_count Hba) in Hf. rewrite Hf in Hp; done.
Qed.

Lemma step_entry_first p b :
  inv p b → b_pcs b !! 0%nat = Some Entry → wp (step 0) (λ _ b', moved b b') b.
Proof using Himg1 Himg2.
  intros Hb Hi. pose proof (bi_cores Hb) as Hc. assert (p = Entry) as -> by (pose proof (co_first Hc); congruence).
  pose proof (bi_kernel Hb) as [Hcount Ha Hi1 Hi2]. pose proof (ai_len _ _ _ _ _ Hi1). pose proof (ai_len _ _ _ _ _ Hi2).
  pose proof (ai_start _ _ _ _ _ Hi1). pose proof (ai_start _ _ _ _ _ Hi2).
  at_pc Hi. unfold main_entry_begin. wp_step. apply wp_bprint. intros s1 V1. wp_step.
  change (Z.of_nat 0 =? 0) with true. wp_step.
  eapply wp_mono; [apply copy_app_ok; [exact Hi1|unfold APP1_START; lia|done]|].
  intros _ ? (s2 & V2 & ->). wp_step.
  eapply wp_mono; [apply copy_app_ok; [apply app_image_write; [exact Hi2|unfold APP1_START; lia]|unfold APP2_START; lia|done]|].
  intros _ ? (s3 & V3 & ->). cbn [b_machine b_mem set_mem set_machine] in *. rewrite V2, V1 in V3.
  apply task_view_inv in V3 as [Vs Vh].
  assert (Hk : kernel_off img1 img2 app1_bin_start app1_bin_end app2_bin_start app2_bin_end (m_kernel s3) (b_mem b))
    by exact (kernel_off_view _ _ _ Vs (bi_kernel Hb)).
  unfold in_machine, in_kernel. rewrite !wp_on_part. cbn [b_machine set_mem set_machine].
  apply (wp_mono start_tasks _ _ _ (start_tasks_ok _ (ko_count _ _ _ _ _ _ _ _ Hk) (ko_arrays _ _ _ _ _ _ _ _ Hk))).
  intros [] k' [(st & Hk' & Hcur & Hts & Hinf & Hp & Hs) Hh]. apply wp_goto. split.
  - exists Lock. constructor; cbn [b_lock inited_cpu_num b_pcs b_stacks b_machine b_mem m_kernel
      set_cores set_machine set_mem] in *.
    + eapply barrier_same; [apply Hb|exact Hi|done..].
    + rewrite Hinf, (sched_view_infos _ _ Vs). eapply (cores_move _ _ _ _ _ _ _ _ _ 0 Entry Lock Hc Hi); done.
    + exists [], st. constructor; try done.
      * by apply starting_none.
      * intros j. split; [by intros ?%not_elem_of_nil|]. intros (q & Hq & Hqs).
        destruct (insert_cases _ _ _ _ _ _ Hi Hq) as [[_ ->]|[_ Hq']]; [done|].
        pose proof (none_opened _ _ Hb eq_refl j q Hq') as Ho. by destruct q.
      * eapply bytes_ext; [|apply bytes_write_bytes]. intros a Hain. apply lookup_write_bytes_ne.
        unfold APP1_START, APP2_START in *. lia.
      * apply bytes_write_bytes.
    + unfold handlers_ok. rewrite Hh, Vh. exact (bi_handlers Hb).
  - unfold left_of. cbn [b_pcs set_cores set_machine set_mem]. rewrite (total_insert _ _ _ _ _ Hi). cbn. lia.
Qed.

Context (Hn2 : (n ≤ 2)%nat).

Lemma step_local p b i :
  inv p b → b_pcs b !! i = Some Local → wp (step i) (λ _ b', moved b b') b.
Proof using Hso Hn2.
  clear Himg1 Himg2. intros Hb Hi. pose proof (bi_barrier Hb) as Hba. pose proof (bi_cores Hb) as Hc.
  pose proof (ba_open Hba i _ Hi eq_refl) as Hcn. pose proof (co_first Hc) as H0.
  assert (Hp : passed p = true).
  { apply (count_full passed (b_pcs b) 0%nat); [done|]. by rewrite (ba_len Hba), <- (ba_count Hba). }
  assert (He : entered p = true ∧ informed n p = Z.of_nat n ∧ p ≠ Primary) by (by destruct p).
  destruct He as (He & Hinf & Hnp).
  pose proof (bi_kernel Hb) as Hk. unfold kernel_ok in Hk. rewrite He in Hk. destruct Hk as (S & st & Hk).
  pose proof (lookup_lt_Some _ _ _ Hi) as Hin. rewrite (ba_len Hba) in Hin.
  destruct (co_info Hc i) as (t & Ht & Htc); [lia|]. destruct (co_on Hc i _ Hi) as (_ & _ & Hsp); [done|].
  at_pc Hi. unfold core_on_stack. wp_step. eapply wp_deref_some; [exact Hsp|]. wp_step.
  eapply wp_deref_some; [by apply (info_of_stack n _ _ _ Hso)|]. unfold in_machine, in_kernel. wp_step.
  assert (Hlen : length (rr_ctx st) = 2%nat).
  { rewrite <- (length_map frame_start), (kn_tasks _ _ _ _ _ _ _ Hk). done. }
  assert (Hnot : i ∉ S) by (rewrite (kn_cores _ _ _ _ _ _ _ Hk); intros (q & Hq & Hqs); by simplify_eq).
  eapply wp_mono.
  { exact (wp_keeps outside_sched _ _ _ (keeps_schedule_init_local _ i)
      (schedule_init_local_ok i t _ S st (kn_starting _ _ _ _ _ _ _ Hk) Ht Htc Hnot ltac:(lia)
         (kn_print _ _ _ _ _ _ _ Hk))). }
  intros [] k' [(Hp' & Hs' & Hi' & Hst) [= _ Hh _]]. apply wp_goto.
  assert (Hfa : entered (first_after i Enable p) = true) by (by destruct i).
  split.
  - exists (first_after i Enable p). constructor; cbn [b_lock inited_cpu_num b_pcs b_stacks b_machine b_mem m_kernel
      set_cores set_machine] in *.
    + eapply barrier_same; [apply Hb|exact Hi|done..].
    + pose proof (cores_move _ _ _ _ _ _ _ _ _ i Local Enable Hc Hi) as Hc'.
      destruct Hc' as [C1 C2 C3 C4 C5 C6 C7 C8]; [done..|]. constructor; try done.
      * intros c Hcc. destruct (C7 c Hcc) as [u Hu]. destruct (Hi' _ _ Hu) as (u' & Hu' & _). by exists u'.
      * intros c Hcc. destruct (C8 c Hcc) as (u & Hu & Huc). destruct (Hi' _ _ Hu) as (u' & Hu' & Heq).
        exists u'. split; [done|congruence].
    + unfold kernel_ok. rewrite Hfa. exists (i :: S), st. destruct Hk as [K1 K2 K3 K4 K5 K6 K7].
      constructor; try done; [|congruence]. intros j. rewrite elem_of_cons, K3. split.
      * intros [->|(q & Hq & Hqs)].
        -- exists Enable. split; [|done]. apply list_lookup_insert_eq. by eapply lookup_lt_Some.
        -- exists q. split; [|done]. rewrite list_lookup_insert_ne; [done|]. intros ->. by simplify_eq.
      * intros (q & Hq & Hqs). destruct (insert_cases _ _ _ _ _ _ Hi Hq) as [[-> _]|[_ Hq']]; eauto.
    + assert (handlers_ok p (g_handler_vec k')) as Hhp by (unfold handlers_ok; rewrite Hh; exact (bi_handlers Hb)).
      eapply (handlers_move _ i Local Enable); [exact Hhp|intros ->; congruence|done|done].
  - unfold left_of. cbn [b_pcs set_cores set_machine]. rewrite (total_insert _ _ _ _ _ Hi). cbn. lia.
Qed.

(** ** Every step *)

#[local] Instance stuck_dec (b : boot D) i : Decision (stuck n b i).
Proof using Type. unfold stuck. destruct (b_pcs b !! i) as [[]|]; apply _. Defined.

Lemma step_stuck b i : (i < length (b_pcs b))%nat → stuck n b i → step i b = Done (tt, b).
Proof using Type.
  intros Hi. destruct (lookup_lt_is_Some_2 _ _ Hi) as [q Hq]. unfold stuck. rewrite Hq.
  unfold boot_step, pc_at, mbind, St_bind, get, deref. rewrite Hq. cbn.
  destruct q; try done; cbn; intros Hs; by rewrite (proj2 (Z.eqb_neq _ _) Hs).
Qed.
Lemma step_moves p b i :
  inv p b → (i < n)%nat → ¬ stuck n b i → wp (step i) (λ _ b', moved b b') b.
Proof using Hso Himg1 Himg2 Hn2.
  intros Hb Hi Hs. destruct (lookup_lt_is_Some_2 (b_pcs b) i) as [q Hq]; [by rewrite (ba_len (bi_barrier Hb))|].
  unfold stuck in Hs. rewrite Hq in Hs. destruct q; try done.
  - by eapply step_primary.
  - destruct (Z.ltb_spec i0 (Z.of_nat n)); [by eapply step_call|by eapply step_start_done].
  - by eapply step_info.
  - eapply step_secondary; [done|done|]. intros ->. pose proof (co_first (bi_cores Hb)).
    pose proof (co_pc (bi_cores Hb)). by simplify_eq.
  - destruct (decide (i = 0%nat)) as [->|]; [by eapply step_entry_first|by eapply step_entry].
  - eapply step_lock; [done|done|]. destruct (Z.eq_dec (b_lock b) 0); [done|by exfalso].
  - by eapply step_load.
  - by eapply step_store.
  - by eapply step_unlock.
  - eapply step_wait; [done|done|]. destruct (Z.eq_dec (inited_cpu_num b) (Z.of_nat n)); [done|by exfalso].
  - by eapply step_local.
  - by eapply step_enable.
Qed.

Abbreviation run := (boot_run (Z.of_nat n) app1_bin_start app1_bin_end app2_bin_start app2_bin_end
  stack_top stack_top_second second_entry psci depth fuel).
Definition is_inv (b : boot D) : Prop := ∃ p, inv p b.
Definition all_stuck (b : boot D) (cs : list nat) : Prop := Forall (stuck n b) cs.

(** A run of steps keeps the invariant; it lowers the bound unless all its cores
    are stuck. *)
Lemma run_ok cs b :
  is_inv b → Forall (λ c, (c < n)%nat) cs →
  wp (run cs) (λ _ b', is_inv b' ∧ (left_of n b' < left_of n b ∨ (b' = b ∧ all_stuck b cs))) b.
Proof using Hso Himg1 Himg2 Hn2.
  revert b. induction cs as [|c cs IH]; intros b [p Hb] Hcs; cbn [boot_run].
  - wp_step. split; [by exists p|]. right. split; [done|constructor].
  - apply Forall_cons in Hcs as [Hc Hcs]. wp_step. destruct (decide (stuck n b c)) as [Hs|Hs].
    + eapply wp_done; [apply step_stuck; [by rewrite (ba_len (bi_barrier Hb))|done]|].
      eapply wp_mono; [apply IH; [by exists p|done]|]. intros _ b' [Hb' [Hlt|[-> Has]]]; split; auto.
      right. split; [done|by constructor].
    + eapply wp_mono; [by eapply step_moves|]. intros _ b1 [Hb1 Hlt1].
      eapply wp_mono; [by apply IH|]. intros _ b' [Hb' [Hlt|[-> _]]]; split; auto; left; lia.
Qed.

(** All the cores are stuck only when they are done, if the firmware starts them. *)
Definition all_idle (b : boot D) : Prop := ∀ i p, b_pcs b !! i = Some p → p = Idle.
Lemma stuck_idle p b :
  inv p b → (∀ c, (0 < c < n)%nat → answers stack_top stack_top_second second_entry psci c) →
  (∀ i, (i < n)%nat → stuck n b i) → all_idle b.
Proof using Type.
  clear Hso Himg1 Himg2 Hn2. intros Hb Hans Hst. pose proof (bi_barrier Hb) as Hba. pose proof (bi_cores Hb) as Hc.
  assert (Hs : ∀ i q, b_pcs b !! i = Some q → (i < n)%nat ∧ match q with
    Lock => b_lock b ≠ 0 | Wait => inited_cpu_num b ≠ Z.of_nat n | Off | Idle => True | _ => False end).
  { intros i q Hq. pose proof (lookup_lt_Some _ _ _ Hq) as Hi. rewrite (ba_len Hba) in Hi.
    specialize (Hst i Hi). unfold stuck in Hst. rewrite Hq in Hst. done. }
  assert (Hl : b_lock b = 0).
  { rewrite (ba_lock Hba). apply count_none. intros i q Hq. apply Hs in Hq as [_ Hq]. by destruct q. }
  assert (Hp : asked n p = Z.of_nat n).
  { destruct (Hs _ _ (co_first Hc)) as [_ Hp0]. pose proof (co_pc Hc) as Hpc. by destruct p. }
  assert (Hno : ∀ i q, b_pcs b !! i = Some q → q = Wait ∨ q = Idle).
  { intros i q Hq. destruct (Hs _ _ Hq) as [Hi Hq']. destruct q; auto; try done.
    exfalso. apply (co_off Hc i Hq); [lia|]. apply Hans. pose proof (co_pc Hc) as Hpc.
    destruct i; [|lia]. pose proof (co_first Hc) as H0. rewrite Hq in H0. by injection H0 as <-. }
  assert (Hn : inited_cpu_num b = Z.of_nat n).
  { rewrite (ba_count Hba), count_all, (ba_len Hba); [done|]. intros i q Hq. by destruct (Hno _ _ Hq) as [->| ->]. }
  intros i q Hq. destruct (Hno _ _ Hq) as [->|]; [|done]. by destruct (Hs _ _ Hq).
Qed.

(** A fair round: each core has a step. *)
Definition round (r : list nat) : Prop := ∀ c, c ∈ r ↔ (c < n)%nat.

Lemma idle_left b : all_idle b → left_of n b = 0.
Proof using Type.
  unfold all_idle, left_of. induction (b_pcs b) as [|x ps IH]; intros Hi; [done|]. simpl.
  rewrite (Hi 0%nat x eq_refl), IH; [done|]. intros i. apply (Hi (S i)).
Qed.
Lemma left_nonneg p (b : boot D) : inv p b → 0 ≤ left_of n b.
Proof using Type.
  clear Hso Himg1 Himg2 Hn2. intros Hb. unfold left_of. assert (Hw : ∀ i q, b_pcs b !! i = Some q → 0 ≤ remaining n q).
  { intros i q Hq. destruct (decide (other_pc q)) as [Ho|Ho]; [by destruct q|].
    destruct (first_core _ _ _ _ Hb Hq Ho) as [_ ->]. pose proof (co_pc (bi_cores Hb)) as Hp.
    destruct p; cbn in *; try done; lia. }
  induction (b_pcs b) as [|x ps IH]; [done|]. simpl. pose proof (Hw 0%nat x eq_refl).
  assert (0 ≤ total_of (remaining n) ps); [|lia]. apply IH. intros i. apply (Hw (S i)).
Qed.

Lemma run_app cs cs' b Q : wp (run cs) (λ _ b', wp (run cs') Q b') b → wp (run (cs ++ cs')) Q b.
Proof using Type.
  revert b. induction cs as [|c cs IH]; intros b; [done|]. cbn [boot_run app]. wp_step.
  intros Hw. eapply wp_mono; [exact Hw|]. intros [] b'. apply IH.
Qed.

Lemma rounds_ok rs b :
  is_inv b → (∀ c, (0 < c < n)%nat → answers stack_top stack_top_second second_entry psci c) →
  Forall round rs → left_of n b ≤ Z.of_nat (length rs) →
  wp (run (concat rs)) (λ _ b', is_inv b' ∧ all_idle b') b.
Proof using Hso Himg1 Himg2 Hn2.
  intros Hb Hans. revert b Hb. induction rs as [|r rs IH]; intros b Hb Hrs Hlen.
  - cbn [concat boot_run]. wp_step. split; [done|]. destruct Hb as [p Hb]. eapply stuck_idle; [done..|].
    intros i Hi. destruct (decide (stuck n b i)) as [|Hs]; [done|exfalso].
    pose proof (step_moves p b i Hb Hi Hs) as Hw. apply wp_inv in Hw as ([] & b' & _ & [p' Hb'] & Hlt).
    pose proof (left_nonneg _ _ Hb'). simpl in Hlen. lia.
  - apply Forall_cons in Hrs as [Hr Hrs]. cbn [concat]. apply run_app. simpl in Hlen.
    eapply wp_mono; [apply (run_ok r b Hb)|].
    { apply Forall_forall. intros c Hc. by apply Hr. }
    intros _ b' [Hb' [Hlt|[-> Has]]]; [apply IH; [done|done|lia]|]. apply IH; [done|done|].
    destruct Hb' as [p Hb']. rewrite idle_left; [lia|]. eapply stuck_idle; [done..|].
    intros i Hi. unfold all_stuck in Has. rewrite Forall_forall in Has. apply Has. by apply Hr.
Qed.

(** * The start of the kernel *)

(** Power-on: core 0 at the entry of [kernel_main], the others off, the static data
    as the compiler and the linker leave them. *)
Record powered_on (b : boot D) : Prop := {
  po_pcs : b_pcs b = Primary :: replicate (n - 1) Off;
  po_stack : b_stacks b !! 0%nat = Some stack_top;
  po_stacks : length (b_stacks b) = n;
  po_lock : b_lock b = 0;
  po_inited : inited_cpu_num b = 0;
  po_infos : length (infos (m_kernel (b_machine b))) = n;
  po_handlers : (30 < length (g_handler_vec (m_kernel (b_machine b))))%nat;
  po_kernel : kernel_off img1 img2 app1_bin_start app1_bin_end app2_bin_start app2_bin_end
                (m_kernel (b_machine b)) (b_mem b);
}.

Lemma powered_on_pc b i q : powered_on b → b_pcs b !! i = Some q → (i = 0%nat ∧ q = Primary) ∨ (i ≠ 0%nat ∧ q = Off).
Proof using Type.
  intros Hb Hq. rewrite (po_pcs _ Hb) in Hq. destruct i as [|i]; simplify_eq/=; [by left|right].
  by apply lookup_replicate in Hq as [-> _].
Qed.
Lemma powered_on_inv b : powered_on b → inv Primary b.
Proof using Hso.
  clear Himg1 Himg2 Hn2. intros Hb. destruct Hso as [Hn _ _ _ _].
  assert (Hcount : ∀ f, f Primary = false → f Off = false → count_of f (b_pcs b) = 0).
  { intros f H1 H2. apply count_none. intros i q Hq. by destruct (powered_on_pc _ _ _ Hb Hq) as [[_ ->]|[_ ->]]. }
  pose proof Hb as [Hp Hs Hss Hl Hi Hinf Hh Hk]. constructor; [|constructor|done|done].
  - constructor; rewrite ?Hcount by done; try done; [rewrite Hp; simpl; rewrite length_replicate; lia| |];
      intros i q Hq; [destruct (powered_on_pc _ _ _ Hb Hq) as [[_ [=]]|[_ [=]]]|].
    destruct (powered_on_pc _ _ _ Hb Hq) as [[_ ->]|[_ ->]]; done.
  - by rewrite Hp.
  - done.
  - intros i q Hne Hq. by destruct (powered_on_pc _ _ _ Hb Hq) as [[-> _]|[_ ->]].
  - done.
  - intros i q Hq Hqo. destruct (powered_on_pc _ _ _ Hb Hq) as [[-> _]|[_ ->]]; [|done].
    cbn. split_and!; [lia|by left|done].
  - intros i Hq Hlt. destruct (powered_on_pc _ _ _ Hb Hq) as [[_ [=]]|[Hne _]]. cbn in Hlt. lia.
  - intros c Hc. apply lookup_lt_is_Some. lia.
  - intros c Hc. cbn in Hc. lia.
Qed.
Lemma powered_on_left b : powered_on b → left_of n b ≤ 12 * Z.of_nat n.
Proof using Hso.
  clear Himg1 Himg2 Hn2. intros Hb. destruct Hso as [Hn _ _ _ _]. unfold left_of. rewrite (po_pcs _ Hb). simpl.
  assert (∀ k, total_of (remaining n) (replicate k Off) = 10 * Z.of_nat k) as ->; [|lia].
  induction k as [|k IH]; [done|]. cbn [replicate total_of foldr remaining]. unfold total_of in IH. rewrite IH. lia.
Qed.

(** What a core finds behind the barrier: every core has been through the counter,
    the firmware has started them all, their blocks carry their numbers, and the
    two applications are in memory with a task each. *)
Record behind_barrier (b : boot D) : Prop := {
  bb_count : inited_cpu_num b = Z.of_nat n;
  bb_all : ∀ i q, b_pcs b !! i = Some q → passed q = true;
  bb_answers : ∀ c, (0 < c < n)%nat → answers stack_top stack_top_second second_entry psci c;
  bb_info : ∀ c, (c < n)%nat → has_info (infos (m_kernel (b_machine b))) c;
  bb_app1 : bytes (b_mem b) APP1_START img1;
  bb_app2 : bytes (b_mem b) APP2_START img2;
  bb_tasks : ∃ S st, starting (m_kernel (b_machine b)) S st ∧ map frame_start (rr_ctx st) = app_tasks;
}.

Lemma inv_behind p b i q :
  inv p b → b_pcs b !! i = Some q → opened q = true → behind_barrier b.
Proof using Type.
  clear Hso Himg1 Himg2 Hn2. intros Hb Hi Hq. pose proof (bi_barrier Hb) as Hba. pose proof (bi_cores Hb) as Hc.
  pose proof (ba_open Hba i q Hi Hq) as Hcn.
  assert (Hall : ∀ j r, b_pcs b !! j = Some r → passed r = true).
  { intros j r Hr. apply (count_full passed (b_pcs b) j); [done|]. by rewrite (ba_len Hba), <- (ba_count Hba). }
  pose proof (Hall _ _ (co_first Hc)) as Hp.
  assert (Hpp : entered p = true ∧ informed n p = Z.of_nat n) by (by destruct p). destruct Hpp as [He Hf].
  pose proof (bi_kernel Hb) as Hk. unfold kernel_ok in Hk. rewrite He in Hk. destruct Hk as (S & st & Hk).
  constructor; try done; [| |apply Hk|apply Hk|].
  - intros c Hcn'. destruct (lookup_lt_is_Some_2 (b_pcs b) c) as [r Hr]; [rewrite (ba_len Hba); lia|].
    destruct (co_on Hc c r Hr) as (_ & [Hz|Ha] & _); [|lia|done]. intros ->. by specialize (Hall _ _ Hr).
  - intros c Hcn'. apply (co_info Hc). lia.
  - exists S, st. split; apply Hk.
Qed.

Lemma inv_idle p b :
  inv p b → all_idle b →
  ∃ st, machine_runs (Z.of_nat n) (b_machine b) st ∧ rr_cur st = seq 0 n ∧ map frame_start (rr_ctx st) = app_tasks.
Proof using Type.
  clear Hso Himg1 Himg2 Hn2. intros Hb Hid. pose proof (bi_barrier Hb) as Hba. pose proof (bi_cores Hb) as Hc.
  assert (p = Idle) as -> by (eapply Hid, (co_first Hc)).
  destruct (bi_kernel Hb) as (S & st & Hk). exists (with_cur (seq 0 n) st). split_and!; [|done|apply Hk].
  assert (HS : S ≡ₚ seq 0 n).
  { apply NoDup_Permutation; [apply (kn_starting _ _ _ _ _ _ _ Hk)|apply NoDup_seq|].
    intros i. rewrite (kn_cores _ _ _ _ _ _ _ Hk), elem_of_seq, <- (ba_len Hba). split.
    - intros (q & Hq & _). apply lookup_lt_Some in Hq. lia.
    - intros [_ Hi]. destruct (lookup_lt_is_Some_2 (b_pcs b) i) as [q Hq]; [lia|]. exists q. split; [done|].
      by rewrite (Hid _ _ Hq). }
  split; [split_and!|exact (bi_handlers Hb)].
  - eapply starting_all; [apply Hk|done].
  - apply Hk.
  - cbn. by rewrite length_seq.
Qed.
End steps.

Section boot_correct.
Context {D : Type} `{Device D}.
Context (n : nat) (img1 img2 : list Z).
Context (app1_bin_start app1_bin_end app2_bin_start app2_bin_end : Z).
Context (stack_top stack_top_second second_entry : Z).
Context (psci : Z → Z → Z → Z → Z) (depth : nat → Z) (fuel : nat).

(** C40: the kernel starts.  With one core or two (as many as it has tasks),
    however the steps of the cores interleave: no step faults; a core leaves the
    barrier only when all have reached it, with the blocks and the tasks in place
    and the applications copied, so never when the firmware has refused a core.
    When it starts every core, any [12 * n] rounds in which each core has a step
    bring all of them through: core [i] runs task [i] with interrupts enabled, the
    machine being one the timer interrupts can run from ([timer_irq_refinement]). *)
Theorem boot_correct cs rs (b : boot D) :
  stacks_ok n stack_top stack_top_second depth → (n ≤ 2)%nat →
  (length img1 < fuel)%nat → (length img2 < fuel)%nat →
  powered_on n img1 img2 app1_bin_start app1_bin_end app2_bin_start app2_bin_end stack_top b →
  Forall (λ c, (c < n)%nat) cs → Forall (round n) rs → (12 * n ≤ length rs)%nat →
  let run := boot_run (Z.of_nat n) app1_bin_start app1_bin_end app2_bin_start app2_bin_end
               stack_top stack_top_second second_entry psci depth fuel in
  wp (run cs)
     (λ _ b', ∀ i q, b_pcs b' !! i = Some q → opened q = true →
        behind_barrier n img1 img2 stack_top stack_top_second second_entry psci b') b ∧
  ((∀ c, (0 < c < n)%nat → answers stack_top stack_top_second second_entry psci c) →
   wp (run (concat rs))
     (λ _ b', all_idle b' ∧
        ∃ st, machine_runs (Z.of_nat n) (b_machine b') st ∧ rr_cur st = seq 0 n ∧
          map frame_start (rr_ctx st) = app_tasks) b).
Proof.
  intros Hso Hn2 Himg1 Himg2 Hb Hcs Hrs Hlen run. subst run.
  pose proof (powered_on_inv n img1 img2 _ _ _ _ _ _ second_entry psci depth Hso b Hb) as Hinv. split.
  - eapply wp_mono; [eapply run_ok; [exact Hso|exact Himg1|exact Himg2|done|by exists Primary|done]|].
    intros _ b' [[p Hb'] _] i q Hi Hq. by eapply inv_behind.
  - intros Hans. eapply wp_mono; [eapply rounds_ok; [exact Hso|exact Himg1|exact Himg2|done|by exists Primary|done|done|]|].
    { pose proof (powered_on_left n _ _ _ _ _ _ _ _ _ Hso b Hb). lia. }
    intros _ b' [[p Hb'] Hid]. split; [done|]. by eapply inv_idle.
Qed.
End boot_correct.

(** * Examples *)

#[local] Instance quiet_device : Device unit :=
  {| rd32 := λ _ d, (0, d); wr32 := λ _ _ d, d; wr8 := λ _ _ d, d; rd64 := λ _ d, (0, d); wr64 := λ _ _ d, d |}.
Definition img_example (k : Z) : list Z := seqZ k 16.
Definition mem_example : mem :=
  list_to_map (flat_map (λ r : Z * list Z, imap (λ i b, (r.1 + Z.of_nat i, b)) r.2)
    [(0xA0000000, img_example 1); (0xA0001000, img_example 101);
     (APP1_START, replicate 16 0); (APP2_START, replicate 16 0)]).
(** [n] cores at power-on, two small applications, stacks as [boot/boot.S] has
    them. *)
Definition boot_example (n : nat) : boot unit := {|
  b_machine := with_kernel (set_infos (replicate n zero_info) (set_handlers (replicate 512 None) kernel_zero))
                 (machine_example 0 0);
  b_mem := mem_example; b_lock := 0; inited_cpu_num := 0;
  b_pcs := Primary :: replicate (n - 1) Off; b_stacks := 0x40100000 :: replicate (n - 1) 0 |}.
Definition run_example (n : nat) : list nat → St (boot unit) unit :=
  boot_run (Z.of_nat n) 0xA0000000 0xA0000010 0xA0001000 0xA0001010 0x40100000 0x40110000 0x40080100
    (λ _ _ _ _, 0) (λ _, 96) 20.

Lemma stacks_example n : (1 ≤ n ≤ 5)%nat → stacks_ok n 0x40100000 0x40110000 (λ _, 96).
Proof. intros Hn. constructor; [done|done|done|by vm_compute|]. intros _. by split. Qed.
Lemma image_example a k dst :
  bytes mem_example a (img_example k) → bytes mem_example dst (replicate 16 0) →
  Forall byte (img_example k) → 0xA0000000 ≤ a →
  app_image mem_example a (a + 16) dst (img_example k).
Proof.
  intros Ha Hd Hb Hle. constructor; [constructor|..]; try done.
  - exact (bytes_mapped _ _ _ Ha).
  - exact (bytes_mapped _ _ _ Hd).
  - exact (bytes_mapped _ _ _ Hd).
Qed.
Lemma powered_on_example :
  powered_on 2 (img_example 1) (img_example 101) 0xA0000000 0xA0000010 0xA0001000 0xA0001010 0x40100000
    (boot_example 2).
Proof.
  assert (Hb : ∀ k, 0 ≤ k → k + 16 ≤ 256 → Forall byte (img_example k)).
  { intros k ??. apply Forall_forall. intros x Hx%elem_of_seqZ. unfold byte. lia. }
  constructor; try done; [cbn; lia|]. constructor; [done|constructor; [done..|by apply Forall_replicate]| |].
  - apply (image_example 0xA0000000); [by vm_compute; repeat split|by vm_compute; repeat split|by apply Hb|done].
  - apply (image_example 0xA0001000); [by vm_compute; repeat split|by vm_compute; repeat split|by apply Hb|done].
Qed.

Lemma boot_correct_witness :
  wp (run_example 2 (concat (replicate 24 [0%nat; 1%nat])))
     (λ _ b', all_idle b' ∧
        ∃ st, machine_runs 2 (b_machine b') st ∧ rr_cur st = [0%nat; 1%nat] ∧
          map frame_start (rr_ctx st) = app_tasks) (boot_example 2).
Proof.
  refine (proj2 (boot_correct 2 (img_example 1) (img_example 101) 0xA0000000 0xA0000010 0xA0001000 0xA0001010
    0x40100000 0x40110000 0x40080100 (λ _ _ _ _, 0) (λ _, 96) 20 [] (replicate 24 [0%nat; 1%nat])
    (boot_example 2) _ _ _ _ powered_on_example _ _ _) _);
    [apply stacks_example; lia|lia|simpl; lia|simpl; lia|constructor| |simpl; lia|done].
  apply Forall_replicate. intros c. rewrite !elem_of_cons, elem_of_nil. lia.
Defined.

(** With three cores, which [smp.c] and the stacks of [boot/boot.S] allow, core 2
    takes for its own a task that was never created: its first interrupt follows a
    null pointer. *)
Lemma third_core_faults :
  match run_example 3 (concat (replicate 36 [0%nat; 1%nat; 2%nat])) (boot_example 3) with
  | Done (_, b) =>
      b_pcs b = [Idle; Idle; Idle] ∧ task_count (m_kernel (b_machine b)) = 2 ∧
      save_cpu_ctx 2 0x1000 (m_kernel (b_machine b)) = Fault
  | _ => False
  end.
Proof. vm_compute. repeat split. Qed.
