(* ===== verification/User.v ===== *)
(** The kernel at work: what happens between two instructions of a task.  The vectors
    of [exception/exception.S] put its registers on the stack, call a handler of
    [exception/exception.c], and load what the handler left there. *)

From S2P Require Import Prelude Config Gic ByteMem Frame Uart Vgic Kernel Sched Keeps Ept Trap Quiet Image Boot Start.

(** * Definitions *)

(** The two vectors a task leaves by: [HANDLE_SYNC] and [HANDLE_IRQ], the same for a
    task at EL0 and for the loop at the end of [main_entry] at EL1. *)
Inductive vector := Sync_vector | Irq_vector.
(** What the kernel finds when core [tr_core] took an exception: the registers, which
    may be anything, the syndrome, and the devices, which may have changed. *)
Record trap (D : Type) := {
  tr_core : nat;
  tr_vector : vector;
  tr_frame : trap_frame;
  tr_esr : Z;
  tr_dev : D;
}.
Arguments tr_core {D} t. Arguments tr_vector {D} t. Arguments tr_frame {D} t.
Arguments tr_esr {D} t. Arguments tr_dev {D} t.
(** What it leaves: the task the core goes on with, the registers it gets, and the
    devices. *)
Record resumed (D : Type) := { rs_task : nat; rs_frame : trap_frame; rs_dev : D }.
Arguments rs_task {D} r. Arguments rs_frame {D} r. Arguments rs_dev {D} r.

Definition set_esr_el1 (esr : Z) (s : sysregs) : sysregs :=
  {| esr_el1 := esr; esr_el2 := esr_el2 s; esr_el3 := esr_el3 s; far_el2 := far_el2 s;
     hpfar_el2 := hpfar_el2 s; cntfrq_el0 := cntfrq_el0 s; cntp_tval_el0 := cntp_tval_el0 s;
     cntp_ctl_el0 := cntp_ctl_el0 s |}.

Section user.
Context {D : Type} `{Device D}.
(** The number of cores, the context switch of the assembly, which this path does not
    use, the fuel of the loops on the serial port, and the stack of each core after
    [SAVE_REGS]. *)
Context (SMP_NUM : Z) (switch_context : nat → nat → St (kernel D) unit) (fuel : nat) (sp : nat → Z).

(** The exception, and the stores of [SAVE_REGS] before the call of the handler. *)
Definition take_trap (e : trap D) (s : machine D) : machine D :=
  let k := m_kernel s in
  let k := set_mach {| dev := tr_dev e; log := log (k_mach k); irq_nr := irq_nr (k_mach k) |} k in
  let k := set_frames (<[sp (tr_core e) := tr_frame e]> (frames k)) k in
  Build_machine k (m_ept s) (set_esr_el1 (tr_esr e) (m_regs s)).

(** The call of the handler with the stack pointer in [x0]. *)
Definition call_vector (e : trap D) : St (machine D) unit :=
  match tr_vector e with
  | Sync_vector => handle_sync_exception fuel (tr_core e) (sp (tr_core e))
  | Irq_vector => handle_irq_exception SMP_NUM switch_context fuel (tr_core e) (sp (tr_core e))
  end.

(** The path from the vector to [eret]. *)
Definition user_trap (e : trap D) : St (machine D) (resumed D) :=
  modify (take_trap e);;
  call_vector e;;
  c ← in_kernel (current (tr_core e));
  f ← in_kernel (frame_at (sp (tr_core e)));
  d ← gets (λ s, dev (k_mach (m_kernel s)));
  mret {| rs_task := c; rs_frame := f; rs_dev := d |}.
Fixpoint user_run (es : list (trap D)) : St (machine D) (list (resumed D)) :=
  match es with
  | [] => mret []
  | e :: es => x ← user_trap e; xs ← user_run es; mret (x :: xs)
  end.

(** * What the tasks see

    The abstract machine: the round robin with the frames of the tasks.  It fails as
    the kernel does: a null entry of a table is a fault, an exception of a class
    without a handler a loop without end. *)

(** The port is read until the flag is clear. *)
Fixpoint wait_port (n : nat) (mask : Z) (d : D) : option D :=
  match n with
  | O => None
  | S n => let '(v, d) := rd32 UART0_FR d in if truthy (v .& mask) then wait_port n mask d else Some d
  end.
Definition with_port {A} (mask : Z) (d : D) (g : D → A) : outcome A :=
  match wait_port fuel mask d with Some d => Done (g d) | None => NoFuel end.

(** A system call: the frame with the result, and the devices. *)
Definition user_syscall (n : Z) (f : trap_frame) (d : D) : outcome (trap_frame * D) :=
  if n =? SYS_putc then
    with_port (1 << 5) d (λ d, (set_reg 0 0 f, wr32 (u8 (default 0 (r f !! 0%nat))) UART0_DR d))
  else if n =? SYS_getc then
    with_port (1 << 4) d (λ d, (set_reg 0 (u8 (fst (rd32 UART0_DR d))) f, snd (rd32 UART0_DR d)))
  else if n =? SYS_debug then Done (set_reg 0 0 f, d)
  else Fault.

(** The frame, the devices and the round robin an exception leaves. *)
Definition user_handle (e : trap D) (st : rr) : outcome (trap_frame * D * rr) :=
  let c := default 0%nat (rr_cur st !! tr_core e) in
  let kept := {| rr_cur := rr_cur st; rr_ctx := <[c := tr_frame e]> (rr_ctx st); rr_left := rr_left st |} in
  match tr_vector e with
  | Sync_vector =>
      if exception_class (tr_esr e) =? 0x15 then
        match user_syscall (default 0 (r (tr_frame e) !! 8%nat)) (tr_frame e) (tr_dev e) with
        | Done (f, d) => Done (f, d, kept)
        | Fault => Fault
        | NoFuel => NoFuel
        end
      else if exception_class (tr_esr e) =? 0x17 then Done (tr_frame e, tr_dev e, kept)
      else NoFuel
  | Irq_vector =>
      if gic_iar_irqnr (fst (rd32 GICC_IAR (tr_dev e))) =? TIMER_VECTOR then
        let '(f, st) := rr_tick (tr_core e) (tr_frame e) st in Done (f, after_tick false (tr_dev e), st)
      else Fault
  end.
Definition user_step (e : trap D) : St rr (resumed D) := λ st,
  match user_handle e st with
  | Done (f, d, st) => Done ({| rs_task := default 0%nat (rr_cur st !! tr_core e); rs_frame := f; rs_dev := d |}, st)
  | Fault => Fault
  | NoFuel => NoFuel
  end.
Fixpoint user_spec (es : list (trap D)) : St rr (list (resumed D)) :=
  match es with
  | [] => mret []
  | e :: es => x ← user_step e; xs ← user_spec es; mret (x :: xs)
  end.

(** The kernel between two exceptions: the scheduler's state, the timer's handler and
    no other, the console not switched to the interrupt driver. *)
Definition console_view (k : kernel D) := (uart_op (k_uart k), early_lock (k_uart k), g_handler_vec k).
(** How many registers the saved frames have. *)
Definition frame_lens (k : kernel D) : list nat := (λ x, length (r (ctx x))) <$> g_cpu_dec k.
Definition timer_only : list (option handler) := <[30%nat := Some HTimer]> (replicate 512 None).
Definition console_ready (k : kernel D) : Prop := console_view k = (Some EarlyOps, false, timer_only).
Record user_ready (s : machine D) (st : rr) : Prop := {
  ur_runs : machine_runs SMP_NUM s st;
  ur_console : console_ready (m_kernel s);
}.
(** The exceptions: any, of one of the cores. *)
Definition trap_ok (e : trap D) : Prop := Z.of_nat (tr_core e) < SMP_NUM ∧ frame_ok (tr_frame e).
End user.

(** * Programs that do what others do

    [m] over [S] does what [m'] over [T] does, from states the relation has to states
    it has, with the same results and the same failures. *)

Section tracks.
Context {S T : Type} (R : S → T → Prop).

Definition tracks {A} (m : St S A) (m' : St T A) : Prop := ∀ s t, R s t →
  match m' t with
  | Done (a, t') => wp m (λ b s', b = a ∧ R s' t') s
  | Fault => m s = Fault
  | NoFuel => m s = NoFuel
  end.

Lemma tracks_ret {A} (a : A) : tracks (mret a) (mret a).
Proof. intros s t HR. by split. Qed.
Lemma tracks_bind {A B} (m : St S A) (m' : St T A) (g : A → St S B) (g' : A → St T B) :
  tracks m m' → (∀ a, tracks (g a) (g' a)) → tracks (m ≫= g) (m' ≫= g').
Proof.
  intros Hm Hg s t HR. specialize (Hm s t HR). unfold mbind, St_bind in *.
  destruct (m' t) as [[a t1]| |]; [|by rewrite Hm..]. apply wp_inv in Hm as (b & s1 & Hs & -> & HR1).
  specialize (Hg a s1 t1 HR1). unfold wp in *. rewrite Hs. exact Hg.
Qed.
End tracks.

(** * The serial port *)

Section port.
Context {D : Type} `{Device D} (fuel : nat).

Lemma wait_flag_eq n mask (c : con) :
  wait_flag n mask c =
    match wait_port n mask (dev (fst c)) with
    | Some d => Done (tt, (Build_mach d (log (fst c)) (irq_nr (fst c)), snd c))
    | None => NoFuel
    end.
Proof.
  revert c. induction n as [|n IH]; intros [m u]; [done|]. cbn [wait_flag wait_port fst].
  unfold mmio_read, Uart.on_mach, on_part, read32, mbind, St_bind. cbn [fst snd].
  destruct (rd32 UART0_FR (dev m)) as [v d]. destruct (truthy (v .& mask)); [|done].
  fold (@con D). rewrite IH. done.
Qed.
Lemma putc_eq c (s : con) :
  uart_op (snd s) = Some EarlyOps → early_lock (snd s) = false →
  putc fuel c s =
    match wait_port fuel (1 << 5) (dev (fst s)) with
    | Some d => Done (tt, (Build_mach (wr32 (u32 (u8 c)) UART0_DR d) (log (fst s)) (irq_nr (fst s)),
                           set_early_lock false (set_early_lock true (snd s))))
    | None => NoFuel
    end.
Proof.
  intros Ho Hl. destruct s as [m u]. unfold putc, on_uart, mbind, St_bind, on_part, gets. cbn [fst snd] in *.
  rewrite Ho. unfold uart_early_putc, mbind, St_bind. rewrite wait_flag_eq. cbn [fst snd].
  destruct (wait_port fuel (1 << 5) (dev m)) as [d|]; [|done].
  unfold on_uart, on_part, take_early_lock. cbn [fst snd]. rewrite Hl. done.
Qed.
Lemma getc_eq (s : con) :
  uart_op (snd s) = Some EarlyOps →
  getc fuel s =
    match wait_port fuel (1 << 4) (dev (fst s)) with
    | Some d => Done (u8 (fst (rd32 UART0_DR d)),
                      (Build_mach (snd (rd32 UART0_DR d)) (log (fst s)) (irq_nr (fst s)), snd s))
    | None => NoFuel
    end.
Proof.
  intros Ho. destruct s as [m u]. unfold getc, on_uart, mbind, St_bind, on_part, gets. cbn [fst snd] in *.
  rewrite Ho. unfold uart_early_getc, mbind, St_bind. rewrite wait_flag_eq. cbn [fst snd].
  destruct (wait_port fuel (1 << 4) (dev m)) as [d|]; [|done].
  unfold mmio_read, Uart.on_mach, on_part, read32. cbn [fst snd dev]. by destruct (rd32 UART0_DR d).
Qed.
End port.

(** * The handlers *)

Section handlers.
Context {D : Type} `{Device D}.
Context (SMP_NUM : Z) (switch_context : nat → nat → St (kernel D) unit) (fuel : nat) (sp : nat → Z).

(** The machine a handler finds. *)
Record handler_entry (s : machine D) (e : trap D) (st : rr) (c : nat) (x : cpu) : Prop := {
  en_ready : user_ready SMP_NUM s st;
  en_cur : rr_cur st !! tr_core e = Some c;
  en_running : running (m_kernel s) (tr_core e) c x;
  en_frame : frames (m_kernel s) !! sp (tr_core e) = Some (tr_frame e);
  en_ok : frame_ok (tr_frame e);
  en_dev : dev (k_mach (m_kernel s)) = tr_dev e;
  en_esr : esr_el1 (m_regs s) = tr_esr e;
}.
(** And the one it leaves. *)
Definition leaves (e : trap D) (s : machine D) (y : trap_frame * D * rr) : Prop :=
  user_ready SMP_NUM s y.2 ∧ frames (m_kernel s) !! sp (tr_core e) = Some y.1.1 ∧ dev (k_mach (m_kernel s)) = y.1.2.

Section entered.
Context (s : machine D) (e : trap D) (st : rr) (c : nat) (x : cpu) (He : handler_entry s e st c x).

Let saved : kernel D := save_frame c x (sp (tr_core e)) (tr_frame e) (m_kernel s).
Let kept : rr := {| rr_cur := rr_cur st; rr_ctx := <[c := tr_frame e]> (rr_ctx st); rr_left := rr_left st |}.

(** The kernel after a handler that saved the frame and did nothing else to the
    tasks. *)
Lemma saved_leaves (k : kernel D) rg f d :
  sched_view k = sched_view saved → console_ready k →
  frames k !! sp (tr_core e) = Some f → dev (k_mach k) = d →
  leaves e (Build_machine k (m_ept s) rg) (f, d, kept).
Proof using He.
  intros Hv Hc Hf Hd. destruct He as [[((Hk & Hl & Hn) & Hvec) _] Hcur Hrun Hfr _ _ _].
  pose proof (save_cpu_ctx_ok (tr_core e) c (sp (tr_core e)) _ _ _ Hk Hcur Hfr) as Hs.
  unfold wp in Hs. rewrite (save_cpu_ctx_eq _ c x _ _ _ Hrun Hfr) in Hs. destruct Hs as (_ & Hl' & Hs).
  fold saved in Hl', Hs. fold kept in Hs. split_and!; [|exact Hf|exact Hd]. split; [|exact Hc]. split.
  - split_and!; cbn [m_kernel snd]; [by eapply sched_repr_view| |exact Hn].
    destruct (sched_view_inv _ _ Hv) as (_ & _ & ->). rewrite Hl'. exact Hl.
  - cbn [m_kernel]. unfold console_ready, console_view in Hc. injection Hc as _ _ ->. done.
Qed.

Lemma syscall_eq n func :
  exception_class (tr_esr e) = 0x15 → r (tr_frame e) !! 8%nat = Some n → syscall_table n = Some (Some func) →
  handle_sync_exception fuel (tr_core e) (sp (tr_core e)) s =
    (ret ← run_syscall fuel func (sp (tr_core e));
     f ← in_kernel (frame_at (sp (tr_core e)));
     in_kernel (store_frame (sp (tr_core e)) (set_reg 0 (u64 ret) f))) (with_kernel saved s).
Proof using He.
  intros Hec Hn Hfunc. destruct He as [_ _ Hrun Hf _ _ Hesr]. unfold handle_sync_exception.
  unfold gets, mbind at 1, St_bind at 1. rewrite Hesr, Hec. change (0x15 =? 0x15) with true. cbn beta iota zeta.
  unfold mbind at 1, St_bind at 1, in_kernel at 1, on_part at 1.
  rewrite (save_cpu_ctx_eq _ c x _ (tr_frame e)) by done. fold saved. fold (with_kernel saved s).
  assert (Harg : argument (sp (tr_core e)) 8 (with_kernel saved s) = Done (n, with_kernel saved s)).
  { pose proof (wp_argument (sp (tr_core e)) 8 n (tr_frame e) (λ a s', a = n ∧ s' = with_kernel saved s)
      (with_kernel saved s) Hf Hn ltac:(done)) as Hw. by apply wp_inv in Hw as (? & ? & ? & -> & ->). }
  unfold mbind at 1, St_bind at 1. rewrite Harg. rewrite Hfunc. done.
Qed.
(** The argument of a system call, and its result. *)
Lemma argument_eq i v :
  r (tr_frame e) !! i = Some v → argument (sp (tr_core e)) i (with_kernel saved s) = Done (v, with_kernel saved s).
Proof using He.
  intros Hv. pose proof (wp_argument (sp (tr_core e)) i v (tr_frame e) (λ a s', a = v ∧ s' = with_kernel saved s)
      (with_kernel saved s) (en_frame _ _ _ _ _ He) Hv ltac:(done)) as Hw. by apply wp_inv in Hw as (? & ? & ? & -> & ->).
Qed.
Lemma result_ok v m u :
  (uart_op u, early_lock u) = (Some EarlyOps, false) → u64 v = v →
  wp (f ← in_kernel (frame_at (sp (tr_core e)));
      in_kernel (store_frame (sp (tr_core e)) (set_reg 0 (u64 v) f)))
     (λ _ s', leaves e s' (set_reg 0 v (tr_frame e), dev m, kept)) (with_kernel (set_uart u (set_mach m saved)) s).
Proof using He.
  intros Hu Hv. pose proof He as [[_ Hc] _ _ Hf _ _ _]. do 2 wp_step. eapply wp_frame_at; [exact Hf|].
  do 2 wp_step. eapply wp_store_frame; [exact Hf|]. rewrite Hv.
  apply saved_leaves; [done| |by apply lookup_insert_eq|done].
  unfold console_ready, console_view in *. cbn. injection Hc as _ _ ->. by injection Hu as -> ->.
Qed.
End entered.
End handlers.

Section run.
Context {D : Type} `{Device D}.
Context (SMP_NUM : Z) (switch_context : nat → nat → St (kernel D) unit) (fuel : nat) (sp : nat → Z).

(** What a handler does about what the abstract machine says. *)
Definition handler_does (e : trap D) (m : St (machine D) unit) (s : machine D) (o : outcome (trap_frame * D * rr)) : Prop :=
  match o with
  | Done y => wp m (λ _ s', leaves SMP_NUM sp e s' y) s
  | Fault => m s = Fault
  | NoFuel => m s = NoFuel
  end.

Section entered.
Context (s : machine D) (e : trap D) (st : rr) (c : nat) (x : cpu) (He : handler_entry SMP_NUM sp s e st c x).

Lemma syscall_does n :
  exception_class (tr_esr e) = 0x15 → r (tr_frame e) !! 8%nat = Some n →
  let kept := {| rr_cur := rr_cur st; rr_ctx := <[c := tr_frame e]> (rr_ctx st); rr_left := rr_left st |} in
  handler_does e (handle_sync_exception fuel (tr_core e) (sp (tr_core e))) s
    match user_syscall fuel n (tr_frame e) (tr_dev e) with
    | Done (f, d) => Done (f, d, kept) | Fault => Fault | NoFuel => NoFuel
    end.
Proof using He.
  intros Hec Hn kept. pose proof He as [[_ Hc] Hcur Hrun Hf Hok Hd Hesr]. unfold user_syscall, with_port.
  assert (Hu : uart_op (k_uart (m_kernel s)) = Some EarlyOps ∧ early_lock (k_uart (m_kernel s)) = false).
  { unfold console_ready, console_view in Hc. by injection Hc as -> -> _. }
  destruct Hu as [Ho Hl]. destruct (frame_reg (tr_frame e) 0 Hok ltac:(lia)) as [a Ha].
  destruct (frame_reg (tr_frame e) 1 Hok ltac:(lia)) as [b Hb]. rewrite Ha. cbn [default from_option id].
  destruct (u8_small_words a) as (_ & H32 & H8).
  destruct (Z.eqb_spec n SYS_putc) as [->|N0]; [|destruct (Z.eqb_spec n SYS_getc) as [->|N1];
    [|destruct (Z.eqb_spec n SYS_debug) as [->|N2]]].
  - pose proof (syscall_eq SMP_NUM fuel sp s e st c x He _ Putc Hec Hn eq_refl) as E.
    pose proof (putc_eq fuel (u8 a) (k_mach (m_kernel s), k_uart (m_kernel s)) Ho Hl) as Ep. cbn [fst snd] in Ep.
    rewrite Hd, H8, H32 in Ep. unfold run_syscall, sys_putc in E.
    unfold mbind at 1, St_bind at 1 in E. unfold mbind at 1, St_bind at 1 in E. rewrite (argument_eq SMP_NUM sp s e st c x He 0 a Ha) in E.
    unfold mbind at 1, St_bind at 1 in E.
    unfold in_kernel at 1, kcon, on_part at 1 2 in E. cbn [m_kernel with_kernel k_mach k_uart set_cpus save_frame] in E.
    fold (@con D) in E. rewrite Ep in E. destruct (wait_port fuel (1 << 5) (tr_dev e)) as [d|]; [|exact E].
    unfold handler_does, wp. rewrite E. eapply (result_ok SMP_NUM sp s e st c x He 0); [|done]. cbn. by rewrite Ho.
  - pose proof (syscall_eq SMP_NUM fuel sp s e st c x He _ Getc Hec Hn eq_refl) as E.
    pose proof (getc_eq fuel (k_mach (m_kernel s), k_uart (m_kernel s)) Ho) as Ep. cbn [fst snd] in Ep.
    rewrite Hd in Ep. unfold run_syscall, sys_getc in E. unfold mbind at 1, St_bind at 1 in E.
    unfold in_kernel at 1, kcon, on_part at 1 2 in E. cbn [m_kernel with_kernel k_mach k_uart set_cpus save_frame] in E.
    fold (@con D) in E. rewrite Ep in E. destruct (wait_port fuel (1 << 4) (tr_dev e)) as [d|]; [|exact E].
    unfold handler_does, wp. rewrite E. eapply (result_ok SMP_NUM sp s e st c x He); [cbn; by rewrite Ho, Hl|].
    apply u8_small_words.
  - pose proof (syscall_eq SMP_NUM fuel sp s e st c x He _ Trap.Debug Hec Hn eq_refl) as E.
    unfold run_syscall, sys_debug in E. unfold mbind at 1, St_bind at 1 in E. unfold mbind at 1, St_bind at 1 in E.
    rewrite (argument_eq SMP_NUM sp s e st c x He 0 a Ha) in E. unfold mbind at 1, St_bind at 1 in E.
    rewrite (argument_eq SMP_NUM sp s e st c x He 1 b Hb) in E.
    unfold handler_does, wp. rewrite E. rewrite <- Hd.
    eapply (result_ok SMP_NUM sp s e st c x He 0 {| dev := _; log := _; irq_nr := _ |} (k_uart (m_kernel s)));
      [by rewrite Ho, Hl|done].
  - unfold handler_does. eapply svc_fault; [constructor; [exact Hrun|exact Hf|exact Hok|by rewrite Hesr|exact Hn]|].
    rewrite !not_elem_of_cons. split_and!; [done..|apply not_elem_of_nil].
Qed.

Lemma timer_only_null i : i ≠ 30%nat → timer_only !! i = None ∨ timer_only !! i = Some None.
Proof.
  intros Hi. unfold timer_only. rewrite list_lookup_insert_ne by done.
  destruct (decide (i < 512)%nat); [right; by apply lookup_replicate_2|left; apply lookup_replicate_None; lia].
Qed.

Lemma call_vector_does :
  sp (tr_core e) ≠ NULL → Z.of_nat (tr_core e) < SMP_NUM →
  handler_does e (call_vector SMP_NUM switch_context fuel sp e) s (user_handle fuel e st).
Proof using He.
  intros Hsp Hcore. pose proof He as [[Hruns Hc] Hcur Hrun Hf Hok Hd Hesr]. unfold call_vector, user_handle. rewrite Hcur.
  cbn [default from_option id]. destruct (tr_vector e).
  - destruct (Z.eqb_spec (exception_class (tr_esr e)) 0x15) as [Hec|N1]; [|destruct (Z.eqb_spec (exception_class (tr_esr e)) 0x17) as [Hec|N2]].
    + destruct (frame_reg (tr_frame e) 8 Hok ltac:(lia)) as [n Hn]. rewrite Hn. by apply syscall_does.
    + unfold handler_does, handle_sync_exception. do 2 wp_step. rewrite Hesr, Hec. cbn [Z.eqb Pos.eqb].
      eapply wp_done; [by apply (save_cpu_ctx_eq _ c x _ (tr_frame e))|]. unfold mprint. wp_step. apply wp_print.
      eapply (saved_leaves SMP_NUM sp s e st c x He); [done|exact Hc|exact Hf|exact Hd].
    + apply (unhandled_exceptions_hang fuel (tr_core e) (sp (tr_core e)) c x (tr_frame e) s);
        [by constructor|]. rewrite Hesr, !not_elem_of_cons. split_and!; [done|done|apply not_elem_of_nil].
  - destruct (Z.eqb_spec (gic_iar_irqnr (fst (rd32 GICC_IAR (tr_dev e)))) TIMER_VECTOR) as [Hv|Hv].
    + destruct (rr_tick (tr_core e) (tr_frame e) st) as [f st'] eqn:Ht. unfold handler_does.
      eapply wp_mono.
      { apply (timer_interrupt_ok SMP_NUM switch_context fuel false (tr_core e) (sp (tr_core e)) (tr_frame e) s st); try done.
        unfold timer_pending. by rewrite Hd. }
      rewrite Ht. cbn [fst snd]. intros [] s' (Hr & Hfs & _ & Hout & Hdev). split_and!; cbn [fst snd].
      * split; [exact Hr|]. unfold outside_sched in Hout. injection Hout as Hu Hh _.
        unfold console_ready, console_view in *. by rewrite Hu, Hh.
      * rewrite Hfs. apply lookup_insert_eq.
      * unfold dev_view in Hdev. by rewrite Hdev, Hd.
    + unfold handler_does. destruct (rd32 GICC_IAR (tr_dev e)) as [v d] eqn:Hrd. cbn [fst] in Hv. rewrite <- Hd in Hrd.
      pose proof (irq_dispatch_eq SMP_NUM switch_context fuel false _ _ c x _ v d s Hrun Hf Hok Hrd) as E.
      unfold irq_entry in E. rewrite E.
      assert (g_handler_vec (m_kernel s) = timer_only) as ->.
      { unfold console_ready, console_view in Hc. by injection Hc as _ _ ->. }
      destruct (timer_only_null (Z.to_nat (gic_iar_irqnr v))) as [->| ->]; [|done..].
      unfold TIMER_VECTOR in Hv. lia.
Qed.
End entered.

Lemma user_trap_ok e :
  (∀ core, sp core ≠ NULL) → trap_ok SMP_NUM e →
  tracks (user_ready SMP_NUM) (user_trap SMP_NUM switch_context fuel sp e) (user_step fuel e).
Proof using Type.
  intros Hsp [Hcore Hok] s st Hr. pose proof Hr as [((Hk & Hl & Hn) & Hvec) Hc].
  destruct (lookup_lt_is_Some_2 (rr_cur st) (tr_core e)) as [c Hcur]; [lia|].
  set (s1 := take_trap sp e s). assert (Hk1 : sched_repr (m_kernel s1) st) by (by apply sched_repr_frames, sched_repr_mach).
  destruct (repr_running _ _ _ _ Hk1 Hcur) as [x Hx].
  assert (He : handler_entry SMP_NUM sp s1 e st c x).
  { constructor; [|exact Hcur|exact Hx|apply lookup_insert_eq|exact Hok|done|done].
    split; [by split; [split_and!|]|exact Hc]. }
  pose proof (call_vector_does s1 e st c x He (Hsp _) Hcore) as Hv. unfold handler_does in Hv.
  unfold user_step, user_trap.
  destruct (user_handle fuel e st) as [[[f d] st']| |];
    [|by unfold modify, mbind, St_bind; fold s1; rewrite Hv..].
  do 2 wp_step. fold s1. wp_step. eapply wp_mono; [exact Hv|]. intros [] s' (Hr' & Hf' & Hd'). cbn [fst snd] in *.
  pose proof Hr' as [((Hk' & Hl' & Hn') & Hvec') Hc'].
  destruct (lookup_lt_is_Some_2 (rr_cur st') (tr_core e)) as [c' Hcur']; [lia|].
  do 2 wp_step. eapply wp_current; [exact Hk'|exact Hcur'|]. do 2 wp_step. eapply wp_frame_at; [exact Hf'|].
  do 3 wp_step. rewrite Hcur'. split; [by rewrite <- Hd'|by destruct s'].
Qed.
Lemma user_run_ok es :
  (∀ core, sp core ≠ NULL) → Forall (trap_ok SMP_NUM) es →
  tracks (user_ready SMP_NUM) (user_run SMP_NUM switch_context fuel sp es) (user_spec fuel es).
Proof using Type.
  intros Hsp Hes. induction Hes as [|e es He _ IH]; cbn [user_run user_spec]; [apply tracks_ret|].
  apply tracks_bind; [by apply user_trap_ok|]. intros y. apply tracks_bind; [exact IH|]. intros ys. apply tracks_ret.
Qed.
End run.

(** * The console at the start *)

(** The steps of a program that ended. *)
Lemma bind_done {S A B} (m : St S A) (f : A → St S B) s b s' :
  (m ≫= f) s = Done (b, s') → ∃ a s1, m s = Done (a, s1) ∧ f a s1 = Done (b, s').
Proof. unfold mbind, St_bind. destruct (m s) as [[a s1]| |]; [|done..]. eauto. Qed.

Section keeps_part.
Context {S T V : Type} (view : S → V) (part : T → S) (put : S → T → T).

(** A program on a part keeps what it keeps of the part. *)
Lemma keeps_on_part {A} (m : St S A) :
  (∀ s t, part (put s t) = s) → keeps view m → keeps (view ∘ part) (on_part part put m).
Proof.
  intros Hp Hm t a t'. unfold on_part. destruct (m (part t)) as [[b s]| |] eqn:E; [|done..].
  intros [= -> <-]. cbn. rewrite Hp. by eapply Hm.
Qed.
End keeps_part.

Section boot_console.
Context {D : Type} `{Device D}.
Context (SMP_NUM : Z).
Context (app1_bin_start app1_bin_end app2_bin_start app2_bin_end : Z).
Context (stack_top stack_top_second second_entry : Z).
Context (psci : Z → Z → Z → Z → Z) (depth : nat → Z) (fuel : nat).

Definition boot_view (k : kernel D) := (console_view k, frame_lens k).
Abbreviation mview := (boot_view ∘ m_kernel (D := D)).
Abbreviation bview := (mview ∘ b_machine (D := D)).
#[local] Instance boot_view_mach : MachBlind boot_view.
Proof. by repeat constructor. Qed.

Lemma keeps_in_machine {A} (m : St (machine D) A) : keeps mview m → keeps bview (in_machine m).
Proof using Type. by apply keeps_on_part. Qed.
Lemma keeps_boot_kernel {A} (m : St (kernel D) A) : keeps boot_view m → keeps mview (in_kernel m).
Proof using Type. by apply keeps_on_part. Qed.
Lemma keeps_boot_mach {A} (m : St (mach D) A) : keeps mview (Trap.on_mach m).
Proof using Type.
  apply keeps_boot_kernel. intros k a k'. unfold kmach, on_part. destruct (m (k_mach k)) as [[b c]| |]; [|done..].
  intros [= -> <-]. apply blind_mach.
Qed.
Lemma keeps_mprint e : keeps mview (mprint e).
Proof using Type. apply keeps_boot_mach. Qed.
Lemma keeps_bprint e : keeps bview (bprint e).
Proof using Type. apply keeps_in_machine, keeps_mprint. Qed.
Lemma keeps_goto i p : keeps bview (goto i p).
Proof using Type. by apply keeps_modify. Qed.
Lemma keeps_pc_at i : keeps bview (pc_at i).
Proof using Type. unfold pc_at. keeps. Qed.
Lemma keeps_put (g : boot D → boot D) :
  (∀ b, bview (g b) = bview b) → ∀ b a b', put (g b) b = Done (a, b') → bview b' = bview b.
Proof using Type. intros Hg b a b' [= _ <-]. apply Hg. Qed.
Hint Resolve keeps_boot_mach keeps_mprint keeps_bprint keeps_goto keeps_pc_at : keeps.

(** A frame keeps its length. *)
Lemma keeps_lens_update_cpu i g :
  (∀ x, length (r (ctx (g x))) = length (r (ctx x))) → keeps boot_view (update_cpu i g).
Proof using Type.
  intros Hg k a k'. unfold update_cpu, cpu_at, mbind, St_bind, get, deref, modify. cbn.
  destruct (g_cpu_dec k !! i) as [x|] eqn:Hx; [|done]. cbn. intros [= _ <-].
  unfold boot_view, frame_lens. cbn. f_equal. rewrite list_fmap_insert, Hg. apply list_insert_id.
  by rewrite list_lookup_fmap, Hx.
Qed.
Lemma keeps_create_task_lens f st : keeps boot_view (create_task f st).
Proof using Type.
  unfold create_task, new_task. keeps; apply keeps_lens_update_cpu; done.
Qed.
Hint Resolve keeps_create_task_lens : keeps.

Lemma keeps_timer_start : keeps mview (timer_start (D := D)).
Proof using Type. unfold timer_start, write_cntp_tval_el0, write_cntp_ctl_el0. keeps. Qed.
Lemma keeps_timer_enable : keeps mview (timer_enable (D := D)).
Proof using Type. unfold timer_enable. keeps. Qed.
Hint Resolve keeps_timer_start keeps_timer_enable : keeps.

Lemma keeps_thread_info_init ti fl id :
  keeps bview (thread_info_init SMP_NUM stack_top stack_top_second ti fl id).
Proof using Type. unfold thread_info_init. keeps. apply keeps_in_machine, keeps_boot_kernel. keeps. Qed.
Hint Resolve keeps_thread_info_init : keeps.

Lemma keeps_cpu_on c e x : keeps bview (cpu_on second_entry c e x).
Proof using Type.
  intros s u s'. unfold cpu_on, mbind, St_bind, get, put, mret, St_ret, fault.
  destruct (b_pcs s !! Z.to_nat c) as [[]|]; try (intros E; by simplify_eq).
  destruct (e =? second_entry); intros E; by simplify_eq.
Qed.
Hint Resolve keeps_cpu_on : keeps.
Lemma keeps_hvc f a b c : keeps bview (hvc_call second_entry psci f a b c).
Proof using Type. unfold hvc_call. keeps. Qed.
Lemma keeps_copy_app from to e : keeps bview (copy_app fuel from to e).
Proof using Type.
  unfold copy_app. intros b a b'. unfold in_loader, on_part.
  destruct (copy_image fuel "app image" from to e (b_machine b, b_mem b)) as [[x [s m]]| |] eqn:E; [|done..].
  intros [= -> <-]. cbn. revert E.
  assert (Hk : keeps (mview ∘ fst (B := mem)) (copy_image fuel "app image" from to e)).
  { assert (Hp : ∀ l, keeps (mview ∘ fst (B := mem)) (lprint (D := D) l)).
    { intros l. apply keeps_on_part; [done|]. apply keeps_mprint. }
    assert (Hm : ∀ A (p : St mem A), keeps (mview ∘ fst (B := mem)) (Image.on_mem (D := D) p)).
    { intros A p l z l'. unfold Image.on_mem, on_part. destruct (p _) as [[? ?]| |]; [|done..]. by intros [= _ <-]. }
    unfold copy_image. keeps. }
  intros E. exact (Hk _ _ _ E).
Qed.
Hint Resolve keeps_hvc keeps_copy_app : keeps.

(** [kernel_main] chooses the early driver, frees its lock, and installs the handler
    of the timer. *)
Lemma io_early_init_console (b b' : boot D) u :
  in_machine (in_kernel (kcon io_early_init)) b = Done (u, b') →
  bview b' = (Some EarlyOps, false, (bview b).1.2, (bview b).2).
Proof using Type. by intros [= _ <-]. Qed.
Lemma timer_init_console (b b' : boot D) u :
  in_machine timer_init b = Done (u, b') →
  bview b' = ((bview b).1.1, <[30%nat := Some HTimer]> (bview b).1.2, (bview b).2).
Proof using Type.
  assert (Hs : ∀ s s' v, timer_init s = Done (v, s') → mview s' = ((mview s).1.1, <[30%nat := Some HTimer]> (mview s).1.2, (mview s).2)).
  { intros s s' v E. unfold timer_init in E. apply bind_done in E as (x & s1 & E1 & E).
    apply bind_done in E as (y & s2 & E2 & E). rewrite (keeps_timer_enable _ _ _ E), <- (keeps_timer_start _ _ _ E1).
    revert E2. unfold in_kernel, on_part, irq_install, mbind, St_bind, get. cbn beta iota.
    destruct ((0 <=? TIMER_VECTOR) && _); [|done]. by intros [= _ <-]. }
  unfold in_machine, on_part. destruct (timer_init (b_machine b)) as [[v s']| |] eqn:E; [|done..].
  intros [= _ <-]. exact (Hs _ _ _ E).
Qed.
Lemma kernel_main_begin_console (b b' : boot D) u :
  kernel_main_begin b = Done (u, b') →
  let h := (bview b).1.2 in h = replicate 512 None ∨ h = timer_only →
  bview b' = (Some EarlyOps, false, timer_only, (bview b).2).
Proof using Type.
  intros E h Hh. unfold kernel_main_begin in E.
  apply bind_done in E as (? & b1 & E1 & E). apply bind_done in E as (? & b2 & E2 & E).
  apply bind_done in E as (? & b3 & E3 & E). apply bind_done in E as (? & b4 & E4 & E).
  apply bind_done in E as (? & b5 & E5 & E). apply bind_done in E as (? & b6 & E6 & E).
  transitivity (bview b6); [by injection E as _ <-|]. rewrite (keeps_bprint _ _ _ _ E6).
  rewrite (timer_init_console _ _ _ E5).
  rewrite (keeps_in_machine _ (keeps_boot_mach _) _ _ _ E4), (keeps_in_machine _ (keeps_boot_mach _) _ _ _ E3).
  rewrite (io_early_init_console _ _ _ E2), (keeps_bprint _ _ _ _ E1). cbn [fst snd]. fold h.
  destruct Hh as [-> | ->]; [done|]. unfold timer_only. by rewrite list_insert_insert_eq.
Qed.

(** Before core 0's first step, and after it. *)
Definition console_boot (lens : list nat) (b : boot D) : Prop :=
  ((bview b).1.2 = replicate 512 None ∧ (bview b).2 = lens ∧ ∀ i q, b_pcs b !! i = Some q → q = Primary ∨ q = Off) ∨
  bview b = (Some EarlyOps, false, timer_only, lens).

Abbreviation step := (boot_step SMP_NUM app1_bin_start app1_bin_end app2_bin_start app2_bin_end
  stack_top stack_top_second second_entry psci depth fuel).
Lemma keeps_main_entry_begin c :
  keeps bview (main_entry_begin app1_bin_start app1_bin_end app2_bin_start app2_bin_end fuel c).
Proof using Type. unfold main_entry_begin. keeps. apply keeps_in_machine, keeps_boot_kernel. keeps. Qed.
Lemma keeps_second_begin c : keeps bview (second_kernel_begin (D := D) c).
Proof using Type.
  unfold second_kernel_begin, timer_init_second. keeps; apply keeps_in_machine; keeps.
Qed.
Lemma keeps_start_begin : keeps bview (start_begin SMP_NUM stack_top stack_top_second).
Proof using Type. unfold start_begin. keeps. Qed.
Hint Resolve keeps_main_entry_begin keeps_second_begin keeps_start_begin : keeps.

Lemma keeps_put_state (b0 : boot D) (s : boot D) a s' : put b0 s = Done (a, s') → s' = b0.
Proof using Type. by intros [= _ <-]. Qed.

(** The rest of a step, from any place but [kernel_main]. *)
Lemma step_keeps_console i b u b' q :
  b_pcs b !! i = Some q → q ≠ Primary → step i b = Done (u, b') → bview b' = bview b.
Proof using Type.
  intros Hq Hne E. unfold boot_step in E. apply bind_done in E as (p & b1 & E1 & E).
  assert (p = q ∧ b1 = b) as [-> ->].
  { revert E1. unfold pc_at, mbind, St_bind, get, deref. rewrite Hq. by intros [= <- <-]. }
  clear E1. destruct q; try done; revert E.
  all: match goal with
       | |- (get ≫= _) _ = _ → _ => idtac
       | |- ?m ?s = Done (?a, ?s') → _ => assert (Hk : keeps bview m); [|exact (Hk s a s')]
       end.
  all: try solve [keeps].
  - unfold start_call. keeps.
  - unfold start_info. keeps.
  - unfold mbind, St_bind, get, put. by destruct (b_lock b =? 0); intros [= _ <-].
  - by intros [= _ <-].
  - unfold mbind, St_bind, get. by destruct (negb _); intros [= _ <-].
  - unfold core_on_stack. keeps. apply keeps_in_machine, keeps_boot_kernel. keeps.
Qed.

Lemma step_console lens i u b b' : step i b = Done (u, b') → console_boot lens b → console_boot lens b'.
Proof using Type.
  intros E Hb. destruct (b_pcs b !! i) as [q|] eqn:Hq.
  2: { revert E. unfold boot_step, pc_at, mbind, St_bind, get, deref. by rewrite Hq. }
  destruct (decide (q = Primary)) as [->|Hne].
  - right. unfold boot_step in E. apply bind_done in E as (p & b1 & E1 & E).
    assert (p = Primary ∧ b1 = b) as [-> ->].
    { revert E1. unfold pc_at, mbind, St_bind, get, deref. rewrite Hq. by intros [= <- <-]. }
    apply bind_done in E as (? & b2 & E2 & E). apply bind_done in E as (? & b3 & E3 & E).
    rewrite (keeps_goto _ _ _ _ _ E), (keeps_start_begin _ _ _ E3), (kernel_main_begin_console _ _ _ E2).
    + f_equal. destruct Hb as [(_ & Hl & _)|Hb]; [exact Hl|by rewrite Hb].
    + destruct Hb as [(Hh & _)|Hb]; [by left|right; by rewrite Hb].
  - pose proof (step_keeps_console i b u b' q Hq Hne E) as Hv. destruct Hb as [(Hh & Hl & Hp)|Hb].
    + left. destruct (Hp _ _ Hq) as [->| ->]; [done|]. revert E.
      unfold boot_step, pc_at, mbind, St_bind, get, deref. rewrite Hq. by intros [= _ <-].
    + right. exact (eq_trans Hv Hb).
Qed.
Lemma run_console lens cs b :
  console_boot lens b →
  ∀ u b', boot_run SMP_NUM app1_bin_start app1_bin_end app2_bin_start app2_bin_end stack_top stack_top_second
            second_entry psci depth fuel cs b = Done (u, b') → console_boot lens b'.
Proof using Type.
  revert b. induction cs as [|c cs IH]; intros b Hb u b' E; [by injection E as _ <-|].
  cbn [boot_run] in E. apply bind_done in E as (? & b1 & E1 & E). eapply IH; [|exact E]. by eapply step_console.
Qed.
End boot_console.

(** * The kernel from its start on *)

(** What a run gives, without the state it leaves. *)
Definition result {S A} (o : outcome (A * S)) : outcome A :=
  match o with Done (a, _) => Done a | Fault => Fault | NoFuel => NoFuel end.
Lemma tracks_result {S T A} (R : S → T → Prop) (m : St S A) (m' : St T A) s t :
  tracks R m m' → R s t → result (m s) = result (m' t).
Proof.
  intros Hm HR. specialize (Hm s t HR). destruct (m' t) as [[a t']| |]; [|by rewrite Hm..].
  apply wp_inv in Hm as (b & s' & -> & -> & _). done.
Qed.

Section kernel.
Context {D : Type} `{Device D}.
Context (n : nat) (img1 img2 : list Z).
Context (app1_bin_start app1_bin_end app2_bin_start app2_bin_end : Z).
Context (stack_top stack_top_second second_entry : Z).
Context (psci : Z → Z → Z → Z → Z) (depth : nat → Z) (fuel : nat).
Context (switch_context : nat → nat → St (kernel D) unit) (fuel2 : nat) (sp : nat → Z).

(** The cores are through, and the kernel runs the round robin [st]. *)
Record kernel_started (s : machine D) (st : rr) : Prop := {
  ks_ready : user_ready (Z.of_nat n) s st;
  ks_cur : rr_cur st = seq 0 n;
  ks_tasks : map frame_start (rr_ctx st) = app_tasks;
  ks_frames : Forall frame_ok (rr_ctx st);
}.

Abbreviation run := (boot_run (Z.of_nat n) app1_bin_start app1_bin_end app2_bin_start app2_bin_end
  stack_top stack_top_second second_entry psci depth fuel).

(** What the start needs: at most as many cores as tasks, images that fit, no
    handlers, a firmware that starts the cores, and time for every core. *)
Record starts (b : boot D) (rs : list (list nat)) : Prop := {
  sk_stacks : stacks_ok n stack_top stack_top_second depth;
  sk_cores : (n ≤ 2)%nat;
  sk_fuel : (length img1 < fuel)%nat ∧ (length img2 < fuel)%nat;
  sk_on : powered_on n img1 img2 app1_bin_start app1_bin_end app2_bin_start app2_bin_end stack_top b;
  sk_handlers : g_handler_vec (m_kernel (b_machine b)) = replicate 512 None;
  sk_frames : Forall (λ x, frame_ok (ctx x)) (g_cpu_dec (m_kernel (b_machine b)));
  sk_firmware : ∀ c, (0 < c < n)%nat → answers stack_top stack_top_second second_entry psci c;
  sk_rounds : Forall (round n) rs ∧ (12 * n ≤ length rs)%nat;
}.

Lemma kernel_starts b rs :
  starts b rs → wp (run (concat rs)) (λ _ b', ∃ st, kernel_started (b_machine b') st) b.
Proof using Type.
  intros [Hso Hn [Hi1 Hi2] Hb Hh Hfs Hans [Hrs Hlen]].
  pose proof (powered_on_inv n img1 img2 _ _ _ _ _ _ second_entry psci depth Hso b Hb) as Hinv.
  assert (Hw : wp (run (concat rs)) (λ _ b', is_inv n img1 img2 app1_bin_start app1_bin_end app2_bin_start
    app2_bin_end stack_top stack_top_second second_entry psci b' ∧ all_idle b') b).
  { eapply rounds_ok; [exact Hso|exact Hi1|exact Hi2|done|by exists Primary|done|done|].
    pose proof (powered_on_left n _ _ _ _ _ _ _ _ _ Hso b Hb). lia. }
  assert (Hc : console_boot (frame_lens (m_kernel (b_machine b))) b).
  { left. split_and!; [exact Hh|done|]. intros i q Hq.
    destruct (powered_on_pc _ _ _ _ _ _ _ _ b i q Hb Hq) as [[_ ->]|[_ ->]]; auto. }
  apply wp_inv in Hw as (u & b' & E & [p Hp] & Hid). eapply wp_done; [exact E|].
  destruct (inv_idle _ _ _ _ _ _ _ _ _ _ _ p b' Hp Hid) as (st & Hruns & Hcur & Htasks). exists st.
  destruct (run_console _ _ _ _ _ _ _ _ _ _ _ _ _ b Hc _ _ E) as [(_ & _ & Hpcs)|Hc'].
  { pose proof (co_first (bi_cores Hp)) as H0. destruct (Hpcs _ _ H0) as [-> | ->]; by apply Hid in H0. }
  constructor; [constructor; [exact Hruns|exact (f_equal fst Hc')]|exact Hcur|exact Htasks|].
  pose proof (f_equal snd Hc') as Hl. cbn [fst snd] in Hl. unfold boot_view, compose in Hl. cbn [fst snd] in Hl.
  apply Forall_lookup. intros i f Hf. pose proof (sr_ctx _ _ (proj1 (proj1 Hruns)) _ _ Hf) as Hx.
  apply fmap_Some in Hx as (x & Hx & ->). assert (Hlen' : frame_lens (m_kernel (b_machine b')) !! i = Some (length (r (ctx x)))).
  { unfold frame_lens. by rewrite list_lookup_fmap, Hx. }
  rewrite Hl in Hlen'. unfold frame_lens in Hlen'. rewrite list_lookup_fmap in Hlen'.
  apply fmap_Some in Hlen' as (y & Hy & Hxy). rewrite Forall_lookup in Hfs. unfold frame_ok. rewrite Hxy. exact (Hfs _ _ Hy).
Qed.

(** C13: the kernel at work implements the abstract machine of its tasks: when all
    cores have started, core [i] running task [i] of the two applications, then for
    every sequence of exceptions of the cores, with any registers, any syndrome and
    any devices at each of them, the paths from the vectors of [exception.S] to [eret]
    give what the abstract machine gives: the tasks that go on, their registers and
    the devices, by the round robin of the timer's ticks and the system calls with
    their characters.  And they fail where it does: an interrupt or a system call
    without an entry in its table is a fault; another exception, and a port that is not
    ready within the bound, is a loop without end. *)
Theorem kernel_correct rs b :
  starts b rs → (∀ core, sp core ≠ NULL) →
  wp (run (concat rs))
     (λ _ b', ∃ st, kernel_started (b_machine b') st ∧
        ∀ es, Forall (trap_ok (Z.of_nat n)) es →
          result (user_run (Z.of_nat n) switch_context fuel2 sp es (b_machine b')) = result (user_spec fuel2 es st)) b.
Proof using Type.
  intros Hs Hsp. eapply wp_mono; [by apply kernel_starts|]. intros _ b' [st Hst]. exists st. split; [exact Hst|].
  intros es Hes. eapply tracks_result; [by apply user_run_ok|]. apply Hst.
Qed.
End kernel.

(** * Examples *)

(** A board whose pending interrupt is that of the timer, with an idle serial port that
    keeps what it is given. *)
#[export] Instance board_device : Device (list Z) :=
  {| rd32 := λ a d, (if a =? GICC_IAR then 30 else 0, d);
     wr32 := λ v a d, if a =? UART0_DR then d ++ [u8 v] else d;
     wr8 := λ _ _ d, d; rd64 := λ _ d, (0, d); wr64 := λ _ _ d, d |}.
(** The start of [Start]'s example on the board, with [n] cores. *)
Definition board_kernel (k : kernel unit) : kernel (list Z) := {|
  k_mach := {| dev := []; log := log (k_mach k); irq_nr := irq_nr (k_mach k) |};
  k_uart := k_uart k; task_list := task_list k; g_cpu_dec := g_cpu_dec k; cpu_sysregs := cpu_sysregs k;
  task_count := task_count k; sched_lock := sched_lock k; print_lock := print_lock k; infos := infos k;
  frames := frames k; g_handler_vec := g_handler_vec k; vgics := vgics k |}.
Definition board_example (n : nat) : boot (list Z) :=
  let b := boot_example n in
  {| b_machine := Build_machine (board_kernel (m_kernel (b_machine b))) (m_ept (b_machine b)) (m_regs (b_machine b));
     b_mem := b_mem b; b_lock := b_lock b; inited_cpu_num := inited_cpu_num b; b_pcs := b_pcs b; b_stacks := b_stacks b |}.
Definition board_start (n : nat) (b : boot (list Z)) (rs : list (list nat)) : Prop :=
  starts n (img_example 1) (img_example 101) 0xA0000000 0xA0000010 0xA0001000 0xA0001010 0x40100000 0x40110000
    0x40080100 (λ _ _ _ _, 0) (λ _, 96) 20 b rs.
Definition board_run (n : nat) : list nat → St (boot (list Z)) unit :=
  boot_run (Z.of_nat n) 0xA0000000 0xA0000010 0xA0001000 0xA0001010 0x40100000 0x40110000 0x40080100
    (λ _ _ _ _, 0) (λ _, 96) 20.
Definition board_switch (i j : nat) : St (kernel (list Z)) unit := mret tt.
Definition board_stack (core : nat) : Z := 0x400ff000 + 0x10000 * Z.of_nat core.

Lemma board_powered_on n : (1 ≤ n ≤ 2)%nat →
  powered_on n (img_example 1) (img_example 101) 0xA0000000 0xA0000010 0xA0001000 0xA0001010 0x40100000 (board_example n).
Proof.
  intros Hn. assert (Hb : ∀ k, 0 ≤ k → k + 16 ≤ 256 → Forall byte (img_example k)).
  { intros k ??. apply Forall_forall. intros x Hx%elem_of_seqZ. unfold byte. lia. }
  constructor; try done; [cbn; rewrite length_replicate; lia|cbn; apply length_replicate|cbn; lia|].
  constructor; [done|constructor; [done..|by apply Forall_replicate]| |].
  - apply (image_example 0xA0000000); [by vm_compute; repeat split|by vm_compute; repeat split|by apply Hb|done].
  - apply (image_example 0xA0001000); [by vm_compute; repeat split|by vm_compute; repeat split|by apply Hb|done].
Qed.
Lemma board_starts n rs :
  (1 ≤ n ≤ 2)%nat → Forall (round n) rs → (12 * n ≤ length rs)%nat → board_start n (board_example n) rs.
Proof.
  intros Hn Hrs Hlen. constructor; [apply stacks_example; lia|lia|split; by apply Nat.ltb_lt|by apply board_powered_on|done|by apply Forall_replicate|done|done].
Qed.
Lemma board_stack_not_null core : board_stack core ≠ NULL.
Proof. unfold board_stack, NULL. lia. Qed.
Lemma round_two : round 2 [0%nat; 1%nat].
Proof. intros c. rewrite !elem_of_cons, elem_of_nil. lia. Qed.

(** Two system calls, one that puts a character and one that has no entry, and a tick. *)
Definition call_example (core : nat) (n a : Z) (d : list Z) : trap (list Z) :=
  {| tr_core := core; tr_vector := Sync_vector; tr_frame := set_reg 0 a (set_reg 8 n zero_frame);
     tr_esr := 0x15 << 26; tr_dev := d |}.
Definition clock_example (core : nat) (d : list Z) : trap (list Z) :=
  {| tr_core := core; tr_vector := Irq_vector; tr_frame := zero_frame; tr_esr := 0; tr_dev := d |}.
Example user_spec_example :
  let st := {| rr_cur := [0%nat; 1%nat]; rr_ctx := [zero_frame; zero_frame]; rr_left := [20; 20] |} in
  result (user_spec 1 [call_example 1 SYS_putc 65 [33]; clock_example 0 [33; 65]] st) =
    Done [{| rs_task := 1; rs_frame := set_reg 0 0 (set_reg 0 65 (set_reg 8 0 zero_frame)); rs_dev := [33; 65] |};
          {| rs_task := 0; rs_frame := zero_frame; rs_dev := [33; 65] |}] ∧
  result (user_spec 1 [call_example 0 2 65 []] st) = Fault.
Proof. split; vm_compute; reflexivity. Qed.
Lemma kernel_correct_witness :
  wp (board_run 2 (concat (replicate 24 [0%nat; 1%nat])))
     (λ _ b', ∃ st, kernel_started 2 (b_machine b') st ∧
        result (user_run 2 board_switch 1 board_stack [call_example 1 SYS_putc 65 [33]; clock_example 0 [33; 65]]
                  (b_machine b')) =
        result (user_spec 1 [call_example 1 SYS_putc 65 [33]; clock_example 0 [33; 65]] st)) (board_example 2).
Proof.
  eapply wp_mono.
  { exact (kernel_correct 2 (img_example 1) (img_example 101) 0xA0000000 0xA0000010 0xA0001000 0xA0001010 0x40100000
      0x40110000 0x40080100 (λ _ _ _ _, 0) (λ _, 96) 20 board_switch 1 board_stack (replicate 24 [0%nat; 1%nat])
      (board_example 2) (board_starts 2 (replicate 24 [0%nat; 1%nat]) ltac:(lia)
        ltac:(apply Forall_replicate, round_two) ltac:(simpl; lia))
      board_stack_not_null). }
  intros _ b' (st & Hst & Hrun). exists st. split; [exact Hst|]. apply Hrun.
  repeat constructor.
Defined.
