(* ===== verification/App.v ===== *)
(** The user programs: [app/testapp/el0_task.S], [app/shell/main.c] with
    [app/syscall.S], and the system they make with the kernel: what becomes of a task
    between two exceptions is what its instructions do. *)

From S2P Require Import Prelude Config Gic ByteMem Frame Uart Console Vgic Kernel Sched Keeps Ept Trap Quiet Image Boot Start User.

(** * Instructions

    The instructions of the assembly files and of the compiled [main], which starts
    with [stp x29, x30, [sp, #-16]!] and [mov x29, sp], on the registers of a task.  The
    memory of the task is not part of them: what is stored is not loaded again. *)

Inductive insn :=
  | Mov (rd : nat) (imm : Z)
  | Bl (label : Z)
  | B (label : Z)
  | Ret
  | Svc
  | Sub_sp (imm : Z)
  | Add_sp (imm : Z)
  | Str (rt : nat) (offset : Z)
  | Stp_pre (rt1 rt2 : nat) (imm : Z)
  | Mov_sp (rd : nat).
Abbreviation program := (gmap Z insn).

(** The place after the current instruction. *)
Definition next_pc (f : trap_frame) : trap_frame := set_elr (u64 (elr f + 4)) f.
(** One instruction; [svc] and a place without an instruction are exceptions. *)
Definition instr_step (m : program) (f : trap_frame) : option trap_frame :=
  i ← m !! elr f;
  match i with
  | Mov rd imm => Some (next_pc (set_reg rd imm f))
  | Bl l => Some (set_elr l (set_reg 30 (u64 (elr f + 4)) f))
  | B l => Some (set_elr l f)
  | Ret => x ← r f !! 30%nat; Some (set_elr x f)
  | Svc => None
  | Sub_sp imm => Some (next_pc (set_usp (u64 (usp f - imm)) f))
  | Add_sp imm => Some (next_pc (set_usp (u64 (usp f + imm)) f))
  | Str _ _ => Some (next_pc f)
  | Stp_pre _ _ imm => Some (next_pc (set_usp (u64 (usp f + imm)) f))
  | Mov_sp rd => Some (next_pc (set_reg rd (usp f) f))
  end.
Definition reaches (m : program) : trap_frame → trap_frame → Prop := rtc (λ f g, instr_step m f = Some g).

(** The instructions of a routine, from an address on. *)
Fixpoint placed (m : program) (a : Z) (instrs : list insn) : Prop :=
  match instrs with
  | [] => True
  | i :: instrs => m !! a = Some i ∧ placed m (a + 4) instrs
  end.

(** ** [app/syscall.S] *)

Definition syscall_code : list insn :=
  [ (* putc *) Mov 8 0; Svc; Ret; (* getc *) Mov 8 1; Svc; Ret ].

(** ** [app/testapp/el0_task.S], at its address *)

Definition testapp_loop (a : Z) : Z := a + 12.
Definition testapp_stack_test (a : Z) : Z := a + 32.
Definition testapp_code (a : Z) : list insn :=
  [ (* _start *) Bl (testapp_stack_test a); B (a + 4); Bl (testapp_loop a);
    (* loop *) Mov 8 1; Svc; Mov 8 0; Svc; B (testapp_loop a);
    (* stack_test *) Mov 0 1; Mov 1 2; Sub_sp 16; Str 0 0; Str 1 8; Add_sp 16; Ret ].

(** ** [app/shell/main.c]

    The calls of [putc] it makes, and what its compiled form is, given where [putc] of
    [syscall.S] is: it starts at its first instruction, each of its instructions goes
    on in it or is the call it is due to make, with the character in the low byte of
    [x0], and when the call returns, with the registers a call preserves, it goes on
    as after that call. *)

Definition shell_text : list Z := [65; 66; 67; 68; 69; 70; 71; 72; 13; 10].
Definition shell_char (k : nat) : Z := default 0 (shell_text !! (k mod 10)%nat).

Definition returned (f g : trap_frame) : Prop :=
  frame_ok g ∧ r f !! 30%nat = Some (elr g) ∧ usp g = usp f ∧
  ∀ i, (19 ≤ i ≤ 30)%nat → r g !! i = r f !! i.
Definition calls (putc : Z) (in_main : nat → trap_frame → Prop) (k : nat) (f : trap_frame) : Prop :=
  elr f = putc ∧ (∃ a, r f !! 0%nat = Some a ∧ u8 a = shell_char k) ∧ ∀ g, returned f g → in_main (S k) g.
Record compiled_shell (m : program) (putc : Z) (in_main : nat → trap_frame → Prop) : Prop := {
  cs_putc : placed m putc syscall_code ∧ 0 ≤ putc < 2 ^ 64 - 24;
  cs_start : ∀ f, frame_ok f → frame_start f = (APP2_START, APP2_STACK, SPSR_EL1_USER) → in_main 0%nat f;
  cs_step : ∀ k f, in_main k f → frame_ok f →
    ∃ f', instr_step m f = Some f' ∧ (in_main k f' ∨ calls putc in_main k f');
}.

(** * The system

    The kernel, the task each core runs with the registers it has, and the devices. *)

Section system.
Context {D : Type} `{Device D}.
Context (SMP_NUM : Z) (switch_context : nat → nat → St (kernel D) unit) (fuel : nat) (sp : nat → Z).
(** The instructions in memory, and what the devices may become by themselves. *)
Context (m : program) (env : D → D → Prop).

Record sys := { y_machine : machine D; y_tasks : list nat; y_regs : list trap_frame; y_dev : D }.

(** The registers [f] and the exception they come to: an interrupt after any
    instruction, the system call of an [svc], an abort where there is no instruction. *)
Definition goes_on (f : trap_frame) (e : trap D) : Prop :=
  ∃ g, reaches m f g ∧
    match tr_vector e with
    | Irq_vector => tr_frame e = g ∧ timer_pending (tr_dev e)
    | Sync_vector =>
        match m !! elr g with
        | Some Svc => tr_frame e = next_pc g ∧ exception_class (tr_esr e) = 0x15
        | None => tr_frame e = g ∧ exception_class (tr_esr e) ∉ [0x15; 0x17]
        | Some _ => False
        end
    end.
Definition offers (y : sys) (e : trap D) : Prop :=
  env (y_dev y) (tr_dev e) ∧ ∃ f, y_regs y !! tr_core e = Some f ∧ goes_on f e.
Definition sys_step (y : sys) (e : trap D) (y' : sys) : Prop :=
  offers y e ∧ ∃ x s', user_trap SMP_NUM switch_context fuel sp e (y_machine y) = Done (x, s') ∧
    y' = {| y_machine := s'; y_tasks := <[tr_core e := rs_task x]> (y_tasks y);
            y_regs := <[tr_core e := rs_frame x]> (y_regs y); y_dev := rs_dev x |}.
Inductive sys_run : sys → list (trap D) → sys → Prop :=
  | sys_done y : sys_run y [] y
  | sys_more y e y1 es y2 : sys_step y e y1 → sys_run y1 es y2 → sys_run y (e :: es) y2.

(** The frame a task has: in the registers of its core, or saved. *)
Definition task_frame (y : sys) (st : rr) (j : nat) (f : trap_frame) : Prop :=
  (∃ core, rr_cur st !! core = Some j ∧ y_regs y !! core = Some f) ∨
  ((j ∉ rr_cur st) ∧ rr_ctx st !! j = Some f).
Record sys_ok (y : sys) (st : rr) : Prop := {
  yo_ready : user_ready SMP_NUM (y_machine y) st;
  yo_tasks : y_tasks y = rr_cur st;
  yo_regs : length (y_regs y) = length (rr_cur st);
  yo_frames : ∀ j f, task_frame y st j f → frame_ok f;
}.
End system.
Arguments sys D : clear implicits.
Arguments y_machine {D} s. Arguments y_tasks {D} s. Arguments y_regs {D} s. Arguments y_dev {D} s.
Arguments Build_sys {D} y_machine y_tasks y_regs y_dev.

(** * Instructions keep frames *)

Lemma instr_step_ok m f g : instr_step m f = Some g → frame_ok f → frame_ok g.
Proof.
  unfold instr_step, frame_ok. intros Hs Hf. apply bind_Some in Hs as (i & _ & Hs).
  destruct i; simplify_eq/=; rewrite ?length_insert; try done.
  apply bind_Some in Hs as (x & _ & Hs). by simplify_eq/=.
Qed.
Lemma reaches_inv (m : program) (P : trap_frame → Prop) f g :
  (∀ a b, P a → instr_step m a = Some b → P b) → reaches m f g → P f → P g.
Proof. intros HP. induction 1 as [|a b c Hs _ IH]; [done|]. intros Ha. apply IH. by eapply HP. Qed.
Lemma reaches_ok m f g : reaches m f g → frame_ok f → frame_ok g.
Proof. apply reaches_inv. intros. by eapply instr_step_ok. Qed.

Lemma goes_on_ok {D} `{Device D} m f (e : trap D) : goes_on m f e → frame_ok f → frame_ok (tr_frame e).
Proof.
  intros (g & Hg & Hv) Hf. pose proof (reaches_ok _ _ _ Hg Hf) as Hok. destruct (tr_vector e).
  - destruct (m !! elr g) as [[]|]; try done; destruct Hv as [-> _]; exact Hok.
  - by destruct Hv as [-> _].
Qed.

(** * A step of the system

    An exception changes the registers of the task that took it, and of no other. *)

Lemma rr_tick_cases core f st c :
  rr_ok st → rr_cur st !! core = Some c →
  ∃ j, rr_cur (snd (rr_tick core f st)) = <[core := j]> (rr_cur st) ∧
    rr_ctx (snd (rr_tick core f st)) = <[c := f]> (rr_ctx st) ∧
    (j = c ∧ fst (rr_tick core f st) = f ∨
     (j ∉ rr_cur st) ∧ rr_ctx st !! j = Some (fst (rr_tick core f st))).
Proof.
  intros Hok Hc. destruct (current_range st core c Hok Hc) as [Hcn Hin]. unfold rr_tick. rewrite Hc.
  destruct (0 <? _).
  { exists c. cbn. rewrite list_insert_id by done. split_and!; try done. by left. }
  unfold next_waiting. pose proof (next_from_spec (length (rr_ctx st) - 1) (rr_cur st) (length (rr_ctx st)) c 1) as Hs.
  destruct (next_from _ _ _ _ _) as [j|].
  - destruct Hs as (d & _ & Hjd & Hj & _). exists j. cbn. split_and!; try done. right. split; [done|].
    assert (j < length (rr_ctx st))%nat as Hjn by (rewrite Hjd; apply Nat.mod_upper_bound; lia).
    rewrite list_lookup_insert_ne by (intros ->; done).
    destruct (lookup_lt_is_Some_2 _ _ Hjn) as [fj Hfj]. by rewrite Hfj.
  - exists c. cbn. rewrite list_insert_id by done. split_and!; try done. by left.
Qed.

Section steps.
Context {D : Type} `{Device D}.
Context (SMP_NUM : Z) (switch_context : nat → nat → St (kernel D) unit) (fuel : nat) (sp : nat → Z).
Context (m : program) (env : D → D → Prop) (Hsp : ∀ core, sp core ≠ NULL).

(** The registers and the devices a synchronous exception leaves. *)
Definition sync_result (e : trap D) : outcome (trap_frame * D) :=
  if exception_class (tr_esr e) =? 0x15 then
    user_syscall fuel (default 0 (r (tr_frame e) !! 8%nat)) (tr_frame e) (tr_dev e)
  else if exception_class (tr_esr e) =? 0x17 then Done (tr_frame e, tr_dev e)
  else NoFuel.
Definition trap_result (e : trap D) : outcome (trap_frame * D) :=
  match tr_vector e with
  | Sync_vector => sync_result e
  | Irq_vector =>
      if gic_iar_irqnr (fst (rd32 GICC_IAR (tr_dev e))) =? TIMER_VECTOR then
        Done (tr_frame e, after_tick false (tr_dev e)) else Fault
  end.

(** What the abstract machine makes of an exception. *)
Lemma user_step_cases e st c :
  rr_ok st → rr_cur st !! tr_core e = Some c →
  match trap_result e, user_step fuel e st with
  | Done (f, d), Done (x, st') =>
      rr_cur st' = <[tr_core e := rs_task x]> (rr_cur st) ∧ rr_ctx st' = <[c := tr_frame e]> (rr_ctx st) ∧
      rs_dev x = d ∧
      (rs_task x = c ∧ rs_frame x = f ∨
       (rs_task x ∉ rr_cur st) ∧ rr_ctx st !! rs_task x = Some (rs_frame x) ∧ f = tr_frame e)
  | Fault, Fault | NoFuel, NoFuel => True
  | _, _ => False
  end.
Proof using Type.
  intros Hok Hc. unfold trap_result, sync_result, user_step, user_handle. rewrite Hc. cbn [default from_option id].
  pose proof (lookup_lt_Some _ _ _ Hc) as Hlt.
  destruct (tr_vector e).
  - destruct (_ =? 0x15); [destruct (user_syscall _ _ _ _) as [[f d]| |]; [|done..]|destruct (_ =? 0x17); [|done]];
      cbn; rewrite Hc; cbn; rewrite list_insert_id by done; split_and!; try done; by left.
  - destruct (_ =? TIMER_VECTOR); [|done].
    destruct (rr_tick_cases (tr_core e) (tr_frame e) st c Hok Hc) as (j & Hcur & Hctx & Hout).
    destruct (rr_tick (tr_core e) (tr_frame e) st) as [f st']. cbn [fst snd rs_task rs_frame rs_dev] in *.
    rewrite Hcur, list_lookup_insert_eq by done. cbn. split_and!; try done. destruct Hout as [?|[? ?]]; auto.
Qed.

Lemma task_frame_step (y y' : sys D) st st' (c j0 core : nat) (f f' g : trap_frame) :
  NoDup (rr_cur st) → rr_cur st !! core = Some c → (core < length (y_regs y))%nat →
  rr_cur st' = <[core := j0]> (rr_cur st) → rr_ctx st' = <[c := f]> (rr_ctx st) →
  y_regs y' = <[core := f']> (y_regs y) →
  (j0 = c ∧ f' = g ∨ (j0 ∉ rr_cur st) ∧ rr_ctx st !! j0 = Some f' ∧ g = f) →
  ∀ j h, task_frame y' st' j h → (j = c ∧ h = g) ∨ (j ≠ c ∧ task_frame y st j h).
Proof using Type.
  intros Hnd Hc Hlt Hcur Hctx Hregs Hj0 j h [(core' & Hj & Hh)|[Hj Hh]].
  - rewrite Hcur in Hj. rewrite Hregs in Hh. destruct (decide (core' = core)) as [->|Hne].
    + rewrite list_lookup_insert_eq in Hj by (by eapply lookup_lt_Some). injection Hj as <-.
      rewrite list_lookup_insert_eq in Hh by done. injection Hh as <-.
      destruct Hj0 as [[-> ->]|(Hout & Hs & _)]; [by left|right]. split.
      * intros ->. apply Hout. by eapply list_elem_of_lookup_2.
      * by right.
    + rewrite list_lookup_insert_ne in Hj by done. rewrite list_lookup_insert_ne in Hh by done. right.
      split; [|left; eauto]. intros ->. apply Hne. by eapply NoDup_lookup.
  - rewrite Hctx in Hh. destruct (decide (j = c)) as [->|Hne].
    + left. split; [done|]. pose proof (lookup_lt_Some _ _ _ Hh) as Hl. rewrite length_insert in Hl.
      rewrite list_lookup_insert_eq in Hh by done. destruct Hj0 as [[-> _]|(_ & _ & ->)]; [|congruence].
      exfalso. apply Hj. rewrite Hcur, list_insert_id by done. by eapply list_elem_of_lookup_2.
    + rewrite list_lookup_insert_ne in Hh by done. right. split; [done|]. right. split; [|done].
      intros (i & Hi)%list_elem_of_lookup. apply Hj. rewrite Hcur. apply list_elem_of_lookup. exists i.
      rewrite list_lookup_insert_ne; [done|]. intros ->. congruence.
Qed.

Lemma trap_result_ok e f d : trap_result e = Done (f, d) → frame_ok (tr_frame e) → frame_ok f.
Proof using Type.
  unfold trap_result, sync_result, user_syscall, with_port, frame_ok. intros E Hok.
  repeat match type of E with
  | context [match tr_vector e with _ => _ end] => destruct (tr_vector e)
  | context [if ?b then _ else _] => destruct b
  | context [match ?p with Some _ => _ | None => _ end] => destruct p
  end; simplify_eq/=; by rewrite ?length_insert.
Qed.
Lemma offers_ok y st e :
  sys_ok SMP_NUM y st → offers m env y e →
  ∃ c f, rr_cur st !! tr_core e = Some c ∧ y_regs y !! tr_core e = Some f ∧ goes_on m f e ∧ trap_ok SMP_NUM e ∧
    task_frame y st c f.
Proof using Type.
  intros [[((Hk & Hl & Hn) & _) _] Ht Hlen Hfr] (_ & f & Hf & Hgo). pose proof (lookup_lt_Some _ _ _ Hf) as Hlt.
  destruct (lookup_lt_is_Some_2 (rr_cur st) (tr_core e)) as [c Hc]; [lia|]. exists c, f.
  assert (Htf : task_frame y st c f) by (left; eauto).
  split_and!; try done. split; [lia|]. eapply goes_on_ok; [exact Hgo|]. by eapply Hfr.
Qed.

(** An exception the system can come to is handled, unless the abstract machine fails,
    and the task that took it goes on from what the handler makes of it. *)
Lemma sys_step_ok y st e :
  sys_ok SMP_NUM y st → offers m env y e →
  ∃ c f, rr_cur st !! tr_core e = Some c ∧ task_frame y st c f ∧ goes_on m f e ∧
    (∀ f' d, trap_result e = Done (f', d) → ∃ y', sys_step SMP_NUM switch_context fuel sp m env y e y') ∧
    (∀ y', sys_step SMP_NUM switch_context fuel sp m env y e y' →
       ∃ st' f', trap_result e = Done (f', y_dev y') ∧ sys_ok SMP_NUM y' st' ∧
         length (rr_ctx st') = length (rr_ctx st) ∧
         ∀ j h, task_frame y' st' j h → (j = c ∧ h = f') ∨ (j ≠ c ∧ task_frame y st j h)).
Proof using Hsp.
  intros Hy Ho. destruct (offers_ok _ _ _ Hy Ho) as (c & f & Hc & Hf & Hgo & Hok & Htf).
  exists c, f. split_and!; [done..| |].
  all: pose proof (user_trap_ok SMP_NUM switch_context fuel sp e Hsp Hok _ _ (yo_ready _ _ _ Hy)) as Ht;
    pose proof (user_step_cases e st c (sr_ok _ _ (proj1 (proj1 (ur_runs _ _ _ (yo_ready _ _ _ Hy))))) Hc) as Hcs.
  - intros f' d Hres. rewrite Hres in Hcs. destruct (user_step fuel e st) as [[x st']| |]; [|done..].
    apply wp_inv in Ht as (x' & s' & E & -> & _). eexists. split; [exact Ho|]. by exists x, s'.
  - intros y' (_ & x' & s' & E & ->).
    destruct (trap_result e) as [[f' d]| |] eqn:Hres, (user_step fuel e st) as [[x st']| |]; try done;
      [|rewrite E in Ht; done..].
    unfold wp in Ht. rewrite E in Ht. destruct Ht as [-> Hr]. destruct Hcs as (Hcur & Hctx & <- & Hx).
    pose proof Hy as [[((Hk & Hl & Hn) & _) _] Hts Hlen Hfr].
    set (y' := {| y_machine := s'; y_tasks := _; y_regs := _; y_dev := _ |}).
    assert (Hts' : ∀ j h, task_frame y' st' j h → (j = c ∧ h = f') ∨ (j ≠ c ∧ task_frame y st j h)).
    { eapply (task_frame_step y); [apply Hk|exact Hc|by eapply lookup_lt_Some|exact Hcur|exact Hctx|done|].
      destruct Hx as [?|(? & ? & ?)]; auto. }
    exists st', f'. split_and!; [done| |by rewrite Hctx, length_insert|exact Hts'].
    + constructor; cbn [y_machine y_tasks y_regs y']; [exact Hr|by rewrite Hcur, Hts|by rewrite Hcur, !length_insert|].
      intros j h Hj. destruct (Hts' j h Hj) as [[-> ->]|[_ Hj']]; [|by eapply Hfr].
      eapply trap_result_ok; [exact Hres|apply Hok].
Qed.
End steps.

Lemma sys_run_inv {D} `{Device D} SMP_NUM sw fuel sp m env (P : sys D → list (trap D) → Prop) y es y' :
  (∀ y past e y1, P y past → sys_step SMP_NUM sw fuel sp m env y e y1 → P y1 (past ++ [e])) →
  P y [] → sys_run SMP_NUM sw fuel sp m env y es y' → P y' es.
Proof.
  intros Hstep H0 Hrun. assert (Hg : ∀ past, P y past → P y' (past ++ es)); [|by apply (Hg [])].
  clear H0. induction Hrun as [y|y e y1 es y2 Hs _ IH]; intros past Hp; [by rewrite app_nil_r|].
  rewrite (cons_middle e past es), app_assoc. apply IH. by eapply Hstep.
Qed.

(** * The loop at the end of [main_entry] *)

(** [include/sys/sys.h]. *)
Definition SPSR_EL1_EL1h : Z := 5.
(** The registers of a core in [while (1);], compiled to one instruction, at EL1. *)
Definition in_loop (idle_pc : Z) (f : trap_frame) : Prop :=
  frame_ok f ∧ elr f = idle_pc ∧ spsr f .& 0xf = SPSR_EL1_EL1h.

Lemma idle_reaches m pc f g : m !! pc = Some (B pc) → reaches m f g → in_loop pc f → in_loop pc g.
Proof.
  intros Hm. apply reaches_inv. intros a b (Hok & He & Hs) Hstep. pose proof (instr_step_ok _ _ _ Hstep Hok) as Hok'.
  unfold instr_step in Hstep. rewrite He, Hm in Hstep. cbn in Hstep. simplify_eq/=. by split_and!.
Qed.
Lemma idle_goes_on {D} `{Device D} m pc f (e : trap D) :
  m !! pc = Some (B pc) → in_loop pc f → goes_on m f e →
  tr_vector e = Irq_vector ∧ timer_pending (tr_dev e) ∧ in_loop pc (tr_frame e).
Proof.
  intros Hm Hf (g & Hg & Hv). pose proof (idle_reaches _ _ _ _ Hm Hg Hf) as Hi. destruct (tr_vector e).
  - destruct Hi as (_ & He & _). by rewrite He, Hm in Hv.
  - by destruct Hv as [-> ?].
Qed.

(** The interrupt of the timer. *)
Lemma irq_result {D} `{Device D} fuel (e : trap D) :
  tr_vector e = Irq_vector → timer_pending (tr_dev e) →
  trap_result fuel e = Done (tr_frame e, after_tick false (tr_dev e)).
Proof. unfold trap_result, timer_pending. intros -> ->. by rewrite Z.eqb_refl. Qed.

Section started.
Context {D : Type} `{Device D}.
Context (n : nat) (switch_context : nat → nat → St (kernel D) unit) (fuel : nat) (sp : nat → Z).
Context (m : program) (env : D → D → Prop) (Hsp : ∀ core, sp core ≠ NULL).
Context (idle_pc : Z) (Hidle : m !! idle_pc = Some (B idle_pc)).

(** The system when the cores have come to the loop. *)
Definition sys_start (s : machine D) (regs : list trap_frame) (d : D) : sys D := Build_sys s (seq 0 n) regs d.

Lemma start_frames s st regs d j f :
  kernel_started n s st → length regs = n → Forall (in_loop idle_pc) regs →
  task_frame (sys_start s regs d) st j f →
  ((j < n)%nat ∧ in_loop idle_pc f) ∨ ((n ≤ j)%nat ∧ rr_ctx st !! j = Some f).
Proof using Type.
  intros [_ Hcur _ _] Hlen Hregs [(core & Hc & Hf)|[Hj Hf]]; rewrite Hcur in *; cbn [y_regs sys_start] in *.
  - left. apply lookup_seq in Hc as [-> Hlt]. split; [lia|]. by eapply Forall_lookup_1.
  - right. split; [|done]. rewrite elem_of_seq in Hj. lia.
Qed.
Lemma sys_start_ok s st regs d :
  kernel_started n s st → length regs = n → Forall (in_loop idle_pc) regs → sys_ok (Z.of_nat n) (sys_start s regs d) st.
Proof using Type.
  intros Hst Hlen Hregs. constructor; [apply Hst|symmetry; apply (ks_cur _ _ _ Hst)| |].
  - cbn. by rewrite (ks_cur _ _ _ Hst), length_seq.
  - intros j f Hf. destruct (start_frames _ _ _ _ _ _ Hst Hlen Hregs Hf) as [[_ Hi]|[_ Hi]]; [apply Hi|].
    eapply Forall_lookup_1; [apply (ks_frames _ _ _ Hst)|exact Hi].
Qed.

(** The tasks the cores were in when they came to the loop stay there. *)
Definition waits (y : sys D) : Prop :=
  ∃ st, sys_ok (Z.of_nat n) y st ∧ length (rr_ctx st) = 2%nat ∧
    ∀ j f, task_frame y st j f → (j < n)%nat → in_loop idle_pc f.
Lemma waits_step y e y' :
  waits y → sys_step (Z.of_nat n) switch_context fuel sp m env y e y' → waits y'.
Proof using Hsp Hidle.
  intros (st & Hy & Hl & Hw) Hs. destruct (sys_step_ok (Z.of_nat n) switch_context fuel sp m env Hsp _ _ _ Hy (proj1 Hs))
    as (c & f & Hc & Htf & Hgo & _ & Hinv). destruct (Hinv _ Hs) as (st' & f' & Hres & Hy' & Hl' & Hothers).
  exists st'. split_and!; [exact Hy'|congruence|]. intros j h Hj Hn. destruct (Hothers j h Hj) as [[-> ->]|[_ Hj']].
  - destruct (idle_goes_on _ _ _ _ Hidle (Hw _ _ Htf Hn) Hgo) as (Hv & Ht & Hi).
    rewrite (irq_result _ _ Hv Ht) in Hres. by injection Hres as <- _.
  - by eapply Hw.
Qed.
Lemma waits_start s st regs d :
  kernel_started n s st → length regs = n → Forall (in_loop idle_pc) regs → waits (sys_start s regs d).
Proof using Type.
  intros Hst Hlen Hregs. exists st. split_and!; [by apply sys_start_ok| |].
  - rewrite <- (length_map frame_start), (ks_tasks _ _ _ Hst). done.
  - intros j f Hf Hj. destruct (start_frames _ _ _ _ _ _ Hst Hlen Hregs Hf) as [[_ Hi]|[? _]]; [done|lia].
Qed.
End started.

(** * The shell *)

(** A port that only system calls write to. *)
Class OwnPort (D : Type) `{HT : Transmitter D} := {
  op_read : ∀ d, transmitted (snd (rd32 GICC_IAR d)) = transmitted d;
  op_write : ∀ v a d, a ≠ UART0_DR → transmitted (wr32 v a d) = transmitted d;
}.

Section port.
Context {D : Type} `{HT : Transmitter D}.

Lemma wait_port_ready fuel n d d' : polls n d d' → (n < fuel)%nat → wait_port fuel (1 << 5) d = Some d'.
Proof using Type.
  revert fuel d. induction n as [|n IH]; intros [|fuel] d Hp Hf; try lia; cbn [polls wait_port] in *.
  - destruct Hp as (fr & -> & Hb). by rewrite land_bit_test, Hb by lia.
  - destruct Hp as (fr & d1 & -> & Hb & Hp). rewrite land_bit_test, Hb by lia. apply IH; [done|lia].
Qed.
(** The system call of [putc] gives its character to the port. *)
Lemma putc_result fuel (e : trap D) a :
  (delay < fuel)%nat → tr_vector e = Sync_vector → exception_class (tr_esr e) = 0x15 →
  r (tr_frame e) !! 8%nat = Some SYS_putc → r (tr_frame e) !! 0%nat = Some a →
  ∃ d, trap_result fuel e = Done (set_reg 0 0 (tr_frame e), d) ∧
    transmitted d = transmitted (tr_dev e) ++ [u8 a].
Proof using Type.
  intros Hf Hv Hc H8 H0. destruct (tx_ready (tr_dev e)) as (n & d' & Hn & Hp & Ht).
  destruct (polls_last _ _ _ Hp) as [d0 Hlast]. unfold trap_result, sync_result, user_syscall, with_port.
  rewrite Hv, Hc, H8, H0. cbn [Z.eqb Pos.eqb default from_option id]. rewrite Z.eqb_refl.
  rewrite (wait_port_ready fuel n _ d' Hp) by lia. eexists. split; [done|].
  rewrite (tx_write _ _ _ Hlast), Ht. do 2 f_equal. apply u8_small_words.
Qed.
Lemma tick_transmits `{!OwnPort D} el2 (d : D) : transmitted (after_tick el2 d) = transmitted d.
Proof using Type.
  unfold after_tick. rewrite <- (op_read d). destruct (rd32 GICC_IAR d) as [v d']. cbn [snd].
  destruct el2; by rewrite !op_write by done.
Qed.
End port.

Section in_shell.
Context (m : program) (putc : Z) (in_main : nat → trap_frame → Prop) (Hc : compiled_shell m putc in_main).

(** The shell has made [k] calls: it is in its [main], before the call of [putc] has
    loaded the number, before the [svc], or before the [ret] of the last call. *)
Definition in_call (k : nat) (f : trap_frame) : Prop :=
  (∃ a, r f !! 0%nat = Some a ∧ u8 a = shell_char k) ∧ ∀ g, returned f g → in_main (S k) g.
Definition in_shell (k : nat) (f : trap_frame) : Prop :=
  frame_ok f ∧
  (in_main k f ∨ elr f = putc ∧ in_call k f ∨ elr f = putc + 4 ∧ r f !! 8%nat = Some SYS_putc ∧ in_call k f ∨
   elr f = putc + 8 ∧ ∀ g, returned f g → in_main k g).

Lemma putc_places :
  m !! putc = Some (Mov 8 0) ∧ m !! (putc + 4) = Some Svc ∧ m !! (putc + 8) = Some Ret ∧
  u64 (putc + 4) = putc + 4 ∧ u64 (putc + 4 + 4) = putc + 8.
Proof using Hc.
  destruct (cs_putc _ _ _ Hc) as [(H1 & H2 & H3 & _) Hr]. rewrite <- Z.add_assoc in H3.
  split_and!; [done..|apply u64_small; lia|]. rewrite u64_small; lia.
Qed.
(** The registers that a call preserves are all that [returned] looks at. *)
Lemma returned_same f f' g :
  (∀ i, (19 ≤ i ≤ 30)%nat → r f' !! i = r f !! i) → usp f' = usp f → returned f' g → returned f g.
Proof using Type.
  intros Hr Hu (Hok & H30 & Husp & Hi). split_and!; [done|by rewrite <- Hr by lia|congruence|].
  intros i Hrange. rewrite Hi, Hr by done. done.
Qed.
Lemma set_reg_other i j v f : i ≠ j → r (set_reg i v f) !! j = r f !! j.
Proof using Type. intros Hne. cbn. by rewrite list_lookup_insert_ne. Qed.

Lemma in_shell_step k f g : in_shell k f → instr_step m f = Some g → in_shell k g.
Proof using Hc.
  intros [Hok Hin] Hs. pose proof (instr_step_ok _ _ _ Hs Hok) as Hok'. split; [done|].
  destruct putc_places as (H1 & H2 & H3 & H4 & H5). destruct Hin as [Hm|[[He Hcall]|[(He & _)|[He Hret]]]].
  - destruct (cs_step _ _ _ Hc k f Hm Hok) as (f' & Hs' & Hf'). rewrite Hs in Hs'. injection Hs' as <-.
    destruct Hf' as [?|(He & Ha & Hr)]; [by left|right; left]. by split_and!.
  - right. right. left. unfold instr_step in Hs. rewrite He, H1 in Hs. cbn in Hs. injection Hs as <-.
    cbn [elr next_pc set_elr set_reg]. rewrite He, H4. destruct Hcall as [(a & Ha & Hk) Hret].
    assert (Hlen : (8 < length (r f))%nat) by (unfold frame_ok, NUM_REGS in Hok; lia). split_and!; [done| |].
    + cbn. by apply list_lookup_insert_eq.
    + split; [exists a; split; [|done]; cbn; by rewrite list_lookup_insert_ne|].
      intros h Hh. apply Hret. eapply returned_same; [| |exact Hh]; [|done].
      intros i Hi. cbn. by rewrite list_lookup_insert_ne by lia.
  - unfold instr_step in Hs. rewrite He, H2 in Hs. done.
  - left. unfold instr_step in Hs. rewrite He, H3 in Hs. cbn in Hs. apply bind_Some in Hs as (x & Hx & Hs).
    injection Hs as <-. apply Hret. split_and!; [exact Hok'|exact Hx|done|done].
Qed.
Lemma in_shell_call k f :
  in_shell k f → m !! elr f = Some Svc →
  r f !! 8%nat = Some SYS_putc ∧ (∃ a, r f !! 0%nat = Some a ∧ u8 a = shell_char k) ∧
  ∀ v, in_shell (S k) (set_reg 0 v (next_pc f)).
Proof using Hc.
  intros [Hok Hin] Hs. destruct putc_places as (H1 & H2 & H3 & H4 & H5).
  destruct Hin as [Hm|[[He _]|[(He & H8 & Ha & Hret)|[He _]]]].
  - destruct (cs_step _ _ _ Hc k f Hm Hok) as (f' & Hs' & _). unfold instr_step in Hs'. by rewrite Hs in Hs'.
  - by rewrite He, H1 in Hs.
  - split_and!; [done|done|]. intros v. split; [unfold frame_ok in *; cbn; by rewrite length_insert|].
    right. right. right. split; [cbn; by rewrite He, H5|]. intros g Hg. apply Hret. eapply returned_same; [| |exact Hg]; [|done].
    intros i Hi. cbn. by rewrite list_lookup_insert_ne by lia.
  - by rewrite He, H3 in Hs.
Qed.
Lemma in_shell_code k f : in_shell k f → m !! elr f ≠ None.
Proof using Hc.
  intros [Hok Hin]. destruct putc_places as (H1 & H2 & H3 & _). destruct Hin as [Hm|[[He _]|[(He & _)|[He _]]]].
  - destruct (cs_step _ _ _ Hc k f Hm Hok) as (f' & Hs' & _). unfold instr_step in Hs'. by destruct (m !! elr f).
  - by rewrite He, H1.
  - by rewrite He, H2.
  - by rewrite He, H3.
Qed.

(** The exceptions of the shell. *)
Lemma shell_goes_on {D} `{Device D} k f (e : trap D) :
  in_shell k f → goes_on m f e →
  match tr_vector e with
  | Irq_vector => timer_pending (tr_dev e) ∧ in_shell k (tr_frame e)
  | Sync_vector =>
      exception_class (tr_esr e) = 0x15 ∧ r (tr_frame e) !! 8%nat = Some SYS_putc ∧
      (∃ a, r (tr_frame e) !! 0%nat = Some a ∧ u8 a = shell_char k) ∧
      ∀ v, in_shell (S k) (set_reg 0 v (tr_frame e))
  end.
Proof using Hc.
  intros Hin (g & Hg & Hv). pose proof (reaches_inv m (in_shell k) f g (λ a b, in_shell_step k a b) Hg Hin) as Hk.
  destruct (tr_vector e); [|by destruct Hv as [-> ?]].
  destruct (m !! elr g) as [[]|] eqn:Hs; try done; [|by destruct (in_shell_code _ _ Hk)].
  destruct Hv as [-> Hcl]. destruct (in_shell_call _ _ Hk Hs) as (H8 & Ha & Hv). by split_and!.
Qed.
End in_shell.

(** How many of the exceptions are system calls. *)
Fixpoint syncs {D} (es : list (trap D)) : nat :=
  match es with
  | [] => O
  | e :: es => (if tr_vector e is Sync_vector then 1 else 0) + syncs es
  end.
Lemma syncs_snoc {D} (es : list (trap D)) e :
  syncs (es ++ [e]) = (if tr_vector e is Sync_vector then S (syncs es) else syncs es)%nat.
Proof. induction es as [|x es IH]; simpl; [by destruct (tr_vector e)|]. rewrite IH. destruct (tr_vector e); lia. Qed.

Section shell_system.
Context {D : Type} `{HT : Transmitter D} `{!OwnPort D}.
Context (switch_context : nat → nat → St (kernel D) unit) (fuel : nat) (sp : nat → Z).
Context (m : program) (env : D → D → Prop) (Hsp : ∀ core, sp core ≠ NULL) (Hfuel : (delay < fuel)%nat).
Context (Henv : ∀ d d', env d d' → transmitted d' = transmitted d).
Context (idle_pc : Z) (Hidle : m !! idle_pc = Some (B idle_pc)).
Context (putc : Z) (in_main : nat → trap_frame → Prop) (Hc : compiled_shell m putc in_main).
Context (txt : list Z).

(** One core: the loop and the shell, which has made [k] calls. *)
Record shows (k : nat) (y : sys D) (st : rr) : Prop := {
  sh_ok : sys_ok 1 y st;
  sh_two : length (rr_ctx st) = 2%nat;
  sh_loop : ∀ f, task_frame y st 0 f → in_loop idle_pc f;
  sh_shell : ∀ f, task_frame y st 1 f → in_shell putc in_main k f;
  sh_text : transmitted (y_dev y) = txt ++ map shell_char (seq 0 k);
}.

Abbreviation step := (sys_step 1 switch_context fuel sp m env).

(** What an exception comes to, and the frame the task goes on with. *)
Lemma shows_result k y st e :
  shows k y st → offers m env y e →
  let k' := if tr_vector e is Sync_vector then S k else k in
  ∃ c f f' d, rr_cur st !! tr_core e = Some c ∧ (c < 2)%nat ∧ task_frame y st c f ∧ goes_on m f e ∧
    trap_result fuel e = Done (f', d) ∧ transmitted d = txt ++ map shell_char (seq 0 k') ∧
    (c = 0%nat → k' = k ∧ in_loop idle_pc f') ∧ (c = 1%nat → in_shell putc in_main k' f').
Proof using Hfuel Henv Hidle Hc OwnPort0.
  intros [Hy Htwo Hloop Hshell Htext] Ho k'. destruct (offers_ok _ _ _ _ _ _ Hy Ho) as (c & f & Hcur & _ & Hgo & _ & Htf).
  destruct (current_range st _ c (sr_ok _ _ (proj1 (proj1 (ur_runs _ _ _ (yo_ready _ _ _ Hy))))) Hcur) as [Hlt _].
  rewrite Htwo in Hlt. pose proof (Henv _ _ (proj1 Ho)) as Hd. rewrite Htext in Hd.
  exists c, f. assert (c = 0%nat ∨ c = 1%nat) as [-> | ->] by lia.
  - destruct (idle_goes_on _ _ _ _ Hidle (Hloop _ Htf) Hgo) as (Hv & Ht & Hi). subst k'. rewrite Hv.
    exists (tr_frame e), (after_tick false (tr_dev e)). rewrite (irq_result _ _ Hv Ht), tick_transmits.
    by split_and!.
  - pose proof (shell_goes_on m putc in_main Hc k f e (Hshell _ Htf) Hgo) as He. subst k'.
    destruct (tr_vector e) eqn:Hv.
    + destruct He as (Hcl & H8 & (a & Ha & Hk) & Hin).
      destruct (putc_result fuel e a Hfuel Hv Hcl H8 Ha) as (d & Hres & Htr).
      exists (set_reg 0 0 (tr_frame e)), d. split_and!; try done.
      rewrite Htr, Hd, <- app_assoc, seq_S, map_app, Hk. done.
    + destruct He as [Ht Hin]. exists (tr_frame e), (after_tick false (tr_dev e)).
      rewrite (irq_result _ _ Hv Ht), tick_transmits. by split_and!.
Qed.
Lemma shows_step k y st e y' :
  shows k y st → step y e y' →
  ∃ st', shows (if tr_vector e is Sync_vector then S k else k) y' st'.
Proof using Hsp Hfuel Henv Hidle Hc OwnPort0.
  intros Hy Hs. pose proof Hs as [Ho _]. destruct (shows_result k y st e Hy Ho)
    as (c & f & f' & d & Hcur & Hlt & Htf & Hgo & Hres & Htr & H0 & H1).
  destruct (sys_step_ok 1 switch_context fuel sp m env Hsp y st e (sh_ok _ _ _ Hy) Ho)
    as (c' & f0 & Hcur' & _ & _ & _ & Hinv). rewrite Hcur in Hcur'. injection Hcur' as <-.
  destruct (Hinv y' Hs) as (st' & f1 & Hres' & Hy' & Hl & Hothers).
  rewrite Hres in Hres'. injection Hres' as <- Hdev. exists st'. constructor.
  - exact Hy'.
  - rewrite Hl. apply Hy.
  - intros h Hh. destruct (Hothers _ _ Hh) as [[<- ->]|[_ Hh']]; [by apply H0|by eapply sh_loop].
  - intros h Hh. destruct (Hothers _ _ Hh) as [[<- ->]|[Hne Hh']]; [by apply H1|].
    assert (c = 0%nat) as -> by lia. destruct (H0 eq_refl) as [-> _]. by eapply sh_shell.
  - by rewrite <- Hdev.
Qed.
Lemma shows_progress k y st e : shows k y st → offers m env y e → ∃ y', step y e y'.
Proof using Hsp Hfuel Henv Hidle Hc OwnPort0.
  intros Hy Ho. destruct (shows_result k y st e Hy Ho) as (c & f & f' & d & _ & _ & _ & _ & Hres & _).
  destruct (sys_step_ok 1 switch_context fuel sp m env Hsp y st e (sh_ok _ _ _ Hy) Ho) as (_ & _ & _ & _ & _ & Hp & _).
  by eapply Hp.
Qed.
End shell_system.

(** * The system from its start on *)

Section from_start.
Context {D : Type} `{Device D}.
Context (n : nat) (img1 img2 : list Z).
Context (app1_bin_start app1_bin_end app2_bin_start app2_bin_end : Z).
Context (stack_top stack_top_second second_entry : Z).
Context (psci : Z → Z → Z → Z → Z) (depth : nat → Z) (fuel : nat).
Context (switch_context : nat → nat → St (kernel D) unit) (fuel2 : nat) (sp : nat → Z).
Context (m : program) (env : D → D → Prop) (idle_pc : Z).

Abbreviation run := (boot_run (Z.of_nat n) app1_bin_start app1_bin_end app2_bin_start app2_bin_end
  stack_top stack_top_second second_entry psci depth fuel).
Abbreviation start := (starts n img1 img2 app1_bin_start app1_bin_end app2_bin_start app2_bin_end
  stack_top stack_top_second second_entry psci depth fuel).

(** C17: the tasks the cores have when they come to the loop at the end of
    [main_entry] never run: core [i] is in the loop, at EL1, as task [i], the interrupt
    that ends its time saves the loop as the frame of the task, over the one
    [create_task] made, and from then on the task is the loop.  So whatever the
    programs in memory are and whenever exceptions come, a core that runs a task below
    the number of cores is in the loop; with two cores both always are, and neither
    application runs. *)
Theorem first_tasks_never_run rs b :
  start b rs → (∀ core, sp core ≠ NULL) → m !! idle_pc = Some (B idle_pc) →
  wp (run (concat rs))
     (λ _ b', ∀ regs d es y, length regs = n → Forall (in_loop idle_pc) regs →
        sys_run (Z.of_nat n) switch_context fuel2 sp m env (sys_start n (b_machine b') regs d) es y →
        (∀ core j f, y_tasks y !! core = Some j → y_regs y !! core = Some f → (j < n)%nat → in_loop idle_pc f) ∧
        (n = 2%nat → Forall (in_loop idle_pc) (y_regs y))) b.
Proof.
  intros Hs Hsp Hidle. eapply wp_mono; [by apply (kernel_starts n img1 img2)|]. intros _ b' [st Hst] regs d es y Hlen Hregs Hrun.
  assert (Hw : waits n idle_pc y).
  { refine (sys_run_inv _ _ _ _ _ _ (λ y _, waits n idle_pc y) _ _ _ _ _ Hrun).
    - intros y0 _ e y1 Hw Hstep. by eapply (waits_step n switch_context fuel2 sp m env Hsp idle_pc Hidle).
    - by apply (waits_start n idle_pc _ st). }
  destruct Hw as (st' & Hy & Htwo & Hw). split.
  - intros core j f Hj Hf Hn. apply (Hw j f); [|done]. left. exists core. by rewrite <- (yo_tasks _ _ _ Hy).
  - intros Hn. apply Forall_lookup. intros core f Hf. pose proof (lookup_lt_Some _ _ _ Hf) as Hlt.
    rewrite (yo_regs _ _ _ Hy) in Hlt. destruct (lookup_lt_is_Some_2 _ _ Hlt) as [j Hj].
    apply (Hw j f); [left; eauto|].
    destruct (current_range st' core j (sr_ok _ _ (proj1 (proj1 (ur_runs _ _ _ (yo_ready _ _ _ Hy))))) Hj). lia.
Qed.
End from_start.

Section shell_start.
Context {D : Type} `{HT : Transmitter D} `{!OwnPort D}.
Context (img1 img2 : list Z).
Context (app1_bin_start app1_bin_end app2_bin_start app2_bin_end : Z).
Context (stack_top stack_top_second second_entry : Z).
Context (psci : Z → Z → Z → Z → Z) (depth : nat → Z) (fuel : nat).
Context (switch_context : nat → nat → St (kernel D) unit) (fuel2 : nat) (sp : nat → Z).
Context (m : program) (env : D → D → Prop) (idle_pc putc : Z) (in_main : nat → trap_frame → Prop).

(** C31: the shell prints its text.  On one core, which the Makefile has, from
    power-on, with a port that has room again after finitely many polls, for every
    compiled form of the shell's [main] that is made of the instructions above and
    makes its calls ([compiled_shell]), such as the one of [-O0] ([example_compiled]):
    in every run of the system, whenever the timer's interrupts come between the
    instructions of the tasks, the characters the port has been given by system calls
    are the ones [main] has put, [ABCDEFGH], a return and a line feed over and over, in
    order and once each, as many as calls were made; and the kernel returns from every
    exception of the loop and the shell.  The messages of the kernel itself, such as
    the one of [_schedule] at a switch, which the board has between those characters,
    are in the log and not among them. *)
Theorem shell_prints rs b :
  starts 1 img1 img2 app1_bin_start app1_bin_end app2_bin_start app2_bin_end stack_top stack_top_second second_entry
    psci depth fuel b rs →
  (∀ core, sp core ≠ NULL) → (delay < fuel2)%nat → (∀ d d', env d d' → transmitted d' = transmitted d) →
  m !! idle_pc = Some (B idle_pc) → compiled_shell m putc in_main →
  wp (boot_run 1 app1_bin_start app1_bin_end app2_bin_start app2_bin_end stack_top stack_top_second second_entry
        psci depth fuel (concat rs))
     (λ _ b', ∀ f d es y, in_loop idle_pc f →
        sys_run 1 switch_context fuel2 sp m env (sys_start 1 (b_machine b') [f] d) es y →
        transmitted (y_dev y) = transmitted d ++ map shell_char (seq 0 (syncs es)) ∧
        ∀ e, offers m env y e → ∃ y', sys_step 1 switch_context fuel2 sp m env y e y') b.
Proof using OwnPort0.
  intros Hs Hsp Hfuel Henv Hidle Hc. eapply wp_mono; [by apply (kernel_starts 1 img1 img2)|].
  intros _ b' [st Hst] f d es y Hf Hrun.
  assert (Hlen : length (rr_ctx st) = 2%nat).
  { by rewrite <- (length_map frame_start), (ks_tasks _ _ _ Hst). }
  assert (Hregs : Forall (in_loop idle_pc) [f]) by (by apply Forall_singleton).
  assert (H0 : shows idle_pc putc in_main (transmitted d) 0 (sys_start 1 (b_machine b') [f] d) st).
  { constructor; [by apply (sys_start_ok 1 idle_pc)|exact Hlen| | |by rewrite app_nil_r].
    - intros g Hg. destruct (start_frames 1 idle_pc _ st [f] d _ g Hst eq_refl Hregs Hg) as [[_ ?]|[? _]]; [done|lia].
    - intros g Hg. destruct (start_frames 1 idle_pc _ st [f] d _ g Hst eq_refl Hregs Hg) as [[? _]|[_ Hctx]]; [lia|].
      pose proof (Forall_lookup_1 _ _ _ _ (ks_frames _ _ _ Hst) Hctx) as Hok. split; [exact Hok|]. left.
      apply (cs_start _ _ _ Hc); [exact Hok|]. pose proof (ks_tasks _ _ _ Hst) as Hts.
      apply (f_equal (lookup 1%nat)) in Hts. rewrite list_lookup_fmap, Hctx in Hts.
      change (Some (frame_start g) = Some (APP2_START, APP2_STACK, SPSR_EL1_USER)) in Hts. congruence. }
  assert (Hy : ∃ st', shows idle_pc putc in_main (transmitted d) (syncs es) y st').
  { refine (sys_run_inv _ _ _ _ _ _ (λ y es, ∃ st', shows idle_pc putc in_main (transmitted d) (syncs es) y st') _ _ _ _ _ Hrun);
      [|by exists st].
    intros y0 past e y1 [st0 Hy0] Hstep. rewrite syncs_snoc.
    exact (shows_step switch_context fuel2 sp m env Hsp Hfuel Henv idle_pc Hidle putc in_main Hc _ _ _ _ _ _ Hy0 Hstep). }
  destruct Hy as [st' Hy]. split; [apply Hy|]. intros e He.
  exact (shows_progress switch_context fuel2 sp m env Hsp Hfuel Henv idle_pc Hidle putc in_main Hc _ _ _ _ _ Hy He).
Qed.
End shell_start.

(** * The test application

    It never makes a system call: after [stack_test] it stays at [b .], before the
    call of its loop. *)

Section testapp.
Context (m : program) (a : Z) (Hm : placed m a (testapp_code a)) (Ha : 0 ≤ a < 2 ^ 64 - 64).

Definition in_testapp (f : trap_frame) : Prop :=
  frame_ok f ∧ (elr f = a ∨ elr f = a + 4 ∨
    ∃ i, 0 ≤ i < 7 ∧ elr f = testapp_stack_test a + 4 * i ∧ r f !! 30%nat = Some (a + 4)).
Lemma stack_test_code i :
  0 ≤ i < 7 → m !! (testapp_stack_test a + 4 * i) = [Mov 0 1; Mov 1 2; Sub_sp 16; Str 0 0; Str 1 8; Add_sp 16; Ret] !! Z.to_nat i.
Proof using Hm.
  unfold testapp_code, placed in Hm. rewrite <- !Z.add_assoc in Hm. cbn [Z.add Pos.add Pos.succ Pos.add_carry] in Hm.
  destruct Hm as (_ & _ & _ & _ & _ & _ & _ & _ & H0 & H1 & H2 & H3 & H4 & H5 & H6 & _). intros Hi. unfold testapp_stack_test.
  assert (i = 0 ∨ i = 1 ∨ i = 2 ∨ i = 3 ∨ i = 4 ∨ i = 5 ∨ i = 6) as [->|[->|[->|[->|[->|[->| ->]]]]]] by lia;
    rewrite <- Z.add_assoc; assumption.
Qed.
Lemma in_testapp_step f g : in_testapp f → instr_step m f = Some g → in_testapp g.
Proof using Hm Ha.
  intros [Hok Hin] Hs. pose proof (instr_step_ok _ _ _ Hs Hok) as Hok'. split; [done|].
  pose proof Hm as (H0 & H1 & _). unfold instr_step in Hs. destruct Hin as [He|[He|(i & Hi & He & H30)]].
  - rewrite He, H0 in Hs. cbn in Hs. injection Hs as <-. right. right. exists 0. split_and!; [lia|lia|cbn; lia|].
    change (<[30%nat := u64 (a + 4)]> (r f) !! 30%nat = Some (a + 4)). rewrite u64_small by lia.
    apply list_lookup_insert_eq. unfold frame_ok, NUM_REGS in Hok. lia.
  - rewrite He, H1 in Hs. cbn in Hs. injection Hs as <-. by right; left.
  - rewrite He, (stack_test_code i Hi) in Hs.
    assert (Hnext : u64 (testapp_stack_test a + 4 * i + 4) = testapp_stack_test a + 4 * (i + 1)).
    { unfold testapp_stack_test. rewrite u64_small; lia. }
    assert (i = 0 ∨ i = 1 ∨ i = 2 ∨ i = 3 ∨ i = 4 ∨ i = 5 ∨ i = 6) as [->|[->|[->|[->|[->|[->| ->]]]]]] by lia;
      cbn [Z.to_nat Pos.to_nat Pos.iter_op Nat.add lookup list_lookup mbind option_bind] in Hs.
    1-6: right; right; eexists (_ + 1); injection Hs as <-; cbn [elr next_pc set_elr set_reg set_usp r];
      rewrite He, Hnext; (split_and!; [..|done|]); [lia|lia|by rewrite ?list_lookup_insert_ne].
    change (Pos.to_nat 6) with 6%nat in Hs. cbn in Hs. rewrite H30 in Hs. injection Hs as <-. by right; left.
Qed.
Lemma testapp_makes_no_call f g :
  frame_ok f → elr f = a → reaches m f g → m !! elr g ≠ Some Svc.
Proof using Hm Ha.
  intros Hok He Hg. assert (Hin : in_testapp g).
  { eapply (reaches_inv m in_testapp); [apply in_testapp_step|exact Hg|]. split; [done|by left]. }
  pose proof Hm as (H0 & H1 & _). destruct Hin as [_ [Hg'|[Hg'|(i & Hi & Hg' & _)]]]; rewrite Hg'; [by rewrite H0|by rewrite H1|].
  rewrite stack_test_code by done.
  assert (i = 0 ∨ i = 1 ∨ i = 2 ∨ i = 3 ∨ i = 4 ∨ i = 5 ∨ i = 6) as [->|[->|[->|[->|[->|[->| ->]]]]]] by lia; done.
Qed.
End testapp.

(** * Examples *)

(** The board's port: what it is given is sent. *)
#[export, program] Instance board_transmitter : Transmitter (list Z) := {| transmitted := λ d, d; delay := 0 |}.
Next Obligation. intros d. exists 0%nat, d. split_and!; [done| |done]. by exists 0. Qed.
Next Obligation. done. Qed.
#[export] Instance board_own_port : OwnPort (list Z).
Proof.
  constructor; [done|]. intros v a d Ha. change (wr32 v a d) with (if a =? UART0_DR then d ++ [u8 v] else d).
  by rewrite (proj2 (Z.eqb_neq _ _) Ha).
Qed.

(** The shell as [-O0] compiles it: the frame record, a [mov] and a [bl] for each call,
    a branch back, and the routines of [syscall.S] behind it; the loop of the kernel
    below. *)
Definition main_at : Z := APP2_START.
Definition loop_at : Z := main_at + 8.
Definition putc_at : Z := main_at + 92.
Definition idle_at : Z := 0x40080200.
Definition code_example : program :=
  list_to_map ((idle_at, B idle_at) :: (main_at, Stp_pre 29 30 (-16)) :: (main_at + 4, Mov_sp 29) ::
    flat_map (λ i, [(loop_at + 8 * Z.of_nat i, Mov 0 (shell_char i)); (loop_at + 8 * Z.of_nat i + 4, Bl putc_at)]) (seq 0 10) ++
    (loop_at + 80, B loop_at) ::
    imap (λ i x, (putc_at + 4 * Z.of_nat i, x)) syscall_code).
Definition main_example (k : nat) (f : trap_frame) : Prop :=
  let i := (k mod 10)%nat in
  elr f = loop_at + 8 * Z.of_nat i ∨
  (elr f = loop_at + 8 * Z.of_nat i + 4 ∧ r f !! 0%nat = Some (shell_char i)) ∨
  (i = 0%nat ∧ elr f = loop_at + 80) ∨
  (i = 0%nat ∧ (elr f = main_at ∨ elr f = main_at + 4)).

Lemma below_ten (P : nat → Prop) :
  P 0%nat → P 1%nat → P 2%nat → P 3%nat → P 4%nat → P 5%nat → P 6%nat → P 7%nat → P 8%nat → P 9%nat →
  ∀ i, (i < 10)%nat → P i.
Proof. intros ?????????? i Hi. do 10 (destruct i as [|i]; [done|]). lia. Qed.
Lemma code_at i :
  (i < 10)%nat →
  code_example !! (loop_at + 8 * Z.of_nat i) = Some (Mov 0 (shell_char i)) ∧
  code_example !! (loop_at + 8 * Z.of_nat i + 4) = Some (Bl putc_at) ∧
  u64 (loop_at + 8 * Z.of_nat i + 4) = loop_at + 8 * Z.of_nat i + 4 ∧
  u64 (loop_at + 8 * Z.of_nat i + 4 + 4) = loop_at + 8 * (Z.of_nat i + 1) ∧ u8 (shell_char i) = shell_char i.
Proof. revert i. apply below_ten; split_and!; vm_compute; reflexivity. Qed.
Lemma code_main : code_example !! main_at = Some (Stp_pre 29 30 (-16)).
Proof. vm_compute. reflexivity. Qed.
Lemma code_main_4 : code_example !! (main_at + 4) = Some (Mov_sp 29).
Proof. vm_compute. reflexivity. Qed.
Lemma shell_char_mod k : shell_char (k mod 10) = shell_char k.
Proof. unfold shell_char. by rewrite Nat.Div0.mod_mod. Qed.

Lemma example_compiled : compiled_shell code_example putc_at main_example.
Proof.
  constructor.
  - split; [vm_compute; repeat split|]. done.
  - intros f _ [= He _ _]. right. right. right. split; [done|]. left. by rewrite He.
  - intros k f Hf Hok. unfold main_example in Hf. cbv zeta in Hf.
    pose proof (Nat.mod_upper_bound k 10 ltac:(lia)) as Hi. set (i := (k mod 10)%nat) in *.
    destruct (code_at i Hi) as (H1 & H2 & H3 & H4 & H5).
    assert (Hlen : (30 < length (r f))%nat) by (unfold frame_ok, NUM_REGS in Hok; lia).
    unfold instr_step. destruct Hf as [He|[[He H0]|[[Hz He]|[Hz [He|He]]]]].
    + rewrite He, H1. eexists. split; [reflexivity|]. left. right. left. fold i.
      cbn [elr next_pc set_elr set_reg r]. rewrite He, H3. split; [done|]. apply list_lookup_insert_eq. lia.
    + rewrite He, H2. eexists. split; [reflexivity|]. right. split; [done|]. cbn [elr set_elr set_reg r]. split.
      * exists (shell_char i). rewrite list_lookup_insert_ne by done. split; [done|]. rewrite H5. apply shell_char_mod.
      * intros g (_ & Hg & _). cbn [r set_elr set_reg] in Hg. rewrite list_lookup_insert_eq in Hg by done.
        injection Hg as Hg. rewrite H4 in Hg. unfold main_example. cbv zeta.
        assert (Hs : (S k mod 10)%nat = if decide (i = 9%nat) then 0%nat else S i).
        { subst i. pose proof (Nat.div_mod_eq k 10). case_decide; symmetry.
          - apply (Nat.mod_unique (S k) 10 (S (k / 10))); lia.
          - apply (Nat.mod_unique (S k) 10 (k / 10)); lia. }
        rewrite Hs. case_decide as H9; [right; right; left|left].
        -- split; [done|]. rewrite <- Hg, H9. done.
        -- rewrite <- Hg. lia.
    + rewrite He. eexists. split; [vm_compute; reflexivity|]. left. left. fold i. rewrite Hz. cbn [elr set_elr]. done.
    + rewrite He, code_main. eexists. split; [reflexivity|]. left. right. right. right. fold i. split; [done|]. right.
      cbn [elr next_pc set_elr set_usp]. rewrite He. vm_compute. reflexivity.
    + rewrite He, code_main_4. eexists. split; [reflexivity|]. left. left. fold i. rewrite Hz.
      cbn [elr next_pc set_elr set_reg]. rewrite He. vm_compute. reflexivity.
Qed.
Lemma code_idle : code_example !! idle_at = Some (B idle_at).
Proof. vm_compute. reflexivity. Qed.
Definition idle_frame : trap_frame := set_elr idle_at (set_spsr SPSR_EL1_EL1h zero_frame).
Lemma idle_frame_ok : in_loop idle_at idle_frame.
Proof. by split_and!. Qed.
Definition board_env (d d' : list Z) : Prop := d' = d.

Lemma first_tasks_never_run_witness :
  wp (board_run 2 (concat (replicate 24 [0%nat; 1%nat])))
     (λ _ b', ∀ es y,
        sys_run 2 board_switch 1 board_stack code_example board_env
          (sys_start 2 (b_machine b') [idle_frame; idle_frame] []) es y →
        Forall (in_loop idle_at) (y_regs y)) (board_example 2).
Proof.
  eapply wp_mono.
  { exact (first_tasks_never_run 2 (img_example 1) (img_example 101) 0xA0000000 0xA0000010 0xA0001000 0xA0001010 0x40100000
      0x40110000 0x40080100 (λ _ _ _ _, 0) (λ _, 96) 20 board_switch 1 board_stack code_example board_env idle_at
      (replicate 24 [0%nat; 1%nat]) (board_example 2)
      (board_starts 2 (replicate 24 [0%nat; 1%nat]) ltac:(lia) ltac:(apply Forall_replicate, round_two) ltac:(simpl; lia))
      board_stack_not_null code_idle). }
  intros ? b' Hw es y Hrun.
  destruct (Hw [idle_frame; idle_frame] [] es y eq_refl) as [_ Hall]; [|exact Hrun|by apply Hall].
  repeat constructor; apply idle_frame_ok.
Defined.
Lemma round_one : round 1 [0%nat].
Proof. intros c. rewrite elem_of_cons, elem_of_nil. lia. Qed.
Lemma shell_prints_witness :
  wp (board_run 1 (concat (replicate 12 [0%nat])))
     (λ _ b', ∀ es y,
        sys_run 1 board_switch 1 board_stack code_example board_env (sys_start 1 (b_machine b') [idle_frame] []) es y →
        y_dev y = map shell_char (seq 0 (syncs es)) ∧
        ∀ e, offers code_example board_env y e →
          ∃ y', sys_step 1 board_switch 1 board_stack code_example board_env y e y') (board_example 1).
Proof.
  eapply wp_mono.
  { exact (shell_prints (img_example 1) (img_example 101) 0xA0000000 0xA0000010 0xA0001000 0xA0001010 0x40100000
      0x40110000 0x40080100 (λ _ _ _ _, 0) (λ _, 96) 20 board_switch 1 board_stack code_example board_env idle_at putc_at
      main_example (replicate 12 [0%nat]) (board_example 1)
      (board_starts 1 (replicate 12 [0%nat]) ltac:(lia) ltac:(apply Forall_replicate, round_one) ltac:(simpl; lia))
      board_stack_not_null ltac:(apply Nat.lt_0_succ) (λ d d' (E : board_env d d'), E) code_idle example_compiled). }
  intros ? b' Hw es y Hrun. exact (Hw idle_frame [] es y idle_frame_ok Hrun).
Defined.

(** The interrupt of the timer can always come. *)
Example example_offers (y : sys (list Z)) f :
  y_regs y !! 0%nat = Some f →
  offers code_example board_env y
    {| tr_core := 0; tr_vector := Irq_vector; tr_frame := f; tr_esr := 0; tr_dev := y_dev y |}.
Proof. intros Hf. split; [done|]. exists f. split; [done|]. exists f. split; [apply rtc_refl|]. by split. Qed.
