(* ===== verification/Hyper.v ===== *)
(** The start of the hypervisor: [main_hyper.c] and [include/sys/vtcr.h]. *)

From S2P Require Import Prelude Config Gic ByteMem Word Frame Uart Vgic Kernel Sched Keeps Vcpu Ept Trap Quiet Image.

(** * Definitions *)

(** [include/sys/vtcr.h]. *)
Definition VTCR_T0SZ (x : Z) : Z := x << 0.
Definition VTCR_SL0 (x : Z) : Z := x << 6.
Definition VTCR_IRGN0_WBWA : Z := 1 << 8.
Definition VTCR_ORGN0_WBWA : Z := 1 << 10.
Definition VTCR_SH0_IS : Z := 3 << 12.
Definition VTCR_TG0_4K : Z := 0 << 14.
Definition VTCR_PS_MASK_36_BITS : Z := 1 << 16.
Definition VTCR_VS_8BIT : Z := 0 << 19.

Definition GUEST_DTB_START : Z := 0x70000000.
Definition GUEST_FS_START : Z := 0x78000000.

(** The machine with the memory of the images and the registers only this file
    uses. *)
Record hyper (D : Type) := {
  h_machine : machine D;
  h_mem : mem;
  vtcr_el2 : Z;
  hcr_el2 : Z;
  sctlr_el2 : Z;
}.
Arguments h_machine {D} h. Arguments h_mem {D} h. Arguments vtcr_el2 {D} h.
Arguments hcr_el2 {D} h. Arguments sctlr_el2 {D} h.

Section hyper.
Context {D : Type} `{Device D}.

Definition set_machine (s : machine D) (h : hyper D) : hyper D :=
  {| h_machine := s; h_mem := h_mem h; vtcr_el2 := vtcr_el2 h; hcr_el2 := hcr_el2 h; sctlr_el2 := sctlr_el2 h |}.
Definition set_mem (m : mem) (h : hyper D) : hyper D :=
  {| h_machine := h_machine h; h_mem := m; vtcr_el2 := vtcr_el2 h; hcr_el2 := hcr_el2 h; sctlr_el2 := sctlr_el2 h |}.
Definition write_vtcr_el2 (v : Z) : St (hyper D) unit :=
  modify (λ h, {| h_machine := h_machine h; h_mem := h_mem h; vtcr_el2 := v; hcr_el2 := hcr_el2 h;
                  sctlr_el2 := sctlr_el2 h |}).

Definition in_machine {A} (m : St (machine D) A) : St (hyper D) A := on_part h_machine set_machine m.
Definition in_ept {A} (m : St ept A) : St (hyper D) A :=
  in_machine (on_part m_ept (λ e s, Build_machine (m_kernel s) e (m_regs s)) m).
Definition in_loader {A} (m : St (loader D) A) : St (hyper D) A :=
  on_part (λ h, (h_machine h, h_mem h)) (λ l h, set_mem (snd l) (set_machine (fst l) h)) m.
Definition hprint (e : log_entry) : St (hyper D) unit := in_machine (mprint e).

(** The fuel of [memcpy] and of the cache loops; the symbols of the linker and of
    the guest's assembly. *)
Context (fuel fuel2 : nat).
Context (bin_start bin_end dtb_start dtb_end fs_start fs_end ept_L1 test_guest : Z).

Definition vtcr_init : St (hyper D) unit :=
  hprint (Info (ln "    Initialize vtcr..."));;
  let vtcr_val := VTCR_VS_8BIT .| VTCR_PS_MASK_36_BITS .| VTCR_TG0_4K .| VTCR_SH0_IS .|
                  VTCR_ORGN0_WBWA .| VTCR_IRGN0_WBWA in
  let vtcr_val := vtcr_val .| VTCR_T0SZ (64 - 32) in
  let vtcr_val := vtcr_val .| VTCR_SL0 1 in
  hprint (Printf (ln "vtcr val: 0x%x") [Num vtcr_val]);;
  write_vtcr_el2 vtcr_val.

Definition guest_trap_init : St (hyper D) unit :=
  hprint (Info (ln "    Initialize trap..."));;
  h ← get;
  hprint (Printf (ln "HCR : 0x%x") [Num (hcr_el2 h)]).

Definition copy_guest : St (hyper D) unit :=
  in_loader (copy_image fuel "guest kernel image" bin_start GUEST_KERNEL_START bin_end).
Definition copy_dtb : St (hyper D) unit :=
  in_loader (copy_image fuel "guest dtb" dtb_start GUEST_DTB_START dtb_end).
Definition copy_fs : St (hyper D) unit :=
  in_loader (copy_image fuel "guest fs" fs_start GUEST_FS_START fs_end).

Definition hyper_messages : St (hyper D) unit :=
  hprint (Printf (String.append (ln "") (String.append (ln "Hello Hyper:") (ln "there's some hyper tests: "))) []);;
  h ← get;
  hprint (Printf (ln "scrlr_el2: 0x%x") [Num (sctlr_el2 h)]);;
  hprint (Printf (ln "hcr_el2: 0x%x") [Num (hcr_el2 h)]);;
  hprint (Printf (ln "read_vttbr_el2: 0x%x") [Num (vttbr (m_ept (h_machine h)))]);;
  hprint (Printf (ln "cacheline_bytes: %d") [Num (cacheline_bytes (m_ept (h_machine h)))]);;
  hprint (Printf (ln "") []).

(** The tasks of the two virtual machines. *)
Definition start_guests : St (kernel D) unit :=
  schedule_init;;
  craete_vm_task test_guest;;
  craete_vm_task GUEST_KERNEL_START;;
  schedule_init_local 0;;
  print_current_task_list.

(** [hyper_main] up to the call of [guest_start], which is in assembly. *)
Definition hyper_main : St (hyper D) unit :=
  in_machine (in_kernel (kcon io_early_init));;
  in_machine (on_mach gic_virtual_init);;
  in_machine timer_init;;
  hprint (Printf (ln (ln "io, gic, timer, init ok...")) []);;
  vtcr_init;;
  in_ept (guest_ept_init fuel2 ept_L1);;
  guest_trap_init;;
  copy_dtb;;
  copy_guest;;
  copy_fs;;
  in_ept (mmio_map_gicd fuel2);;
  in_ept (mmio_map_gicc fuel2);;
  in_machine (in_kernel vm_init);;
  hyper_messages;;
  in_ept (trap_page fuel2 MMIO_ARREA);;
  on_part h_mem set_mem (store_le 8 0x50000000 0x1234);;
  in_machine (in_kernel start_guests).
End hyper.

(** * The guests *)

(** What a virtual machine starts with: its entry, the processor state, and the
    device tree in [x0]. *)
Definition guest_start_frame (func : Z) (f : trap_frame) : Prop :=
  elr f = func ∧ spsr f = SPSR_EL2_VALUE_IRQ ∧ r f !! 0%nat = Some 0x70000000.

Section guests.
Context {D : Type} `{Device D} (test_guest : Z).

Lemma vm_frame_start func f : r f ≠ [] → guest_start_frame func (vm_frame func f).
Proof. intros Hf. unfold guest_start_frame, vm_frame, set_reg. cbn. by destruct (r f). Qed.

Lemma keeps_start_guests : keeps (outside_sched (D := D)) (start_guests test_guest).
Proof. unfold start_guests. keeps. Qed.

(** The blocks of the two virtual CPUs, whose words are those of the static data but
    for one. *)
Definition guest_blocks (k : kernel D) : Prop :=
  ∃ ws, length ws = 2%nat ∧ vcpus (sysregs_view k) ws ∧
    ∀ w, w ∈ ws → w !! SPSR_EL1_FIELD = Some 0x30C50830.

Lemma vm_sysregs_lookup i bs b :
  bs !! i = Some b → vm_sysregs i bs !! i = Some (<[SPSR_EL1_FIELD := 0x30C50830]> b).
Proof. intros Hb. unfold vm_sysregs. by rewrite list_lookup_alter_eq, Hb. Qed.
Lemma vm_sysregs_lookup_ne i j bs : i ≠ j → vm_sysregs i bs !! j = bs !! j.
Proof. intros Hne. unfold vm_sysregs. by rewrite list_lookup_alter_ne. Qed.

Lemma guest_blocks_made (k : kernel D) bs :
  (64 ≤ length bs)%nat → Forall (λ b, length b = SYSREG_WORDS) bs →
  cpu_sysregs k = vm_sysregs 1 (vm_sysregs 0 bs) →
  (∀ i, (i < 2)%nat → sys_reg <$> g_cpu_dec k !! i = Some (Some i)) → guest_blocks k.
Proof.
  intros Hlen Hbs Hk Hs. rewrite Forall_forall in Hbs.
  destruct (lookup_lt_is_Some_2 bs 0) as [b0 H0]; [lia|]. destruct (lookup_lt_is_Some_2 bs 1) as [b1 H1]; [lia|].
  assert (Hb : ∀ b, b ∈ [b0; b1] → length b = SYSREG_WORDS).
  { intros b Hb. repeat (apply elem_of_cons in Hb as [->|Hb]; [apply Hbs; by eapply list_elem_of_lookup_2|]).
    by apply not_elem_of_nil in Hb. }
  set (made := map (<[SPSR_EL1_FIELD := 0x30C50830]>) [b0; b1]).
  exists (map regs_of made). split_and!; [done|constructor|].
  - intros i Hi. cbn [fst sysregs_view]. rewrite list_lookup_fmap. apply Hs. by cbn in Hi.
  - intros i w Hw. cbn [snd sysregs_view]. rewrite Hk. destruct i as [|[|i]]; [..|done]; injection Hw as <-.
    + eexists. rewrite vm_sysregs_lookup_ne by done. split_and!; [by apply vm_sysregs_lookup| |done].
      rewrite length_insert. apply Hb. set_solver.
    + eexists. split_and!; [apply vm_sysregs_lookup; by rewrite vm_sysregs_lookup_ne| |done].
      rewrite length_insert. apply Hb. set_solver.
  - intros w Hw. apply list_elem_of_fmap in Hw as (b & -> & Hw). apply list_elem_of_fmap in Hw as (b' & -> & Hw).
    unfold regs_of. rewrite lookup_take_lt by (simpl; unfold SPSR_EL1_FIELD; lia).
    apply list_lookup_insert_eq. rewrite (Hb b' Hw). unfold SYSREG_WORDS, SPSR_EL1_FIELD. lia.
Qed.

Lemma start_guests_sched (k : kernel D) ti :
  task_count k = 0 → arrays_ok k → infos k !! 0%nat = Some ti → ti_cpu ti = 0 →
  (∀ i x, g_cpu_dec k !! i = Some x → r (ctx x) ≠ []) →
  wp (start_guests test_guest)
     (λ _ k', ∃ st f g, runs 1 k' st ∧ rr_cur st = [0%nat] ∧ rr_ctx st = [f; g] ∧
        guest_start_frame test_guest f ∧ guest_start_frame GUEST_KERNEL_START g ∧ guest_blocks k') k.
Proof.
  intros Hn Ha Hti Hcpu Hr. unfold start_guests, schedule_init. do 2 wp_step.
  eapply wp_mono.
  { exact (wp_keeps sysregs_view _ _ _ (keeps_clear_ids _ 65 0)
      (clear_ids_ok 65 0 (set_locks false false k) ltac:(lia) ltac:(lia) ltac:(destruct Ha; by constructor))). }
  intros _ k1 [(Ha1 & Hi1 & Hc1 & Hg1 & Hp1 & Hs1) Hv1].
  cbn [infos task_count print_lock sched_lock g_cpu_dec set_locks] in *.
  wp_step. set (st0 := {| rr_cur := []; rr_ctx := []; rr_left := [] |}).
  assert (Hk1 : sched_repr k1 st0) by (constructor; cbn; try done; try lia; by constructor; try constructor).
  eapply wp_mono; [apply (craete_vm_task_ok _ _ _ Hk1); [cbn; lia|done]|].
  intros r1 k2 (_ & Ha2 & Hb2 & Hr2 & (Hi2 & Hp2 & Hs2 & Hg2) & x & Hx & Hk2). wp_step.
  eapply wp_mono; [apply (craete_vm_task_ok _ _ _ Hk2); [cbn; lia|done]|].
  intros r2 k3 (_ & Ha3 & Hb3 & Hr3 & (Hi3 & Hp3 & Hs3 & Hg3) & y & Hy & Hk3).
  cbn [rr_ctx rr_add st0 length app] in *.
  assert (Hblocks : guest_blocks k3).
  { apply (guest_blocks_made _ (cpu_sysregs k1)); [by rewrite (len_sysregs _ Ha1)|apply (len_blocks _ Ha1)|congruence|].
    intros [|[|i]] Hi; [by rewrite Hg3|done|lia]. }
  assert (Hrx : r (ctx x) ≠ []) by (eapply (Hr 0%nat); by rewrite <- Hg1).
  assert (Hry : r (ctx y) ≠ []) by (eapply (Hr 1%nat); by rewrite <- Hg1, <- Hg2).
  set (f := vm_frame test_guest (ctx x)) in *. set (g := vm_frame GUEST_KERNEL_START (ctx y)) in *.
  pose proof (starting_none _ _ Hk3 eq_refl) as Hst. wp_step.
  eapply wp_mono.
  { refine (wp_keeps sysregs_view _ _ _ (keeps_schedule_init_local _ 0) _).
    apply (schedule_init_local_ok 0 ti _ _ _ Hst); [congruence|done|set_solver|cbn; lia|congruence]. }
  intros _ k4 [(_ & Hs4 & _ & Hst4) Hv4].
  pose proof (starting_all _ _ 1 _ Hst4 (Permutation_refl _)) as Hk4.
  eapply wp_mono; [by eapply print_current_task_list_ok|].
  intros _ k5 (m & ->). exists (with_cur (seq 0 1) (rr_add g (rr_add f st0))), f, g.
  split_and!; [split_and!|done|done|..].
  - by apply sched_repr_mach.
  - cbn. congruence.
  - done.
  - by apply vm_frame_start.
  - by apply vm_frame_start.
  - unfold guest_blocks in *. rewrite <- Hv4 in Hblocks. exact Hblocks.
Qed.
Lemma start_guests_ok (k : kernel D) ti :
  task_count k = 0 → arrays_ok k → infos k !! 0%nat = Some ti → ti_cpu ti = 0 →
  (∀ i x, g_cpu_dec k !! i = Some x → r (ctx x) ≠ []) →
  wp (start_guests test_guest)
     (λ _ k', (∃ st f g, runs 1 k' st ∧ rr_cur st = [0%nat] ∧ rr_ctx st = [f; g] ∧
        guest_start_frame test_guest f ∧ guest_start_frame GUEST_KERNEL_START g ∧ guest_blocks k') ∧
        outside_sched k' = outside_sched k) k.
Proof.
  intros Hn Ha Hti Hcpu Hr.
  exact (wp_keeps _ _ _ _ keeps_start_guests (start_guests_sched k ti Hn Ha Hti Hcpu Hr)).
Qed.
End guests.

(** * The parts of [hyper_main] *)

(** A virtual interrupt controller that gives the guest an interrupt under its own
    number. *)
Definition routes (g : vgic) (v : nat) : Prop := ptov g !! v = Some (Z.of_nat v) ∧ vtop g !! v = Some (Z.of_nat v).

(** [VTCR_EL2] as the hardware reads it: the width of the guest's addresses, the
    level the walk starts at, the granule. *)
Definition vtcr_addr_bits (v : Z) : Z := 64 - get_field 0 6 v.
Definition vtcr_start_level (v : Z) : Z := if get_field 6 2 v =? 0 then 2 else if get_field 6 2 v =? 1 then 1 else 0.
Definition vtcr_granule_4k (v : Z) : bool := get_field 14 2 v =? 0.

Section parts.
Context {D : Type} `{Device D}.

Lemma array_set_ok (a : list Z) i v (Q : list Z → mach D → Prop) m :
  0 ≤ i < Z.of_nat (length a) → Q (<[Z.to_nat i := v]> a) m → wp (array_set a i v) Q m.
Proof.
  intros Hi HQ. unfold array_set. rewrite (proj2 (Z.leb_le _ _)), (proj2 (Z.ltb_lt _ _)) by lia. exact HQ.
Qed.
Lemma register_int_ok g v (Q : unit → kernel D → Prop) k :
  vgics k !! 0%nat = Some g → 0 ≤ v < Z.of_nat (length (ptov g)) → 0 ≤ v < Z.of_nat (length (vtop g)) →
  Q tt (set_vgics (<[0%nat := {| ptov := <[Z.to_nat v := v]> (ptov g); vtop := <[Z.to_nat v := v]> (vtop g) |}]>
          (vgics k)) k) →
  wp (register_int 0 v v) Q k.
Proof.
  intros Hg Hp Hv HQ. unfold register_int, get_vgic. wp_step. eapply wp_deref_some; [exact Hg|].
  unfold kmach, virtual_gic_register_int. wp_step. apply array_set_ok; [done|]. wp_step.
  apply array_set_ok; [done|]. wp_step. destruct k; exact HQ.
Qed.
Lemma irq_install_ok v h (Q : unit → kernel D → Prop) k :
  0 ≤ v < Z.of_nat (length (g_handler_vec k)) →
  Q tt (set_handlers (<[Z.to_nat v := Some h]> (g_handler_vec k)) k) → wp (irq_install v h) Q k.
Proof.
  intros Hv HQ. unfold irq_install. wp_step. rewrite (proj2 (Z.leb_le _ _)), (proj2 (Z.ltb_lt _ _)) by lia. exact HQ.
Qed.
Lemma vm_init_ok (k : kernel D) g :
  vgics k !! 0%nat = Some g → (33 < length (ptov g))%nat → (33 < length (vtop g))%nat →
  (33 < length (g_handler_vec k))%nat →
  wp vm_init
     (λ _ k', sched_view k' = sched_view k ∧
        g_handler_vec k' = <[33%nat := Some HFakeConsole]> (<[27%nat := Some HVTimer]> (g_handler_vec k)) ∧
        ∃ g', vgics k' !! 0%nat = Some g' ∧ routes g' 27 ∧ routes g' 33) k.
Proof.
  intros Hg Hp Hv Hh. pose proof (lookup_lt_Some _ _ _ Hg). unfold vm_init, HV_TIMER_VECTOR, PL011_INT. wp_step.
  eapply register_int_ok; [exact Hg|lia|lia|]. wp_step.
  eapply register_int_ok; [by apply list_lookup_insert_eq|cbn; rewrite length_insert; lia..|]. wp_step.
  apply irq_install_ok; [cbn; lia|]. wp_step. apply irq_install_ok; [cbn; rewrite length_insert; lia|].
  cbn [vgics set_vgics set_handlers ptov vtop g_handler_vec]. split_and!; [done|done|].
  eexists. split; [rewrite list_insert_insert_eq; by apply list_lookup_insert_eq|].
  change (Z.to_nat 27) with 27%nat. change (Z.to_nat 33) with 33%nat. unfold routes. cbn [ptov vtop].
  split_and!; rewrite 1?list_lookup_insert_ne by done; apply list_lookup_insert_eq; rewrite ?length_insert; lia.
Qed.

Lemma wp_hyper_quiet {A} (m : St (machine D) A) Q h :
  quiet task_view m →
  (∀ a s', task_view s' = task_view (h_machine h) → Q a (set_machine s' h)) → wp (in_machine m) Q h.
Proof. intros Hm HQ. unfold in_machine. wp_step. by eapply wp_quiet. Qed.
Lemma wp_hprint e Q (h : hyper D) :
  (∀ s', task_view s' = task_view (h_machine h) → Q tt (set_machine s' h)) → wp (hprint e) Q h.
Proof. intros HQ. apply wp_hyper_quiet; [apply quiet_mprint|]. intros [] s' Hs. by apply HQ. Qed.

(** What a part leaves as it was. *)
Definition same_view (h h' : hyper D) : Prop := task_view (h_machine h') = task_view (h_machine h).

Lemma vtcr_init_ok (h : hyper D) :
  wp vtcr_init
     (λ _ h', same_view h h' ∧ h_mem h' = h_mem h ∧ vtcr_addr_bits (vtcr_el2 h') = 32 ∧
        vtcr_start_level (vtcr_el2 h') = 1 ∧ vtcr_granule_4k (vtcr_el2 h') = true) h.
Proof.
  unfold vtcr_init, write_vtcr_el2. wp_step. apply wp_hprint. intros s1 V1. cbv zeta. wp_step.
  apply wp_hprint. intros s2 V2. wp_step. split_and!; try reflexivity. exact (eq_trans V2 V1).
Qed.
Definition same_hyper (h h' : hyper D) : Prop :=
  same_view h h' ∧ h_mem h' = h_mem h ∧ vtcr_el2 h' = vtcr_el2 h.
Lemma guest_trap_init_ok (h : hyper D) : wp guest_trap_init (λ _ h', same_hyper h h') h.
Proof.
  unfold guest_trap_init. wp_step. apply wp_hprint. intros s1 V1. wp_step.
  apply wp_hprint. intros s2 V2. split_and!; try reflexivity. exact (eq_trans V2 V1).
Qed.
Lemma hyper_messages_ok (h : hyper D) : wp hyper_messages (λ _ h', same_hyper h h') h.
Proof.
  unfold hyper_messages. do 5 (wp_step; apply wp_hprint; intros ?s ?V). wp_step.
  apply wp_hprint. intros s' V'. split_and!; try reflexivity.
  cbn [h_machine set_machine] in *. unfold same_view. cbn [h_machine set_machine]. congruence.
Qed.

Lemma copy_ok fuel name from to bin_end img (h : hyper D) :
  image (h_mem h) from bin_end to img → from + Z.of_nat (length img) ≤ to → (length img < fuel)%nat →
  wp (in_loader (copy_image fuel name from to bin_end))
     (λ _ h', same_view h h' ∧ h_mem h' = write_bytes (h_mem h) to img ∧ vtcr_el2 h' = vtcr_el2 h) h.
Proof.
  intros Hi Hto Hf. unfold in_loader. wp_step. eapply wp_mono; [apply copy_image_ok; [exact Hi|by right|done]|].
  cbn [fst snd]. intros _ [s' m'] [Hs Hm]. done.
Qed.
End parts.

(** * The hypervisor started *)

Section hyper_correct.
Context {D : Type} `{Device D} (fuel fuel2 : nat).
Context (bin_start bin_end dtb_start dtb_end fs_start fs_end ept_L1 test_guest : Z).
Context (img_bin img_dtb img_fs : list Z).

(** The entry of [hyper_main]: the static data as the compiler and the linker leave
    them, the images below the guest's areas, which they fit, [cacheline_bytes] as
    [init_page_table] has set it, and the memory of the tables. *)
Record hyper_ready (h : hyper D) : Prop := {
  hr_count : task_count (m_kernel (h_machine h)) = 0;
  hr_arrays : arrays_ok (m_kernel (h_machine h));
  hr_info : ti_cpu <$> infos (m_kernel (h_machine h)) !! 0%nat = Some 0;
  hr_frames : ∀ i x, g_cpu_dec (m_kernel (h_machine h)) !! i = Some x → r (ctx x) ≠ [];
  hr_handlers : (33 < length (g_handler_vec (m_kernel (h_machine h))))%nat;
  hr_vgic : ∃ g, vgics (m_kernel (h_machine h)) !! 0%nat = Some g ∧
              (33 < length (ptov g))%nat ∧ (33 < length (vtop g))%nat;
  hr_space : ept_space (words (m_ept (h_machine h))) ept_L1;
  hr_line : 0 < cacheline_bytes (m_ept (h_machine h));
  hr_bin : image (h_mem h) bin_start bin_end GUEST_KERNEL_START img_bin;
  hr_dtb : image (h_mem h) dtb_start dtb_end GUEST_DTB_START img_dtb;
  hr_fs : image (h_mem h) fs_start fs_end GUEST_FS_START img_fs;
  hr_below : Forall (λ p, p.1 + Z.of_nat (length p.2) ≤ GUEST_DTB_START)
               [(bin_start, img_bin); (dtb_start, img_dtb); (fs_start, img_fs)];
  hr_fit : Forall (λ p, Z.of_nat (length p.2) ≤ p.1)
               [(GUEST_KERNEL_START - GUEST_DTB_START, img_dtb); (GUEST_FS_START - GUEST_KERNEL_START, img_bin)];
  hr_fuel : Forall (λ img, (length img < fuel)%nat) [img_bin; img_dtb; img_fs];
  hr_word : mapped (h_mem h) 0x50000000 8;
}.

(** The memory after the copies, in the order of the code. *)
Definition copied (m : mem) : mem :=
  write_bytes (write_bytes (write_bytes m GUEST_DTB_START img_dtb) GUEST_KERNEL_START img_bin) GUEST_FS_START img_fs.
Lemma copied_images m :
  Z.of_nat (length img_dtb) ≤ GUEST_KERNEL_START - GUEST_DTB_START →
  Z.of_nat (length img_bin) ≤ GUEST_FS_START - GUEST_KERNEL_START →
  bytes (copied m) GUEST_DTB_START img_dtb ∧ bytes (copied m) GUEST_KERNEL_START img_bin ∧
  bytes (copied m) GUEST_FS_START img_fs.
Proof using Type.
  unfold copied, GUEST_DTB_START, GUEST_KERNEL_START, GUEST_FS_START. intros Hd Hb.
  split_and!; repeat (apply bytes_write_apart; [|lia]); apply bytes_write_bytes.
Qed.

Lemma copies_ok (h0 h : hyper D) :
  hyper_ready h0 → h_mem h = h_mem h0 →
  wp (copy_dtb fuel dtb_start dtb_end;; copy_guest fuel bin_start bin_end;; copy_fs fuel fs_start fs_end)
     (λ _ h', same_view h h' ∧ h_mem h' = copied (h_mem h) ∧ vtcr_el2 h' = vtcr_el2 h) h.
Proof using Type.
  intros [_ _ _ _ _ _ _ _ Hb Hd Hf Hbelow Hfit Hfuel _] Hm. rewrite <- Hm in Hb, Hd, Hf. clear Hm.
  unfold GUEST_DTB_START, GUEST_KERNEL_START, GUEST_FS_START in *.
  repeat match goal with H : Forall _ (_ :: _) |- _ => apply Forall_cons in H as [? ?] end. cbn [fst snd] in *.
  unfold copy_dtb, copy_guest, copy_fs, GUEST_DTB_START, GUEST_KERNEL_START, GUEST_FS_START. wp_step.
  eapply wp_mono; [apply copy_ok; [exact Hd|lia|done]|]. intros _ h1 (V1 & M1 & R1). wp_step.
  eapply wp_mono; [apply (copy_ok _ _ _ _ _ img_bin); [rewrite M1; apply image_write; [exact Hb|lia]|lia|done]|].
  intros _ h2 (V2 & M2 & R2).
  eapply wp_mono; [apply (copy_ok _ _ _ _ _ img_fs); [rewrite M2, M1; do 2 (apply image_write; [|lia]); exact Hf|lia|done]|].
  intros _ h3 (V3 & M3 & R3). unfold same_view in *. split_and!; [congruence| |congruence].
  rewrite M3, M2, M1. reflexivity.
Qed.

(** The pages the hypervisor keeps for itself. *)
Definition emulated (ipa : Z) : bool :=
  ((GICD_BASE_ADDR <=? ipa) && (ipa <? GICC_BASE_ADDR + 0x10000)) || (ipa / 4096 =? MMIO_ARREA / 4096).

Lemma emulated_leaf ipa : 0 ≤ ipa < 2 ^ 32 →
  decode ipa ((λ q, if q =? MMIO_ARREA / 4096
     then no_access (trap_leaf (MMIO_AREA_GICC / 4096) 16 (trap_leaf (MMIO_AREA_GICD / 4096) 16 (λ p, page_entry (4096 * p))) q)
     else trap_leaf (MMIO_AREA_GICC / 4096) 16 (trap_leaf (MMIO_AREA_GICD / 4096) 16 (λ p, page_entry (4096 * p))) q)
    (ipa / 4096)) =
  if emulated ipa then trapped (identity_map ipa) else identity_map ipa.
Proof using Type.
  intros Hi. unfold emulated, trap_leaf. rewrite <- decode_page_entry by done.
  change (MMIO_AREA_GICC / 4096) with 32784. change (MMIO_AREA_GICD / 4096) with 32768.
  change (MMIO_ARREA / 4096) with 327680. change GICD_BASE_ADDR with 134217728.
  change (GICC_BASE_ADDR + 0x10000) with 134348800.
  assert (Hd : ipa = 4096 * (ipa / 4096) + ipa mod 4096 ∧ 0 ≤ ipa mod 4096 < 4096)
    by (Z.div_mod_to_equations; lia).
  set (p := ipa / 4096) in *.
  destruct (Z.eqb_spec p 327680) as [Hp|Hp].
  - rewrite Hp. cbn [andb Z.leb Z.ltb]. rewrite orb_true_r. apply decode_no_access.
  - rewrite orb_false_r.
    destruct (Z.leb_spec 134217728 ipa), (Z.ltb_spec ipa 134348800),
      (Z.leb_spec 32784 p), (Z.ltb_spec p (32784 + 16)), (Z.leb_spec 32768 p), (Z.ltb_spec p (32768 + 16));
      cbn [andb]; try lia; try done; apply decode_no_access.
Qed.

Abbreviation main := (hyper_main fuel fuel2 bin_start bin_end dtb_start dtb_end fs_start fs_end ept_L1 test_guest).

(** The hypervisor when it enters the guest. *)
Record hyper_started (h : hyper D) : Prop := {
  hs_walk : vtcr_addr_bits (vtcr_el2 h) = 32 ∧ vtcr_start_level (vtcr_el2 h) = 1 ∧
            vtcr_granule_4k (vtcr_el2 h) = true;
  hs_map : ∀ ipa, 0 ≤ ipa < 2 ^ 32 →
    translate (words (m_ept (h_machine h))) (vttbr (m_ept (h_machine h))) ipa =
      Some (if emulated ipa then trapped (identity_map ipa) else identity_map ipa);
  hs_entries : ∀ ipa, 0 ≤ ipa < 2 ^ 32 →
    word_at (words (m_ept (h_machine h))) (ept_L3_root (m_ept (h_machine h)) + 8 * (ipa >> 12));
  hs_images : bytes (h_mem h) GUEST_DTB_START img_dtb ∧ bytes (h_mem h) GUEST_KERNEL_START img_bin ∧
              bytes (h_mem h) GUEST_FS_START img_fs;
  hs_irqs : ∃ g, vgics (m_kernel (h_machine h)) !! 0%nat = Some g ∧ routes g 27 ∧ routes g 33 ∧
    g_handler_vec (m_kernel (h_machine h)) !! 27%nat = Some (Some HVTimer) ∧
    g_handler_vec (m_kernel (h_machine h)) !! 33%nat = Some (Some HFakeConsole);
  hs_runs : ∃ st f g, machine_runs 1 (h_machine h) st ∧ rr_cur st = [0%nat] ∧ rr_ctx st = [f; g] ∧
    guest_start_frame test_guest f ∧ guest_start_frame GUEST_KERNEL_START g;
  hs_blocks : guest_blocks (m_kernel (h_machine h));
}.

(** One call of a sequence a lemma is about. *)
Ltac wp_next Hw :=
  rewrite wp_bind in Hw |- *; eapply wp_mono; [exact Hw|]; clear Hw; intros [] ?h Hw; cbn beta in Hw.

(** The devices and the register of the walk. *)
Lemma devices_ok (h : hyper D) :
  (33 < length (g_handler_vec (m_kernel (h_machine h))))%nat →
  wp (in_machine (in_kernel (kcon io_early_init));; in_machine (on_mach gic_virtual_init);;
      in_machine timer_init;; hprint (Printf (ln (ln "io, gic, timer, init ok...")) []);; vtcr_init)
     (λ _ h', sched_view (m_kernel (h_machine h')) = sched_view (m_kernel (h_machine h)) ∧
        vgics (m_kernel (h_machine h')) = vgics (m_kernel (h_machine h)) ∧
        m_ept (h_machine h') = m_ept (h_machine h) ∧
        g_handler_vec (m_kernel (h_machine h')) = <[30%nat := Some HTimer]> (g_handler_vec (m_kernel (h_machine h))) ∧
        h_mem h' = h_mem h ∧ vtcr_addr_bits (vtcr_el2 h') = 32 ∧ vtcr_start_level (vtcr_el2 h') = 1 ∧
        vtcr_granule_4k (vtcr_el2 h') = true) h.
Proof using Type.
  intros Hl. wp_step. apply wp_hyper_quiet; [eauto with quiet|]. intros [] s1 V1. wp_step.
  apply wp_hyper_quiet; [eauto with quiet|]. intros [] s2 V2. wp_step.
  assert (V : task_view s2 = task_view (h_machine h)) by exact (eq_trans V2 V1).
  destruct (task_view_inv _ _ V) as [E1 E2]. destruct (task_view_rest _ _ V) as [E3 E4].
  unfold in_machine at 1. wp_step. apply timer_init_ok; cbn [h_machine set_machine]; [rewrite E2; lia|].
  intros s3 F1 F3 F4 F2. wp_step. apply wp_hprint. cbn [h_machine set_machine]. intros s4 V4. wp_step.
  destruct (task_view_inv _ _ V4) as [G1 G2]. destruct (task_view_rest _ _ V4) as [G3 G4].
  eapply wp_mono; [apply vtcr_init_ok|]. unfold same_view. cbn [h_machine h_mem set_machine].
  intros _ h' (V5 & M & R). destruct (task_view_inv _ _ V5) as [I1 I2]. destruct (task_view_rest _ _ V5) as [I3 I4].
  rewrite I1, I2, I3, I4, G1, G2, G3, G4, F1, F2, F3, F4, E1, E2, E3, E4. done.
Qed.

Lemma wp_in_ept {A} (m : St ept A) Q (h : hyper D) :
  wp m (λ a e, Q a (set_machine (Build_machine (m_kernel (h_machine h)) e (m_regs (h_machine h))) h)) (m_ept (h_machine h)) →
  wp (in_ept m) Q h.
Proof using Type. intros Hw. unfold in_ept, in_machine. wp_step. exact Hw. Qed.

Lemma hyper_main_ok (h : hyper D) :
  hyper_ready h → (4096 < fuel2)%nat → wp main (λ _ h', hyper_started h') h.
Proof using Type.
  intros Hr Hf2. pose proof Hr as [Hcount Ha Hinfo Hframes Hhs (g & Hg & Hgp & Hgv) Hspace Hline _ _ _ _ Hfit _ Hword].
  apply fmap_Some in Hinfo as (ti & Hti & Hcpu). symmetry in Hcpu.
  unfold hyper_main.
  (* the devices *)
  pose proof (devices_ok h Hhs) as Hw. do 4 wp_next Hw.
  rewrite wp_bind. eapply wp_mono; [exact Hw|]. clear Hw. intros _ k1 (E1 & G1 & P1 & H1 & M1 & R1).
  (* the tables *)
  rewrite wp_bind. apply wp_in_ept. rewrite P1. eapply wp_mono; [by apply guest_ept_init_ok|].
  intros _ e1 [B1 _]. rewrite wp_bind. eapply wp_mono; [apply guest_trap_init_ok|].
  intros _ k2 (V2 & M2 & R2). cbn [h_mem vtcr_el2 set_machine] in M2, R2.
  (* the images *)
  pose proof (copies_ok h k2 Hr ltac:(congruence)) as Hw. do 2 wp_next Hw.
  rewrite wp_bind. eapply wp_mono; [exact Hw|]. clear Hw. intros _ k3 (V3 & M3 & R3).
  (* the pages that trap *)
  unfold same_view in *. rewrite V2 in V3. clear V2.
  destruct (task_view_inv _ _ V3) as [E3 H3]. destruct (task_view_rest _ _ V3) as [G3 P3].
  cbn [h_machine set_machine m_kernel m_ept] in *.
  assert (B3 : ept_built (m_ept (h_machine k3)) ept_L1 (λ p, page_entry (4096 * p))) by (by rewrite P3).
  unfold mmio_map_gicd, mmio_map_gicc.
  rewrite wp_bind. apply wp_in_ept.
  eapply wp_mono; [apply (mmio_map_ok _ _ _ _ _ B3); unfold MMIO_AREA_GICD; [done|lia|lia|exact Hf2]|].
  intros [] e4 B4. rewrite wp_bind. apply wp_in_ept. cbn [h_machine set_machine m_ept m_kernel m_regs].
  eapply wp_mono; [apply (mmio_map_ok _ _ _ _ _ B4); unfold MMIO_AREA_GICC; [done|lia|lia|exact Hf2]|].
  intros [] e5 B5.
  (* the interrupts of the guest *)
  rewrite wp_bind. unfold in_machine at 1, in_kernel at 1. rewrite !wp_on_part. cbn [h_machine set_machine m_kernel m_ept m_regs].
  eapply wp_mono; [apply (vm_init_ok _ g); [rewrite G3, G1|..]; [done|done|done|rewrite H3, H1, length_insert; lia]|].
  intros [] q6 (E6 & H6 & g' & G6 & Rt1 & Rt2).
  rewrite wp_bind. eapply wp_mono; [apply hyper_messages_ok|]. intros _ k7 (V7 & M7 & R7). unfold same_view in V7.
  destruct (task_view_inv _ _ V7) as [E7 H7]. destruct (task_view_rest _ _ V7) as [G7 P7].
  cbn [h_machine h_mem vtcr_el2 set_machine m_kernel m_ept] in *.
  (* the test page *)
  rewrite wp_bind. apply wp_in_ept. rewrite P7.
  eapply wp_mono; [apply (trap_page_ok _ _ _ _ _ B5); [unfold MMIO_ARREA; lia|exact Hf2]|].
  intros [] e8 B8. rewrite wp_bind, wp_on_part. cbn [h_mem set_machine].
  apply store_le_ok; [rewrite M7, M3, M2, M1; unfold copied; by do 3 apply mapped_write_bytes|].
  (* the guests *)
  unfold in_machine, in_kernel. rewrite !wp_on_part. cbn [h_machine set_machine set_mem m_kernel m_ept m_regs].
  assert (E : sched_view (m_kernel (h_machine k7)) = sched_view (m_kernel (h_machine h))) by congruence.
  destruct (sched_view_inv _ _ E) as (En & Ec & _).
  eapply wp_mono.
  { apply (start_guests_ok test_guest _ ti); [congruence|by apply (arrays_ok_view _ _ E)| |done|by rewrite Ec].
    by rewrite (sched_view_infos _ _ E). }
  intros [] q10 [(st & f & g0 & Hruns & Hcur & Hctx & Hf & Hg0 & Hblocks) Ho].
  injection Ho as _ Ho1 Ho2. rewrite H7, H6, H3, H1 in Ho1. rewrite G7 in Ho2.
  assert (Hlen : (33 < length (<[30%nat := Some HTimer]> (g_handler_vec (m_kernel (h_machine h)))))%nat)
    by (by rewrite length_insert).
  constructor; cbn [h_machine h_mem vtcr_el2 set_machine set_mem m_kernel m_ept].
  - by rewrite R7, R3, R2.
  - intros ipa Hi. rewrite (built_walk _ _ _ _ B8 Hi). f_equal. by apply emulated_leaf.
  - intros ipa Hi. by apply (built_entry _ _ _ _ B8).
  - rewrite M7, M3, M2, M1. apply Forall_cons in Hfit as [Hfd [Hfb _]%Forall_cons].
    destruct (copied_images (h_mem h) Hfd Hfb) as (? & ? & ?).
    unfold GUEST_DTB_START, GUEST_KERNEL_START, GUEST_FS_START in *.
    split_and!; (apply bytes_write_apart; [done|rewrite length_le_bytes; lia]).
  - exists g'. rewrite Ho2, Ho1. split_and!; [done..| |].
    + rewrite list_lookup_insert_ne by done. apply list_lookup_insert_eq. lia.
    + apply list_lookup_insert_eq. rewrite length_insert. lia.
  - exists st, f, g0. split_and!; try done. split; [exact Hruns|]. cbn [m_kernel]. rewrite Ho1.
    rewrite !list_lookup_insert_ne by done. apply list_lookup_insert_eq. lia.
  - exact Hblocks.
Qed.

(** C6: the hypervisor starts: [hyper_main] returns from every step and enters the
    guest with the walk configured for what [guest_ept_init] built (32-bit guest
    addresses, from level 1, 4 KB pages); with an identity map in which exactly the
    interrupt controller and the test page trap; with the device tree, the kernel and
    the file system in the guest's memory; with the guest's two interrupts routed
    and their handlers installed; and with two virtual machines to schedule, the
    first one running, each starting at its entry with the device tree in [x0] and
    with a block of system registers of its own, where [spsr_el1] holds the value
    [craete_vm_task] gives it. *)
Theorem hyper_main_correct (h : hyper D) :
  hyper_ready h → (4096 < fuel2)%nat → wp main (λ _ h', hyper_started h') h.
Proof using Type. apply hyper_main_ok. Qed.

End hyper_correct.

(** * Example *)

#[local] Instance still_device : Device unit :=
  {| rd32 := λ _ d, (0, d); wr32 := λ _ _ d, d; wr8 := λ _ _ d, d; rd64 := λ _ d, (0, d); wr64 := λ _ _ d, d |}.
Definition guest_image (k : Z) : list Z := seqZ k 16.
Definition hyper_mem : mem :=
  list_to_map (flat_map (λ r : Z * list Z, imap (λ i b, (r.1 + Z.of_nat i, b)) r.2)
    [(0x40081000, guest_image 1); (0x40082000, guest_image 51); (0x40083000, guest_image 101);
     (GUEST_KERNEL_START, replicate 16 0); (GUEST_DTB_START, replicate 16 0); (GUEST_FS_START, replicate 16 0);
     (0x50000000, replicate 8 0)]).
Definition hyper_example : hyper unit := {|
  h_machine := {|
    m_kernel := set_vgics [{| ptov := replicate 512 0; vtop := replicate 512 0 |}]
                  (set_handlers (replicate 512 None) kernel_zero);
    m_ept := ept_example; m_regs := m_regs (machine_example 0 0) |};
  h_mem := hyper_mem; vtcr_el2 := 0; hcr_el2 := 0; sctlr_el2 := 0 |}.

Lemma guest_image_ok a k dst :
  bytes hyper_mem a (guest_image k) → bytes hyper_mem dst (replicate 16 0) → 0 ≤ k ≤ 240 →
  image hyper_mem a (a + 16) dst (guest_image k).
Proof.
  intros Ha Hd Hk. constructor; try done.
  - apply Forall_forall. intros x Hx%elem_of_seqZ. unfold byte. lia.
  - exact (bytes_mapped _ _ _ Ha).
  - exact (bytes_mapped _ _ _ Hd).
  - exact (bytes_mapped _ _ _ Hd).
Qed.
Lemma hyper_example_ready :
  hyper_ready 20 0x40081000 0x40081010 0x40082000 0x40082010 0x40083000 0x40083010 0
    (guest_image 1) (guest_image 51) (guest_image 101) hyper_example.
Proof.
  constructor; cbn [h_machine h_mem hyper_example m_ept].
  - done.
  - destruct kernel_zero_arrays. by constructor.
  - done.
  - intros i x Hx. apply lookup_replicate in Hx as [-> _]. done.
  - cbn. lia.
  - eexists. split; [reflexivity|]. cbn. lia.
  - exact ept_example_space.
  - done.
  - apply (guest_image_ok 0x40081000); [by vm_compute; repeat split|by vm_compute; repeat split|lia].
  - apply (guest_image_ok 0x40082000); [by vm_compute; repeat split|by vm_compute; repeat split|lia].
  - apply (guest_image_ok 0x40083000); [by vm_compute; repeat split|by vm_compute; repeat split|lia].
  - by repeat constructor.
  - by repeat constructor.
  - repeat constructor; simpl; lia.
  - apply (bytes_mapped _ _ (replicate 8 0)). by vm_compute; repeat split.
Qed.
Lemma hyper_main_correct_witness :
  wp (hyper_main 20 4097 0x40081000 0x40081010 0x40082000 0x40082010 0x40083000 0x40083010 0 0x40080400)
     (λ _ h', hyper_started 0x40080400 (guest_image 1) (guest_image 51) (guest_image 101) h') hyper_example.
Proof.
  apply (hyper_main_correct 20 4097 0x40081000 0x40081010 0x40082000 0x40082010 0x40083000 0x40083010 0
    0x40080400 (guest_image 1) (guest_image 51) (guest_image 101) hyper_example hyper_example_ready).
  lia.
Defined.
