(* ===== verification/Guest.v ===== *)
(** The hypervisor at work: what happens between two instructions of a guest.  The
    vectors of [exception/exception_el2.S] put its registers on the stack and call
    [vm_out], a handler of [exception/exception_el2.c], and [vm_in]. *)

From S2P Require Import Prelude Config Gic ByteMem Frame Uart Vgic Kernel Sched Keeps Vcpu Ept Trap Quiet Hyper.

(** * Definitions *)

Record hv (D : Type) := { hv_machine : machine D; hv_live : live }.
Arguments hv_machine {D} h. Arguments hv_live {D} h. Arguments Build_hv {D} hv_machine hv_live.

(** The two vectors a guest leaves by: [HANDLE_LOWER_SYNC] and [HANDLE_LOWER_IRQ]. *)
Inductive cause := Lower_sync | Lower_irq.
(** What the hypervisor finds when a guest was interrupted: the guest's registers,
    which may be anything, the syndrome, and the devices, which may have changed
    since it ran last. *)
Record exit (D : Type) := {
  ex_cause : cause;
  ex_frame : trap_frame;
  ex_live : live;
  ex_esr : Z;
  ex_far : Z;
  ex_hpfar : Z;
  ex_dev : D;
}.
Arguments ex_cause {D} e. Arguments ex_frame {D} e. Arguments ex_live {D} e. Arguments ex_esr {D} e.
Arguments ex_far {D} e. Arguments ex_hpfar {D} e. Arguments ex_dev {D} e.
(** What it leaves: the virtual CPU that runs next and the registers it gets. *)
Record resume := { re_task : nat; re_frame : trap_frame; re_live : live }.

Definition set_syndrome (esr far hpfar : Z) (s : sysregs) : sysregs :=
  {| esr_el1 := esr_el1 s; esr_el2 := esr; esr_el3 := esr_el3 s; far_el2 := far; hpfar_el2 := hpfar;
     cntfrq_el0 := cntfrq_el0 s; cntp_tval_el0 := cntp_tval_el0 s; cntp_ctl_el0 := cntp_ctl_el0 s |}.

Section guest.
Context {D : Type} `{Device D}.
(** The context switch of the assembly, which this path does not use, the fuel of the
    loops on the serial port, and the stack after [SAVE_REGS_EL2]. *)
Context (switch_context : nat → nat → St (kernel D) unit) (fuel : nat) (sp : Z).

Definition on_machine {A} (m : St (machine D) A) : St (hv D) A :=
  on_part hv_machine (λ s h, Build_hv s (hv_live h)) m.
Definition on_vcpu {A} (m : St (kernel D * live) A) : St (hv D) A :=
  on_part (λ h, (m_kernel (hv_machine h), hv_live h))
          (λ p h, Build_hv (with_kernel (fst p) (hv_machine h)) (snd p)) m.

(** The exception, and the stores of [SAVE_REGS_EL2] before its call. *)
Definition arrive (e : exit D) (h : hv D) : hv D :=
  let s := hv_machine h in
  let k := m_kernel s in
  let k := set_mach {| dev := ex_dev e; log := log (k_mach k); irq_nr := irq_nr (k_mach k) |} k in
  let k := set_frames (<[sp := ex_frame e]> (frames k)) k in
  Build_hv (Build_machine k (m_ept s) (set_syndrome (ex_esr e) (ex_far e) (ex_hpfar e) (m_regs s))) (ex_live e).

Definition handle (c : cause) : St (machine D) unit :=
  match c with
  | Lower_sync => handle_sync_exception_el2 0 sp
  | Lower_irq => handle_irq_exception_el2 1 switch_context fuel 0 sp
  end.

(** The path from the vector to [eret], on the core the hypervisor runs on. *)
Definition guest_exit (e : exit D) : St (hv D) resume :=
  modify (arrive e);;
  on_vcpu (vm_out 0);;
  on_machine (handle (ex_cause e));;
  on_vcpu (vm_in 0);;
  c ← on_machine (in_kernel (current 0));
  f ← on_machine (in_kernel (frame_at sp));
  l ← gets hv_live;
  mret {| re_task := c; re_frame := f; re_live := l |}.
Fixpoint guest_run (es : list (exit D)) : St (hv D) (list resume) :=
  match es with
  | [] => mret []
  | e :: es => x ← guest_exit e; xs ← guest_run es; mret (x :: xs)
  end.

(** * What the guests see

    The abstract machine: the round robin with the frames of the virtual CPUs, and
    the words of their system registers. *)

Record vms := { v_rr : rr; v_regs : list (list Z) }.
Definition running_vm (v : vms) : nat := default 0%nat (rr_cur (v_rr v) !! 0%nat).

Definition abort_of (e : exit D) : ept_violation_info :=
  {| hsr := u32 (s32 (ex_esr e)); reason := 0; gva := ex_far e;
     gpa := (ex_far e .& 0xfff) .| u64 (ex_hpfar e << 8) |}.
#[export] Instance in_gicc_dec a : Decision (in_gicc a).
Proof. unfold in_gicc. apply _. Defined.

(** The frame after a trapped instruction: that of an [hvc] is the guest's own; any
    other instruction is passed over, and a load from the CPU interface has been
    made on the virtual one. *)
Definition emulate (e : exit D) : trap_frame :=
  let next f := set_elr (u64 (elr f + if truthy (hsr_len (hsr (abort_of e))) then 4 else 2)) f in
  let ec := exception_class (ex_esr e) in
  if ec =? 0x16 then ex_frame e
  else if (ec =? 0x24) && bool_decide (in_gicc (gpa (abort_of e))) then
    next (fst (gicc_access (abort_of e) (ex_frame e) (ex_dev e)))
  else next (ex_frame e).

Definition irq_of (e : exit D) : Z := gic_iar_irqnr (fst (rd32 GICC_IAR (ex_dev e))).

(** What the handler makes of an exit: the frame it leaves, and who runs next.  The
    virtual CPU goes on unless its time is over. *)
Definition vm_handle (e : exit D) (st : rr) : trap_frame * rr :=
  let c := default 0%nat (rr_cur st !! 0%nat) in
  let kept := {| rr_cur := rr_cur st; rr_ctx := <[c := ex_frame e]> (rr_ctx st); rr_left := rr_left st |} in
  match ex_cause e with
  | Lower_sync => (emulate e, kept)
  | Lower_irq => if irq_of e =? TIMER_VECTOR then rr_tick 0 (ex_frame e) st else (ex_frame e, kept)
  end.
(** An exit: the words of the virtual CPU are kept, and the one that runs next gets
    its own. *)
Definition vm_step (e : exit D) (v : vms) : (nat * trap_frame * list Z) * vms :=
  let regs := <[running_vm v := map (ex_live e) saved_regs]> (v_regs v) in
  let '(f, st) := vm_handle e (v_rr v) in
  let v' := {| v_rr := st; v_regs := regs |} in
  ((running_vm v', f, default [] (regs !! running_vm v')), v').
Fixpoint vm_run (es : list (exit D)) (v : vms) : list (nat * trap_frame * list Z) * vms :=
  match es with
  | [] => ([], v)
  | e :: es => let '(y, v) := vm_step e v in let '(ys, v) := vm_run es v in (y :: ys, v)
  end.

(** A guest resumes as the abstract machine says: the registers the guest has are
    loaded; the others are not touched. *)
Definition resumes (e : exit D) (x : resume) (y : nat * trap_frame * list Z) : Prop :=
  re_task x = y.1.1 ∧ re_frame x = y.1.2 ∧ map (re_live x) restored_regs = y.2 ∧
  ∀ z, z ∉ restored_regs → re_live x z = ex_live e z.

(** The exits the hypervisor handles: the trapped instructions, an access to guest
    memory by a register the frame has, and the interrupts with a handler. *)
Definition exit_ok (e : exit D) : Prop :=
  frame_ok (ex_frame e) ∧
  match ex_cause e with
  | Lower_sync =>
      exception_class (ex_esr e) ∈ [0x1; 0x16; 0x17] ∨
      exception_class (ex_esr e) = 0x24 ∧ dabt_reg (hsr (abort_of e)) < 31 ∧ 0 ≤ gpa (abort_of e) < 2 ^ 32
  | Lower_irq => irq_of e ∈ [HV_TIMER_VECTOR; TIMER_VECTOR; PL011_INT]
  end.

(** The hypervisor between two exits, for the tables [t]. *)
Record hv_ready (t : ept) (h : hv D) (v : vms) : Prop := {
  hv_runs : machine_runs 1 (hv_machine h) (v_rr v);
  hv_timer : g_handler_vec (m_kernel (hv_machine h)) !! 27%nat = Some (Some HVTimer);
  hv_console : g_handler_vec (m_kernel (hv_machine h)) !! 33%nat = Some (Some HFakeConsole);
  hv_vcpus : vcpus (sysregs_view (m_kernel (hv_machine h))) (v_regs v);
  hv_len : length (v_regs v) = length (rr_ctx (v_rr v));
  hv_tables : m_ept (hv_machine h) = t;
  hv_entries : ∀ ipa, 0 ≤ ipa < 2 ^ 32 → word_at (words t) (ept_L3_root t + 8 * (ipa >> 12));
}.
End guest.

(** * What the handlers leave alone *)

Section views.
Context {D : Type} `{Device D}.

Definition hv_view (s : machine D) := (sysregs_view (m_kernel s), g_handler_vec (m_kernel s), m_ept s).
Lemma hv_view_inv (s s' : machine D) :
  hv_view s' = hv_view s →
  sysregs_view (m_kernel s') = sysregs_view (m_kernel s) ∧
  g_handler_vec (m_kernel s') = g_handler_vec (m_kernel s) ∧ m_ept s' = m_ept s.
Proof.
  intros E. split_and!; [exact (f_equal (λ p, p.1.1) E)|exact (f_equal (λ p, p.1.2) E)|exact (f_equal snd E)].
Qed.
#[local] Instance handlers_blind : StartBlind (g_handler_vec (D := D)).
Proof. by repeat constructor. Qed.
#[local] Instance handlers_mach_blind : MachBlind (g_handler_vec (D := D)).
Proof. by repeat constructor. Qed.

Lemma keeps_in_kernel {A} (m : St (kernel D) A) :
  keeps sysregs_view m → keeps g_handler_vec m → keeps hv_view (in_kernel m).
Proof.
  intros Hv Hh s a s'. unfold in_kernel, on_part. destruct (m (m_kernel s)) as [[b k]| |] eqn:Hm; [|done..].
  intros [= -> <-]. unfold hv_view. cbn. by rewrite (Hv _ _ _ Hm), (Hh _ _ _ Hm).
Qed.
Lemma keeps_mach {T A} (view : kernel D → T) {Hb : MachBlind view} (m : St (mach D) A) : keeps view (kmach m).
Proof using Type.
  intros k a k'. unfold kmach, on_part. destruct (m (k_mach k)) as [[b c]| |]; [|done..].
  intros [= -> <-]. apply blind_mach.
Qed.
Lemma keeps_on_mach {A} (m : St (mach D) A) : keeps hv_view (Trap.on_mach m).
Proof. apply keeps_in_kernel; apply keeps_mach, _. Qed.
Lemma keeps_kcon {A} (m : St con A) : keeps hv_view (in_kernel (kcon m)).
Proof.
  apply keeps_in_kernel; intros k a k'; unfold kcon, on_part; (destruct (m _) as [[b c]| |]; [|done..]); by intros [= -> <-].
Qed.
Hint Resolve keeps_on_mach keeps_kcon : keeps.

Lemma keeps_irq_el2 SMP_NUM switch_context fuel core sp :
  sp ≠ NULL → keeps hv_view (handle_irq_exception_el2 SMP_NUM switch_context fuel core sp).
Proof.
  intros Hsp.
  assert (Hf : keeps hv_view (in_kernel (frame_at sp))) by (apply keeps_in_kernel; apply keeps_frame_at, _).
  assert (Hs : keeps hv_view (in_kernel (save_cpu_ctx core sp))).
  { apply keeps_in_kernel; [apply keeps_save_cpu_ctx|]. unfold save_cpu_ctx. keeps. }
  assert (Ht : keeps hv_view (in_kernel (timer_tick_schedule SMP_NUM switch_context core sp))).
  { apply keeps_in_kernel; apply (keeps_timer_tick _); exact Hsp. }
  unfold handle_irq_exception_el2, read_x1, call_handler. keeps.
  unfold run_handler, handle_timer_interrupt, write_cntp_tval_el0. case_match; keeps.
Qed.

(** Saving the frame of a task. *)
Lemma save_frame_view i x sp f (k : kernel D) :
  g_cpu_dec k !! i = Some x → sysregs_view (save_frame i x sp f k) = sysregs_view k.
Proof.
  intros Hx. unfold sysregs_view, save_frame. cbn. f_equal. rewrite list_fmap_insert. apply list_insert_id.
  by rewrite list_lookup_fmap, Hx.
Qed.
Lemma sched_repr_sysregs bs (k : kernel D) st : sched_repr k st → sched_repr (set_sysregs bs k) st.
Proof. by intros []. Qed.
End views.

(** * The handlers *)

Section handlers.
Context {D : Type} `{Device D}.
Context (switch_context : nat → nat → St (kernel D) unit) (fuel : nat) (sp : Z).

(** The machine a handler finds. *)
Record arrived (s : machine D) (e : exit D) (st : rr) (c : nat) : Prop := {
  ar_runs : machine_runs 1 s st;
  ar_cur : rr_cur st !! 0%nat = Some c;
  ar_timer : g_handler_vec (m_kernel s) !! 27%nat = Some (Some HVTimer);
  ar_console : g_handler_vec (m_kernel s) !! 33%nat = Some (Some HFakeConsole);
  ar_frame : frames (m_kernel s) !! sp = Some (ex_frame e);
  ar_dev : dev (k_mach (m_kernel s)) = ex_dev e;
  ar_regs : esr_el2 (m_regs s) = ex_esr e ∧ far_el2 (m_regs s) = ex_far e ∧ hpfar_el2 (m_regs s) = ex_hpfar e;
  ar_entries : ∀ ipa, 0 ≤ ipa < 2 ^ 32 → word_at (words (m_ept s)) (ept_L3_root (m_ept s) + 8 * (ipa >> 12));
}.
(** And the one it leaves. *)
Definition handled (s s' : machine D) (y : trap_frame * rr) : Prop :=
  hv_view s' = hv_view s ∧ machine_runs 1 s' y.2 ∧ frames (m_kernel s') !! sp = Some y.1.

Section arrived.
Context (s : machine D) (e : exit D) (st : rr) (c : nat) (Ha : arrived s e st c) (Hok : exit_ok e).

(** A state where only the frame was saved, and the devices and the live frame have
    changed. *)
Lemma saved_handled x m fs f' :
  running (m_kernel s) 0 c x → fs !! sp = Some f' →
  handled s (with_kernel (set_mach m (set_frames fs (save_frame c x sp (ex_frame e) (m_kernel s)))) s)
    (f', {| rr_cur := rr_cur st; rr_ctx := <[c := ex_frame e]> (rr_ctx st); rr_left := rr_left st |}).
Proof using Ha.
  intros Hrun Hfs. destruct Ha as [((Hk & Hl & Hn) & Hvec) Hc _ _ Hf _ _ _].
  pose proof (save_cpu_ctx_ok 0 c sp _ _ _ Hk Hc Hf) as Hs.
  unfold wp in Hs. rewrite (save_cpu_ctx_eq 0 c x sp _ _ Hrun Hf) in Hs. destruct Hs as (_ & _ & Hs).
  destruct Hrun as (? & ? & ? & _ & _ & _ & _ & Hx). split_and!.
  - unfold hv_view. cbn [m_kernel m_ept with_kernel]. f_equal. f_equal.
    exact (save_frame_view c x sp (ex_frame e) (m_kernel s) Hx).
  - split; [|exact Hvec]. split_and!; [by apply sched_repr_mach, sched_repr_frames|exact Hl|exact Hn].
  - exact Hfs.
Qed.
Lemma arrived_running : ∃ x, running (m_kernel s) 0 c x.
Proof using Ha. destruct Ha as [((Hk & _) & _) Hc _ _ _ _ _ _]. by eapply repr_running. Qed.
Lemma arrived_kept : default 0%nat (rr_cur st !! 0%nat) = c.
Proof using Ha. by rewrite (ar_cur _ _ _ _ Ha). Qed.
Lemma arrived_abort : el2_abort s = abort_of e ∧ el2_class s = exception_class (ex_esr e) ∧ el2_hsr s = hsr (abort_of e).
Proof using Ha.
  destruct Ha as [_ _ _ _ _ _ (H1 & H2 & H3) _]. unfold el2_abort, el2_class, el2_hsr, abort_of. rewrite H1, H2, H3. done.
Qed.

Lemma sync_handled :
  ex_cause e = Lower_sync → wp (handle switch_context fuel sp Lower_sync) (λ _ s', handled s s' (vm_handle e st)) s.
Proof using Ha Hok.
  intros Hcause. destruct arrived_running as [x Hrun]. destruct arrived_abort as (Hab & Hcl & Hh).
  unfold vm_handle. rewrite Hcause, arrived_kept. destruct Hok as [Hf Hex]. rewrite Hcause in Hex.
  assert (He : el2_entry s 0 sp c x (ex_frame e)) by (constructor; [done|apply Ha|done]).
  assert (Hret : ∀ f' s', el2_returns s s' sp c x (ex_frame e) f' → f' = emulate e →
    handled s s' (emulate e, {| rr_cur := rr_cur st; rr_ctx := <[c := ex_frame e]> (rr_ctx st); rr_left := rr_left st |})).
  { intros f' s' [m ->] Hf'. rewrite Hf'. apply saved_handled; [done|apply lookup_insert_eq]. }
  pose proof (sync_el2_ok 0 sp c x _ s He) as (Hskip & Hhvc & Habort).
  rewrite Hcl in Hskip, Hhvc, Habort. rewrite Hab in Habort. unfold handle. unfold emulate in *. rewrite <- Hh in *.
  destruct Hex as [Hec|(Hec & Hreg & Hgpa)].
  - rewrite !elem_of_cons, elem_of_nil in Hec. destruct Hec as [Hec|[Hec|[Hec|[]]]]; rewrite Hec in *; cbn [Z.eqb Pos.eqb andb].
    + eapply wp_mono; [apply Hskip; by left|]. intros [] s' Hr. by eapply Hret.
    + eapply wp_mono; [by apply Hhvc|]. intros [] s' Hr. by eapply Hret.
    + eapply wp_mono; [apply Hskip; by right|]. intros [] s' Hr. by eapply Hret.
  - rewrite Hec in *. cbn [Z.eqb Pos.eqb andb] in *.
    destruct (Habort eq_refl Hreg (ar_entries _ _ _ _ Ha _ Hgpa)) as (Hcpu & Hdist & Hout).
    case_bool_decide as Hin.
    + eapply wp_mono; [by apply Hcpu|]. intros [] s' (f' & Hf' & Hr). eapply Hret; [exact Hr|].
      rewrite (ar_dev _ _ _ _ Ha) in Hf'. by rewrite <- Hf'.
    + destruct (decide (GICD_BASE_ADDR ≤ gpa (abort_of e) ≤ GICD_BASE_ADDR + 0x10000)) as [Hd|Hd].
      * destruct (frame_reg (ex_frame e) (Z.to_nat (dabt_reg (hsr (abort_of e)))) Hf) as [v Hv].
        { pose proof (dabt_reg_range (hsr (abort_of e))). rewrite Hh in Hreg. lia. }
        eapply wp_mono.
        { apply (Hdist (λ _, True) Hd). apply (wp_quiet (λ _, tt)); [by eapply total_intc_handler|done]. }
        intros [] s' [_ Hr]. by eapply Hret.
      * eapply wp_mono; [apply Hout|]. { unfold in_gicc, GICC_BASE_ADDR, GICD_BASE_ADDR in *. lia. }
        intros [] s' [_ Hr]. by eapply Hret.
Qed.

(** An interrupt of a guest: its handler gives it to the guest. *)
Lemma inject_handled h :
  ex_cause e = Lower_irq → irq_of e ≠ TIMER_VECTOR → h = HVTimer ∨ h = HFakeConsole →
  g_handler_vec (m_kernel s) !! Z.to_nat (irq_of e) = Some (Some h) →
  wp (handle switch_context fuel sp Lower_irq) (λ _ s', handled s s' (vm_handle e st)) s.
Proof using Ha Hok.
  intros Hcause Hne Hh Hvec. destruct arrived_running as [x Hrun]. destruct Hok as [Hf _].
  unfold vm_handle. rewrite Hcause, arrived_kept, (proj2 (Z.eqb_neq _ _) Hne).
  unfold irq_of in Hvec. rewrite <- (ar_dev _ _ _ _ Ha) in Hvec.
  destruct (rd32 GICC_IAR (dev (k_mach (m_kernel s)))) as [v d] eqn:Hrd. cbn [fst] in Hvec.
  pose proof (irq_dispatch_eq 1 switch_context fuel true 0 sp c x _ v d s Hrun (ar_frame _ _ _ _ Ha) Hf Hrd) as Hd.
  rewrite Hvec in Hd. apply (wp_same _ _ _ _ _ Hd).
  assert (Hm : ∃ m, run_handler 1 switch_context fuel h 0 sp = Trap.on_mach m ∧ total m).
  { destruct Hh as [-> | ->]; eexists; (split; [reflexivity|apply total_vgic_inject]). }
  destruct Hm as (m & -> & Hm). unfold wp, Trap.on_mach, in_kernel, kmach, on_part.
  destruct (total_done _ Hm (k_mach (m_kernel (with_kernel (after_irq true v d (save_frame c x sp (ex_frame e) (m_kernel s))) s))))
    as (a & m' & ->).
  apply (saved_handled x m' (frames (m_kernel s)) (ex_frame e) Hrun (ar_frame _ _ _ _ Ha)).
Qed.

(** The timer's. *)
Lemma timer_handled :
  sp ≠ NULL → ex_cause e = Lower_irq → irq_of e = TIMER_VECTOR →
  wp (handle switch_context fuel sp Lower_irq) (λ _ s', handled s s' (vm_handle e st)) s.
Proof using Ha Hok.
  intros Hsp Hcause Hirq. destruct Hok as [Hf _]. unfold vm_handle. rewrite Hcause, Hirq. cbn [Z.eqb Pos.eqb].
  eapply wp_mono.
  { refine (wp_keeps hv_view _ _ _ (keeps_irq_el2 1 switch_context fuel 0 sp Hsp) _).
    apply (timer_interrupt_ok 1 switch_context fuel true 0 sp (ex_frame e) s st);
      [apply Ha|lia|exact Hsp|apply Ha|exact Hf|].
    unfold timer_pending. by rewrite (ar_dev _ _ _ _ Ha). }
  intros [] s' [(Hr & Hfs & _) Hv]. split_and!; [exact Hv|exact Hr|]. rewrite Hfs. apply lookup_insert_eq.
Qed.

Lemma cause_handled :
  sp ≠ NULL → wp (handle switch_context fuel sp (ex_cause e)) (λ _ s', handled s s' (vm_handle e st)) s.
Proof using Ha Hok.
  intros Hsp. destruct (ex_cause e) eqn:Hcause; [by apply sync_handled|].
  pose proof (proj2 Hok) as Hex. rewrite Hcause, !elem_of_cons, elem_of_nil in Hex.
  destruct Hex as [Hi|[Hi|[Hi|[]]]].
  - apply (inject_handled HVTimer); [done|by rewrite Hi|by left|]. rewrite Hi. apply Ha.
  - by apply timer_handled.
  - apply (inject_handled HFakeConsole); [done|by rewrite Hi|by right|]. rewrite Hi. apply Ha.
Qed.
End arrived.
End handlers.

(** * The run *)

Section run.
Context {D : Type} `{Device D}.
Context (switch_context : nat → nat → St (kernel D) unit) (fuel : nat) (sp : Z) (t : ept).

Lemma wp_on_machine {A} (m : St (machine D) A) Q h :
  wp m (λ a s, Q a (Build_hv s (hv_live h))) (hv_machine h) → wp (on_machine m) Q h.
Proof using Type. intros Hw. unfold on_machine. by rewrite wp_on_part. Qed.
Lemma wp_on_vcpu {A} (m : St (kernel D * live) A) Q h :
  wp m (λ a p, Q a (Build_hv (with_kernel (fst p) (hv_machine h)) (snd p))) (m_kernel (hv_machine h), hv_live h) →
  wp (on_vcpu m) Q h.
Proof using Type. intros Hw. unfold on_vcpu. by rewrite wp_on_part. Qed.

Lemma vm_handle_len e st :
  length (rr_ctx (snd (vm_handle e st))) = length (rr_ctx st) ∧ length (rr_cur (snd (vm_handle e st))) = length (rr_cur st).
Proof using Type.
  unfold vm_handle. destruct (ex_cause e); [cbn; by rewrite length_insert|].
  destruct (_ =? _); [|cbn; by rewrite length_insert].
  destruct (rr_tick_len 0 (ex_frame e) st) as [H1 H2]. by rewrite H1, H2.
Qed.

Lemma guest_exit_ok e h v :
  sp ≠ NULL → hv_ready t h v → exit_ok e →
  wp (guest_exit switch_context fuel sp e)
     (λ x h', resumes e x (fst (vm_step e v)) ∧ hv_ready t h' (snd (vm_step e v))) h.
Proof using Type.
  intros Hsp [((Hk & Hl & Hn) & Hvec) H27 H33 Hv Hlen Ht Hent] Hok.
  destruct (lookup_lt_is_Some_2 (rr_cur (v_rr v)) 0) as [c Hc]; [lia|].
  destruct (current_range _ 0 c (sr_ok _ _ Hk) Hc) as [Hcn _].
  unfold guest_exit. do 2 wp_step. set (h0 := arrive sp e h).
  assert (Hk0 : sched_repr (m_kernel (hv_machine h0)) (v_rr v)) by (by apply sched_repr_frames, sched_repr_mach).
  apply wp_on_vcpu. eapply (vm_out_ok 0 c (v_regs v)); [exact Hk0|exact Hc|exact Hv|lia|].
  intros bs Hv1. cbn [fst snd]. set (s1 := with_kernel _ _). wp_step. apply wp_on_machine.
  assert (Ha : arrived sp s1 e (v_rr v) c).
  { constructor; [split; [split_and!|]|..]; try done; [by apply sched_repr_sysregs|by apply lookup_insert_eq|].
    cbn. rewrite Ht. exact Hent. }
  eapply wp_mono; [exact (cause_handled switch_context fuel sp s1 e _ c Ha Hok Hsp)|].
  intros [] s2 (Hview & ((Hk2 & Hl2 & Hn2) & Hvec2) & Hf2). destruct (hv_view_inv _ _ Hview) as (Hv2 & Hh2 & Ht2).
  assert (Hvs : vcpus (sysregs_view (m_kernel s2)) (<[c := map (ex_live e) saved_regs]> (v_regs v)))
    by (rewrite Hv2; exact Hv1).
  destruct (vm_handle_len e (v_rr v)) as [Hlc Hlr].
  unfold vm_step, running_vm. rewrite Hc. cbn [default from_option].
  destruct (vm_handle e (v_rr v)) as [f st] eqn:Hhandle. cbn [fst snd] in *.
  destruct (lookup_lt_is_Some_2 (rr_cur st) 0) as [c' Hc']; [lia|].
  destruct (current_range _ 0 c' (sr_ok _ _ Hk2) Hc') as [Hcn' _].
  cbn [hv_live hv_machine]. wp_step. apply wp_on_vcpu.
  eapply (vm_in_ok 0 c' (<[c := map (ex_live e) saved_regs]> (v_regs v))); [exact Hk2|exact Hc'| |rewrite length_insert; lia|].
  { exact Hvs. }
  intros w l' Hw Hl' Ho. cbn [fst snd hv_machine with_kernel]. wp_step. apply wp_on_machine. wp_step.
  eapply wp_current; [exact Hk2|exact Hc'|]. wp_step. apply wp_on_machine. wp_step.
  eapply wp_frame_at; [exact Hf2|]. do 2 wp_step. cbn [fst snd v_rr v_regs].
  rewrite Hc'. cbn [default from_option id]. rewrite Hw. split.
  - split_and!; [done|done|exact Hl'|exact Ho].
  - constructor; cbn [hv_machine hv_live with_kernel m_kernel m_ept v_rr v_regs].
    + split; [split_and!; done|exact Hvec2].
    + by rewrite Hh2.
    + by rewrite Hh2.
    + exact Hvs.
    + rewrite length_insert. lia.
    + by rewrite Ht2.
    + exact Hent.
Qed.

Lemma guest_run_ok es h v :
  sp ≠ NULL → hv_ready t h v → Forall exit_ok es →
  wp (guest_run switch_context fuel sp es)
     (λ xs h', Forall3 resumes es xs (fst (vm_run es v)) ∧ hv_ready t h' (snd (vm_run es v))) h.
Proof using Type.
  intros Hsp Hh Hes. revert h v Hh. induction Hes as [|e es Hok _ IH]; intros h v Hh; cbn [guest_run vm_run].
  { wp_step. split; [constructor|exact Hh]. }
  wp_step. eapply wp_mono; [by apply guest_exit_ok|]. intros x h1 [Hx Hh1]. wp_step.
  destruct (vm_step e v) as [y v1]. cbn [fst snd] in *.
  eapply wp_mono; [by apply IH|]. intros xs h2 [Hxs Hh2]. wp_step. destruct (vm_run es v1). split; [by constructor|done].
Qed.

(** ** The exits that do not return *)

(** The core hangs, or faults. *)
Definition stops (hangs : bool) {S A} (m : St S A) (s : S) : Prop := m s = if hangs then NoFuel else Fault.
Lemma stops_now b {S A B} (m : St S A) (f : A → St S B) s : stops b m s → stops b (m ≫= f) s.
Proof using Type. unfold stops, mbind, St_bind. intros ->. by destruct b. Qed.
Lemma stops_later b {S A B} (m : St S A) (f : A → St S B) Q s :
  wp m Q s → (∀ a s', Q a s' → stops b (f a) s') → stops b (m ≫= f) s.
Proof using Type. unfold stops, mbind, St_bind. intros (a & s' & -> & HQ)%wp_inv Hf. by apply Hf. Qed.
Lemma stops_on_part b {S T A} (view : T → S) set (m : St S A) x : stops b m (view x) → stops b (on_part view set m) x.
Proof using Type. unfold stops, on_part. intros ->. by destruct b. Qed.

Lemma guest_exit_stops b e h v :
  hv_ready t h v → ex_cause e = Lower_sync →
  (∀ s c, arrived sp s e (v_rr v) c → stops b (handle_sync_exception_el2 0 sp) s) →
  stops b (guest_exit switch_context fuel sp e) h.
Proof using Type.
  intros [((Hk & Hl & Hn) & Hvec) H27 H33 Hv Hlen Ht Hent] Hcause Hs.
  destruct (lookup_lt_is_Some_2 (rr_cur (v_rr v)) 0) as [c Hc]; [lia|].
  destruct (current_range _ 0 c (sr_ok _ _ Hk) Hc) as [Hcn _].
  unfold guest_exit. eapply (stops_later _ _ _ (λ _ h', h' = arrive sp e h)); [by wp_step|]. intros _ ? ->.
  assert (Hk0 : sched_repr (m_kernel (hv_machine (arrive sp e h))) (v_rr v)) by (by apply sched_repr_frames, sched_repr_mach).
  eapply (stops_later _ _ _ (λ _ h1, arrived sp (hv_machine h1) e (v_rr v) c)).
  - apply wp_on_vcpu. eapply (vm_out_ok 0 c (v_regs v)); [exact Hk0|exact Hc|exact Hv|lia|]. intros bs _.
    cbn [fst snd hv_machine]. constructor; [split; [split_and!|]|..]; try done; [by apply sched_repr_sysregs|by apply lookup_insert_eq|].
    cbn. rewrite Ht. exact Hent.
  - intros _ h1 Ha. apply stops_now, stops_on_part. rewrite Hcause. by apply (Hs _ c).
Qed.

(** An exception of a class no handler knows, and an access to the CPU interface by the
    zero register. *)
Definition exit_hangs (e : exit D) : Prop :=
  frame_ok (ex_frame e) ∧ ex_cause e = Lower_sync ∧ exception_class (ex_esr e) ∉ [0x1; 0x16; 0x17; 0x24].
Definition exit_faults (e : exit D) : Prop :=
  frame_ok (ex_frame e) ∧ ex_cause e = Lower_sync ∧ exception_class (ex_esr e) = 0x24 ∧
  in_gicc (gpa (abort_of e)) ∧ dabt_reg (hsr (abort_of e)) = 31.
Lemma arrived_entry (s : machine D) (e : exit D) st c :
  arrived sp s e st c → frame_ok (ex_frame e) → ∃ x, el2_entry s 0 sp c x (ex_frame e).
Proof using Type.
  intros Ha Hf. destruct (arrived_running sp s e st c Ha) as [x Hrun]. exists x. constructor; [done|apply Ha|done].
Qed.
Lemma exit_hangs_ok e h v : hv_ready t h v → exit_hangs e → guest_exit switch_context fuel sp e h = NoFuel.
Proof using Type.
  intros Hh (Hf & Hc & Hec). apply (guest_exit_stops true e h v Hh Hc). intros s c Ha.
  destruct (arrived_entry _ _ _ _ Ha Hf) as [x He]. destruct (arrived_abort sp s e _ c Ha) as (_ & Hcl & _).
  apply (unhandled_exceptions_hang 0 0 sp c x _ s He). by rewrite Hcl.
Qed.
Lemma exit_faults_ok e h v : hv_ready t h v → exit_faults e → guest_exit switch_context fuel sp e h = Fault.
Proof using Type.
  intros Hh (Hf & Hc & Hec & Hg & Hr). apply (guest_exit_stops false e h v Hh Hc). intros s c Ha.
  destruct (arrived_entry _ _ _ _ Ha Hf) as [x He]. destruct (arrived_abort sp s e _ c Ha) as (Hab & Hcl & _).
  apply (el2_abort_faults 0 sp c x (ex_frame e)); [done|by rewrite Hcl|]. rewrite Hab.
  apply data_abort_handler_r31; [|done..]. apply (ar_entries _ _ _ _ _ Ha). unfold in_gicc, GICC_BASE_ADDR in Hg. lia.
Qed.
(** After exits that are handled. *)
Lemma guest_run_stops b es e es' h v :
  sp ≠ NULL → hv_ready t h v → Forall exit_ok es →
  (∀ h' v', hv_ready t h' v' → stops b (guest_exit switch_context fuel sp e) h') →
  stops b (guest_run switch_context fuel sp (es ++ e :: es')) h.
Proof using Type.
  intros Hsp Hh Hes He. revert h v Hh. induction Hes as [|e1 es Hok _ IH]; intros h v Hh; cbn [app guest_run].
  - apply stops_now. by eapply He.
  - eapply stops_later; [by apply guest_exit_ok|]. intros x h1 [_ Hh1]. apply stops_now. by eapply IH.
Qed.
End run.

(** * What the guests keep *)

Section kept.
Context {D : Type} `{Device D}.

(** What the last exit of the virtual CPU [j] left in a part [g] of it, where [a] was
    there before. *)
Fixpoint last_left {A} (g : exit D → A) (j : nat) (a : A) (past : list (nat * exit D)) : A :=
  match past with
  | [] => a
  | (c, e) :: past => last_left g j (if decide (c = j) then g e else a) past
  end.
(** The frame an exit leaves its own virtual CPU. *)
Definition left_frame (e : exit D) : trap_frame :=
  match ex_cause e with Lower_sync => emulate e | Lower_irq => ex_frame e end.
Definition left_words (e : exit D) : list Z := map (ex_live e) saved_regs.

(** The abstract machine of one core. *)
Record vm_ok (v : vms) : Prop := {
  vo_rr : rr_ok (v_rr v);
  vo_one : rr_cur (v_rr v) = [running_vm v];
  vo_regs : length (v_regs v) = length (rr_ctx (v_rr v));
}.

Lemma vm_handle_frames e st c :
  rr_ok st → rr_cur st = [c] →
  rr_ok (snd (vm_handle e st)) ∧
  ∃ c', rr_cur (snd (vm_handle e st)) = [c'] ∧ rr_ctx (snd (vm_handle e st)) = <[c := ex_frame e]> (rr_ctx st) ∧
    (c' < length (rr_ctx st))%nat ∧ (ex_cause e = Lower_sync → c' = c) ∧
    (if decide (c = c') then fst (vm_handle e st) = left_frame e else rr_ctx st !! c' = Some (fst (vm_handle e st))).
Proof.
  intros Hok Hc. assert (Hcur : rr_cur st !! 0%nat = Some c) by (by rewrite Hc).
  destruct (current_range st 0 c Hok Hcur) as [Hcn _].
  assert (Hkept : rr_ok {| rr_cur := rr_cur st; rr_ctx := <[c := ex_frame e]> (rr_ctx st); rr_left := rr_left st |}).
  { destruct Hok. constructor; cbn; rewrite ?length_insert; done. }
  unfold vm_handle, left_frame. rewrite Hcur. cbn [default from_option id].
  destruct (ex_cause e) eqn:He; [|destruct (irq_of e =? TIMER_VECTOR)]; cbn [fst snd].
  1, 3: (split; [exact Hkept|]; exists c; split_and!; try done; by rewrite decide_True).
  set (tk := {| tk_core := 0; tk_sp := 0; tk_frame := ex_frame e |}).
  pose proof (rr_tick_ok 0 (ex_frame e) st Hok) as Hok'. destruct (rr_tick_len 0 (ex_frame e) st) as [Hl _].
  pose proof (rr_step_frames tk st Hok) as Hs. unfold rr_step in Hs. cbn [tk_core tk_frame tk] in Hs.
  destruct (rr_tick 0 (ex_frame e) st) as [f st'] eqn:Ht. cbn [fst snd sw_from sw_to sw_in sw_out] in *.
  rewrite Hcur in Hs. cbn [default from_option id] in Hs. rewrite Hc in Hs, Hl.
  destruct Hs as (_ & Hto & _ & Hctx & Hout); [simpl; lia|].
  destruct (rr_cur st') as [|c' [|? ?]] eqn:Hc'; try done. cbn in Hto, Hout. split; [done|]. exists c'.
  assert (Hlt : (c' < length (rr_ctx st))%nat).
  { apply lookup_lt_Some in Hout. by rewrite Hctx, length_insert in Hout. }
  split_and!; [done|done|done|done|]. rewrite Hctx in Hout. case_decide as Hd.
  - subst c'. rewrite list_lookup_insert_eq in Hout by done. congruence.
  - by rewrite list_lookup_insert_ne in Hout.
Qed.

Lemma vm_step_frames e v :
  vm_ok v →
  let '(y, v') := vm_step e v in
  vm_ok v' ∧ y.1.1 = running_vm v' ∧ (ex_cause e = Lower_sync → running_vm v' = running_vm v) ∧
  rr_ctx (v_rr v') = <[running_vm v := ex_frame e]> (rr_ctx (v_rr v)) ∧
  v_regs v' = <[running_vm v := left_words e]> (v_regs v) ∧
  (if decide (running_vm v = y.1.1) then y.1.2 = left_frame e else rr_ctx (v_rr v) !! y.1.1 = Some y.1.2) ∧
  v_regs v' !! y.1.1 = Some y.2.
Proof.
  intros [Hok Hone Hlen]. unfold vm_step.
  destruct (vm_handle_frames e _ _ Hok Hone) as (Hok' & c' & Hc' & Hctx & Hlt & Hsync & Hf).
  fold (left_words e). destruct (vm_handle e (v_rr v)) as [f st]. cbn [fst snd] in *.
  set (v' := {| v_rr := st; v_regs := _ |}). assert (Hrun : running_vm v' = c') by (unfold running_vm; cbn; by rewrite Hc').
  rewrite Hrun. split_and!; try done.
  - constructor; rewrite ?Hrun; [done|done|]. cbn. by rewrite Hctx, !length_insert.
  - destruct (lookup_lt_is_Some_2 (<[running_vm v := left_words e]> (v_regs v)) c') as [w Hw];
      [by rewrite length_insert, Hlen|]. cbn [v_regs v']. by rewrite Hw.
Qed.

(** The virtual CPUs that left, one by one: the one that runs first, and then the
    ones that were resumed. *)
Definition leavers {A} (run : nat) (task : A → nat) (xs : list A) (es : list (exit D)) : list (nat * exit D) :=
  zip (run :: map task xs) es.

Lemma insert_lookup_inv {A} (c j : nat) (a b : A) (l : list A) :
  <[c := a]> l !! j = Some b → ∃ x, l !! j = Some x ∧ b = if decide (c = j) then a else x.
Proof.
  intros Hb. pose proof (lookup_lt_Some _ _ _ Hb) as Hl. rewrite length_insert in Hl.
  destruct (lookup_lt_is_Some_2 _ _ Hl) as [x Hx]. exists x. split; [done|]. case_decide as Hd; [subst j|].
  - rewrite list_lookup_insert_eq in Hb by done. congruence.
  - rewrite list_lookup_insert_ne in Hb by done. congruence.
Qed.
Lemma vm_run_kept es v :
  vm_ok v →
  ∀ i y, fst (vm_run es v) !! i = Some y →
  let past := take (S i) (leavers (running_vm v) (λ y, y.1.1) (fst (vm_run es v)) es) in
  ∃ f w, rr_ctx (v_rr v) !! y.1.1 = Some f ∧ v_regs v !! y.1.1 = Some w ∧
    y.1.2 = last_left left_frame y.1.1 f past ∧ y.2 = last_left left_words y.1.1 w past.
Proof.
  revert v. induction es as [|e es IH]; intros v Hv i y Hy; [done|]. cbn [vm_run] in *.
  pose proof (vm_step_frames e v Hv) as Hs. destruct (vm_step e v) as [y1 v1].
  destruct Hs as (Hv1 & Hrun & Hsync & Hctx & Hregs & Hf & Hw). specialize (IH v1 Hv1).
  destruct (vm_run es v1) as [ys v2] eqn:Hes. cbn [fst] in *.
  assert (Hback : ∀ j f1 w1, rr_ctx (v_rr v1) !! j = Some f1 → v_regs v1 !! j = Some w1 →
    ∃ f w, rr_ctx (v_rr v) !! j = Some f ∧ v_regs v !! j = Some w ∧
      f1 = (if decide (running_vm v = j) then ex_frame e else f) ∧
      w1 = (if decide (running_vm v = j) then left_words e else w)).
  { intros j f1 w1 Hf1 Hw1. rewrite Hctx in Hf1. rewrite Hregs in Hw1.
    apply insert_lookup_inv in Hf1 as (f & ? & ?). apply insert_lookup_inv in Hw1 as (w & ? & ?). by exists f, w. }
  destruct i as [|i]; cbn [lookup list_lookup] in Hy.
  - injection Hy as <-. unfold leavers. cbn [map zip zip_with take last_left].
    destruct (lookup_lt_is_Some_2 (rr_ctx (v_rr v1)) y1.1.1) as [f1 Hf1].
    { rewrite <- (vo_regs _ Hv1). by eapply lookup_lt_Some. }
    destruct (Hback _ _ _ Hf1 Hw) as (f & w & Hfv & Hwv & _ & Hww). exists f, w. revert Hf Hww.
    destruct (decide (running_vm v = y1.1.1)); intros; split_and!; rewrite ?take_0; cbn [last_left]; congruence.
  - destruct (IH i y Hy) as (f1 & w1 & Hf1 & Hw1 & HF & HW). destruct (Hback _ _ _ Hf1 Hw1) as (f & w & Hfv & Hwv & -> & ->).
    exists f, w. rewrite <- Hrun in Hsync, HF, HW. unfold leavers in *. split_and!; [done|done| |exact HW].
    rewrite HF. destruct es as [|e' es]; [by injection Hes as <- _|]. cbn [map zip zip_with take last_left].
    destruct (decide (y1.1.1 = y.1.1)) as [Hd|Hd]; [done|]. destruct (ex_cause e) eqn:Hcause.
    + by rewrite !(decide_False (P := running_vm v = y.1.1)) by (rewrite <- Hsync by done; done).
    + unfold left_frame at 3. by rewrite Hcause.
Qed.
End kept.

(** * The hypervisor from its start on *)

Section hypervisor.
Context {D : Type} `{Device D}.
Context (switch_context : nat → nat → St (kernel D) unit) (fuel : nat) (sp : Z).

Lemma hv_ready_one t (h : hv D) v : hv_ready t h v → vm_ok v.
Proof.
  intros [((Hk & Hl & Hn) & _) _ _ _ Hlen _ _]. destruct (rr_cur (v_rr v)) as [|c [|? ?]] eqn:Hc; try (simpl in Hn; lia).
  constructor; [apply Hk|by unfold running_vm; rewrite Hc|exact Hlen].
Qed.

Lemma resumes_lookup es xs ys :
  Forall3 (resumes (D := D)) es xs ys →
  length xs = length es ∧ map re_task xs = map (λ y, y.1.1) ys ∧
  ∀ i x, xs !! i = Some x → ∃ y, ys !! i = Some y ∧
    re_task x = y.1.1 ∧ re_frame x = y.1.2 ∧ map (re_live x) restored_regs = y.2.
Proof.
  induction 1 as [|e x y es xs ys (Ht & Hf & Hw & _) _ (Hl & Hm & IH)]; [done|].
  cbn [length map]. split_and!; [congruence|congruence|].
  intros [|i] x' Hi; cbn [lookup list_lookup] in *; [|by apply IH]. injection Hi as <-. by exists y.
Qed.

(** C20: the virtual CPUs are kept apart: for every sequence of exits the hypervisor
    handles (trapped instructions, accesses to the emulated devices, interrupts,
    timer ticks that switch), each guest resumes with the frame and the words of its
    system registers that its own last exit left, or with its first ones when it has
    not run yet, whatever the other guest did to the registers in between.  The one
    thing that changes a frame is the emulation of the guest's own trapped
    instruction; the words of [MIDR_EL1] and [MPIDR_EL1] come back in the registers
    the guest reads instead. *)
Theorem vm_context_preserved (t : ept) es (h : hv D) v :
  sp ≠ NULL → hv_ready t h v → Forall exit_ok es →
  wp (guest_run switch_context fuel sp es)
     (λ xs _, length xs = length es ∧ ∀ i x, xs !! i = Some x →
        let past := take (S i) (leavers (running_vm v) re_task xs es) in
        ∃ f w, rr_ctx (v_rr v) !! re_task x = Some f ∧ v_regs v !! re_task x = Some w ∧
          re_frame x = last_left left_frame (re_task x) f past ∧
          map (re_live x) restored_regs = last_left left_words (re_task x) w past) h.
Proof.
  intros Hsp Hh Hes. eapply wp_mono; [by apply (guest_run_ok _ _ _ t)|]. intros xs h' [Hxs _].
  destruct (resumes_lookup _ _ _ Hxs) as (Hl & Hm & Hx). split; [exact Hl|]. intros i x Hi.
  destruct (Hx i x Hi) as (y & Hy & Ht & Hf & Hw). cbv zeta. rewrite Ht, Hf, Hw. unfold leavers. rewrite Hm.
  exact (vm_run_kept es v (hv_ready_one t h v Hh) i y Hy).
Qed.
End hypervisor.

Section started.
Context {D : Type} `{Device D} (fuel fuel2 : nat).
Context (bin_start bin_end dtb_start dtb_end fs_start fs_end ept_L1 test_guest : Z).
Context (img_bin img_dtb img_fs : list Z).
Context (switch_context : nat → nat → St (kernel D) unit) (fuel3 : nat) (sp : Z).

(** The two virtual machines before the first instruction of a guest. *)
Record vms_started (v : vms) : Prop := {
  st_running : running_vm v = 0%nat;
  st_frames : ∃ f g, rr_ctx (v_rr v) = [f; g] ∧
    guest_start_frame test_guest f ∧ guest_start_frame GUEST_KERNEL_START g;
  st_regs : length (v_regs v) = 2%nat ∧ Forall (λ w, w !! SPSR_EL1_FIELD = Some 0x30C50830) (v_regs v);
}.

Lemma guests_ready (s : machine D) l :
  (∃ st f g, machine_runs 1 s st ∧ rr_cur st = [0%nat] ∧ rr_ctx st = [f; g] ∧
     guest_start_frame test_guest f ∧ guest_start_frame GUEST_KERNEL_START g) →
  guest_blocks (m_kernel s) →
  g_handler_vec (m_kernel s) !! 27%nat = Some (Some HVTimer) →
  g_handler_vec (m_kernel s) !! 33%nat = Some (Some HFakeConsole) →
  (∀ ipa, 0 ≤ ipa < 2 ^ 32 → word_at (words (m_ept s)) (ept_L3_root (m_ept s) + 8 * (ipa >> 12))) →
  ∃ v, vms_started v ∧ hv_ready (m_ept s) (Build_hv s l) v.
Proof using Type.
  intros (st & f & g & Hr & Hcur & Hctx & Hf & Hg) (ws & Hws & Hv & Hspsr) H27 H33 Hent.
  exists {| v_rr := st; v_regs := ws |}. split.
  - constructor; cbn [v_rr v_regs].
    + unfold running_vm. cbn [v_rr]. by rewrite Hcur.
    + by exists f, g.
    + split; [exact Hws|]. by apply Forall_forall.
  - constructor; cbn [v_rr v_regs hv_machine hv_live]; try done. by rewrite Hws, Hctx.
Qed.
Lemma started_ready (h : hyper D) l :
  hyper_started test_guest img_bin img_dtb img_fs h →
  ∃ v, vms_started v ∧ hv_ready (m_ept (h_machine h)) (Build_hv (h_machine h) l) v.
Proof. intros [_ _ Hent _ (g0 & _ & _ & _ & H27 & H33) Hr Hb]. by apply guests_ready. Qed.

(** C7: the hypervisor at work implements the abstract machine of its guests:
    [hyper_main] sets up two virtual CPUs, the first one running, each with the
    frame and the block of registers it starts with; from there on, for every
    sequence of exits it handles ([exit_ok]: an exception of the classes of [wfi],
    [hvc] and [smc], a data abort by one of the 31 registers below 4 GB, the
    interrupts 27, 30 and 33), with the contents of the guests' registers and the
    devices anything at each of them, every path from the vector to [eret] ends, and
    resumes the virtual CPU, the frame and the registers that [vm_run] says: the round
    robin of the timer ticks, the emulation of the trapped instructions and of the
    interrupt controller, and the interrupts given to the guest they are for.  The
    guests' memory stays mapped as it was at the start.  After any such sequence an
    exception of another class stops the core for good, and a data abort by register
    31, the zero register, on the virtual CPU interface is a fault: no guest goes on.
    Of the other exits, interrupts with another number and accesses by register 31
    elsewhere, nothing is said. *)
Theorem hypervisor_correct (h : hyper D) :
  hyper_ready fuel bin_start bin_end dtb_start dtb_end fs_start fs_end ept_L1 img_bin img_dtb img_fs h →
  (4096 < fuel2)%nat → sp ≠ NULL →
  wp (hyper_main fuel fuel2 bin_start bin_end dtb_start dtb_end fs_start fs_end ept_L1 test_guest)
     (λ _ h', ∀ l, ∃ v, vms_started v ∧ ∀ es, Forall exit_ok es →
        wp (guest_run switch_context fuel3 sp es)
           (λ xs h'', Forall3 resumes es xs (fst (vm_run es v)) ∧
              ∀ ipa, 0 ≤ ipa < 2 ^ 32 →
                translate (words (m_ept (hv_machine h''))) (vttbr (m_ept (hv_machine h''))) ipa =
                  Some (if emulated ipa then trapped (identity_map ipa) else identity_map ipa))
           (Build_hv (h_machine h') l) ∧
        ∀ e es',
          (exit_hangs e → guest_run switch_context fuel3 sp (es ++ e :: es') (Build_hv (h_machine h') l) = NoFuel) ∧
          (exit_faults e → guest_run switch_context fuel3 sp (es ++ e :: es') (Build_hv (h_machine h') l) = Fault)) h.
Proof.
  intros Hr Hf2 Hsp. eapply wp_mono; [by eapply hyper_main_ok|]. intros [] h' Hh l.
  destruct (started_ready h' l Hh) as (v & Hv & Hready). exists v. split; [exact Hv|]. intros es Hes. split.
  - eapply wp_mono; [by apply (guest_run_ok _ _ _ (m_ept (h_machine h')))|]. intros xs h'' [Hxs Hready2].
    split; [exact Hxs|]. rewrite (hv_tables _ _ _ Hready2). exact (hs_map _ _ _ _ _ Hh).
  - intros e es'. split; intros He.
    + eapply (guest_run_stops _ _ _ _ true); [done..|]. intros. by eapply exit_hangs_ok.
    + eapply (guest_run_stops _ _ _ _ false); [done..|]. intros. by eapply exit_faults_ok.
Qed.
End started.

(** * Examples *)

#[local] Instance timer_device : Device unit :=
  {| rd32 := λ a d, (if a =? GICC_IAR then 30 else 0, d); wr32 := λ _ _ d, d; wr8 := λ _ _ d, d;
     rd64 := λ _ d, (7, d); wr64 := λ _ _ d, d |}.
(** The machine of [Hyper]'s example when the guests are set up. *)
Definition guests_kernel : kernel unit :=
  set_handlers (<[33%nat := Some HFakeConsole]> (<[30%nat := Some HTimer]> (<[27%nat := Some HVTimer]>
    (replicate 512 None)))) kernel_zero.
Definition guests_set_up : kernel unit :=
  match start_guests 0x40080400 guests_kernel with Done (_, k) => k | _ => guests_kernel end.
Definition guests_example (k : kernel unit) : machine unit :=
  {| m_kernel := k; m_ept := ept_example; m_regs := m_regs (machine_example 0 0) |}.
(** A guest that makes a hypercall, and one that the timer interrupts. *)
Definition hvc_exit (x : Z) : exit unit :=
  {| ex_cause := Lower_sync; ex_frame := set_reg 0 x zero_frame; ex_live := λ _, x; ex_esr := 0x16 << 26; ex_far := 0;
     ex_hpfar := 0; ex_dev := tt |}.
Definition tick_exit (x : Z) : exit unit :=
  {| ex_cause := Lower_irq; ex_frame := set_reg 0 x zero_frame; ex_live := λ _, x; ex_esr := 0; ex_far := 0;
     ex_hpfar := 0; ex_dev := tt |}.
(** A system register the guest may not access, and a store of the zero register to the
    CPU interface. *)
Definition sys_exit : exit unit :=
  {| ex_cause := Lower_sync; ex_frame := zero_frame; ex_live := λ _, 0; ex_esr := 0x18 << 26; ex_far := 0;
     ex_hpfar := 0; ex_dev := tt |}.
Definition r31_exit : exit unit :=
  {| ex_cause := Lower_sync; ex_frame := zero_frame; ex_live := λ _, 0; ex_esr := (0x24 << 26) + (31 << 16) + (1 << 6);
     ex_far := 4; ex_hpfar := GICC_BASE_ADDR >> 8; ex_dev := tt |}.
Lemma exits_example_stop : exit_hangs sys_exit ∧ exit_faults r31_exit.
Proof.
  split; [|by split_and!]. split_and!; [done|done|]. change (exception_class (ex_esr sys_exit)) with 0x18. set_solver.
Qed.
Definition exits_example : list (exit unit) :=
  hvc_exit 1 :: replicate 20 (tick_exit 2) ++ [hvc_exit 3] ++ replicate 20 (tick_exit 4).

Lemma exits_example_ok : Forall exit_ok exits_example.
Proof.
  assert (Hh : ∀ x, exit_ok (hvc_exit x)).
  { intros x. split; [reflexivity|]. left. change (exception_class (ex_esr (hvc_exit x))) with 0x16. set_solver. }
  assert (Ht : ∀ x, exit_ok (tick_exit x)).
  { intros x. split; [reflexivity|]. change (irq_of (tick_exit x)) with 30. cbn [ex_cause tick_exit].
    change HV_TIMER_VECTOR with 27. change TIMER_VECTOR with 30. set_solver. }
  unfold exits_example. apply Forall_cons. split; [done|]. apply Forall_app. split; [by apply Forall_replicate|].
  apply Forall_cons. split; [done|]. by apply Forall_replicate.
Qed.
(** The first guest is interrupted with 2 in its registers when its time is over; it
    has them again when the second one's is. *)
Example exits_example_run :
  map (λ y, (y.1.1, r y.1.2 !! 0%nat, head y.2))
    (fst (vm_run exits_example
       {| v_rr := {| rr_cur := [0%nat]; rr_ctx := [zero_frame; set_reg 0 0x70000000 zero_frame];
                     rr_left := [SYS_TASK_TICK; SYS_TASK_TICK] |};
          v_regs := [[0]; [0]] |})) =
  [(0%nat, Some 1, Some 1)] ++ replicate 19 (0%nat, Some 2, Some 2) ++
  [(1%nat, Some 0x70000000, Some 0); (1%nat, Some 3, Some 3)] ++
  replicate 19 (1%nat, Some 4, Some 4) ++ [(0%nat, Some 2, Some 2)].
Proof. vm_compute. reflexivity. Qed.

Lemma wp_result {S A} (m : St S A) Q s a s' : m s = Done (a, s') → wp m Q s → Q a s'.
Proof. unfold wp. by intros ->. Qed.
Lemma guests_set_up_ok :
  (∃ st f g, runs 1 guests_set_up st ∧ rr_cur st = [0%nat] ∧ rr_ctx st = [f; g] ∧
     guest_start_frame 0x40080400 f ∧ guest_start_frame GUEST_KERNEL_START g) ∧ guest_blocks guests_set_up.
Proof.
  assert (E : start_guests 0x40080400 guests_kernel = Done (tt, guests_set_up)) by (vm_compute; reflexivity).
  destruct (wp_result _ _ _ _ _ E (start_guests_ok 0x40080400 guests_kernel
      {| ti_cpu := 0; ti_flags := 0; ti_pgtable := 0; current_thread := None |}
      ltac:(reflexivity) ltac:(destruct kernel_zero_arrays; by constructor) ltac:(reflexivity) ltac:(reflexivity)
      ltac:(intros i x [-> _]%lookup_replicate; done)))
    as [(st & f & g & Hr & Hcur & Hctx & Hf & Hg & Hb) _].
  split; [|exact Hb]. exists st, f, g. split_and!; assumption.
Qed.
Lemma guests_example_ready (k : kernel unit) l :
  (∃ st f g, runs 1 k st ∧ rr_cur st = [0%nat] ∧ rr_ctx st = [f; g] ∧
     guest_start_frame 0x40080400 f ∧ guest_start_frame GUEST_KERNEL_START g) → guest_blocks k →
  g_handler_vec k !! 27%nat = Some (Some HVTimer) → g_handler_vec k !! 30%nat = Some (Some HTimer) →
  g_handler_vec k !! 33%nat = Some (Some HFakeConsole) →
  ∃ v, vms_started 0x40080400 v ∧ hv_ready ept_example (Build_hv (guests_example k) l) v.
Proof.
  intros (st & f & g & Hr & Hcur & Hctx & Hf & Hg) Hb H27 H30 H33.
  apply (guests_ready 0x40080400 (guests_example k) l); [|assumption..|].
  - exists st, f, g. by split_and!.
  - intros ipa Hi. rewrite Z.shiftr_div_pow2 by lia.
    apply (zeroed_mapped 2099712 0 1048576); [lia|lia|]. Z.div_mod_to_equations. lia.
Qed.
Lemma vm_context_preserved_witness :
  ∃ v, vms_started 0x40080400 v ∧
    wp (guest_run no_switch 0 0x1000 exits_example)
       (λ xs _, length xs = length exits_example ∧ ∀ i x, xs !! i = Some x →
          let past := take (S i) (leavers (running_vm v) re_task xs exits_example) in
          ∃ f w, rr_ctx (v_rr v) !! re_task x = Some f ∧ v_regs v !! re_task x = Some w ∧
            re_frame x = last_left left_frame (re_task x) f past ∧
            map (re_live x) restored_regs = last_left left_words (re_task x) w past)
       (Build_hv (guests_example guests_set_up) (λ _, 0)).
Proof.
  destruct guests_set_up_ok as [Hr0 Hb].
  destruct (guests_example_ready guests_set_up (λ _, 0) Hr0 Hb) as (v & Hv & Hr); [by vm_compute..|].
  exists v. split; [exact Hv|].
  exact (vm_context_preserved no_switch 0 0x1000 ept_example exits_example _ v ltac:(done) Hr exits_example_ok).
Defined.
Lemma hypervisor_correct_witness :
  wp (hyper_main 20 4097 0x40081000 0x40081010 0x40082000 0x40082010 0x40083000 0x40083010 0 0x40080400)
     (λ _ h', ∃ v, vms_started 0x40080400 v ∧
        wp (guest_run no_switch 0 0x1000 exits_example)
           (λ xs _, Forall3 resumes exits_example xs (fst (vm_run exits_example v)))
           (Build_hv (h_machine h') (λ _, 0)) ∧
        guest_run no_switch 0 0x1000 (exits_example ++ [sys_exit]) (Build_hv (h_machine h') (λ _, 0)) = NoFuel ∧
        guest_run no_switch 0 0x1000 (exits_example ++ [r31_exit]) (Build_hv (h_machine h') (λ _, 0)) = Fault) hyper_example.
Proof.
  eapply wp_mono.
  { exact (hypervisor_correct 20 4097 0x40081000 0x40081010 0x40082000 0x40082010 0x40083000 0x40083010 0 0x40080400
      (guest_image 1) (guest_image 51) (guest_image 101) no_switch 0 0x1000 hyper_example hyper_example_ready
      ltac:(lia) ltac:(done)). }
  intros [] h' Hh. destruct (Hh (λ _, 0)) as (v & Hv & Hrun). exists v. split; [exact Hv|].
  destruct (Hrun _ exits_example_ok) as [Hruns Hstops]. split; [|split].
  - eapply wp_mono; [exact Hruns|]. intros xs h'' [Hxs _]. exact Hxs.
  - exact (proj1 (Hstops sys_exit []) (proj1 exits_example_stop)).
  - exact (proj2 (Hstops r31_exit []) (proj2 exits_example_stop)).
Defined.
