(* ===== verification/Types.v ===== *)
(** The types of the C objects: every value the kernel and the hypervisor keep has
    the range of its declared type, every array its length, and every pointer into
    an array stays inside, whatever calls run, in whatever order. *)

From S2P Require Import Prelude Config Gic Frame Uart Vgic Kernel Sched Keeps Vcpu Ept Trap Quiet Hyper Guest.

(** * Values of the types *)

(** An unsigned integer of [n] bits. *)
Definition word (n x : Z) : Prop := 0 ≤ x < 2 ^ n.

Record frame_typed (f : trap_frame) : Prop := {
  ft_r : length (r f) = NUM_REGS ∧ Forall (word 64) (r f);
  ft_usp : word 64 (usp f);
  ft_elr : word 64 (elr f);
  ft_spsr : word 64 (spsr f);
}.
(** [tcb_t]: the state is one of the constants of its [enum]. *)
Record tcb_typed (t : tcb) : Prop := {
  tt_cpu_info : ∀ i, t_cpu_info t = Some i → (i < 64)%nat;
  tt_sp : word 64 (t_sp t);
  tt_state : t_state t = RUNNING ∨ t_state t = WAITING;
  tt_counter : word 32 (t_counter t);
  tt_priority : word 32 (t_priority t);
  tt_id : word 32 (t_id t);
}.
Record cpu_typed (c : cpu) : Prop := {
  ct_ctx : frame_typed (ctx c);
  ct_pctx : word 64 (pctx c);
  ct_sys_reg : ∀ j, sys_reg c = Some j → (j < 64)%nat;
}.
Definition block_typed (b : list Z) : Prop := length b = SYSREG_WORDS ∧ Forall (word 64) b.
Record info_typed (t : thread_info) : Prop := {
  it_cpu : - 2 ^ 31 ≤ ti_cpu t < 2 ^ 31;
  it_flags : word 32 (ti_flags t);
  it_pgtable : word 64 (ti_pgtable t);
  it_current : ∀ i, current_thread t = Some i → (i < 64)%nat;
}.
Record ring_typed (q : ring) : Prop := {
  qt_cells : length (cells q) = 1024%nat ∧ Forall (word 8) (cells q);
  qt_read : 0 ≤ read_idx q < 1024;
  qt_write : 0 ≤ write_idx q < 1024;
}.
Record vgic_typed (g : vgic) : Prop := {
  gt_ptov : length (ptov g) = 512%nat ∧ Forall (word 32) (ptov g);
  gt_vtop : length (vtop g) = 512%nat ∧ Forall (word 32) (vtop g);
}.
Record uart_typed (u : uart) : Prop := { ut_rx : ring_typed (rx u); ut_tx : ring_typed (tx u) }.

Record kernel_typed {D} (k : kernel D) : Prop := {
  kt_uart : uart_typed (k_uart k);
  kt_tasks : length (task_list k) = 64%nat ∧ Forall tcb_typed (task_list k);
  kt_cpus : length (g_cpu_dec k) = 64%nat ∧ Forall cpu_typed (g_cpu_dec k);
  kt_sysregs : length (cpu_sysregs k) = 64%nat ∧ Forall block_typed (cpu_sysregs k);
  kt_count : word 32 (task_count k);
  kt_infos : Forall info_typed (infos k);
  kt_frames : map_Forall (λ a f, word 64 a ∧ frame_typed f) (frames k);
  kt_handlers : length (g_handler_vec k) = 512%nat;
  kt_vgics : length (vgics k) = VM_NUM_MAX ∧ Forall vgic_typed (vgics k);
}.
Record ept_typed (e : ept) : Prop := {
  et_words : map_Forall (λ _ v, word 64 v) (words e);
  et_vttbr : word 64 (vttbr e);
}.
Record regs_typed (s : sysregs) : Prop := {
  st_esr : word 64 (esr_el1 s) ∧ word 64 (esr_el2 s) ∧ word 64 (esr_el3 s);
  st_far : word 64 (far_el2 s) ∧ word 64 (hpfar_el2 s);
  st_timer : word 64 (cntfrq_el0 s) ∧ word 64 (cntp_tval_el0 s) ∧ word 64 (cntp_ctl_el0 s);
}.
Record machine_typed {D} (s : machine D) : Prop := {
  mt_kernel : kernel_typed (m_kernel s);
  mt_ept : ept_typed (m_ept s);
  mt_regs : regs_typed (m_regs s);
}.
Definition live_typed (l : live) : Prop := ∀ x, word 64 (l x).
Record hv_typed {D} (h : hv D) : Prop := { ht_machine : machine_typed (hv_machine h); ht_live : live_typed (hv_live h) }.

(** A device whose double words have 64 bits. *)
Class TypedDevice (D : Type) `{Device D} := rd64_word a d : word 64 (fst (rd64 a d)).

(** * The calls *)

(** The entries of the kernel and of the hypervisor: the handlers of the vectors and
    the functions of the start-up. *)
Inductive call :=
  | Sync (core : nat) (sp : Z)
  | Irq (core : nat) (sp : Z)
  | Sync_el2 (core : nat) (sp : Z)
  | Irq_el2 (core : nat) (sp : Z)
  | Sync_el3 (sp : Z)
  | Create (func stack : Z)
  | Create_vm (func : Z)
  | Schedule_init
  | Schedule_init_local (core : nat)
  | Print_task_list
  | Timer_init
  | Timer_init_second
  | Io_init
  | Vm_init.
(** The arguments have their types; the index of a core is that of its block. *)
Definition call_typed (c : call) : Prop :=
  match c with
  | Create func stack => word 64 func ∧ word 64 stack
  | Create_vm func => word 64 func
  | Irq _ sp | Irq_el2 _ sp => sp ≠ NULL
  | _ => True
  end.

Section calls.
Context {D : Type} `{Device D}.
Context (SMP_NUM : Z) (switch_context : nat → nat → St (kernel D) unit) (fuel : nat).

Definition run_call (c : call) : St (machine D) unit :=
  match c with
  | Sync core sp => handle_sync_exception fuel core sp
  | Irq core sp => handle_irq_exception SMP_NUM switch_context fuel core sp
  | Sync_el2 core sp => handle_sync_exception_el2 core sp
  | Irq_el2 core sp => handle_irq_exception_el2 SMP_NUM switch_context fuel core sp
  | Sync_el3 sp => handle_sync_exception_el3 sp
  | Create func stack => in_kernel (create_task func stack;; mret tt)
  | Create_vm func => in_kernel (craete_vm_task func;; mret tt)
  | Schedule_init => in_kernel schedule_init
  | Schedule_init_local core => in_kernel (schedule_init_local core)
  | Print_task_list => in_kernel print_current_task_list
  | Timer_init => timer_init
  | Timer_init_second => timer_init_second
  | Io_init => io_init
  | Vm_init => in_kernel vm_init
  end.
Fixpoint run_calls (cs : list call) : St (machine D) unit :=
  match cs with [] => mret tt | c :: cs => run_call c;; run_calls cs end.
End calls.

(** * Programs that keep a type *)

Section typing.
Context {S : Type} (P : S → Prop).

(** Every run of [m] from a state of the type [P] that returns leaves one, and
    returns a value of the type [Q]. *)
Definition typed {A} (m : St S A) (Q : A → Prop) : Prop := ∀ s a s', P s → m s = Done (a, s') → P s' ∧ Q a.

Lemma typed_ret {A} (a : A) (Q : A → Prop) : Q a → typed (mret a) Q.
Proof. by intros HQ s b s' HP [= <- <-]. Qed.
Lemma typed_gets {A} (g : S → A) (Q : A → Prop) : (∀ s, P s → Q (g s)) → typed (gets g) Q.
Proof. intros HQ s b s' HP [= <- <-]. eauto. Qed.
Lemma typed_get : typed get P.
Proof. by intros s b s' HP [= <- <-]. Qed.
Lemma typed_deref {A} (o : option A) (Q : A → Prop) : (∀ a, o = Some a → Q a) → typed (deref o) Q.
Proof. intros HQ s b s' HP. destruct o; [|done]. intros [= <- <-]. eauto. Qed.
Lemma typed_nofuel {A} (Q : A → Prop) : typed nofuel Q.
Proof. done. Qed.
Lemma typed_fault {A} (Q : A → Prop) : typed fault Q.
Proof. done. Qed.
Lemma typed_bind {A B} (m : St S A) (f : A → St S B) (Q : A → Prop) (R : B → Prop) :
  typed m Q → (∀ a, Q a → typed (f a) R) → typed (m ≫= f) R.
Proof.
  intros Hm Hf s b s' HP. unfold mbind, St_bind. destruct (m s) as [[a s1]| |] eqn:Ha; [|done..].
  destruct (Hm _ _ _ HP Ha) as [HP1 HQ]. by apply Hf.
Qed.
Lemma typed_modify (g : S → S) (Q : unit → Prop) : Q tt → (∀ s, P s → P (g s)) → typed (modify g) Q.
Proof. intros HQ Hg s b s' HP [= <- <-]. eauto. Qed.
Lemma typed_mono {A} (m : St S A) (Q R : A → Prop) : typed m Q → (∀ a, Q a → R a) → typed m R.
Proof. intros Hm HR s a s' HP Ha. destruct (Hm _ _ _ HP Ha). eauto. Qed.
Lemma typed_any {A} (m : St S A) (Q : A → Prop) : typed m Q → typed m (λ _, True).
Proof. intros Hm. by eapply typed_mono. Qed.
End typing.
(** A part of a state, whose type the type of the whole has. *)
Lemma typed_on_part {S T A} (P : S → Prop) (R : T → Prop) (view : T → S) set (m : St S A) Q :
  (∀ t, R t → P (view t)) → (∀ s t, P s → R t → R (set s t)) → typed P m Q → typed R (on_part view set m) Q.
Proof.
  intros Hv Hs Hm t a t' HR. unfold on_part. destruct (m (view t)) as [[b s']| |] eqn:Ha; [|done..].
  intros [= <- <-]. destruct (Hm _ _ _ (Hv _ HR) Ha). eauto.
Qed.
(** A part without a type. *)
Lemma typed_part_any {S T A} (R : T → Prop) (view : T → S) set (m : St S A) (Q : A → Prop) :
  (∀ s t, R t → R (set s t)) → (∀ s a s', m s = Done (a, s') → Q a) → typed R (on_part view set m) Q.
Proof.
  intros Hs Hm t a t' HR. unfold on_part. destruct (m (view t)) as [[b s']| |] eqn:Ha; [|done..].
  intros [= <- <-]. eauto.
Qed.
Create HintDb typed.
#[export] Hint Resolve typed_get typed_nofuel typed_fault : typed.
(** The structure of a program; what is left are its accesses and the values. *)
Ltac typed_step :=
  match goal with
  | |- typed _ (modify _ ≫= _) _ => eapply (typed_bind _ _ _ (λ _, True)); [apply typed_modify; [done|intros]|intros]
  | |- typed _ (deref ?o ≫= _) _ => eapply (typed_bind _ _ _ (λ a, o = Some a));
  [by apply typed_deref|cbn beta; intros]
  | |- typed _ ((if _ then _ else _) ≫= _) _ => apply (typed_bind _ _ _ (λ _, True)); [|intros ? _]
  | |- typed _ (get ≫= _) _ => eapply typed_bind; [apply typed_get|cbn beta; intros]
  | |- typed _ (modify _) _ => apply typed_modify; [done|intros]
  | |- typed _ (_ ≫= _) _ =>
      first [eapply typed_bind; [solve [eauto with typed]|]|eapply typed_bind;
      [apply typed_any; solve [eauto with typed]|]];
      cbn beta; intros
  | |- typed _ (let _ := _ in _) _ => cbv zeta
  | |- typed _ (if ?b then _ else _) _ => destruct b eqn:?
  | |- typed _ (mret _) _ => apply typed_ret
  | |- _ => solve [eauto with typed]
  | |- typed _ _ _ => eapply typed_mono; [solve [eauto with typed]|cbn beta; intros]
  | H : _ ∧ _ |- _ => destruct H
  end.

(** * Values *)

Lemma word_u32 x : word 32 (u32 x).
Proof. apply Z.mod_pos_bound. lia. Qed.
Lemma word_u64 x : word 64 (u64 x).
Proof. apply Z.mod_pos_bound. lia. Qed.
Lemma word_u8 x : word 8 (u8 x).
Proof. apply Z.mod_pos_bound. lia. Qed.
#[export] Hint Resolve word_u32 word_u64 word_u8 : typed.
#[export] Hint Extern 2 (word _ _) => done : typed.

Lemma set_reg_typed i v f : frame_typed f → word 64 v → frame_typed (set_reg i v f).
Proof.
  intros [[Hl Hr] Hu He Hs] Hv. constructor; try done. cbn. rewrite length_insert. split; [done|].
  by apply Forall_insert.
Qed.
Lemma set_elr_typed v f : frame_typed f → word 64 v → frame_typed (set_elr v f).
Proof. by intros [? ? ? ?]. Qed.
Lemma set_spsr_typed v f : frame_typed f → word 64 v → frame_typed (set_spsr v f).
Proof. by intros [? ? ? ?]. Qed.
Lemma set_usp_typed v f : frame_typed f → word 64 v → frame_typed (set_usp v f).
Proof. by intros [? ? ? ?]. Qed.
#[export] Hint Resolve set_reg_typed set_elr_typed set_spsr_typed set_usp_typed ct_ctx : typed.

(** An array whose elements have a type. *)
Definition array {A} (n : nat) (P : A → Prop) (l : list A) : Prop := length l = n ∧ Forall P l.
Lemma array_insert {A} n (P : A → Prop) l i x : array n P l → P x → array n P (<[i := x]> l).
Proof. intros [Hl HP] Hx. split; [by rewrite length_insert|by apply Forall_insert]. Qed.
Lemma array_lookup {A} n (P : A → Prop) l i x : array n P l → l !! i = Some x → P x ∧ (i < n)%nat.
Proof. intros [Hl HP] Hi. split; [by eapply Forall_lookup_1|]. rewrite <- Hl. by eapply lookup_lt_Some. Qed.

(** * The kernel's data *)

Section kernel_data.
Context {D : Type} `{Device D}.
Abbreviation K := (kernel_typed (D := D)).

Lemma kernel_mach m k : K k → K (set_mach m k).
Proof. by intros []. Qed.
Lemma kernel_uart u k : uart_typed u → K k → K (set_uart u k).
Proof. by intros ? []. Qed.
Lemma kernel_locks l p k : K k → K (set_locks l p k).
Proof. by intros []. Qed.
Lemma kernel_tasks ts k : array 64 tcb_typed ts → K k → K (set_tasks ts k).
Proof. by intros ? []. Qed.
Lemma kernel_cpus cs k : array 64 cpu_typed cs → K k → K (set_cpus cs k).
Proof. by intros ? []. Qed.
Lemma kernel_sysregs bs k : array 64 block_typed bs → K k → K (set_sysregs bs k).
Proof. by intros ? []. Qed.
Lemma kernel_count n k : word 32 n → K k → K (set_task_count n k).
Proof. by intros ? []. Qed.
Lemma kernel_infos ti k : Forall info_typed ti → K k → K (set_infos ti k).
Proof. by intros ? []. Qed.
Lemma kernel_frames fs k : map_Forall (λ a f, word 64 a ∧ frame_typed f) fs → K k → K (set_frames fs k).
Proof. by intros ? []. Qed.
Lemma kernel_handlers hs k : length hs = 512%nat → K k → K (set_handlers hs k).
Proof. by intros ? []. Qed.
Lemma kernel_vgics vs k : array VM_NUM_MAX vgic_typed vs → K k → K (set_vgics vs k).
Proof. by intros ? []. Qed.

Lemma typed_kmach {A} (m : St (mach D) A) Q : (∀ s a s', m s = Done (a, s') → Q a) → typed K (kmach m) Q.
Proof. intros Hm. apply typed_part_any; [intros; by apply kernel_mach|exact Hm]. Qed.
Lemma typed_kprint e : typed K (kprint e) (λ _, True).
Proof. by apply typed_kmach. Qed.
Lemma typed_kcon {A} (m : St con A) Q : typed (λ c, uart_typed (snd c)) m Q → typed K (kcon m) Q.
Proof.
  apply typed_on_part; [intros k Hk; apply Hk|]. intros c k Hc Hk. apply kernel_uart; [done|by apply kernel_mach].
Qed.

Lemma typed_task_at i : typed K (task_at i) (λ t, tcb_typed t ∧ (i < 64)%nat).
Proof.
  unfold task_at. eapply typed_bind; [apply typed_get|]. intros k Hk. apply typed_deref. intros t Ht.
  exact (array_lookup _ _ _ _ _ (kt_tasks _ Hk) Ht).
Qed.
Lemma typed_update_task i f : (∀ t, tcb_typed t → (i < 64)%nat → tcb_typed (f t)) → typed K (update_task i f)
  (λ _, (i < 64)%nat).
Proof.
  intros Hf. unfold update_task. eapply typed_bind; [apply typed_task_at|]. intros t [Ht Hi].
  apply typed_modify; [done|]. intros k Hk. apply kernel_tasks; [|done]. apply array_insert; [apply Hk|by apply Hf].
Qed.
Lemma typed_cpu_at i : typed K (cpu_at i) (λ c, cpu_typed c ∧ (i < 64)%nat).
Proof.
  unfold cpu_at. eapply typed_bind; [apply typed_get|]. intros k Hk. apply typed_deref. intros c Hc.
  exact (array_lookup _ _ _ _ _ (kt_cpus _ Hk) Hc).
Qed.
Lemma typed_update_cpu i f : (∀ c, cpu_typed c → (i < 64)%nat → cpu_typed (f c)) → typed K (update_cpu i f)
  (λ _, (i < 64)%nat).
Proof.
  intros Hf. unfold update_cpu. eapply typed_bind; [apply typed_cpu_at|]. intros c [Hc Hi].
  apply typed_modify; [done|]. intros k Hk. apply kernel_cpus; [|done]. apply array_insert; [apply Hk|by apply Hf].
Qed.
Lemma typed_info_at core : typed K (info_at core) info_typed.
Proof.
  unfold info_at. eapply typed_bind; [apply typed_get|]. intros k Hk. apply typed_deref. intros t Ht.
  exact (Forall_lookup_1 _ _ _ _ (kt_infos _ Hk) Ht).
Qed.
Lemma typed_update_info core f : (∀ t, info_typed t → info_typed (f t)) → typed K (update_info core f) (λ _, True).
Proof.
  intros Hf. unfold update_info. eapply typed_bind; [apply typed_info_at|]. intros t Ht.
  apply typed_modify; [done|]. intros k Hk. apply kernel_infos; [|done]. apply Forall_insert; [apply Hk|by apply Hf].
Qed.
Lemma typed_frame_at sp : typed K (frame_at sp) (λ f, frame_typed f ∧ word 64 sp).
Proof.
  unfold frame_at. eapply typed_bind; [apply typed_get|]. intros k Hk. apply typed_deref. intros f Hf.
  destruct (kt_frames _ Hk _ _ Hf). done.
Qed.
Lemma typed_store_frame sp f : frame_typed f → typed K (store_frame sp f) (λ _, True).
Proof.
  intros Hf. unfold store_frame. eapply typed_bind; [apply typed_frame_at|]. intros _ [_ Hsp].
  apply typed_modify; [done|]. intros k Hk. apply kernel_frames; [|done]. by apply map_Forall_insert_2; [|apply Hk].
Qed.
Lemma typed_cpu_info_of i : typed K (cpu_info_of i) (λ c, (c < 64)%nat).
Proof.
  unfold cpu_info_of. eapply typed_bind; [apply typed_task_at|]. intros t [Ht _]. apply typed_deref. apply Ht.
Qed.
Lemma typed_current core : typed K (current core) (λ c, (c < 64)%nat).
Proof.
  unfold current. eapply typed_bind; [apply typed_info_at|]. intros t Ht. apply typed_deref. apply Ht.
Qed.
Lemma typed_spin_lock : typed K spin_lock_sched (λ _, True).
Proof. intros k [] k' Hk. unfold spin_lock_sched. destruct (sched_lock k); [done|]. intros [= <-]. split;
  [by apply kernel_locks|done]. Qed.
Lemma typed_spin_unlock : typed K spin_unlock_sched (λ _, True).
Proof. apply typed_modify; [done|]. intros; by apply kernel_locks. Qed.
Lemma typed_spin_lock_print : typed K spin_lock_print (λ _, True).
Proof. intros k [] k' Hk. unfold spin_lock_print. destruct (print_lock k); [done|]. intros [= <-]. split;
  [by apply kernel_locks|done]. Qed.
Lemma typed_spin_unlock_print : typed K spin_unlock_print (λ _, True).
Proof. apply typed_modify; [done|]. intros; by apply kernel_locks. Qed.
Lemma typed_task_count : typed K (gets task_count) (word 32).
Proof. apply typed_gets. intros k Hk. apply Hk. Qed.
End kernel_data.
#[export] Hint Resolve kernel_mach kernel_uart kernel_locks kernel_tasks kernel_cpus kernel_sysregs kernel_count
  kernel_infos kernel_frames kernel_handlers kernel_vgics : typed.
#[export] Hint Resolve typed_kprint typed_task_at typed_cpu_at typed_info_at typed_frame_at typed_store_frame
  typed_cpu_info_of typed_current typed_spin_lock typed_spin_unlock typed_spin_lock_print typed_spin_unlock_print
  typed_task_count : typed.

(** * The scheduler *)

Section scheduler.
Context {D : Type} `{Device D}.
Abbreviation K := (kernel_typed (D := D)).
Context (SMP_NUM : Z) (switch_context : nat → nat → St (kernel D) unit).

Lemma set_state_typed v t : v = RUNNING ∨ v = WAITING → tcb_typed t → tcb_typed (set_state v t).
Proof using Type. by intros ? []. Qed.
Lemma set_counter_typed v t : word 32 v → tcb_typed t → tcb_typed (set_counter v t).
Proof using Type. by intros ? []. Qed.
Lemma set_id_typed v t : word 32 v → tcb_typed t → tcb_typed (set_id v t).
Proof using Type. by intros ? []. Qed.
Lemma set_cpu_info_typed i t : (i < 64)%nat → tcb_typed t → tcb_typed (set_cpu_info (Some i) t).
Proof using Type. intros Hi []. constructor; try done. by intros j [= <-]. Qed.
Lemma set_current_typed i t : (i < 64)%nat → info_typed t → info_typed (set_current (Some i) t).
Proof using Type. intros Hi []. constructor; try done. by intros j [= <-]. Qed.
Lemma set_ctx_typed f c : frame_typed f → cpu_typed c → cpu_typed (set_ctx f c).
Proof using Type. by intros ? []. Qed.
Lemma set_pctx_typed a c : word 64 a → cpu_typed c → cpu_typed (set_pctx a c).
Proof using Type. by intros ? []. Qed.
Lemma set_sys_reg_typed i c : (i < 64)%nat → cpu_typed c → cpu_typed (set_sys_reg (Some i) c).
Proof using Type. intros Hi []. constructor; try done. by intros j [= <-]. Qed.
Lemma word_task i : (i < 64)%nat → word 32 (Z.of_nat i).
Proof using Type. unfold word. lia. Qed.
Lemma word_tick : word 32 SYS_TASK_TICK.
Proof using Type. done. Qed.
Hint Resolve set_state_typed set_counter_typed set_id_typed set_cpu_info_typed set_current_typed set_ctx_typed
  set_pctx_typed set_sys_reg_typed word_task word_tick : typed.
Hint Resolve typed_update_task typed_update_cpu typed_update_info : typed.
Hint Extern 1 (_ ∨ _) => (by left) || (by right) : typed.

Lemma typed_new_task i func spsr :
  word 64 func → word 64 spsr → typed K (new_task i func spsr) (λ _, (i < 64)%nat).
Proof using Type.
  intros Hf Hs. unfold new_task.
  repeat typed_step.
Qed.
Hint Resolve typed_new_task : typed.
Lemma typed_create_task func stack : word 64 func → word 64 stack → typed K (create_task func stack) (λ _, True).
Proof using Type. intros Hf Hs. unfold create_task. repeat typed_step. Qed.
Lemma typed_craete_vm_task func : word 64 func → typed K (craete_vm_task func) (λ _, True).
Proof using Type.
  intros Hf. unfold craete_vm_task. repeat typed_step.
  match goal with Hb : cpu_sysregs ?k !! ?j = Some ?b, Hk : K ?k |- _ =>
    destruct (array_lookup _ _ _ _ _ (kt_sysregs _ Hk) Hb) as [Hbt _] end.
  apply kernel_sysregs; [|done]. apply array_insert; [by apply kt_sysregs|].
  destruct Hbt as [Hl Hw]. split; [by rewrite length_insert|by apply Forall_insert].
Qed.
Lemma typed_clear_ids n i : typed K (clear_ids n i) (λ _, True).
Proof using Type. revert i. induction n as [|n IH]; intros i; cbn [clear_ids]; repeat typed_step. Qed.
Hint Resolve typed_clear_ids : typed.
Lemma typed_schedule_init : typed K schedule_init (λ _, True).
Proof using Type. unfold schedule_init. repeat typed_step. Qed.
Lemma typed_schedule_init_local core : typed K (schedule_init_local core) (λ _, True).
Proof using Type. unfold schedule_init_local. repeat typed_step. Qed.
Lemma typed_print_task_loop n i : typed K (print_task_loop n i) (λ _, True).
Proof using Type. revert i. induction n as [|n IH]; intros i; cbn [print_task_loop]; repeat typed_step. Qed.
Hint Resolve typed_print_task_loop : typed.
Lemma typed_print_current_task_list : typed K print_current_task_list (λ _, True).
Proof using Type. unfold print_current_task_list. repeat typed_step. Qed.

Lemma typed_switch_context_el i j sp : typed K (switch_context_el i j sp) (λ _, True).
Proof using Type. unfold switch_context_el. repeat typed_step. Qed.
Lemma typed_schedule_loop n core c i j : typed K (schedule_loop n core c i j) (λ _, True).
Proof using Type. revert i j. induction n as [|n IH]; intros i j; cbn [schedule_loop]; repeat typed_step. Qed.
Hint Resolve typed_switch_context_el typed_schedule_loop : typed.
Lemma typed__schedule core sp : sp ≠ NULL → typed K (_schedule SMP_NUM switch_context core sp) (λ _, True).
Proof using Type. intros Hsp. unfold _schedule. rewrite (proj2 (Z.eqb_neq _ _) Hsp). repeat typed_step. Qed.
Hint Resolve typed__schedule : typed.
Lemma typed_timer_tick core sp : sp ≠ NULL → typed K (timer_tick_schedule SMP_NUM switch_context core sp) (λ _, True).
Proof using Type. intros Hsp. unfold timer_tick_schedule. repeat typed_step. Qed.
Lemma typed_save_cpu_ctx core sp : typed K (save_cpu_ctx core sp) (λ _, True).
Proof using Type. unfold save_cpu_ctx. repeat typed_step. Qed.
End scheduler.
#[export] Hint Resolve typed_create_task typed_craete_vm_task typed_schedule_init typed_schedule_init_local
  typed_print_current_task_list typed_timer_tick typed_save_cpu_ctx : typed.

(** * The serial port *)

Section console.
Context {D : Type} `{Device D}.
Abbreviation C := (λ c : con (D := D), uart_typed (snd c)).

Lemma typed_con_mach {A} (m : St (mach D) A) : typed C (Uart.on_mach m) (λ _, True).
Proof. by apply typed_part_any. Qed.
Lemma typed_on_uart {A} (m : St uart A) Q : typed uart_typed m Q → typed C (on_uart m) Q.
Proof. by apply typed_on_part. Qed.
Lemma typed_mmio_read a : typed C (mmio_read a) (λ _, True).
Proof. apply typed_con_mach. Qed.
Lemma typed_mmio_write a v : typed C (mmio_write a v) (λ _, True).
Proof. apply typed_con_mach. Qed.

Lemma next_idx_range i : 0 ≤ i < 1024 → 0 ≤ next_idx i < 1024.
Proof. intros Hi. rewrite next_idx_mod by lia. apply mod_1024. Qed.
Lemma ring_push_typed q c : ring_typed q → ring_typed (ring_push q c).
Proof.
  intros [[Hl Hc] Hr Hw]. constructor; cbn; [|done|by apply next_idx_range].
  split; [by rewrite length_insert|]. apply Forall_insert; [done|apply word_u8].
Qed.
Lemma ring_pop_typed q c q' : ring_typed q → ring_pop q = Some (c, q') → word 8 c ∧ ring_typed q'.
Proof.
  intros [[Hl Hc] Hr Hw]. unfold ring_pop, load_cell. destruct (cells q !! _) as [x|] eqn:Hx; [|done].
  intros [= <- <-].
  split; [by eapply Forall_lookup_1|]. constructor; cbn; [done|by apply next_idx_range|done].
Qed.
Lemma set_rx_typed q u : ring_typed q → uart_typed u → uart_typed (set_rx q u).
Proof. by intros ? []. Qed.
Lemma set_tx_typed q u : ring_typed q → uart_typed u → uart_typed (set_tx q u).
Proof. by intros ? []. Qed.
Lemma set_early_lock_typed b u : uart_typed u → uart_typed (set_early_lock b u).
Proof. by intros []. Qed.
Lemma set_uart_op_typed o u : uart_typed u → uart_typed (set_uart_op o u).
Proof. by intros []. Qed.
Lemma typed_get_rx : typed C (on_uart (gets rx)) ring_typed.
Proof. apply typed_on_uart, typed_gets. intros u Hu. apply Hu. Qed.
Lemma typed_get_tx : typed C (on_uart (gets tx)) ring_typed.
Proof. apply typed_on_uart, typed_gets. intros u Hu. apply Hu. Qed.
Lemma typed_get_op : typed C (on_uart (gets uart_op)) (λ _, True).
Proof. by apply typed_on_uart, typed_gets. Qed.
Lemma typed_uart_modify f : (∀ u, uart_typed u → uart_typed (f u)) → typed C (on_uart (modify f)) (λ _, True).
Proof. intros Hf. by apply typed_on_uart, typed_modify. Qed.
Lemma typed_take_early_lock : typed C (on_uart take_early_lock) (λ _, True).
Proof.
  apply typed_on_uart. intros u [] u' Hu. unfold take_early_lock. destruct (early_lock u); [done|]. intros [= <-].
  split; [by apply set_early_lock_typed|done].
Qed.
Hint Resolve typed_mmio_read typed_mmio_write typed_get_rx typed_get_tx typed_get_op typed_take_early_lock
  typed_uart_modify ring_push_typed set_rx_typed set_tx_typed set_early_lock_typed set_uart_op_typed : typed.

Lemma typed_wait_flag n mask : typed C (wait_flag n mask) (λ _, True).
Proof. induction n as [|n IH]; cbn [wait_flag]; repeat typed_step. Qed.
Hint Resolve typed_wait_flag : typed.
Lemma typed_early_putc n c : typed C (uart_early_putc n c) (λ _, True).
Proof. unfold uart_early_putc. repeat typed_step. Qed.
Lemma typed_early_getc n : typed C (uart_early_getc n) (word 8).
Proof. unfold uart_early_getc. repeat typed_step. Qed.
Lemma typed_advance_getc : typed C uart_advance_getc (word 8).
Proof.
  unfold uart_advance_getc. repeat typed_step. destruct a0 as [c q].
  match goal with Hq : ring_typed ?a, Hp : ring_pop ?a = _ |- _ => destruct (ring_pop_typed _ _ _ Hq Hp) end.
  repeat typed_step.
Qed.
Lemma typed_advance_putc c : typed C (uart_advance_putc c) (λ _, True).
Proof. unfold uart_advance_putc. repeat typed_step. Qed.
Hint Resolve typed_early_putc typed_early_getc typed_advance_getc typed_advance_putc : typed.
Lemma typed_getc n : typed C (getc n) (word 8).
Proof. unfold getc. typed_step. destruct a as [[]|]; repeat typed_step. Qed.
Lemma typed_putc n c : typed C (putc n c) (λ _, True).
Proof. unfold putc. typed_step. destruct a as [[]|]; repeat typed_step. Qed.

Lemma typed_rx_loop n : typed C (rx_loop n) (λ _, True).
Proof.
  induction n as [|n IH]; cbn [rx_loop]; repeat typed_step.
Qed.
Lemma typed_tx_loop n : typed C (tx_loop n) (λ _, True).
Proof.
  induction n as [|n IH]; cbn [tx_loop]; repeat typed_step. destruct a1 as [c q].
  match goal with Hq : ring_typed ?a, Hp : ring_pop ?a = _ |- _ => destruct (ring_pop_typed _ _ _ Hq Hp) end.
  repeat typed_step.
Qed.
Hint Resolve typed_rx_loop typed_tx_loop : typed.
Lemma typed_uart_interrupt n : typed C (uart_interrupt_handler n) (λ _, True).
Proof.
  unfold uart_interrupt_handler. repeat typed_step.
Qed.
Lemma typed_advance_init : typed C uart_advance_init (λ _, True).
Proof. unfold uart_advance_init. repeat typed_step. Qed.
End console.
#[export] Hint Resolve typed_getc typed_putc typed_uart_interrupt typed_advance_init : typed.

(** * The handlers *)

Section handlers.
Context {D : Type} `{HT : TypedDevice D}.
Abbreviation K := (kernel_typed (D := D)).
Abbreviation M := (machine_typed (D := D)).
Context (SMP_NUM : Z) (switch_context : nat → nat → St (kernel D) unit) (fuel : nat).

Lemma typed_in_kernel {A} (m : St (kernel D) A) Q : typed K m Q → typed M (in_kernel m) Q.
Proof using Type. apply typed_on_part; [intros s Hs; apply Hs|]. by intros k s Hk []. Qed.
Lemma typed_on_mach {A} (m : St (mach D) A) : typed M (Trap.on_mach m) (λ _, True).
Proof using Type. by apply typed_in_kernel, typed_kmach. Qed.
Lemma typed_mprint e : typed M (mprint e) (λ _, True).
Proof using Type. apply typed_on_mach. Qed.
Lemma set_timer_typed v c s : word 64 v → word 64 c → regs_typed s → regs_typed (set_timer v c s).
Proof using Type. intros Hv Hc [? ? (? & _ & _)]. by constructor. Qed.
Lemma typed_cntp_tval v : word 64 v → typed M (write_cntp_tval_el0 v) (λ _, True).
Proof using Type.
  intros Hv. apply typed_modify; [done|]. intros s [Hk He Hr]. constructor; try done. apply set_timer_typed;
  [done|apply Hr|done].
Qed.
Lemma typed_cntp_ctl v : word 64 v → typed M (write_cntp_ctl_el0 v) (λ _, True).
Proof using Type.
  intros Hv. apply typed_modify; [done|]. intros s [Hk He Hr]. constructor; try done. apply set_timer_typed;
  [apply Hr|done|done].
Qed.
Lemma typed_m_regs : typed M (gets m_regs) regs_typed.
Proof using Type. apply typed_gets. intros s Hs. apply Hs. Qed.
Lemma typed_m_kernel : typed M (gets m_kernel) K.
Proof using Type. apply typed_gets. intros s Hs. apply Hs. Qed.
Lemma typed_hang : typed M hang (λ _, True).
Proof using Type. done. Qed.
Hint Resolve typed_in_kernel typed_on_mach typed_mprint typed_cntp_tval typed_cntp_ctl typed_m_regs typed_m_kernel
  typed_hang typed_kcon : typed.

(** ** Interrupts *)

Lemma typed_irq_install v h : typed K (irq_install v h) (λ _, True).
Proof using Type.
  unfold irq_install. repeat typed_step. apply kernel_handlers; [|done]. rewrite length_insert. by apply kt_handlers.
Qed.
Hint Resolve typed_irq_install : typed.
Lemma typed_handle_timer core sp : sp ≠ NULL → typed M (handle_timer_interrupt SMP_NUM switch_context core sp) (λ _, True).
Proof using Type. intros Hsp. unfold handle_timer_interrupt. repeat typed_step. Qed.
Hint Resolve typed_handle_timer : typed.
Lemma typed_run_handler h core sp : sp ≠ NULL → typed M (run_handler SMP_NUM switch_context fuel h core sp) (λ _, True).
Proof using Type. intros Hsp. unfold run_handler. destruct h; repeat typed_step. Qed.
Hint Resolve typed_run_handler : typed.
Lemma typed_call_handler v core sp : sp ≠ NULL → typed M (call_handler SMP_NUM switch_context fuel v core sp) (λ _, True).
Proof using Type. intros Hsp. unfold call_handler. repeat typed_step. Qed.
Hint Resolve typed_call_handler : typed.
Lemma typed_read_x1 sp : typed M (read_x1 sp) (λ _, True).
Proof using Type. unfold read_x1. repeat typed_step. Qed.
Hint Resolve typed_read_x1 : typed.
Lemma typed_irq core sp : sp ≠ NULL → typed M (handle_irq_exception SMP_NUM switch_context fuel core sp) (λ _, True).
Proof using Type. intros Hsp. unfold handle_irq_exception. repeat typed_step. Qed.
Lemma typed_irq_el2 core sp : sp ≠ NULL → typed M (handle_irq_exception_el2 SMP_NUM switch_context fuel core sp) (λ _, True).
Proof using Type. intros Hsp. unfold handle_irq_exception_el2. repeat typed_step. Qed.

(** ** Synchronous exceptions *)

Lemma typed_argument sp i : typed M (argument sp i) (word 64).
Proof using Type.
  unfold argument. eapply typed_bind; [apply typed_in_kernel, typed_frame_at|]. intros f [Hf _]. apply typed_deref.
  intros v Hv. exact (Forall_lookup_1 _ _ _ _ (proj2 (ft_r _ Hf)) Hv).
Qed.
Hint Resolve typed_argument : typed.
Lemma typed_run_syscall s sp : typed M (run_syscall fuel s sp) (λ _, True).
Proof using Type.
  destruct s; cbn [run_syscall]; unfold sys_putc, sys_getc, sys_debug; repeat typed_step.
Qed.
Hint Resolve typed_run_syscall : typed.
Lemma typed_print_registers n f i : typed M (print_registers n f i) (λ _, True).
Proof using Type. revert i. induction n as [|n IH]; intros i; cbn [print_registers]; repeat typed_step. Qed.
Hint Resolve typed_print_registers : typed.
Lemma typed_print_frame sp : typed M (print_frame sp) (λ _, True).
Proof using Type. unfold print_frame. repeat typed_step. Qed.
Hint Resolve typed_print_frame : typed.
Lemma typed_sync core sp : typed M (handle_sync_exception fuel core sp) (λ _, True).
Proof using Type. unfold handle_sync_exception. repeat typed_step. Qed.

Lemma typed_advance_pc info sp : typed M (advance_pc info sp) (λ _, True).
Proof using Type. unfold advance_pc. repeat typed_step. Qed.

(** The emulation of an access: the frame gets a word of the device. *)
Abbreviation any := (λ _ : mach D, True).
Lemma typed_any_mach {A} (m : St (mach D) A) : typed any m (λ _, True).
Proof using Type. done. Qed.
Lemma typed_read64 a : typed any (read64 a) (word 64).
Proof using HT.
  intros s v s' _. unfold read64. pose proof (rd64_word a (dev s)) as Hw. destruct (rd64 a (dev s)).
  by intros [= <- _].
Qed.
Hint Resolve typed_any_mach typed_read64 : typed.
Lemma typed_handle_mmio info f : frame_typed f → typed any (handle_mmio info f) frame_typed.
Proof using HT. intros Hf. unfold handle_mmio. repeat typed_step. Qed.

Abbreviation A := (λ p : ept * mach D, ept_typed (fst p)).
Lemma typed_abort_ept {B} (m : St ept B) : typed ept_typed m (λ _, True) → typed A (on_part fst
  (λ e s, (e, snd s)) m) (λ _, True).
Proof using Type. by apply typed_on_part. Qed.
Lemma typed_abort_mach {B} (m : St (mach D) B) Q : typed any m Q → typed A (on_part snd (λ m s, (fst s, m)) m) Q.
Proof using Type. by apply typed_on_part. Qed.
Lemma typed_get_ept_entry a : typed ept_typed (get_ept_entry a) (λ _, True).
Proof using Type. unfold get_ept_entry. eapply typed_bind; [by apply (typed_gets _ _ (λ _, True))|]. intros b _.
  by apply typed_ret. Qed.
Lemma typed_load64 a : typed ept_typed (load64 a) (word 64).
Proof using Type.
  unfold load64. eapply typed_bind; [apply typed_get|]. intros e He. apply typed_deref. intros v Hv.
  exact (et_words _ He _ _ Hv).
Qed.
Lemma typed_data_abort info f : frame_typed f → typed A (data_abort_handler info f) frame_typed.
Proof using HT.
  intros Hf. unfold data_abort_handler.
  eapply typed_bind; [apply typed_abort_ept, typed_get_ept_entry|]. intros a _.
  eapply typed_bind; [eapply typed_abort_ept, typed_any, typed_load64|]. intros _ _.
  repeat case_match.
  - eapply typed_bind; [apply typed_abort_mach, typed_any_mach|]. intros _ _. by apply typed_ret.
  - by apply typed_abort_mach, typed_handle_mmio.
  - by apply typed_ret.
Qed.
Lemma typed_abort info f :
  frame_typed f →
  typed M (on_part (λ m, (m_ept m, k_mach (m_kernel m)))
             (λ p m, Build_machine (set_mach (snd p) (m_kernel m)) (fst p) (m_regs m)) (data_abort_handler info f)) frame_typed.
Proof using HT.
  intros Hf. eapply typed_on_part; [|  |by apply typed_data_abort].
  - intros s Hs. apply Hs.
  - intros p s Hp [Hk He Hr]. constructor; [by apply kernel_mach|done|done].
Qed.
Hint Resolve typed_abort typed_advance_pc : typed.
Lemma typed_sync_el2 core sp : typed M (handle_sync_exception_el2 core sp) (λ _, True).
Proof using HT. unfold handle_sync_exception_el2. repeat typed_step. Qed.
Lemma typed_sync_el3 sp : typed M (handle_sync_exception_el3 sp) (λ _, True).
Proof using Type. unfold handle_sync_exception_el3. repeat typed_step. Qed.

(** ** The functions that install handlers *)

Lemma typed_timer_start : typed M timer_start (λ _, True).
Proof using Type. unfold timer_start. repeat typed_step. Qed.
Lemma typed_timer_enable : typed M timer_enable (λ _, True).
Proof using Type. unfold timer_enable. repeat typed_step. Qed.
Hint Resolve typed_timer_start typed_timer_enable : typed.
Lemma typed_timer_init : typed M timer_init (λ _, True).
Proof using Type. unfold timer_init. repeat typed_step. Qed.
Lemma typed_timer_init_second : typed M timer_init_second (λ _, True).
Proof using Type. unfold timer_init_second. repeat typed_step. Qed.
Lemma typed_set_uart_op o : typed (λ c : con (D := D), uart_typed (snd c)) (on_uart (modify (set_uart_op o)))
  (λ _, True).
Proof using Type. apply typed_uart_modify. intros u. apply set_uart_op_typed. Qed.
Hint Resolve typed_set_uart_op : typed.
Lemma typed_io_init : typed M io_init (λ _, True).
Proof using Type. unfold io_init. repeat typed_step. Qed.

Lemma typed_array_set {S} (P : S → Prop) a i v :
  array 512 (word 32) a → word 32 v → typed P (array_set a i v) (array 512 (word 32)).
Proof using Type. intros Ha Hv. unfold array_set. case_match; [|done]. apply typed_ret. by apply array_insert. Qed.
Lemma typed_register_int id p v : word 32 p → word 32 v → typed K (register_int id p v) (λ _, True).
Proof using Type.
  intros Hp Hv. unfold register_int, get_vgic.
  eapply (typed_bind _ _ _ vgic_typed).
  { eapply typed_bind; [apply typed_get|]. intros k Hk. apply typed_deref. intros g Hg.
    by destruct (array_lookup _ _ _ _ _ (kt_vgics _ Hk) Hg). }
  intros g Hg. eapply (typed_bind _ _ _ vgic_typed).
  { unfold kmach. eapply (typed_on_part any); [done|intros; by apply kernel_mach|]. unfold virtual_gic_register_int.
    eapply typed_bind; [apply typed_array_set; [apply Hg|done]|]. intros a Ha.
    eapply typed_bind; [apply typed_array_set; [apply Hg|done]|]. intros b Hb. by apply typed_ret. }
  intros g' Hg'. apply typed_modify; [done|]. intros k Hk. apply kernel_vgics; [|done]. apply array_insert;
  [apply Hk|done].
Qed.
Hint Resolve typed_register_int : typed.
Lemma typed_vm_init : typed K vm_init (λ _, True).
Proof using Type. unfold vm_init. repeat typed_step. Qed.

(** ** Any call *)

Hint Resolve typed_sync typed_irq typed_sync_el2 typed_irq_el2 typed_sync_el3 typed_timer_init typed_timer_init_second
  typed_io_init typed_vm_init : typed.
Lemma typed_run_call c : call_typed c → typed M (run_call SMP_NUM switch_context fuel c) (λ _, True).
Proof using HT.
  destruct c; cbn [run_call call_typed]; intros Hc; try (apply typed_in_kernel); destruct_and?; repeat typed_step.
Qed.
Lemma typed_run_calls cs : Forall call_typed cs → typed M (run_calls SMP_NUM switch_context fuel cs) (λ _, True).
Proof using HT.
  induction 1 as [|c cs Hc _ IH]; cbn [run_calls]; [by apply typed_ret|].
  eapply typed_bind; [by apply typed_run_call|]. done.
Qed.
End handlers.

(** * The guests *)

Section guests.
Context {D : Type} `{HT : TypedDevice D}.
Abbreviation K := (kernel_typed (D := D)).
Abbreviation G := (hv_typed (D := D)).
Context (SMP_NUM : Z) (switch_context : nat → nat → St (kernel D) unit) (fuel : nat) (sp : Z).

(** What a guest leaves. *)
Record exit_typed (e : exit D) : Prop := {
  xt_frame : frame_typed (ex_frame e);
  xt_live : live_typed (ex_live e);
  xt_syndrome : word 64 (ex_esr e) ∧ word 64 (ex_far e) ∧ word 64 (ex_hpfar e);
}.
Record resume_typed (x : resume) : Prop := { rt_frame : frame_typed (re_frame x); rt_live : live_typed (re_live x) }.

Lemma arrive_typed e h : word 64 sp → exit_typed e → G h → G (arrive sp e h).
Proof using Type.
  intros Hsp [Hf Hl (He & Hfar & Hhp)] [[Hk Hept [(H1 & _ & H3) _ Ht]] _].
  constructor; [|exact Hl]. constructor; cbn [arrive hv_machine m_kernel m_ept m_regs]; [|exact Hept|by constructor].
  apply kernel_frames; [|by apply kernel_mach]. apply map_Forall_insert_2; [done|]. apply Hk.
Qed.

(** The state of [vm_in] and [vm_out]. *)
Abbreviation V := (λ p : kernel D * live, K (fst p) ∧ live_typed (snd p)).
Lemma typed_on_kernel {A} (m : St (kernel D) A) Q : typed K m Q → typed V (on_kernel m) Q.
Proof using Type. apply typed_on_part; [by intros p [? _]|]. by intros k p Hk [_ Hl]. Qed.
Lemma typed_sys_reg_of core : typed K (sys_reg_of core) (λ _, True).
Proof using Type. unfold sys_reg_of. repeat typed_step. by apply typed_deref. Qed.

Lemma store_regs_typed xs i l b b' : live_typed l → block_typed b → store_regs xs i l b = Some b' → block_typed b'.
Proof using Type.
  intros Hl. revert i b. induction xs as [|x xs IH]; intros i b Hb; cbn [store_regs]; [by intros [= <-]|].
  destruct (b !! i); [|done]. apply IH. by apply array_insert.
Qed.
Lemma load_regs_typed xs i b l l' : live_typed l → block_typed b → load_regs xs i b l = Some l' → live_typed l'.
Proof using Type.
  intros Hl Hb. revert i l Hl. induction xs as [|x xs IH]; intros i l Hl; cbn [load_regs]; [by intros [= <-]|].
  destruct (b !! i) as [v|] eqn:Hv; [|done]. apply IH. intros y. unfold write_reg. case_decide; [|done].
  by destruct (array_lookup _ _ _ _ _ Hb Hv).
Qed.
Lemma typed_vm_out core : typed V (vm_out core) (λ _, True).
Proof using Type.
  unfold vm_out. eapply typed_bind; [apply typed_on_kernel, typed_sys_reg_of|]. intros j _. unfold save_sysregs.
  repeat typed_step. cbn beta in *. destruct_and?.
  match goal with Hb : cpu_sysregs (fst ?s) !! _ = Some _, Hk : K (fst ?s) |- _ =>
    destruct (array_lookup _ _ _ _ _ (kt_sysregs _ Hk) Hb) as [Hbt _] end.
  apply typed_on_kernel, typed_modify; [done|]. intros k Hk. apply kernel_sysregs; [|done].
  apply array_insert; [by apply kt_sysregs|]. by eapply store_regs_typed.
Qed.
Lemma typed_vm_in core : typed V (vm_in core) (λ _, True).
Proof using Type.
  unfold vm_in. eapply typed_bind; [apply typed_on_kernel, typed_sys_reg_of|]. intros j _. unfold restore_sysregs.
  repeat typed_step. cbn beta in *. destruct_and?.
  match goal with Hb : cpu_sysregs (fst ?s) !! _ = Some _, Hk : K (fst ?s) |- _ =>
    destruct (array_lookup _ _ _ _ _ (kt_sysregs _ Hk) Hb) as [Hbt _] end.
  intros s' [] s'' _ [= <-]. split; [|done]. split; [done|]. by eapply load_regs_typed.
Qed.

Lemma typed_on_machine {A} (m : St (machine D) A) Q : typed machine_typed m Q → typed G (on_machine m) Q.
Proof using Type. apply typed_on_part; [intros h Hh; apply Hh|]. by intros s h Hs []. Qed.
Lemma typed_on_vcpu {A} (m : St (kernel D * live) A) Q : typed V m Q → typed G (on_vcpu m) Q.
Proof using Type.
  apply typed_on_part; [intros h [[] ?]; done|]. intros [k l] h [Hk Hl] [[_ He Hr] _]. constructor; [|exact Hl].
  by constructor.
Qed.
Lemma typed_handle c : sp ≠ NULL → typed machine_typed (handle switch_context fuel sp c) (λ _, True).
Proof using HT. intros Hsp. destruct c; cbn [handle]; [apply typed_sync_el2|by apply typed_irq_el2]. Qed.

Lemma typed_guest_exit e : word 64 sp → sp ≠ NULL → exit_typed e → typed G (guest_exit switch_context fuel sp e) resume_typed.
Proof using HT.
  intros Hsp Hnull He. unfold guest_exit.
  apply (typed_bind _ _ _ (λ _, True)); [apply typed_modify; [done|intros; by apply arrive_typed]|]. intros _ _.
  eapply typed_bind; [apply typed_on_vcpu, typed_vm_out|]. intros _ _.
  eapply typed_bind; [by apply typed_on_machine, typed_handle|]. intros _ _.
  eapply typed_bind; [apply typed_on_vcpu, typed_vm_in|]. intros _ _.
  eapply typed_bind; [apply typed_on_machine, typed_in_kernel, typed_current|]. intros c _.
  eapply typed_bind; [apply typed_on_machine, typed_in_kernel, typed_frame_at|]. intros f [Hf _].
  apply (typed_bind _ _ _ live_typed); [apply typed_gets; intros h Hh; apply Hh|]. intros l Hl. by apply typed_ret.
Qed.
Lemma typed_guest_run es :
  word 64 sp → sp ≠ NULL → Forall exit_typed es → typed G (guest_run switch_context fuel sp es) (Forall resume_typed).
Proof using HT.
  intros Hsp Hnull. induction 1 as [|e es He _ IH]; cbn [guest_run]; [by apply typed_ret|].
  eapply typed_bind; [by apply typed_guest_exit|]. intros x Hx. eapply typed_bind; [exact IH|]. intros xs Hxs.
  apply typed_ret. by constructor.
Qed.

(** C23: every object keeps its type.  From a state whose variables, arrays, frames
    and pointers have their C types (no integer outside its width, no state outside
    its [enum], no index of a ring or pointer outside its array), any sequence of
    calls of the kernel's handlers, on a frame, and start-up functions that returns
    leaves such a state, whatever the devices answer; so does any sequence of exits of the guests,
    and the frames and the registers the guests get are words of 64 bits. *)
Theorem objects_typed :
  (∀ cs s s', Forall call_typed cs → machine_typed s →
     run_calls SMP_NUM switch_context fuel cs s = Done (tt, s') → machine_typed s') ∧
  (∀ es h xs h', word 64 sp → sp ≠ NULL → Forall exit_typed es → hv_typed h →
     guest_run switch_context fuel sp es h = Done (xs, h') → hv_typed h' ∧ Forall resume_typed xs).
Proof using HT.
  split.
  - intros cs s s' Hcs Hs Hrun. by destruct (typed_run_calls SMP_NUM switch_context fuel cs Hcs s tt s' Hs Hrun).
  - intros es h xs h' Hsp Hnull Hes Hh Hrun. exact (typed_guest_run es Hsp Hnull Hes h xs h' Hh Hrun).
Qed.
End guests.

(** * Example *)

#[local] Instance timer_device : Device unit :=
  {| rd32 := λ a d, (if a =? GICC_IAR then 30 else 0, d); wr32 := λ _ _ d, d; wr8 := λ _ _ d, d;
     rd64 := λ _ d, (7, d); wr64 := λ _ _ d, d |}.
#[local] Instance timer_device_typed : TypedDevice unit.
Proof. intros a d. by split. Defined.

(** The kernel as the compiler leaves it, and two guests set up on it. *)
Definition blank_machine : machine unit := {|
  m_kernel := set_vgics (replicate 4 {| ptov := replicate 512 0; vtop := replicate 512 0 |})
    (set_uart {| rx := ring_empty; tx := ring_empty; early_lock := false; uart_op := None |}
      (set_handlers (replicate 512 None) kernel_zero));
  m_ept := {| words := ∅; ept_L2_root := 0; ept_L3_root := 0; vttbr := 0; cacheline_bytes := 64; ept_log := [] |};
  m_regs := m_regs (machine_example 0 0) |}.
Definition set_up : list call :=
  [Timer_init; Io_init; Vm_init; Schedule_init; Create_vm 0x40080400; Create_vm GUEST_KERNEL_START; Schedule_init_local 0;
   Print_task_list; Irq_el2 0 0x1000].
Definition blank_after : machine unit :=
  match run_calls 1 no_switch 8 set_up blank_machine with Done (_, s) => s | _ => blank_machine end.

Lemma zero_frame_typed : frame_typed zero_frame.
Proof. constructor; try done. split; [done|]. by apply Forall_replicate. Qed.
Lemma ring_empty_typed : ring_typed ring_empty.
Proof. constructor; try done. split; [done|]. by apply Forall_replicate. Qed.
Lemma blank_machine_typed : machine_typed blank_machine.
Proof.
  constructor.
  - constructor; cbn [blank_machine m_kernel].
    + constructor; apply ring_empty_typed.
    + split; [done|]. apply Forall_replicate. constructor; try done. by left.
    + split; [done|]. apply Forall_replicate. constructor; try done. apply zero_frame_typed.
    + split; [done|]. apply Forall_replicate. split; [done|]. by apply Forall_replicate.
    + done.
    + apply Forall_singleton. constructor; done.
    + apply map_Forall_singleton. split; [done|apply zero_frame_typed].
    + done.
    + split; [done|]. apply Forall_replicate. constructor; (split; [done|by apply Forall_replicate]).
  - constructor; [apply map_Forall_empty|done].
  - constructor; done.
Qed.
Lemma set_up_typed : Forall call_typed set_up.
Proof. by repeat constructor. Qed.
Lemma exit_example_typed e : e ∈ [hvc_exit 1; tick_exit 2] → exit_typed e.
Proof.
  intros He. repeat (apply elem_of_cons in He as [->|He]); [..|by apply not_elem_of_nil in He];
    (constructor; [apply set_reg_typed; [apply zero_frame_typed|done]|done|done]).
Qed.

Definition is_done {A} (o : outcome A) : bool := match o with Done _ => true | _ => false end.
Lemma wp_of_done {S A} (m : St S A) (Q : A → S → Prop) s :
  is_done (m s) = true → (∀ a s', m s = Done (a, s') → Q a s') → wp m Q s.
Proof. unfold wp. destruct (m s) as [[a s']| |]; intros Hd HQ; [by apply HQ|done..]. Qed.
(** The hypervisor in the middle of it all, with a guest to run. *)
Definition blank_hv : hv unit := Build_hv blank_after (λ _, 5).
Lemma blank_hv_typed : machine_typed blank_after → hv_typed blank_hv.
Proof. intros Ht. constructor; [exact Ht|]. intros x. cbn [hv_live blank_hv]. by split. Qed.

Lemma frame_address_typed : word 64 0x1000.
Proof. done. Qed.
Lemma frame_address_set : 0x1000 ≠ NULL.
Proof. done. Qed.

Lemma objects_typed_witness :
  wp (run_calls 1 no_switch 8 set_up) (λ _ s', machine_typed s') blank_machine ∧
  wp (guest_run no_switch 8 0x1000 [hvc_exit 1; tick_exit 2])
  (λ xs h', hv_typed h' ∧ Forall resume_typed xs) blank_hv.
Proof.
  destruct (objects_typed 1 no_switch 8 0x1000) as [Hcalls Hguests].
  assert (Hrun : run_calls 1 no_switch 8 set_up blank_machine = Done (tt, blank_after)) by (vm_compute; reflexivity).
  split.
  - apply wp_of_done; [vm_compute; reflexivity|]. intros [] s'. apply Hcalls;
    [apply set_up_typed|apply blank_machine_typed].
  - apply wp_of_done; [vm_compute; reflexivity|]. cbv beta.
    assert (Hes : Forall exit_typed [hvc_exit 1; tick_exit 2]) by (apply Forall_forall, exit_example_typed).
    pose proof (blank_hv_typed (Hcalls _ _ _ set_up_typed blank_machine_typed Hrun)) as Hh.
    intros xs h' E. exact (Hguests [hvc_exit 1; tick_exit 2] blank_hv xs h' frame_address_typed frame_address_set Hes Hh E).
Defined.
